(* ===== verification/_CoqProject ===== *)
-Q . S2P
Prelude.v
Bytes.v
Storage.v
Chain.v
Rpc.v
Election.v
Progress.v
Config.v
Raft.v
Leader.v
Candidate.v
Follower.v
Handle.v
Fsm.v
Tcp.v
Server.v
Runtime.v
Invariants.v
Demo.v
Cluster.v
Replication.v
FollowerLog.v
SingleNode.v
Roles.v
StateMachine.v
Agreement.v
Line.v
Lineage.v
Consensus.v
Replicated.v
Requests.v
Answers.v
Client.v
Log.v
Store.v
Framing.v
Kafka.v
Broker.v
Service.v
Gateway.v
Frontend.v
Settling.v
Session.v
EndToEnd.v
Connection.v
Start.v
RaftTests.v
BrokerTests.v
IntegrationTests.v
