(* ===== verification/Prelude.v ===== *)
(** * Josefine: a verification development

    Josefine is a Kafka-compatible message broker whose cluster state is
    replicated with a variant of Raft over a block chain (the Rust crate under
    [src/src]).  A node runs four tasks: the event loop, which owns the Raft
    state machine ([raft/server.rs]); the driver, which applies committed blocks
    to the application ([raft/fsm.rs]); and the tasks that send to and receive
    from the peers ([raft/tcp.rs]).  Inputs of the event loop are ticks, messages
    of peers, the node's own outgoing messages and requests of clients; it
    applies commands to a [RaftHandle], a follower, candidate or leader, which
    sends messages to the peers and instructions to the driver.

    ** Modelling

    Definitions are shallow: a Rust function is a Rocq function.  A function that
    returns [Result] or can panic returns an [outcome] (value, error or panic);
    a method of the state machine that also sends, asks the clock or draws a
    random number is a computation of the state-and-outcome monad [SM World]
    (abbreviated [M]): messages and instructions sent before a failure stay
    sent.  [&mut self] is state passing.  A [u64] is a [Z] with explicit overflow
    (the build profile is the parameter [Build]); byte strings are lists of
    bytes; a [HashMap] or [HashSet] is a [gmap] or [gset], and where the order of
    iteration could show, its irrelevance is a theorem.  Code that is not part of
    the repository is a parameter: sled and bincode ([Storage.Sled],
    [Storage.Bincode], with their documented laws and an executable instance that
    satisfies them), the clock, the random generator and the file system
    ([Raft.Env]), UUIDs and the liveness of clients ([Server.ServerEnv]), the
    length-delimited codec, the broadcast channel and [try_join!] of tokio
    ([Framing.LengthCodec], [Runtime.Broadcast], [Start.TryJoin]), the JSON of the messages
    ([Connection.MessageJson]), the Kafka protocol crate ([Kafka.KafkaDecoders],
    [Kafka.KafkaProtocol]), the settings of the config crate, the arguments and
    what the operating system answers at the start ([Start]), the randomness, the
    disks, the turns of the connections to other brokers and the value of a wait that
    does not end ([Broker.BrokerEnv], [never]), and the application ([Fsm.Fsm], the program's own
    trait).  Where theorems rely on laws of these, the laws are classes with an
    instance that is computed with in the witnesses.

    ** Files

    - [Prelude]: outcomes, the monad, weakest preconditions, machine integers,
      the tactic [inv_run], shared lemmas.
    - [Bytes]: big-endian integers and the lexicographic order of byte strings.
    - [Storage]: the interfaces of sled and bincode and their laws.
    - [Chain] ([raft/chain.rs]): the chain of blocks in the store, the block tree
      it refines, ranges, the walk to the genesis block, compaction.
    - [Rpc] ([raft/rpc.rs], types of [raft/mod.rs]): messages and commands.
    - [Election] ([raft/election.rs]), [Progress] ([raft/progress.rs]),
      [Config] ([raft/config.rs]).
    - [Raft] ([raft/mod.rs]): state, roles, base methods, the effects of a node;
      the judgement [does], which bounds the messages a computation sends.
    - [Leader], [Candidate], [Follower] ([raft/leader.rs] and so on): every
      command handler; [Handle]: the dispatch of [RaftHandle] and the two
      handlers of the candidate that go through the follower.
    - [Fsm] ([raft/fsm.rs]): the driver.  [Tcp] ([raft/tcp.rs]): distribution of
      messages to the queues of the peers.  [Server] ([raft/server.rs]): the event loop turn by
      turn, and a node as a step relation over loop, driver and channels.  A node whose
      event fails stops with the state and the chain from before that event: what the
      event had already written to its database is not represented, and theorems about
      failed nodes speak of them so.
    - [Runtime] ([util.rs], [main.rs], [lib.rs]): shutdown handles, the tasks of a
      process, which work, fail and look at their handles in any order, and Ctrl-C.
    - [Client] ([raft/client.rs]): proposals of clients, against a running node
      whose tasks take turns in any order.
    - [Framing]: reading a stream in frames, whatever pieces it arrives in.
      [Connection] ([raft/tcp.rs]): the tasks that connect and write to a peer,
      and those that accept and read.
    - [Kafka] ([kafka/]): the codecs of server and client, their errors and the
      client's connection.  [Gateway] ([broker/tcp.rs]): the connection of a
      Kafka client.  [Frontend] ([broker/server.rs]): all connections of a broker
      and its message loop, interleaved.  [Settling]: its turns come to an end.
      [Session]: a client, its connection and the broker it is connected to, the
      client of another broker too.
    - [Log] ([broker/log/]): entries, index, segments and the log of a partition.
    - [Store] ([broker/state/], [broker/fsm.rs]): the metadata store and the
      broker's state machine, an instance of [Fsm.Fsm].
    - [Broker] ([broker/mod.rs], [broker/handler/]): the request handlers over
      store and replicas, the calls to other brokers with the client of [Kafka], and
      the dispatch of requests; Raft is the interface [RaftClient] with its laws.
    - [Service] ([lib.rs]): the interface discharged by a node: broker and Raft
      as [run] wires them.  [EndToEnd]: one call from the client through broker and
      Raft to the store and back.
    - [Start] ([lib.rs], [config.rs], [main.rs], the servers and
      [tests/josefine.rs]): the configuration, the start of the servers and the
      end of a process, the clusters of the integration tests.
    - [RaftTests], [BrokerTests]: the unit tests of the repository as programs over
      these definitions.  [IntegrationTests] ([tests/josefine.rs]): the integration
      tests, with any schedule of the tasks.
    - [Invariants]: what one node may do on any command: messages, votes, roles.
    - [Cluster]: the cluster as a transition system over [Server.node_step].
    - [Replication], [FollowerLog]: the data plane of leader and follower.
    - [Agreement]: the blocks of all nodes of a cluster.  [Line], [Lineage]: stores
      that hold a line of blocks, and what each command does to it; [Consensus]:
      the invariant of a cluster over them; [Replicated]: what follows for the state
      machines; [Requests]: where the proposals of clients go; [Answers]: what
      follows for the clients.
    - [SingleNode]: from timeout to answer on one node.
    - [StateMachine]: driver and leader together.
    - [Roles]: timers, votes, queued requests, restarts.
    - [Demo]: the concrete instance the witnesses run on.

    ** Theorems

    - Safety of the cluster ([Cluster]): in every run, whatever is delayed,
      repeated, reordered or lost and whichever nodes stop, one node at most ever
      acts as leader, followers agree on it, a node votes for one candidate, and
      the votes a candidate counts were cast.  The invariant is per node
      ([node_inv]) and rests on [Invariants.handle_step], which covers every
      command on every role, and on [Election.quorum_meet].  Nodes that stop are
      not restarted in these runs: [Roles.restart_forgets_vote] shows why.
    - Agreement ([Agreement]): in the same runs, started on empty databases, no
      two nodes store or apply different blocks under one id ([blocks_agree]), and
      every database stays well typed ([database_typed]).  The invariant says
      where a node's blocks come from: its own appends under new ids if it leads,
      else blocks the one leader sent.
    - Consensus ([Replicated], [Answers]): in the same runs there is one log of which
      every node stores an initial part; every block up to the commit of any node
      is on a majority ([committed_on_majority]); every state machine is in the
      state an initial part of the log leads to, up to the commit on a leader and
      one block short of it elsewhere, where the last committed block waits for the
      next commit ([replicated_state_machine]); and every answer to a client is the
      result of a block of that log which holds the client's own proposal, and
      comes once ([answers_own_requests]).  The invariant
      ([Consensus.line_inv]) rests on [Lineage], which states for every command on
      every role what is stored, committed, handed over and sent.
    - Storage: [append], [extend] and [commit] refine the block tree, a commit
      survives reopening, ranges are exact, the head leads back to the genesis
      block.
    - Replication: a leader applies exactly the committed blocks in order
      ([leader_applies_committed]), the application's state is the fold over them
      ([state_follows_commit]), the committed index is the newest block of a
      majority and never goes back, blocks sent to a follower are the next ones,
      a follower stores and confirms them, and a heartbeat is specified on every
      branch.
    - Service: a single node leads after finitely many ticks
      ([single_node_leads]); in any interleaving of its tasks its clients see the
      state machine given their proposals one at a time
      ([single_node_linearizable]), and all of them are answered once the queues
      are empty ([single_node_completes]); [propose_exact] is what a client is
      told on every branch.  [topic_created_through_raft] composes the parts:
      from the start of the server to the topic in the store;
      [topic_created_over_wire] adds the client and its connection: the response
      that is written names the topic as the store has it, and the caller gets what
      the client's codec makes of it.
    - Several brokers: creating a topic stores it, but the handler returns only if all
      peers confirm ([create_topic_stores]), and a peer that is a broker of this
      program never does ([peer_blocks_creation]).
    - Connections: what reaches a peer are messages addressed to it, signed, in
      order and without duplicates, whatever breaks ([network_fifo],
      [delivered_was_sent], which is what [Cluster.arrives] assumes of the
      network); the receiving task merges connections without mixing them; how a
      stream is cut does not matter ([pieces_irrelevant]); one broken connection ends
      the process ([broken_connection_stops_node]).
    - Kafka: requests round-trip when the versions of header and
      message agree, responses reach their callers when the callers number their
      requests, every connection of a broker is answered in order whatever the
      others do ([connections_in_order]), and every request that has arrived is
      answered within three turns each ([requests_answered]).  Together: in any interleaving of client,
      connection and broker an answer is the response to the caller's own request
      ([call_answered_end_to_end]), and a call on a broker that is not busy
      completes ([call_completes]).
    - Start and end of a process: [run_exact], how it ends with its six tasks;
      [ctrl_c_exact], which tasks a Ctrl-C reaches and ends; [managed_consistent], the clusters
      of the integration tests are consistent in the sense the safety of the
      cluster assumes.
    - Tests: [raft_tests_pass] and [broker_tests_pass] run the unit tests of the
      repository against the model, with the conditions on their surroundings they
      turn out to need.  [create_topic_never_passes] and [versions_test_passes] do
      so for the integration tests, over all schedules.
    - Broker: writes to the log of a partition append as long as they fit one segment
      ([log_writes_append]; the next one panics, [rollover_panics]), its index is exact for one
      entry; the store and its transitions refine three maps
      ([transition_refines]) and follow the applied blocks
      ([broker_follows_log]); topics are created with a consistent assignment,
      metadata is answered from the topics and partitions on every branch, produced batches are appended.
    - Errors: what the model shows to go wrong is stated as theorems too, each
      named in its doc comment (compaction, restart, the leader's tick after a
      commit, repeated vote requests, dropped requests and others).

    ** Bounds and fuel

    Loops of the program are folds over lists, so nothing needs fuel but [walk],
    for which the number of the head is shown to be enough, and
    [Framing.read_loop], whose fuel is the length of the input: every frame takes
    at least one byte.  The turns in which a broker settles are bounded by
    [Settling.work], three for each request and one for the server.  Block ids are below [Chain.id_limit] (0x63 * 2^56): above
    it an eight-byte id would sort after the key of the commit entry.  Theorems
    about a store assume [chain_wf], which a fresh store has and every operation
    preserves, and the laws of a store without I/O errors; the safety of the
    cluster assumes neither, and [Agreement] the laws only.

    ** Not modelled

    Sockets themselves, and the adapters of [raft/tcp.rs] that poll them; the
    scheduler of tokio (its choices are the order of the steps); logging
    ([log_command], the spans); the parsing of arguments and configuration files by
    their crates; the encoding of JSON and of Kafka messages by theirs.  A handler that
    waits for ever has the outcome [never], a failure: what follows it is not meant to be
    what the code does.  Runs of a cluster do not restart a node
    that stopped ([Roles.restart_forgets_vote]).  That a node keeps the promises of
    [RaftClient] is shown for a cluster of one: in a larger one
    [Replication.leader_tick_fails] stands in the way of progress, so that for it
    only what is answered is shown to be right ([Answers]), not that it is answered. *)
From Stdlib Require Export ZArith Lia Strings.Byte.
From stdpp Require Export sorting.
From stdpp Require Export base strings countable gmap list.

(** ** Results of Rust code

    A Rust function that returns [anyhow::Result<T>] ends in one of three ways:
    with a value, with an error that [?] propagates to the caller, or with a
    panic ([panic!], [assert!], [unwrap], [expect], [unimplemented!], a slice out
    of range) that unwinds the task. *)
Inductive error : Type :=
| ErrDb
| ErrSend
| ErrBlockNotFound (key : list Byte.byte)
| ErrMsg (msg : string).

Inductive outcome (A : Type) : Type :=
| Ret (a : A)
| Err (e : error)
| Panic.
Arguments Ret {A} a.
Arguments Err {A} e.
Arguments Panic {A}.

#[global] Instance outcome_ret : MRet outcome := λ A a, Ret a.
#[global] Instance outcome_bind : MBind outcome := λ A B f m,
  match m with Ret a => f a | Err e => Err e | Panic => Panic end.
#[global] Instance outcome_fmap : FMap outcome := λ A B f m,
  match m with Ret a => Ret (f a) | Err e => Err e | Panic => Panic end.

(** [x.unwrap()] and [x.expect(..)] on an [Option] and on a [Result]. *)
Definition unwrap {A} (o : option A) : outcome A :=
  match o with Some a => Ret a | None => Panic end.
Definition unwrap_result {A} (o : outcome A) : outcome A :=
  match o with Ret a => Ret a | Err _ => Panic | Panic => Panic end.

(** [o.ok_or(e)?]. *)
Definition ok_or {A} (o : option A) (e : error) : outcome A :=
  match o with Some a => Ret a | None => Err e end.

(** [assert!(b)]. *)
Definition assert (b : bool) : outcome unit := if b then Ret tt else Panic.

(** Reading the value of a run that is known to succeed. *)
Definition is_ret {A} (o : outcome A) : bool := match o with Ret _ => true | _ => false end.
Definition ret_or {A} (d : A) (o : outcome A) : A := match o with Ret a => a | _ => d end.

(** ** State and outcome: effectful code over a world [S].  The world survives
    errors and panics: what was sent or written before the failure stays. *)
Definition SM (S A : Type) : Type := S → outcome A * S.

#[global] Instance SM_ret {S} : MRet (SM S) := λ A a s, (Ret a, s).
#[global] Instance SM_bind {S} : MBind (SM S) := λ A B f m s,
  match m s with
  | (Ret a, s') => f a s'
  | (Err e, s') => (Err e, s')
  | (Panic, s') => (Panic, s')
  end.

(** A computation that does not touch the world. *)
Definition lift {S A} (o : outcome A) : SM S A := λ s, (o, s).

(** [for x in l { .. }] over a state-passing body, and over a body in [SM]. *)
Fixpoint ofold {A B} (f : B → A → outcome B) (b : B) (l : list A) : outcome B :=
  match l with
  | [] => Ret b
  | a :: l => b' ← f b a; ofold f b' l
  end.
Fixpoint for_each {S A} (l : list A) (f : A → SM S unit) : SM S unit :=
  match l with
  | [] => mret tt
  | a :: l => f a ≫= λ _, for_each l f
  end.
Fixpoint sfold {S A B} (f : B → A → SM S B) (b : B) (l : list A) : SM S B :=
  match l with
  | [] => mret b
  | a :: l => f b a ≫= λ b', sfold f b' l
  end.

(** A lazily mapped iterator is a list of outcomes; driving it forces the
    elements one after the other and stops at the first that panics. *)
Fixpoint force {A} (l : list (outcome A)) : outcome (list A) :=
  match l with
  | [] => Ret []
  | o :: l => a ← o; r ← force l; Ret (a :: r)
  end.

(** Weakest preconditions over every way of ending, failures included. *)
Definition wp {S A} (m : SM S A) (Q : outcome A → S → Prop) (s : S) : Prop :=
  Q (m s).1 (m s).2.

(** The continuation of a bind: failures skip it. *)
Definition wp_cont {S A B} (f : A → SM S B) (Q : outcome B → S → Prop)
  (o : outcome A) (s : S) : Prop :=
  match o with Ret a => wp (f a) Q s | Err e => Q (Err e) s | Panic => Q Panic s end.

(** ** Machine integers *)
Definition u64_limit : Z := (2 ^ 64)%Z.
Definition is_u64 (z : Z) : Prop := (0 ≤ z < u64_limit)%Z.

(** Whether the binary is built with overflow checks: [+] and [-] on integers
    panic with them (debug profile) and wrap without (release profile). *)
Class Build := { overflow_checks : bool }.

Definition u64_add `{Build} (a b : Z) : outcome Z :=
  if ((a + b) <? u64_limit)%Z then Ret (a + b)%Z
  else if overflow_checks then Panic else Ret ((a + b) `mod` u64_limit)%Z.
Definition u64_sub `{Build} (a b : Z) : outcome Z :=
  if (b <=? a)%Z then Ret (a - b)%Z
  else if overflow_checks then Panic else Ret ((a - b) `mod` u64_limit)%Z.

(** Atomic [fetch_add] wraps in every profile. *)
Definition u64_wrapping_add (a b : Z) : Z := ((a + b) `mod` u64_limit)%Z.

(** ** Lemmas and automation *)
Create HintDb josefine.
Create Rewrite HintDb josefine.

Lemma is_ret_or {A} (d : A) (o : outcome A) : is_ret o = true → o = Ret (ret_or d o).
Proof. by destruct o. Qed.

Lemma run_ret {S A} (d : A) (x : outcome A * S) :
  is_ret x.1 = true → x = (Ret (ret_or d x.1), x.2).
Proof. by destruct x as [[] ?]. Qed.

Lemma ofold_app {A B} (f : B → A → outcome B) b l l' :
  ofold f b (l ++ l') = ofold f b l ≫= λ b', ofold f b' l'.
Proof. revert b. induction l as [|a l IH]; intros b; cbn; [done|]. destruct (f b a); cbn; [apply IH|done..]. Qed.
Lemma ofold_snoc {A B} (f : B → A → outcome B) b l a :
  ofold f b (l ++ [a]) = ofold f b l ≫= λ b', f b' a.
Proof.
  revert b. induction l as [|a' l IH]; intros b; cbn; [by destruct (f b a)|].
  destruct (f b a'); cbn; [apply IH|done..].
Qed.

Lemma bind_Ret {A B} (m : outcome A) (k : A → outcome B) b :
  (m ≫= k) = Ret b ↔ ∃ a, m = Ret a ∧ k a = Ret b.
Proof. destruct m; cbn; naive_solver. Qed.

Lemma SM_bind_Ret {S A B} (m : SM S A) (k : A → SM S B) s b s' :
  (m ≫= k) s = (Ret b, s') ↔ ∃ a s1, m s = (Ret a, s1) ∧ k a s1 = (Ret b, s').
Proof.
  unfold mbind, SM_bind. destruct (m s) as [[a|e|] s1]; naive_solver.
Qed.

Lemma SM_bind_step {S A B} (m : SM S A) (k : A → SM S B) s a s1 :
  m s = (Ret a, s1) → (m ≫= k) s = k a s1.
Proof. unfold mbind, SM_bind. by intros ->. Qed.

Lemma lift_Ret {S A} (o : outcome A) (s : S) a s' :
  lift o s = (Ret a, s') ↔ o = Ret a ∧ s' = s.
Proof. unfold lift. naive_solver. Qed.

Lemma mret_Ret {S A} (a b : A) (s s' : S) :
  (mret a : SM S A) s = (Ret b, s') ↔ b = a ∧ s' = s.
Proof. unfold mret, SM_ret. naive_solver. Qed.

Lemma unwrap_Ret {A} (o : option A) a : unwrap o = Ret a ↔ o = Some a.
Proof. destruct o; cbn; naive_solver. Qed.

Lemma unwrap_result_Ret {A} (o : outcome A) a : unwrap_result o = Ret a ↔ o = Ret a.
Proof. destruct o; cbn; naive_solver. Qed.

Lemma assert_Ret b u : assert b = Ret u ↔ b = true.
Proof. destruct b, u; cbn; naive_solver. Qed.

(** Split a successful run into the successful runs of its parts. *)
Ltac inv_run :=
  repeat match goal with
  | H : Ret _ = Ret _ |- _ => injection H as H; try subst
  | H : (_ ≫= _) = Ret _ |- _ => apply bind_Ret in H as (? & ? & H)
  | H : (_ ≫= _) _ = (Ret _, _) |- _ => apply SM_bind_Ret in H as (? & ? & ? & H)
  | H : lift _ _ = (Ret _, _) |- _ => apply lift_Ret in H as [H ->]
  | H : mret _ _ = (Ret _, _) |- _ => apply mret_Ret in H as [-> ->]
  | H : (Ret _, _) = (Ret _, _) |- _ => injection H as H; try subst
  | H : unwrap _ = Ret _ |- _ => apply unwrap_Ret in H
  | H : unwrap_result _ = Ret _ |- _ => apply unwrap_result_Ret in H
  | H : assert _ = Ret _ |- _ => apply assert_Ret in H
  | H : Err _ = Ret _ |- _ => discriminate H
  | H : Panic = Ret _ |- _ => discriminate H
  | H : (Err _, _) = (Ret _, _) |- _ => discriminate H
  | H : (Panic, _) = (Ret _, _) |- _ => discriminate H
  | H : ∃ _, _ |- _ => destruct H
  | H : _ ∧ _ |- _ => destruct H
  end.

Lemma wp_bind {S A B} (m : SM S A) (f : A → SM S B) Q s :
  wp m (wp_cont f Q) s → wp (m ≫= f) Q s.
Proof.
  unfold wp, wp_cont, mbind, SM_bind. by destruct (m s) as [[a|e|] s1].
Qed.

Lemma wp_ret {S A} (a : A) Q (s : S) : Q (Ret a) s → wp (mret a : SM S A) Q s.
Proof. done. Qed.

Lemma wp_lift {S A} (o : outcome A) Q (s : S) : Q o s → wp (lift o) Q s.
Proof. done. Qed.

Lemma wp_mono {S A} (m : SM S A) (P Q : outcome A → S → Prop) s :
  wp m P s → (∀ o s', P o s' → Q o s') → wp m Q s.
Proof. unfold wp. eauto. Qed.

(** A relation between the worlds before and after that every step respects. *)
Lemma wp_for_each {S A} (R : S → S → Prop) `{!PreOrder R} (f : A → SM S unit) l :
  (∀ a s, a ∈ l → wp (f a) (λ _ s', R s s') s) →
  ∀ s, wp (for_each l f) (λ _ s', R s s') s.
Proof.
  induction l as [|a l IH]; intros Hf s; [by apply wp_ret|].
  apply wp_bind. eapply wp_mono; [apply Hf; set_solver|].
  intros [u|e|] s1 H; cbn; [|done|done].
  eapply wp_mono; [apply IH; intros; apply Hf; set_solver|].
  intros o s2 H2. by transitivity s1.
Qed.

Lemma u64_add_small `{Build} a b :
  (a + b < u64_limit)%Z → u64_add a b = Ret (a + b)%Z.
Proof. intros. unfold u64_add. by rewrite (proj2 (Z.ltb_lt _ _)). Qed.

Lemma u64_sub_small `{Build} a b : (b ≤ a)%Z → u64_sub a b = Ret (a - b)%Z.
Proof. intros. unfold u64_sub. by rewrite (proj2 (Z.leb_le _ _)). Qed.

Lemma u64_wrapping_add_small a b :
  (0 ≤ a + b < u64_limit)%Z → u64_wrapping_add a b = (a + b)%Z.
Proof. intros. by apply Z.mod_small. Qed.

Lemma force_Ret {A} (l : list A) : force (Ret <$> l) = Ret l.
Proof. induction l as [|a l IH]; [done|]. cbn in *. by rewrite IH. Qed.

Lemma force_Ret_inv {A} (l : list (outcome A)) r : force l = Ret r → l = Ret <$> r.
Proof.
  revert r. induction l as [|o l IH]; simpl; intros r H; inv_run; [done|].
  simpl. by erewrite <-IH.
Qed.

Lemma force_app {A} (l1 l2 : list (outcome A)) :
  force (l1 ++ l2) = (r1 ← force l1; r2 ← force l2; Ret (r1 ++ r2)).
Proof.
  induction l1 as [|o l1 IH]; simpl.
  - by destruct (force l2).
  - destruct o; simpl; try done. rewrite IH.
    destruct (force l1); simpl; try done. by destruct (force l2).
Qed.

Lemma list_filter_all {A} (P : A → Prop) `{!∀ x, Decision (P x)} (l : list A) :
  (∀ x, x ∈ l → P x) → filter P l = l.
Proof.
  induction l as [|x l IH]; intros Hl; [done|].
  rewrite filter_cons_True by (apply Hl; set_solver). f_equal. apply IH. set_solver.
Qed.

Lemma list_filter_none {A} (P : A → Prop) `{!∀ x, Decision (P x)} (l : list A) :
  (∀ x, x ∈ l → ¬ P x) → filter P l = [].
Proof.
  induction l as [|x l IH]; intros Hl; [done|].
  rewrite filter_cons_False by (apply Hl; set_solver). apply IH. set_solver.
Qed.

#[export] Hint Resolve force_Ret u64_add_small u64_sub_small : josefine.
