(* ===== verification/Bytes.v ===== *)
(** * Bytes

    Bytes, their lexicographic order (the order Rust derives for [Bytes] and
    the order of the keys of a sled tree) and the big- and little-endian
    encodings of integers ([u64::to_be_bytes], [u64::from_be_bytes],
    [byteorder::BigEndian]). *)
From S2P Require Import Prelude.
Local Open Scope Z_scope.

#[global] Instance byte_eq_dec : EqDecision byte := byte_eq_dec.
#[global] Program Instance byte_countable : Countable byte :=
  inj_countable Byte.to_N Byte.of_N _.
Next Obligation. intros b. apply Byte.of_to_N. Qed.

Abbreviation bytes := (list byte).

(** ** Values of bytes *)
Definition byte_val (b : byte) : Z := Z.of_N (Byte.to_N b).
Definition byte_of (z : Z) : byte :=
  match Byte.of_N (Z.to_N (z `mod` 256)) with Some b => b | None => x00 end.

(** ** Big-endian encoding on [n] bytes *)
Fixpoint be_bytes (n : nat) (z : Z) : bytes :=
  match n with
  | O => []
  | S n => byte_of (z `div` 256 ^ Z.of_nat n) :: be_bytes n z
  end.
Fixpoint be_val (l : bytes) : Z :=
  match l with
  | [] => 0
  | b :: l => byte_val b * 256 ^ Z.of_nat (length l) + be_val l
  end.

Definition u64_to_be_bytes (z : Z) : bytes := be_bytes 8 z.
(** [x.try_into()] to [[u8; 8]] fails unless there are exactly eight bytes. *)
Definition u64_from_be_bytes (l : bytes) : option Z :=
  if decide (length l = 8%nat) then Some (be_val l) else None.

Definition u64_to_le_bytes (z : Z) : bytes := reverse (be_bytes 8 z).
Definition u64_from_le_bytes (l : bytes) : option Z := u64_from_be_bytes (reverse l).

(** ** Lexicographic order *)
Fixpoint bytes_compare (l1 l2 : bytes) : comparison :=
  match l1, l2 with
  | [], [] => Eq
  | [], _ => Lt
  | _, [] => Gt
  | b1 :: l1, b2 :: l2 =>
      match byte_val b1 ?= byte_val b2 with
      | Eq => bytes_compare l1 l2
      | c => c
      end
  end.
Definition bytes_ltb (l1 l2 : bytes) : bool :=
  match bytes_compare l1 l2 with Lt => true | _ => false end.
Definition bytes_leb (l1 l2 : bytes) : bool :=
  match bytes_compare l1 l2 with Gt => false | _ => true end.
Definition bytes_le (l1 l2 : bytes) : Prop := bytes_leb l1 l2 = true.

#[global] Instance bytes_le_dec : RelDecision bytes_le.
Proof. intros l1 l2. unfold bytes_le. apply _. Defined.

(** ** Facts *)
Lemma byte_val_range b : 0 ≤ byte_val b < 256.
Proof. pose proof (Byte.to_N_bounded b). unfold byte_val. lia. Qed.

Lemma byte_val_of z : byte_val (byte_of z) = z `mod` 256.
Proof.
  unfold byte_val, byte_of. pose proof (Z.mod_pos_bound z 256 ltac:(lia)).
  destruct (Byte.of_N _) as [b|] eqn:E.
  - apply Byte.to_of_N in E. lia.
  - apply Byte.of_N_None_iff in E. lia.
Qed.

Lemma byte_val_inj b1 b2 : byte_val b1 = byte_val b2 → b1 = b2.
Proof.
  unfold byte_val. intros H. apply N2Z.inj, (f_equal Byte.of_N) in H.
  rewrite !Byte.of_to_N in H. congruence.
Qed.

Lemma byte_of_val b : byte_of (byte_val b) = b.
Proof.
  apply byte_val_inj. rewrite byte_val_of, Z.mod_small; [done|].
  apply byte_val_range.
Qed.

Lemma length_be_bytes n z : length (be_bytes n z) = n.
Proof. induction n; simpl; congruence. Qed.

Lemma be_val_range l : 0 ≤ be_val l < 256 ^ Z.of_nat (length l).
Proof.
  induction l as [|b l IH]; [simpl; lia|]. cbn [be_val length].
  pose proof (byte_val_range b).
  rewrite Nat2Z.inj_succ, Z.pow_succ_r by lia. nia.
Qed.

Lemma be_val_bytes n z : be_val (be_bytes n z) = z `mod` 256 ^ Z.of_nat n.
Proof.
  induction n as [|n IH]; [simpl; by rewrite Z.mod_1_r|].
  cbn [be_bytes be_val]. rewrite IH, byte_val_of, length_be_bytes.
  rewrite Nat2Z.inj_succ, Z.pow_succ_r by lia.
  rewrite (Z.mul_comm 256), (Z.rem_mul_r z) by lia. lia.
Qed.

Lemma be_bytes_shift n z k :
  be_bytes n (k * 256 ^ Z.of_nat n + z) = be_bytes n z.
Proof.
  assert (∀ m, (n ≤ m)%nat →
    be_bytes n (k * 256 ^ Z.of_nat m + z) = be_bytes n z) as H; [|by apply H].
  induction n as [|n IH]; intros m Hm; [done|]. cbn [be_bytes].
  rewrite IH by lia. f_equal. apply byte_val_inj. rewrite !byte_val_of.
  replace (256 ^ Z.of_nat m)
    with (256 ^ Z.of_nat (m - S n) * 256 * 256 ^ Z.of_nat n).
  - rewrite Z.mul_assoc, Z.add_comm, Z.div_add by lia.
    rewrite !Z.mul_assoc. by rewrite Z.mod_add.
  - rewrite <-(Z.mul_assoc _ 256), <-Z.pow_succ_r, <-Z.pow_add_r by lia.
    f_equal. lia.
Qed.

Lemma be_bytes_val l : be_bytes (length l) (be_val l) = l.
Proof.
  induction l as [|b l IH]; [done|]. cbn [length be_bytes be_val].
  rewrite be_bytes_shift, IH. f_equal. pose proof (be_val_range l).
  rewrite Z.div_add_l, (Z.div_small (be_val l)), Z.add_0_r by lia.
  apply byte_of_val.
Qed.

Lemma be_val_inj l1 l2 : length l1 = length l2 → be_val l1 = be_val l2 → l1 = l2.
Proof.
  intros Hl Hv. by rewrite <-(be_bytes_val l1), <-(be_bytes_val l2), Hl, Hv.
Qed.

Lemma be_bytes_inj n z1 z2 :
  0 ≤ z1 < 256 ^ Z.of_nat n → 0 ≤ z2 < 256 ^ Z.of_nat n →
  be_bytes n z1 = be_bytes n z2 → z1 = z2.
Proof.
  intros H1 H2 H. apply (f_equal be_val) in H.
  by rewrite !be_val_bytes, !Z.mod_small in H by done.
Qed.

Lemma u64_limit_bytes : u64_limit = 256 ^ Z.of_nat 8.
Proof. reflexivity. Qed.

Lemma length_u64_to_be_bytes z : length (u64_to_be_bytes z) = 8%nat.
Proof. apply length_be_bytes. Qed.

Lemma be_val_u64 z : is_u64 z → be_val (u64_to_be_bytes z) = z.
Proof.
  intros Hz. unfold u64_to_be_bytes. rewrite be_val_bytes, <-u64_limit_bytes.
  by apply Z.mod_small.
Qed.

Lemma be_val_is_u64 l : length l = 8%nat → is_u64 (be_val l).
Proof. intros H. pose proof (be_val_range l) as Hr. by rewrite H in Hr. Qed.

Lemma u64_to_be_bytes_val l : length l = 8%nat → u64_to_be_bytes (be_val l) = l.
Proof. intros H. unfold u64_to_be_bytes. rewrite <-H. apply be_bytes_val. Qed.

Lemma u64_to_be_bytes_inj z1 z2 :
  is_u64 z1 → is_u64 z2 → u64_to_be_bytes z1 = u64_to_be_bytes z2 → z1 = z2.
Proof. intros. by apply (be_bytes_inj 8). Qed.

Lemma u64_from_to_be_bytes z : is_u64 z → u64_from_be_bytes (u64_to_be_bytes z) = Some z.
Proof.
  intros Hz. unfold u64_from_be_bytes. rewrite decide_True by apply length_be_bytes.
  by rewrite be_val_u64.
Qed.

Lemma u64_from_be_bytes_length l z :
  u64_from_be_bytes l = Some z → length l = 8%nat ∧ z = be_val l.
Proof. unfold u64_from_be_bytes. case_decide; naive_solver. Qed.

Lemma u64_from_to_le_bytes z : is_u64 z → u64_from_le_bytes (u64_to_le_bytes z) = Some z.
Proof.
  intros Hz. unfold u64_from_le_bytes, u64_to_le_bytes. rewrite reverse_involutive.
  by apply u64_from_to_be_bytes.
Qed.

(** *** The order *)
Lemma bytes_compare_refl l : bytes_compare l l = Eq.
Proof. induction l; simpl; [done|]. by rewrite Z.compare_refl. Qed.

Lemma bytes_compare_eq l1 l2 : bytes_compare l1 l2 = Eq ↔ l1 = l2.
Proof.
  split; [|intros ->; apply bytes_compare_refl].
  revert l2. induction l1 as [|b1 l1 IH]; intros [|b2 l2]; simpl; try done.
  destruct (Z.compare_spec (byte_val b1) (byte_val b2)) as [E| |]; try done.
  intros ?%IH. apply byte_val_inj in E. congruence.
Qed.

Lemma bytes_compare_antisym l1 l2 :
  bytes_compare l2 l1 = CompOpp (bytes_compare l1 l2).
Proof.
  revert l2. induction l1 as [|b1 l1 IH]; intros [|b2 l2]; simpl; try done.
  rewrite (Z.compare_antisym (byte_val b1)).
  destruct (byte_val b1 ?= byte_val b2); simpl; auto.
Qed.

Lemma bytes_lt_trans l1 l2 l3 :
  bytes_ltb l1 l2 = true → bytes_ltb l2 l3 = true → bytes_ltb l1 l3 = true.
Proof.
  unfold bytes_ltb. revert l2 l3.
  induction l1 as [|b1 l1 IH]; intros [|b2 l2] [|b3 l3]; simpl; try done.
  destruct (Z.compare_spec (byte_val b1) (byte_val b2)),
    (Z.compare_spec (byte_val b2) (byte_val b3)),
    (Z.compare_spec (byte_val b1) (byte_val b3)); try done; try lia; eauto.
Qed.

Lemma bytes_leb_ltb l1 l2 : bytes_leb l1 l2 = negb (bytes_ltb l2 l1).
Proof.
  unfold bytes_leb, bytes_ltb. rewrite (bytes_compare_antisym l1 l2).
  by destruct (bytes_compare l1 l2).
Qed.

Lemma bytes_leb_lt_eq l1 l2 :
  bytes_leb l1 l2 = true ↔ bytes_ltb l1 l2 = true ∨ l1 = l2.
Proof.
  rewrite <-(bytes_compare_eq l1 l2). unfold bytes_leb, bytes_ltb.
  destruct (bytes_compare l1 l2); naive_solver.
Qed.

#[global] Instance bytes_le_total_order : TotalOrder bytes_le.
Proof.
  split; [split; [split|]|]; unfold bytes_le.
  - intros l. apply bytes_leb_lt_eq. by right.
  - intros l1 l2 l3. rewrite !bytes_leb_lt_eq.
    intros [H1| ->] [H2| ->]; eauto using bytes_lt_trans.
  - intros l1 l2. rewrite <-(bytes_compare_eq l1 l2). unfold bytes_leb.
    rewrite (bytes_compare_antisym l1 l2). by destruct (bytes_compare l1 l2).
  - intros l1 l2. unfold strict, trichotomy, bytes_leb.
    rewrite <-(bytes_compare_eq l1 l2), (bytes_compare_antisym l1 l2).
    destruct (bytes_compare l1 l2) eqn:E; cbn; naive_solver.
Qed.

(** On byte strings of one length the lexicographic order is the order of the
    numbers they encode. *)
Lemma bytes_compare_be_val l1 l2 :
  length l1 = length l2 → bytes_compare l1 l2 = (be_val l1 ?= be_val l2).
Proof.
  revert l2. induction l1 as [|b1 l1 IH]; intros [|b2 l2] Hl; try done.
  injection Hl as Hl. cbn [bytes_compare be_val]. rewrite IH, <-Hl by done.
  pose proof (be_val_range l1) as H1. pose proof (be_val_range l2) as H2.
  rewrite <-Hl in H2.
  destruct (Z.compare_spec (byte_val b1) (byte_val b2)) as [E|E|E].
  - rewrite E. symmetry.
    destruct (Z.compare_spec (be_val l1) (be_val l2));
      [apply Z.compare_eq_iff|apply Z.compare_lt_iff|apply Z.compare_gt_iff]; lia.
  - symmetry. apply Z.compare_lt_iff. nia.
  - symmetry. apply Z.compare_gt_iff. nia.
Qed.

Lemma bytes_ltb_be_val l1 l2 :
  length l1 = length l2 → bytes_ltb l1 l2 = (be_val l1 <? be_val l2).
Proof.
  intros. unfold bytes_ltb, Z.ltb. by rewrite bytes_compare_be_val.
Qed.

Lemma bytes_leb_be_val l1 l2 :
  length l1 = length l2 → bytes_leb l1 l2 = (be_val l1 <=? be_val l2).
Proof.
  intros. unfold bytes_leb, Z.leb. by rewrite bytes_compare_be_val.
Qed.

Lemma bytes_ltb_u64 z1 z2 :
  is_u64 z1 → is_u64 z2 →
  bytes_ltb (u64_to_be_bytes z1) (u64_to_be_bytes z2) = (z1 <? z2).
Proof.
  intros. rewrite bytes_ltb_be_val by (by rewrite !length_u64_to_be_bytes).
  by rewrite !be_val_u64.
Qed.

Lemma bytes_leb_u64 z1 z2 :
  is_u64 z1 → is_u64 z2 →
  bytes_leb (u64_to_be_bytes z1) (u64_to_be_bytes z2) = (z1 <=? z2).
Proof.
  intros. rewrite bytes_leb_be_val by (by rewrite !length_u64_to_be_bytes).
  by rewrite !be_val_u64.
Qed.

#[export] Hint Resolve length_be_bytes length_u64_to_be_bytes be_val_is_u64 : josefine.
#[export] Hint Rewrite length_be_bytes length_u64_to_be_bytes : josefine.

#[global] Arguments be_bytes : simpl never.
#[global] Arguments be_val : simpl never.
#[global] Arguments u64_to_be_bytes : simpl never.
#[global] Arguments bytes_compare : simpl never.

Lemma be_val_cons b l : be_val (b :: l) = byte_val b * 256 ^ Z.of_nat (length l) + be_val l.
Proof. done. Qed.

Lemma bytes_compare_cons b1 l1 b2 l2 :
  bytes_compare (b1 :: l1) (b2 :: l2) =
  match byte_val b1 ?= byte_val b2 with Eq => bytes_compare l1 l2 | c => c end.
Proof. done. Qed.
