(* ===== verification/Storage.v ===== *)
(** * Storage: the interfaces of sled and bincode

    The key-value store ([sled::Db]) and the serializer ([bincode]) are
    libraries the program calls; they are parameters of the model.  [Sled] has
    the operations the program uses, [SledLaws] what it relies on: a tree is an
    ordered map from byte strings to byte strings whose range iterator yields
    the entries in the order of their keys.  [Bincode] and its laws do the same
    for (de)serialization.  Both are instantiated by executable functions at
    the end of the file, so that the laws are satisfiable. *)
From S2P Require Import Prelude Bytes.
Local Open Scope Z_scope.

(** ** Ranges of keys ([std::ops::RangeBounds]) *)
Inductive bound : Type :=
| Included (k : bytes)
| Excluded (k : bytes)
| Unbounded.

Definition above (lo : bound) (k : bytes) : bool :=
  match lo with
  | Included l => bytes_leb l k
  | Excluded l => bytes_ltb l k
  | Unbounded => true
  end.
Definition below (hi : bound) (k : bytes) : bool :=
  match hi with
  | Included h => bytes_leb k h
  | Excluded h => bytes_ltb k h
  | Unbounded => true
  end.
Definition in_range (lo hi : bound) (k : bytes) : bool := above lo k && below hi k.

(** ** sled *)
Class Sled := {
  db : Type;
  db_get : db → bytes → outcome (option bytes);
  db_contains_key : db → bytes → outcome bool;
  db_insert : db → bytes → bytes → outcome db;
  db_remove : db → bytes → outcome db;
  db_range : db → bound → bound → list (outcome (bytes * bytes));
}.

Abbreviation entry := (bytes * bytes)%type.

Definition key_le (e1 e2 : entry) : Prop := bytes_le e1.1 e2.1.
Definition key_lt (e1 e2 : entry) : Prop := bytes_ltb e1.1 e2.1 = true.

#[global] Instance key_le_dec : RelDecision key_le.
Proof. intros e1 e2. unfold key_le. apply _. Defined.

(** The entries of a map within a range, in the order of their keys. *)
Definition entries (lo hi : bound) (m : gmap bytes bytes) : list entry :=
  filter (λ e, in_range lo hi e.1 = true) (merge_sort key_le (map_to_list m)).

Class SledLaws `{!Sled} := {
  contents : db → gmap bytes bytes;
  db_get_spec d k : db_get d k = Ret (contents d !! k);
  db_contains_key_spec d k :
    db_contains_key d k = Ret (bool_decide (is_Some (contents d !! k)));
  db_insert_spec d k v :
    ∃ d', db_insert d k v = Ret d' ∧ contents d' = <[k:=v]> (contents d);
  db_remove_spec d k :
    ∃ d', db_remove d k = Ret d' ∧ contents d' = delete k (contents d);
  db_range_spec d lo hi :
    db_range d lo hi = Ret <$> entries lo hi (contents d);
}.

(** ** bincode *)
Class Bincode (A : Type) := {
  serialize : A → outcome bytes;
  deserialize : bytes → option A;
}.

Class BincodeLaws (A : Type) `{!Bincode A} := {
  bincode_roundtrip a : ∃ v, serialize a = Ret v ∧ deserialize v = Some a;
}.

(** A value whose encoding needs at least [n] bytes does not decode from less. *)
Class BincodeMin (A : Type) `{!Bincode A} (n : nat) := {
  bincode_short v : (length v < n)%nat → deserialize v = None;
}.

(** ** Facts on entries *)
#[global] Instance key_le_total : Total key_le.
Proof.
  intros e1 e2. unfold key_le, bytes_le. rewrite (bytes_leb_ltb e2.1 e1.1).
  destruct (bytes_ltb e1.1 e2.1) eqn:E.
  - left. apply bytes_leb_lt_eq. by left.
  - by right.
Qed.

#[global] Instance key_le_trans : Transitive key_le.
Proof. intros e1 e2 e3. unfold key_le. by etransitivity. Qed.

Lemma bytes_ltb_irrefl k : bytes_ltb k k = false.
Proof. unfold bytes_ltb. by rewrite bytes_compare_refl. Qed.

Lemma key_lt_neq e1 e2 : key_lt e1 e2 → e1.1 ≠ e2.1.
Proof. unfold key_lt. intros H E. by rewrite E, bytes_ltb_irrefl in H. Qed.

Lemma elem_of_entries (lo hi : bound) (m : gmap bytes bytes) e :
  e ∈ entries lo hi m ↔ m !! e.1 = Some e.2 ∧ in_range lo hi e.1 = true.
Proof.
  unfold entries. rewrite list_elem_of_filter, merge_sort_Permutation.
  destruct e as [k v]. rewrite elem_of_map_to_list. tauto.
Qed.

Lemma StronglySorted_filter {A} (R : relation A) (P : A → Prop)
  `{!∀ x, Decision (P x)} l : StronglySorted R l → StronglySorted R (filter P l).
Proof.
  induction 1 as [|x l Hl IH Hx]; [constructor|].
  rewrite filter_cons. case_decide; [|done]. constructor; [done|].
  rewrite Forall_forall in Hx |- *. intros y [_ Hy]%list_elem_of_filter. auto.
Qed.

Lemma StronglySorted_le_lt (l : list entry) :
  NoDup l.*1 → StronglySorted key_le l → StronglySorted key_lt l.
Proof.
  intros Hnd. induction 1 as [|x l Hl IH Hx]; [constructor|].
  apply NoDup_cons in Hnd as [Hn Hnd]. constructor; [by apply IH|].
  rewrite Forall_forall in Hx |- *. intros y Hy.
  destruct (proj1 (bytes_leb_lt_eq _ _) (Hx y Hy)) as [|E]; [done|].
  destruct Hn. rewrite E. by apply list_elem_of_fmap_2.
Qed.

Lemma entries_sorted (lo hi : bound) m : StronglySorted key_lt (entries lo hi m).
Proof.
  apply StronglySorted_filter, StronglySorted_le_lt.
  - rewrite merge_sort_Permutation. apply NoDup_fst_map_to_list.
  - apply StronglySorted_merge_sort; apply _.
Qed.

Lemma key_lt_sorted_NoDup l : StronglySorted key_lt l → NoDup l.
Proof.
  induction 1 as [|x l Hl IH Hx]; constructor; [|done].
  intros Hin. rewrite Forall_forall in Hx. by destruct (key_lt_neq x x (Hx x Hin)).
Qed.

(** A strictly sorted list is determined by its elements. *)
Lemma key_lt_sorted_unique l1 l2 :
  StronglySorted key_lt l1 → StronglySorted key_lt l2 →
  (∀ e, e ∈ l1 ↔ e ∈ l2) → l1 = l2.
Proof.
  intros H1 H2 He. apply (StronglySorted_unique_strong key_lt); [|done|done|].
  - unfold key_lt. intros e1 e2 _ _ Ha Hb. exfalso.
    pose proof (bytes_lt_trans _ _ _ Ha Hb) as H. by rewrite bytes_ltb_irrefl in H.
  - apply NoDup_Permutation; eauto using key_lt_sorted_NoDup.
Qed.

Lemma entries_unique (lo hi : bound) (m : gmap bytes bytes) l :
  StronglySorted key_lt l →
  (∀ e, e ∈ l ↔ m !! e.1 = Some e.2 ∧ in_range lo hi e.1 = true) →
  entries lo hi m = l.
Proof.
  intros Hl He. apply key_lt_sorted_unique; [apply entries_sorted|done|].
  intros e. by rewrite elem_of_entries, He.
Qed.

(** A range with an included start that is stored begins with that entry. *)
Lemma entries_from (k : bytes) (hi : bound) (m : gmap bytes bytes) v :
  m !! k = Some v → below hi k = true →
  entries (Included k) hi m = (k, v) :: entries (Excluded k) hi m.
Proof.
  intros Hk Hhi. apply entries_unique.
  - constructor; [apply entries_sorted|]. apply Forall_forall. intros e He.
    apply elem_of_entries in He as [_ He]. by apply andb_true_iff in He as [He _].
  - intros [k' v']. rewrite elem_of_cons, elem_of_entries. unfold in_range. simpl.
    rewrite !andb_true_iff, bytes_leb_lt_eq. split.
    + intros [[= -> ->]|(? & ? & ?)]; auto.
    + intros (? & [?| <-] & ?); [auto|]. left. congruence.
Qed.

(** The range grows at the end by an insertion above all its keys. *)
Lemma entries_insert_last (lo hi : bound) (m : gmap bytes bytes) k v :
  (∀ e, e ∈ entries lo hi m → bytes_ltb e.1 k = true) →
  m !! k = None → in_range lo hi k = true →
  entries lo hi (<[k:=v]> m) = entries lo hi m ++ [(k, v)].
Proof.
  intros Hk Hm Hr. apply entries_unique.
  - pose proof (entries_sorted lo hi m) as Hs. revert Hk Hs.
    induction (entries lo hi m) as [|e l IH]; intros Hk Hs; simpl.
    + repeat constructor.
    + apply StronglySorted_inv in Hs as [Hs Hf]. constructor; [apply IH; set_solver|].
      apply Forall_app. split; [done|]. constructor; [|done]. apply Hk. set_solver.
  - intros [k' v']. rewrite elem_of_app, elem_of_entries, list_elem_of_singleton. simpl.
    destruct (decide (k' = k)) as [->|Hne].
    + rewrite lookup_insert_eq. naive_solver congruence.
    + rewrite lookup_insert_ne by done. naive_solver congruence.
Qed.

(** ** An executable store and serializer *)
Definition mem_sled : Sled := {|
  db := gmap bytes bytes;
  db_get d k := Ret (d !! k);
  db_contains_key d k := Ret (bool_decide (is_Some (d !! k)));
  db_insert d k v := Ret (<[k:=v]> d);
  db_remove d k := Ret (delete k d);
  db_range d lo hi := Ret <$> entries lo hi d;
|}.

Definition mem_sled_laws : @SledLaws mem_sled.
Proof. by refine {| contents := (λ d, d) : @db mem_sled → _ |}; eauto. Defined.

(** A self-delimiting encoding of byte strings: every byte is escaped, eight
    zero bytes close the string.  It has the two properties the program relies
    on in bincode: it round-trips for byte strings of any length, and a string
    takes at least eight bytes (bincode's length prefix). *)
Definition put_bytes (l : bytes) : bytes := (l ≫= λ b, [x01; b]) ++ replicate 8 x00.
Fixpoint get_bytes (v : bytes) : option (bytes * bytes) :=
  match v with
  | x01 :: b :: v => '(l, r) ← get_bytes v; Some (b :: l, r)
  | _ => if decide (take 8 v = replicate 8 x00) then Some ([], drop 8 v) else None
  end.

Lemma get_put_bytes l r : get_bytes (put_bytes l ++ r) = Some (l, r).
Proof.
  unfold put_bytes. induction l as [|b l IH]; [done|].
  cbn [mbind list_bind app]. cbn [get_bytes]. by rewrite IH.
Qed.

Lemma get_bytes_length v l r : get_bytes v = Some (l, r) → (8 + length r ≤ length v)%nat.
Proof.
  revert l r. induction (Nat.lt_wf_0_projected length v) as [v _ IH]. intros l r H.
  destruct v as [|b1 v]; [done|].
  destruct (decide (b1 = x01 ∧ v ≠ [])) as [[-> Hv]|Hb].
  - destruct v as [|b2 v]; [done|]. cbn [get_bytes] in H.
    destruct (get_bytes v) as [[l' r']|] eqn:E; [|done].
    injection H as <- <-. apply IH in E; simpl in *; lia.
  - assert (get_bytes (b1 :: v) =
      if decide (take 8 (b1 :: v) = replicate 8 x00) then Some ([], drop 8 (b1 :: v))
      else None) as E.
    { destruct b1, v; try done; naive_solver. }
    rewrite E in H. case_decide as Ht; [|done]. injection H as <- <-.
    apply (f_equal length) in Ht. rewrite length_take, length_replicate in Ht.
    rewrite length_drop. simpl length in *. lia.
Qed.
