(* ===== verification/Chain.v ===== *)
(** * The chain of blocks ([src/raft/chain.rs])

    Blocks are kept in a sled tree under their eight-byte big-endian id; the
    same tree holds the committed id under the key ["commit"].  The file has the
    operations of [Chain], the invariant of a well-formed store, the abstract
    block tree that the operations refine, what the ranges yield, and the walk
    from a block back to the genesis block. *)
From S2P Require Import Prelude Bytes Storage.
Local Open Scope Z_scope.

(** ** Ids and blocks *)
Record IdGenerator : Type := { gen_id : Z }.
Definition IdGenerator_new (val : Z) : IdGenerator := {| gen_id := val |}.
Definition IdGenerator_next (g : IdGenerator) : Z * IdGenerator :=
  (gen_id g, {| gen_id := u64_wrapping_add (gen_id g) 1 |}).

Abbreviation BlockId := bytes.
Definition BlockId_new (val : Z) : BlockId := u64_to_be_bytes val.
#[global] Arguments BlockId_new : simpl never.

(** What a serde format offers for bytes: writing them, and reading them as a
    slice of the input, which not every format can. *)
Class BytesFormat := {
  serialize_bytes : bytes → outcome bytes;
  deserialize_borrowed : bytes → outcome bytes;
}.
Definition serialize_block_id `{!BytesFormat} (block_id : BlockId) : outcome bytes :=
  serialize_bytes block_id.
Definition deserialize_block_id `{!BytesFormat} (input : bytes) : outcome BlockId :=
  bs ← deserialize_borrowed input;
  Ret bs.

(** The number [Debug for BlockId] prints. *)
Definition debug_block_id (id : BlockId) : outcome Z := unwrap (u64_from_be_bytes id).

Record UnappendedBlock : Type := { u_data : bytes }.
Record Block : Type := { b_id : BlockId; b_next : BlockId; b_data : bytes }.

#[global] Instance Block_eq_dec : EqDecision Block.
Proof. solve_decision. Defined.

(** The key ["commit"]. *)
Definition commit_key : bytes := [x63; x6f; x6d; x6d; x69; x74].

(** ** The chain and its operations *)
Section Ops.
Context {SLED : Sled} {BINC : Bincode Block}.

Record Chain : Type := {
  c_db : db;
  id_gen : IdGenerator;
  c_commit : BlockId;
  c_head : BlockId;
}.

Definition insert_block (d : db) (b : Block) : outcome db :=
  v ← unwrap_result (serialize b);
  unwrap_result (db_insert d (b_id b) v).

Definition chain_init (c : Chain) : outcome Chain :=
  let '(id, gen) := IdGenerator_next (id_gen c) in
  _ ← assert (id =? 0);
  d ← insert_block (c_db c)
        {| b_id := BlockId_new id; b_next := BlockId_new id; b_data := [] |};
  Ret {| c_db := d; id_gen := gen; c_commit := c_commit c; c_head := c_head c |}.

Definition chain_new (d : db) : outcome Chain :=
  v ← unwrap_result (db_get d commit_key);
  commit ← match v with
           | Some x => unwrap (u64_from_be_bytes x)
           | None => Ret 0
           end;
  let chain := {| c_db := d; id_gen := IdGenerator_new commit;
                  c_commit := BlockId_new commit; c_head := BlockId_new commit |} in
  if commit =? 0 then chain_init chain else Ret chain.

Definition chain_has (c : Chain) (block_id : BlockId) : outcome bool :=
  db_contains_key (c_db c) block_id.

Definition chain_append (c : Chain) (block : UnappendedBlock) : outcome (BlockId * Chain) :=
  let '(id, gen) := IdGenerator_next (id_gen c) in
  let id := BlockId_new id in
  _ ← assert (bytes_ltb (c_head c) id);
  d ← insert_block (c_db c)
        {| b_id := id; b_next := c_head c; b_data := u_data block |};
  Ret (id, {| c_db := d; id_gen := gen; c_commit := c_commit c; c_head := id |}).

Definition chain_extend (c : Chain) (block : Block) : outcome Chain :=
  known ← chain_has c (b_next block);
  if negb known then Err (ErrBlockNotFound (b_next block))
  else
    d ← insert_block (c_db c) block;
    Ret {| c_db := d; id_gen := id_gen c; c_commit := c_commit c; c_head := b_id block |}.

Definition chain_commit (c : Chain) (block_id : BlockId) : outcome (BlockId * Chain) :=
  known ← unwrap_result (db_contains_key (c_db c) block_id);
  if (known : bool) then
    d ← db_insert (c_db c) commit_key block_id;
    Ret (block_id,
      {| c_db := d; id_gen := id_gen c; c_commit := block_id; c_head := c_head c |})
  else Panic.

(** The iterator is lazy: an element is read and decoded when it is driven. *)
Definition chain_range (c : Chain) (lo hi : bound) : list (outcome Block) :=
  (λ o, e ← unwrap_result o; unwrap (deserialize e.2)) <$> db_range (c_db c) lo hi.

Definition chain_get_head (c : Chain) : BlockId := c_head c.
Definition chain_get_commit (c : Chain) : BlockId := c_commit c.

(** One turn of the loop of [compact]: the state is the chain and [next_id]. *)
Definition compact_step (st : Chain * option BlockId) (ob : outcome Block) :
    outcome (Chain * option BlockId) :=
  let '(c, next_id) := st in
  b ← ob;
  c' ← match next_id with
       | Some n =>
           if decide (b_id b = n) then Ret c
           else
             d ← db_remove (c_db c) (b_id b);
             Ret {| c_db := d; id_gen := id_gen c; c_commit := c_commit c; c_head := c_head c |}
       | None => Ret c
       end;
  Ret (c', Some (b_next b)).

Definition chain_compact (c : Chain) : outcome Chain :=
  r ← ofold compact_step (c, None)
        (reverse (chain_range c (Included (BlockId_new 0)) (Excluded (chain_get_commit c))));
  Ret r.1.

End Ops.

(** ** Specification: a block tree *)
Record Tree : Type := {
  t_blocks : gmap bytes Block;
  t_head : BlockId;
  t_commit : BlockId;
}.
Definition tree_append (id : BlockId) (data : bytes) (t : Tree) : Tree := {|
  t_blocks := <[id := {| b_id := id; b_next := t_head t; b_data := data |}]> (t_blocks t);
  t_head := id;
  t_commit := t_commit t;
|}.
Definition tree_extend (b : Block) (t : Tree) : Tree := {|
  t_blocks := <[b_id b := b]> (t_blocks t);
  t_head := b_id b;
  t_commit := t_commit t;
|}.
Definition tree_commit (id : BlockId) (t : Tree) : Tree := {|
  t_blocks := t_blocks t;
  t_head := t_head t;
  t_commit := id;
|}.

(** The walk from a block to its ancestors; the fuel bounds its length. *)
Fixpoint walk (fuel : nat) (bs : gmap bytes Block) (id : BlockId) : list BlockId :=
  match fuel with
  | O => []
  | S fuel =>
      match bs !! id with
      | None => []
      | Some b => id :: (if decide (b_next b = id) then [] else walk fuel bs (b_next b))
      end
  end.

(** Eight-byte ids whose first byte is below that of ["commit"]: they sort
    before the key of the committed id. *)
Definition id_limit : Z := 0x63 * 2 ^ 56.
Definition is_id (k : bytes) : Prop := length k = 8%nat ∧ be_val k < id_limit.

(** A well-formed tree: every block is stored under its own id, its
    predecessor is stored and older, and the genesis block is its own. *)
Record tree_wf (t : Tree) : Prop := {
  wf_block k b : t_blocks t !! k = Some b →
    b_id b = k ∧ is_id k ∧ is_Some (t_blocks t !! b_next b) ∧
    (k = BlockId_new 0 ∧ b_next b = k ∨ be_val (b_next b) < be_val k);
  wf_genesis : is_Some (t_blocks t !! BlockId_new 0);
  wf_head : is_Some (t_blocks t !! t_head t);
  wf_commit : is_Some (t_blocks t !! t_commit t);
}.

(** ** The operations on a healthy store *)
Section Laws.
Context {SLED : Sled} {BINC : Bincode Block}
  {SLAWS : SledLaws} {BLAWS : BincodeLaws Block} {BMIN : BincodeMin Block 24}.

(** The block tree a chain stands for: the entries that decode to blocks. *)
Definition abs (c : Chain) : Tree := {|
  t_blocks := omap deserialize (contents (c_db c));
  t_head := c_head c;
  t_commit := c_commit c;
|}.

Record chain_wf (c : Chain) : Prop := {
  wf_tree : tree_wf (abs c);
  wf_decodes k v : contents (c_db c) !! k = Some v → k ≠ commit_key →
    is_Some (deserialize v);
  wf_commit_entry : contents (c_db c) !! commit_key = Some (c_commit c) ∨
    contents (c_db c) !! commit_key = None ∧ c_commit c = BlockId_new 0;
}.

Lemma is_id_new n : 0 ≤ n < id_limit → is_id (BlockId_new n) ∧ be_val (BlockId_new n) = n.
Proof.
  intros Hn. assert (is_u64 n) by (unfold is_u64, u64_limit, id_limit in *; lia).
  unfold is_id, BlockId_new. rewrite be_val_u64 by done. auto with josefine lia.
Qed.

Lemma is_id_val k : is_id k → k = BlockId_new (be_val k).
Proof. intros [H _]. symmetry. by apply u64_to_be_bytes_val. Qed.

Lemma is_id_not_commit k : is_id k → k ≠ commit_key.
Proof. intros [H _] ->. done. Qed.

Lemma is_id_below_commit k : is_id k → bytes_ltb k commit_key = true.
Proof.
  intros [Hl Hk]. destruct k as [|b k]; [done|]. injection Hl as Hl.
  rewrite be_val_cons, Hl in Hk. pose proof (be_val_range k).
  unfold bytes_ltb, commit_key. rewrite bytes_compare_cons.
  assert (byte_val b < 99) as Hb by (unfold id_limit in Hk; change (Z.of_nat 7) with 7 in Hk; lia).
  change (byte_val x63) with 99. by rewrite (proj2 (Z.compare_lt_iff _ _) Hb).
Qed.

Lemma is_id_ltb k1 k2 : is_id k1 → is_id k2 → bytes_ltb k1 k2 = (be_val k1 <? be_val k2).
Proof. intros [H1 _] [H2 _]. apply bytes_ltb_be_val. congruence. Qed.

Lemma is_id_leb k1 k2 : is_id k1 → is_id k2 → bytes_leb k1 k2 = (be_val k1 <=? be_val k2).
Proof. intros [H1 _] [H2 _]. apply bytes_leb_be_val. congruence. Qed.

Lemma is_id_inj k1 k2 : is_id k1 → is_id k2 → be_val k1 = be_val k2 → k1 = k2.
Proof. intros [H1 _] [H2 _]. apply be_val_inj. congruence. Qed.

Lemma tree_is_id t k : tree_wf t → is_Some (t_blocks t !! k) → is_id k.
Proof. intros H [b Hb]. by apply (wf_block t H) in Hb as (_ & ? & _). Qed.

Lemma abs_blocks_lookup c k :
  t_blocks (abs c) !! k = contents (c_db c) !! k ≫= deserialize.
Proof. simpl. by rewrite lookup_omap. Qed.

(** In a well-formed chain a key is stored exactly if it is a block or the
    commit entry. *)
Lemma contains_block c k :
  chain_wf c → k ≠ commit_key →
  is_Some (contents (c_db c) !! k) ↔ is_Some (t_blocks (abs c) !! k).
Proof.
  intros Hc Hk. rewrite abs_blocks_lookup.
  destruct (contents (c_db c) !! k) as [v|] eqn:E; simpl.
  - pose proof (wf_decodes c Hc k v E Hk). naive_solver.
  - split; by intros [? ?].
Qed.

Lemma insert_block_spec d b :
  ∃ d' v, insert_block d b = Ret d' ∧ deserialize v = Some b ∧
    contents d' = <[b_id b := v]> (contents d).
Proof.
  unfold insert_block. destruct (bincode_roundtrip b) as (v & -> & Hv). simpl.
  destruct (db_insert_spec d (b_id b) v) as (d' & -> & Hd). simpl. eauto.
Qed.

(** Storing a block that fits the tree keeps the store well-formed. *)
Lemma insert_block_wf c b d' v :
  chain_wf c → deserialize v = Some b → is_id (b_id b) →
  contents d' = <[b_id b := v]> (contents (c_db c)) →
  is_Some (t_blocks (abs c) !! b_next b) →
  (b_id b = BlockId_new 0 ∧ b_next b = b_id b ∨ be_val (b_next b) < be_val (b_id b)) →
  ∀ gen,
  let c' := {| c_db := d'; id_gen := gen; c_commit := c_commit c; c_head := b_id b |} in
  chain_wf c' ∧ abs c' = tree_extend b (abs c).
Proof.
  intros Hc Hv Hid Hd Hnext Hlt gen c'. pose proof (wf_tree c Hc) as Ht.
  assert (abs c' = tree_extend b (abs c)) as Habs.
  { unfold abs, tree_extend, c'. simpl. rewrite Hd. f_equal.
    by apply omap_insert_Some. }
  split; [|done]. split.
  - rewrite Habs. destruct Ht as [Hb Hg Hh Hcm]. simpl in *.
    assert (∀ k, is_Some (t_blocks (abs c) !! k) →
      is_Some (<[b_id b:=b]> (t_blocks (abs c)) !! k)) as Hmono.
    { intros k Hk. rewrite lookup_insert. case_decide; [by eexists|done]. }
    split; simpl; [|by apply Hmono|by rewrite lookup_insert_eq; eexists|by apply Hmono].
    intros k b' Hk. rewrite lookup_insert in Hk. case_decide as Hkb.
    + injection Hk as <-. subst k. split_and!; auto.
    + apply Hb in Hk as (? & ? & ? & ?). split_and!; auto.
  - intros k v'. simpl. rewrite Hd, lookup_insert. case_decide; [|by apply (wf_decodes c Hc)].
    intros [= <-] _. by eexists.
  - simpl. rewrite Hd, lookup_insert_ne by (by apply is_id_not_commit).
    apply (wf_commit_entry c Hc).
Qed.

Lemma append_branch c data :
  let n := gen_id (id_gen c) in
  chain_wf c → 0 ≤ n < id_limit →
  if be_val (c_head c) <? n then
    ∃ c', chain_append c {| u_data := data |} = Ret (BlockId_new n, c') ∧
      chain_wf c' ∧ abs c' = tree_append (BlockId_new n) data (abs c) ∧
      gen_id (id_gen c') = n + 1
  else chain_append c {| u_data := data |} = Panic.
Proof.
  intros n Hc Hn. destruct (is_id_new n Hn) as [Hid Hval].
  pose proof (tree_is_id _ _ (wf_tree c Hc) (wf_head _ (wf_tree c Hc))) as Hhead.
  unfold chain_append. cbn [IdGenerator_next]. fold n. cbn [u_data].
  change (t_head (abs c)) with (c_head c) in Hhead.
  rewrite is_id_ltb, Hval by done. destruct (Z.ltb_spec (be_val (c_head c)) n); [|done].
  simpl.
  edestruct (insert_block_spec (c_db c)) as (d' & v & -> & Hv & Hd). simpl.
  eexists. split; [done|].
  edestruct (insert_block_wf c _ d' v Hc Hv) as [? Habs]; simpl; eauto using wf_head, wf_tree.
  - apply (wf_head _ (wf_tree c Hc)).
  - right. by rewrite Hval.
  - split_and!; [done|exact Habs|]. simpl. apply u64_wrapping_add_small.
    unfold u64_limit, id_limit in *. lia.
Qed.

Lemma extend_branch c b :
  chain_wf c → is_id (b_id b) → be_val (b_next b) < be_val (b_id b) →
  b_next b ≠ commit_key →
  match t_blocks (abs c) !! b_next b with
  | Some _ => ∃ c', chain_extend c b = Ret c' ∧ chain_wf c' ∧
      abs c' = tree_extend b (abs c) ∧ id_gen c' = id_gen c
  | None => chain_extend c b = Err (ErrBlockNotFound (b_next b))
  end.
Proof.
  intros Hc Hid Hlt Hk. pose proof (contains_block c (b_next b) Hc Hk) as Hcont.
  unfold chain_extend, chain_has. rewrite db_contains_key_spec.
  destruct (t_blocks (abs c) !! b_next b) as [p|] eqn:E; simpl.
  - rewrite bool_decide_eq_true_2 by (by apply Hcont; eexists). simpl.
    edestruct (insert_block_spec (c_db c) b) as (d' & v & -> & Hv & Hd). simpl.
    destruct (insert_block_wf c b d' v Hc Hv Hid Hd ltac:(by eexists) ltac:(by right)
      (id_gen c)). eauto.
  - rewrite bool_decide_eq_false_2; [done|]. rewrite Hcont. by intros [? ?].
Qed.

Lemma commit_branch c k :
  chain_wf c → k ≠ commit_key →
  match t_blocks (abs c) !! k with
  | Some _ => ∃ c', chain_commit c k = Ret (k, c') ∧ chain_wf c' ∧
      abs c' = tree_commit k (abs c) ∧ id_gen c' = id_gen c ∧
      contents (c_db c') !! commit_key = Some k
  | None => chain_commit c k = Panic
  end.
Proof.
  intros Hc Hk. pose proof (contains_block c k Hc Hk) as Hcont.
  unfold chain_commit. rewrite db_contains_key_spec.
  destruct (t_blocks (abs c) !! k) as [p|] eqn:E; simpl.
  - rewrite bool_decide_eq_true_2 by (by apply Hcont; eexists). simpl.
    destruct (db_insert_spec (c_db c) commit_key k) as (d' & -> & Hd). simpl.
    eexists. split; [done|].
    assert (is_id k) as Hid.
    { eapply tree_is_id; [apply wf_tree, Hc|by eexists]. }
    assert (abs {| c_db := d'; id_gen := id_gen c; c_commit := k; c_head := c_head c |}
      = tree_commit k (abs c)) as Habs.
    { unfold abs, tree_commit. simpl. f_equal. rewrite Hd.
      rewrite omap_insert_None by (apply bincode_short; destruct Hid as [-> _]; lia).
      rewrite delete_id; [done|]. rewrite lookup_omap.
      destruct (wf_commit_entry c Hc) as [-> |[-> _]]; [|done]. simpl. apply bincode_short.
      destruct (tree_is_id _ _ (wf_tree c Hc) (wf_commit _ (wf_tree c Hc))) as [Hl _].
      simpl in Hl. rewrite Hl. lia. }
    simpl. split_and!; [|done|done|by rewrite Hd, lookup_insert_eq].
    split.
    + rewrite Habs. destruct (wf_tree c Hc) as [Hb Hg Hh _]. split; simpl; eauto.
    + intros k' v'. simpl. rewrite Hd. intros H' ?. rewrite lookup_insert_ne in H' by done.
      by eapply wf_decodes.
    + simpl. left. by rewrite Hd, lookup_insert_eq.
  - rewrite bool_decide_eq_false_2; [done|]. rewrite Hcont. by intros [? ?].
Qed.

(** *** Opening the store *)
Definition genesis : Block := {| b_id := BlockId_new 0; b_next := BlockId_new 0; b_data := [] |}.

Lemma is_id_zero : is_id (BlockId_new 0) ∧ be_val (BlockId_new 0) = 0.
Proof. apply is_id_new. unfold id_limit. lia. Qed.

Lemma commit_is_id c : chain_wf c → is_id (c_commit c).
Proof. intros Hc. apply (tree_is_id (abs c)); apply wf_tree, Hc || apply (wf_commit _ (wf_tree c Hc)). Qed.

Lemma head_is_id c : chain_wf c → is_id (c_head c).
Proof. intros Hc. apply (tree_is_id (abs c)); apply wf_tree, Hc || apply (wf_head _ (wf_tree c Hc)). Qed.

Lemma open_fresh d :
  contents d = ∅ →
  ∃ c, chain_new d = Ret c ∧ chain_wf c ∧ gen_id (id_gen c) = 1 ∧
    abs c = {| t_blocks := {[BlockId_new 0 := genesis]};
               t_head := BlockId_new 0; t_commit := BlockId_new 0 |}.
Proof.
  intros Hd. unfold chain_new. rewrite db_get_spec, Hd, lookup_empty. simpl.
  unfold chain_init. simpl.
  destruct (insert_block_spec d genesis) as (d' & v & Hi & Hv & Hd').
  fold genesis. rewrite Hi. simpl. eexists. split; [done|].
  assert (abs {| c_db := d'; id_gen := {| gen_id := u64_wrapping_add 0 1 |};
    c_commit := BlockId_new 0; c_head := BlockId_new 0 |} =
    {| t_blocks := {[BlockId_new 0 := genesis]};
       t_head := BlockId_new 0; t_commit := BlockId_new 0 |}) as Habs.
  { unfold abs. simpl. f_equal. rewrite Hd', Hd.
    erewrite omap_insert_Some by done. by rewrite omap_empty. }
  split_and!; [|done|done].
  split.
  - rewrite Habs. split; simpl; [|by rewrite lookup_singleton_eq; eexists..].
    intros k b [<- <-]%lookup_singleton_Some. simpl. pose proof is_id_zero.
    rewrite lookup_singleton_eq. naive_solver.
  - simpl. intros k v'. rewrite Hd', Hd, lookup_insert. case_decide; [|done].
    intros [= <-] _. by eexists.
  - simpl. right. split; [|done]. rewrite Hd', Hd. simpl.
    by rewrite lookup_insert_ne, lookup_empty by (apply is_id_not_commit, is_id_zero).
Qed.

Lemma open_committed c :
  chain_wf c → 0 < be_val (c_commit c) →
  chain_new (c_db c) = Ret {| c_db := c_db c;
    id_gen := IdGenerator_new (be_val (c_commit c));
    c_commit := c_commit c; c_head := c_commit c |}.
Proof.
  intros Hc Hpos. pose proof (commit_is_id c Hc) as Hid. unfold chain_new.
  rewrite db_get_spec. destruct (wf_commit_entry c Hc) as [-> |[_ E]].
  - simpl. unfold u64_from_be_bytes. rewrite decide_True by apply Hid. simpl.
    rewrite <-is_id_val by done. by rewrite (proj2 (Z.eqb_neq _ _)) by lia.
  - rewrite E in Hpos. rewrite (proj2 is_id_zero) in Hpos. lia.
Qed.

(** *** Ranges *)
Definition id_lt (b1 b2 : Block) : Prop := be_val (b_id b1) < be_val (b_id b2).

(** What a range yields: the stored blocks of the range, oldest first. *)
Definition range_of (c : Chain) (lo hi : bound) (l : list Block) : Prop :=
  StronglySorted id_lt l ∧
  ∀ b, b ∈ l ↔ t_blocks (abs c) !! b_id b = Some b ∧ in_range lo hi (b_id b) = true.

Lemma decode_entries c lo hi :
  chain_wf c → in_range lo hi commit_key = false →
  ∃ l, Forall2 (λ e b, deserialize e.2 = Some b ∧ b_id b = e.1)
         (entries lo hi (contents (c_db c))) l ∧ range_of c lo hi l.
Proof.
  intros Hc Hr. set (L := entries lo hi (contents (c_db c))).
  assert (Forall (λ e, ∃ b, deserialize e.2 = Some b ∧ b_id b = e.1 ∧ is_id e.1) L) as HL.
  { apply Forall_forall. intros [k v] [Hk Hin]%elem_of_entries. cbn [fst snd] in *.
    destruct (wf_decodes c Hc k v Hk) as [b Hb]; [congruence|].
    assert (t_blocks (abs c) !! k = Some b) as Hkb by (by rewrite abs_blocks_lookup, Hk).
    apply (wf_block _ (wf_tree c Hc)) in Hkb as (? & ? & _). eauto. }
  assert (StronglySorted key_lt L) as HS by apply entries_sorted.
  assert (∃ l, Forall2 (λ e b, deserialize e.2 = Some b ∧ b_id b = e.1) L l ∧
    StronglySorted id_lt l) as (l & Hl & Hs).
  { clear Hr. induction HS as [|e L' HS IH He]; [by exists []; repeat constructor|].
    apply Forall_cons in HL as [(b & Hb & Hbe & Hid) HL'].
    destruct (IH HL') as (l & Hl & Hs). exists (b :: l). split; [by constructor|].
    constructor; [done|]. apply Forall_forall. intros b' Hb'.
    apply list_elem_of_lookup in Hb' as [i Hi].
    destruct (Forall2_lookup_r _ _ _ _ _ Hl Hi) as (e' & He' & _ & Hbe').
    pose proof (Forall_lookup_1 _ _ _ _ He He') as Hlt.
    destruct (Forall_lookup_1 _ _ _ _ HL' He') as (_ & _ & _ & Hid').
    unfold key_lt in Hlt. rewrite is_id_ltb, <-Hbe, <-Hbe' in Hlt by done.
    unfold id_lt. lia. }
  exists l. split; [done|]. split; [done|]. intros b. split.
  - intros [i Hi]%list_elem_of_lookup.
    destruct (Forall2_lookup_r _ _ _ _ _ Hl Hi) as ([k v] & Hk & Hv & Hbk). cbn [fst snd] in *.
    apply list_elem_of_lookup_2, elem_of_entries in Hk as [Hk Hin].
    cbn [fst snd] in *. subst k.
    by rewrite abs_blocks_lookup, Hk.
  - intros [Hb Hin]. rewrite abs_blocks_lookup in Hb.
    destruct (contents (c_db c) !! b_id b) as [v|] eqn:E; [|done]. simpl in Hb.
    assert ((b_id b, v) ∈ L) as Hv by (by apply elem_of_entries).
    apply list_elem_of_lookup in Hv as [i Hi].
    destruct (Forall2_lookup_l _ _ _ _ _ Hl Hi) as (b' & Hb' & Hd & _). simpl in Hd.
    apply list_elem_of_lookup. exists i. congruence.
Qed.

Lemma decode_Forall2 (L : list entry) l :
  Forall2 (λ e b, deserialize e.2 = Some b ∧ b_id b = e.1) L l →
  (λ o, e ← unwrap_result o; unwrap (deserialize e.2)) <$> ((Ret : entry → outcome entry) <$> L)
    = (Ret : Block → outcome Block) <$> l.
Proof.
  induction 1 as [|e b L l [Hb _] _ IH]; [done|]. cbn in *. rewrite IH, Hb. done.
Qed.

Lemma range_blocks c lo hi :
  chain_wf c → in_range lo hi commit_key = false →
  ∃ l, chain_range c lo hi = Ret <$> l ∧ range_of c lo hi l.
Proof.
  intros Hc Hr. destruct (decode_entries c lo hi Hc Hr) as (l & Hl & Hlr).
  exists l. split; [|done]. unfold chain_range. rewrite db_range_spec.
  by apply decode_Forall2.
Qed.

(** A range that is open above runs into the commit entry. *)
Lemma range_open c k :
  chain_wf c → is_id k → contents (c_db c) !! commit_key = Some (c_commit c) →
  ∃ l, chain_range c (Included k) Unbounded = (Ret <$> l) ++ [Panic] ∧
    range_of c (Included k) (Excluded commit_key) l.
Proof.
  intros Hc Hk Hcommit.
  destruct (decode_entries c (Included k) (Excluded commit_key) Hc) as (l & Hl & Hlr).
  { unfold in_range. simpl. by rewrite bytes_ltb_irrefl, andb_false_r. }
  exists l. split; [|done].
  unfold chain_range. rewrite db_range_spec.
  assert (entries (Included k) Unbounded (contents (c_db c)) =
    entries (Included k) (Excluded commit_key) (contents (c_db c)) ++ [(commit_key, c_commit c)])
    as ->.
  { apply entries_unique.
    - pose proof (entries_sorted (Included k) (Excluded commit_key) (contents (c_db c))) as HS.
      apply (StronglySorted_app_2 key_lt); [|done|repeat constructor].
      intros e1 e2 He1 ->%list_elem_of_singleton.
      apply elem_of_entries in He1 as [_ He1]. by apply andb_true_iff in He1 as [_ He1].
    - intros [k' v']. rewrite elem_of_app, elem_of_entries, list_elem_of_singleton.
      unfold in_range. cbn [fst snd above below].
      assert (bytes_leb k commit_key = true) as Hkc
        by (apply bytes_leb_lt_eq; left; by apply is_id_below_commit).
      split.
      + intros [[? H]|[= -> ->]]; [|by rewrite Hkc].
        apply andb_true_iff in H as [-> _]. done.
      + intros [Hv H]. rewrite andb_true_r in H.
        destruct (decide (k' = commit_key)) as [->|Hne]; [right; congruence|].
        left. split; [done|]. rewrite H. simpl. apply is_id_below_commit.
        assert (is_Some (t_blocks (abs c) !! k')) as [b Hb]
          by (apply (contains_block c k' Hc Hne); by eexists).
        eapply tree_is_id; [apply (wf_tree c Hc)|by eexists]. }
  rewrite !fmap_app, (decode_Forall2 _ _ Hl). simpl. rewrite bincode_short; [done|].
  destruct (commit_is_id c Hc) as [-> _]. lia.
Qed.
End Laws.

(** ** Walking back to the genesis block *)
Lemma walk_spec t fuel k :
  tree_wf t → is_Some (t_blocks t !! k) → (Z.to_nat (be_val k) < fuel)%nat →
  head (walk fuel (t_blocks t) k) = Some k ∧
  last (walk fuel (t_blocks t) k) = Some (BlockId_new 0) ∧
  Forall (λ k', is_Some (t_blocks t !! k') ∧ be_val k' ≤ be_val k) (walk fuel (t_blocks t) k) ∧
  StronglySorted (λ k1 k2, be_val k2 < be_val k1) (walk fuel (t_blocks t) k).
Proof.
  intros Ht. revert k. induction fuel as [|fuel IH]; intros k [b Hb] Hf; [lia|].
  simpl. rewrite Hb. destruct (wf_block t Ht k b Hb) as (_ & Hid & Hnext & Hlt).
  case_decide as Hnk.
  - destruct Hlt as [[-> _]|Hlt]; [|rewrite Hnk in Hlt; lia].
    split_and!; [done|done|by repeat constructor; eauto|repeat constructor].
  - destruct Hlt as [[_ ?]|Hlt]; [done|].
    pose proof (be_val_range (b_next b)).
    destruct (IH (b_next b) Hnext ltac:(lia)) as (H1 & H2 & H3 & H4).
    split_and!; [done| | |].
    + by destruct (walk fuel (t_blocks t) (b_next b)).
    + constructor; [split; [by eexists|lia]|].
      eapply Forall_impl; [exact H3|]. intros k' [? ?]. split; [done|lia].
    + constructor; [done|]. eapply Forall_impl; [exact H3|]. intros k' [_ ?]. lia.
Qed.

(** A write to a key off the walk does not change the walk. *)
Lemma walk_insert fuel bs k k' b :
  k' ∉ walk fuel bs k → is_Some (bs !! k) → (∀ x y, bs !! x = Some y → is_Some (bs !! b_next y)) →
  walk fuel (<[k':=b]> bs) k = walk fuel bs k.
Proof.
  revert k. induction fuel as [|fuel IH]; intros k Hk [x Hx] Hcl; [done|].
  simpl in *. rewrite Hx in Hk |- *.
  rewrite lookup_insert_ne, Hx by set_solver.
  case_decide; [done|]. f_equal. apply IH; [set_solver|by eapply Hcl|done].
Qed.

(** ** Compaction *)
Section Compact.
Context {SLED : Sled} {BINC : Bincode Block}
  {SLAWS : SledLaws} {BLAWS : BincodeLaws Block} {BMIN : BincodeMin Block 24}.

(** Adjacent blocks of an oldest-first list are linked by [next]. *)
Definition linked (l : list Block) : Prop :=
  ∀ i b1 b2, l !! i = Some b1 → l !! S i = Some b2 → b_next b2 = b_id b1.

Lemma linked_cons_inv b l : linked (b :: l) → linked l.
Proof. intros H i b1 b2 H1 H2. by apply (H (S i)). Qed.

Lemma linked_snoc_inv b l : linked (l ++ [b]) → linked l.
Proof.
  intros H i b1 b2 H1 H2. apply (H i); apply lookup_app_l_Some; done.
Qed.

Lemma linked_last l b' b : linked ((l ++ [b']) ++ [b]) → b_next b = b_id b'.
Proof.
  intros Hl. apply (Hl (length l)).
  - rewrite <-app_assoc. by rewrite lookup_app_r, Nat.sub_diag by lia.
  - rewrite lookup_app_r by (rewrite length_app; simpl; lia).
    rewrite length_app. simpl. by replace (S (length l) - (length l + 1))%nat with 0%nat by lia.
Qed.

Lemma compact_loop c l b n :
  linked (l ++ [b]) → b_id b = n →
  ∃ x, ofold compact_step (c, Some n) ((Ret : Block → _) <$> reverse (l ++ [b])) = Ret (c, x).
Proof.
  revert b n. induction l as [|b' l IH] using rev_ind; intros b n Hl <-.
  - simpl. rewrite decide_True by done. simpl. eauto.
  - rewrite reverse_snoc. cbn [fmap list_fmap ofold].
    unfold mbind at 1, outcome_bind. unfold compact_step at 1. cbn [mbind outcome_bind].
    rewrite decide_True by done. apply IH; [by eapply linked_snoc_inv|].
    symmetry. by eapply linked_last.
Qed.

Lemma compact_none c l :
  chain_range c (Included (BlockId_new 0)) (Excluded (c_commit c)) = Ret <$> l →
  linked l → chain_compact c = Ret c.
Proof.
  intros Hr Hl. unfold chain_compact, chain_get_commit. rewrite Hr, <-fmap_reverse.
  destruct l as [|b l _] using rev_ind; [done|].
  destruct l as [|b' l _] using rev_ind; [done|].
  rewrite reverse_snoc. cbn [fmap list_fmap ofold].
  unfold compact_step at 2. cbn [mbind outcome_bind].
  destruct (compact_loop c l b' (b_next b)) as [x ->]; [by eapply linked_snoc_inv| |done].
  symmetry. by eapply linked_last.
Qed.

Lemma range_below_commit lo k :
  is_id k → in_range lo (Excluded k) commit_key = false ∧
    in_range lo (Included k) commit_key = false.
Proof.
  intros Hk. unfold in_range. simpl.
  pose proof (is_id_below_commit k Hk) as Hlt.
  rewrite bytes_leb_ltb, Hlt. split; [|by rewrite andb_false_r].
  replace (bytes_ltb commit_key k) with false; [by rewrite andb_false_r|].
  symmetry. apply not_true_iff_false. intros H.
  pose proof (bytes_lt_trans _ _ _ H Hlt). by rewrite bytes_ltb_irrefl in *.
Qed.
End Compact.

(** ** An executable instance *)
Definition mem_block_bincode : Bincode Block := {|
  serialize b := Ret (put_bytes (b_id b) ++ put_bytes (b_next b) ++ put_bytes (b_data b));
  deserialize v :=
    '(id, v) ← get_bytes v; '(next, v) ← get_bytes v; '(data, _) ← get_bytes v;
    Some {| b_id := id; b_next := next; b_data := data |};
|}.

Lemma mem_block_bincode_laws : @BincodeLaws Block mem_block_bincode.
Proof.
  split. intros [id next data]. eexists. split; [done|]. simpl.
  rewrite get_put_bytes. simpl. rewrite get_put_bytes. simpl.
  rewrite <-(app_nil_r (put_bytes data)). by rewrite get_put_bytes.
Qed.

Lemma mem_block_bincode_min : @BincodeMin Block mem_block_bincode 24.
Proof.
  split. intros v Hv. simpl.
  destruct (get_bytes v) as [[id v1]|] eqn:E1; [|done]. simpl.
  destruct (get_bytes v1) as [[next v2]|] eqn:E2; [|done]. simpl.
  destruct (get_bytes v2) as [[data v3]|] eqn:E3; [|done]. simpl.
  apply get_bytes_length in E1, E2, E3. lia.
Qed.

Definition mem_empty : @db mem_sled := (∅ : gmap bytes bytes).

(** The chain of a node that starts on an empty directory. *)
Definition mem_chain : @Chain mem_sled := @Build_Chain mem_sled
  (<[BlockId_new 0 := put_bytes (BlockId_new 0) ++ put_bytes (BlockId_new 0) ++ put_bytes []]>
     (∅ : gmap bytes bytes))
  {| gen_id := 1 |} (BlockId_new 0) (BlockId_new 0).

Lemma mem_chain_new : @chain_new mem_sled mem_block_bincode mem_empty = Ret mem_chain.
Proof. reflexivity. Qed.

Lemma mem_chain_wf : @chain_wf mem_sled mem_block_bincode mem_sled_laws mem_chain.
Proof.
  destruct (@open_fresh mem_sled mem_block_bincode mem_sled_laws mem_block_bincode_laws
    mem_empty eq_refl) as (c & Hc & Hwf & _).
  rewrite mem_chain_new in Hc. by injection Hc as <-.
Qed.

Lemma mem_chain_abs : @abs mem_sled mem_block_bincode mem_sled_laws mem_chain =
  {| t_blocks := {[BlockId_new 0 := genesis]}; t_head := BlockId_new 0; t_commit := BlockId_new 0 |}.
Proof.
  destruct (@open_fresh mem_sled mem_block_bincode mem_sled_laws mem_block_bincode_laws
    mem_empty eq_refl) as (c & Hc & _ & _ & Habs).
  rewrite mem_chain_new in Hc. by injection Hc as <-.
Qed.

(** ** Properties *)
Section Properties.
Context {SLED : Sled} {BINC : Bincode Block}
  {SLAWS : SledLaws} {BLAWS : BincodeLaws Block} {BMIN : BincodeMin Block 24}.

(** C13: [append] refines the block tree.  On a well-formed chain whose id
    generator stands at [n]: if [n] is above the head, the block is stored under
    id [n] with the old head as its predecessor, it becomes the head, every other
    block and the commit stay, and the chain stays well-formed; otherwise
    the assertion panics. *)
Theorem chain_append_refines c data :
  let n := gen_id (id_gen c) in
  chain_wf c → 0 ≤ n < id_limit →
  if be_val (c_head c) <? n then
    ∃ c', chain_append c {| u_data := data |} = Ret (BlockId_new n, c') ∧
      chain_wf c' ∧ abs c' = tree_append (BlockId_new n) data (abs c) ∧
      gen_id (id_gen c') = n + 1
  else chain_append c {| u_data := data |} = Panic.
Proof. apply append_branch. Qed.

(** C15: [extend] refines the block tree.  A block whose predecessor is stored is
    stored under its own id and becomes the head; a block whose predecessor is
    not stored is refused with an error that names the missing predecessor. *)
Theorem chain_extend_refines c b :
  chain_wf c → is_id (b_id b) → is_id (b_next b) → be_val (b_next b) < be_val (b_id b) →
  match t_blocks (abs c) !! b_next b with
  | Some _ => ∃ c', chain_extend c b = Ret c' ∧ chain_wf c' ∧
      abs c' = tree_extend b (abs c) ∧ id_gen c' = id_gen c
  | None => chain_extend c b = Err (ErrBlockNotFound (b_next b))
  end.
Proof. intros. by apply extend_branch; auto using is_id_not_commit. Qed.

(** C14: [commit] moves the commit to a stored block, durably: reopening the
    store afterwards gives a chain with that commit; committing a block that
    is not stored panics. *)
Theorem chain_commit_durable c k :
  chain_wf c → is_id k → 0 < be_val k →
  match t_blocks (abs c) !! k with
  | Some _ => ∃ c' c'', chain_commit c k = Ret (k, c') ∧ chain_wf c' ∧
      abs c' = tree_commit k (abs c) ∧
      chain_new (c_db c') = Ret c'' ∧ chain_get_commit c'' = k ∧
      t_blocks (abs c'') = t_blocks (abs c)
  | None => chain_commit c k = Panic
  end.
Proof.
  intros Hc Hk Hpos. pose proof (commit_branch c k Hc (is_id_not_commit k Hk)) as H.
  destruct (t_blocks (abs c) !! k) eqn:E; [|done].
  destruct H as (c' & Hrun & Hwf & Habs & _ & _).
  assert (c_commit c' = k) as Hck by (by apply (f_equal t_commit) in Habs).
  do 2 eexists. split_and!; [done|done|done| | |].
  - apply open_committed; [done|]. by rewrite Hck.
  - done.
  - by apply (f_equal t_blocks) in Habs.
Qed.

(** A range of the chain that ends at a block id yields, without panicking,
    exactly the stored blocks of the range, each once, oldest first. *)
Theorem chain_range_exact c lo k :
  chain_wf c → is_id k →
  (∃ l, chain_range c lo (Excluded k) = Ret <$> l ∧ range_of c lo (Excluded k) l) ∧
  (∃ l, chain_range c lo (Included k) = Ret <$> l ∧ range_of c lo (Included k) l).
Proof.
  intros Hc Hk. destruct (range_below_commit lo k Hk).
  split; by apply range_blocks.
Qed.

(** From the head of a well-formed chain the [next] pointers lead, through
    strictly older stored blocks, to the genesis block; as many steps as the
    number of the head are enough. *)
Theorem chain_walk_to_genesis c fuel :
  chain_wf c → (Z.to_nat (be_val (c_head c)) < fuel)%nat →
  let path := walk fuel (t_blocks (abs c)) (c_head c) in
  head path = Some (c_head c) ∧ last path = Some (BlockId_new 0) ∧
  Forall (λ k, is_Some (t_blocks (abs c) !! k)) path ∧
  StronglySorted (λ k1 k2, be_val k2 < be_val k1) path.
Proof.
  intros Hc Hf. destruct (walk_spec (abs c) fuel (c_head c) (wf_tree c Hc)) as (?&?&Hs&?).
  - apply (wf_head _ (wf_tree c Hc)).
  - done.
  - split_and!; [done|done| |done]. eapply Forall_impl; [exact Hs|]. naive_solver.
Qed.

(** A node that restarts after a commit cannot append: [Chain::new] sets both
    the id generator and the head to the committed id, so the first [append]
    fails its assertion and panics, whatever the data. *)
Theorem append_after_restart_panics c data :
  chain_wf c → 0 < be_val (c_commit c) →
  ∃ c', chain_new (c_db c) = Ret c' ∧ chain_append c' {| u_data := data |} = Panic.
Proof.
  intros Hc Hpos. eexists. split; [by apply open_committed|].
  unfold chain_append. cbn [id_gen IdGenerator_next IdGenerator_new gen_id c_head].
  rewrite <-is_id_val by (by apply commit_is_id). by rewrite bytes_ltb_irrefl.
Qed.

(** [compact] leaves a chain without dead branches as it is: if each stored
    block below the commit is the predecessor of the next one, no block is
    removed. *)
Theorem chain_compact_linear c :
  chain_wf c →
  (∀ l, range_of c (Included (BlockId_new 0)) (Excluded (c_commit c)) l → linked l) →
  chain_compact c = Ret c.
Proof.
  intros Hc Hl. destruct (range_below_commit (Included (BlockId_new 0)) (c_commit c)) as [Hr _].
  { by apply commit_is_id. }
  destruct (range_blocks c _ _ Hc Hr) as (l & Hrun & Hof).
  apply (compact_none c l Hrun), Hl, Hof.
Qed.
End Properties.

(** ** Witnesses *)
Section Witnesses.
#[local] Existing Instance mem_sled.
#[local] Existing Instance mem_sled_laws.
#[local] Existing Instance mem_block_bincode.
#[local] Existing Instance mem_block_bincode_laws.
#[local] Existing Instance mem_block_bincode_min.

Definition mk_block (id next : Z) (data : bytes) : Block :=
  {| b_id := BlockId_new id; b_next := BlockId_new next; b_data := data |}.

(** The chain after one append and its commit. *)
Definition mem_chain1 : Chain :=
  match chain_append mem_chain {| u_data := [x2a] |} with Ret (_, c) => c | _ => mem_chain end.
Definition mem_chain1c : Chain :=
  match chain_commit mem_chain1 (BlockId_new 1) with Ret (_, c) => c | _ => mem_chain end.

Lemma mem_chain1_spec :
  chain_wf mem_chain1 ∧ abs mem_chain1 = tree_append (BlockId_new 1) [x2a] (abs mem_chain).
Proof.
  pose proof (append_branch mem_chain [x2a] mem_chain_wf ltac:(vm_compute; split; congruence)) as H.
  change (be_val (c_head mem_chain) <? gen_id (id_gen mem_chain)) with true in H.
  destruct H as (c' & Hrun & Hwf & Habs & _). unfold mem_chain1. by rewrite Hrun.
Qed.

Lemma mem_chain1_wf : chain_wf mem_chain1.
Proof. apply mem_chain1_spec. Qed.

Lemma mem_chain1c_spec :
  chain_wf mem_chain1c ∧ abs mem_chain1c = tree_commit (BlockId_new 1) (abs mem_chain1).
Proof.
  pose proof (commit_branch mem_chain1 (BlockId_new 1) mem_chain1_wf ltac:(done)) as H.
  change (t_blocks (abs mem_chain1) !! BlockId_new 1) with (Some (mk_block 1 0 [x2a])) in H.
  destruct H as (c' & Hrun & Hwf & Habs & _). unfold mem_chain1c. by rewrite Hrun.
Qed.

Lemma mem_chain1c_wf : chain_wf mem_chain1c.
Proof. apply mem_chain1c_spec. Qed.

Lemma mem_chain1c_newest k : is_Some (t_blocks (abs mem_chain1c) !! k) → be_val k ≤ 1.
Proof.
  rewrite (proj2 mem_chain1c_spec). cbn [tree_commit t_blocks]. rewrite (proj2 mem_chain1_spec).
  cbn [tree_append t_blocks]. rewrite mem_chain_abs. cbn [t_blocks t_head].
  rewrite lookup_insert. case_decide as H1; [subst k; intros _; reflexivity|].
  rewrite lookup_singleton. case_decide as H0; [|by intros []].
  rewrite <-H0, (proj2 is_id_zero). lia.
Qed.

Lemma is_id_1 : is_id (BlockId_new 1).
Proof. apply is_id_new. vm_compute. split; congruence. Qed.

Lemma chain_append_refines_witness :
  ∃ c', chain_append mem_chain {| u_data := [x2a] |} = Ret (BlockId_new 1, c') ∧
    chain_wf c' ∧ abs c' = tree_append (BlockId_new 1) [x2a] (abs mem_chain) ∧
    gen_id (id_gen c') = 2.
Proof.
  pose proof (chain_append_refines mem_chain [x2a] mem_chain_wf
    ltac:(vm_compute; split; congruence)) as H.
  change (be_val (c_head mem_chain) <? gen_id (id_gen mem_chain)) with true in H.
  exact H.
Defined.

Lemma chain_extend_refines_witness :
  ∃ c', chain_extend mem_chain (mk_block 1 0 [x07]) = Ret c' ∧ chain_wf c' ∧
    abs c' = tree_extend (mk_block 1 0 [x07]) (abs mem_chain) ∧ id_gen c' = id_gen mem_chain.
Proof.
  pose proof (chain_extend_refines mem_chain (mk_block 1 0 [x07]) mem_chain_wf
    is_id_1 (proj1 is_id_zero) ltac:(by vm_compute)) as H.
  change (t_blocks (abs mem_chain) !! b_next (mk_block 1 0 [x07])) with (Some genesis) in H.
  exact H.
Defined.

Lemma chain_commit_durable_witness :
  ∃ c' c'', chain_commit mem_chain1 (BlockId_new 1) = Ret (BlockId_new 1, c') ∧ chain_wf c' ∧
    abs c' = tree_commit (BlockId_new 1) (abs mem_chain1) ∧
    chain_new (c_db c') = Ret c'' ∧ chain_get_commit c'' = BlockId_new 1 ∧
    t_blocks (abs c'') = t_blocks (abs mem_chain1).
Proof.
  pose proof (chain_commit_durable mem_chain1 (BlockId_new 1) mem_chain1_wf is_id_1
    ltac:(by vm_compute)) as H.
  change (t_blocks (abs mem_chain1) !! BlockId_new 1) with (Some (mk_block 1 0 [x2a])) in H.
  exact H.
Defined.

Lemma chain_range_exact_witness :
  (∃ l, chain_range mem_chain1c Unbounded (Excluded (BlockId_new 1)) = Ret <$> l ∧
     range_of mem_chain1c Unbounded (Excluded (BlockId_new 1)) l) ∧
  (∃ l, chain_range mem_chain1c Unbounded (Included (BlockId_new 1)) = Ret <$> l ∧
     range_of mem_chain1c Unbounded (Included (BlockId_new 1)) l).
Proof. exact (chain_range_exact mem_chain1c Unbounded (BlockId_new 1) mem_chain1c_wf is_id_1). Defined.

Lemma chain_walk_to_genesis_witness :
  last (walk 2 (t_blocks (abs mem_chain1)) (c_head mem_chain1)) = Some (BlockId_new 0).
Proof.
  exact (proj1 (proj2 (chain_walk_to_genesis mem_chain1 2 mem_chain1_wf
    ltac:(apply Nat.leb_le; by vm_compute)))).
Defined.

Lemma append_after_restart_panics_witness :
  ∃ c', chain_new (c_db mem_chain1c) = Ret c' ∧ chain_append c' {| u_data := [x2a] |} = Panic.
Proof.
  exact (append_after_restart_panics mem_chain1c [x2a] mem_chain1c_wf ltac:(by vm_compute)).
Defined.

Lemma chain_compact_linear_witness : chain_compact mem_chain1c = Ret mem_chain1c.
Proof.
  apply (chain_compact_linear mem_chain1c mem_chain1c_wf).
  intros l [Hs Hl] i b1 b2 H1 H2. exfalso.
  assert (∀ b, b ∈ l → b_id b = BlockId_new 0) as H0.
  { intros b Hb. apply Hl in Hb as [Hb Hr].
    pose proof (tree_is_id _ _ (wf_tree _ mem_chain1c_wf) ltac:(by eexists; exact Hb)) as Hid.
    apply is_id_inj; [done|apply is_id_zero|].
    apply andb_true_iff in Hr as [_ Hr]. simpl in Hr.
    change (c_commit mem_chain1c) with (BlockId_new 1) in Hr.
    rewrite is_id_ltb in Hr by (done || apply is_id_1).
    pose proof (be_val_range (b_id b)). change (be_val (BlockId_new 1)) with 1 in Hr.
    rewrite (proj2 is_id_zero). lia. }
  assert (id_lt b1 b2) as Hlt.
  { clear -Hs H1 H2. revert i H1 H2. induction Hs as [|x l Hs IH Hx]; intros [|i] H1 H2; try done.
    - injection H1 as ->. rewrite Forall_lookup in Hx. by apply (Hx 0%nat).
    - by apply (IH i). }
  unfold id_lt in Hlt. rewrite (H0 b1), (H0 b2) in Hlt by (by eapply list_elem_of_lookup_2). lia.
Defined.

(** The branches 0-1-3-4 and 0-2, committed at 4. *)
Definition fork : outcome Chain :=
  c ← ofold chain_extend mem_chain
        [mk_block 1 0 []; mk_block 2 0 []; mk_block 3 1 []; mk_block 4 3 []];
  r ← chain_commit c (BlockId_new 4);
  Ret r.2.

(** [compact] can remove a live block.  With the branches 0-1-3-4 and 0-2 and
    the commit at 4, block 1 lies on the walk from the commit to the
    genesis block and is removed: the loop follows the [next] of the dead block
    2 that it has just removed. *)
Theorem compact_drops_live_block :
  ∃ c c', fork = Ret c ∧ chain_compact c = Ret c' ∧
    BlockId_new 1 ∈ walk 5 (t_blocks (abs c)) (c_commit c) ∧
    chain_has c (BlockId_new 1) = Ret true ∧ chain_has c' (BlockId_new 1) = Ret false.
Proof.
  exists (ret_or mem_chain fork), (ret_or mem_chain (chain_compact (ret_or mem_chain fork))).
  split_and!; [apply is_ret_or; by vm_compute|apply is_ret_or; by vm_compute| | |].
  - apply (bool_decide_eq_true_1 _). by vm_compute.
  - by vm_compute.
  - by vm_compute.
Qed.
End Witnesses.
