(* ===== verification/Rpc.v ===== *)
(** * Messages ([src/raft/rpc.rs], [src/raft/mod.rs], [src/raft/fsm.rs])

    The addresses, commands and messages the nodes exchange, and the
    instructions a node sends to the driver of its state machine. *)
From S2P Require Import Prelude Bytes Storage Chain.
Local Open Scope Z_scope.

(** [NodeId] is a [u32], [Term] and [LogIndex] are [u64], a request id is a
    [Uuid]. *)
Abbreviation NodeId := Z.
Abbreviation Term := Z.
Abbreviation LogIndex := Z.
Abbreviation ClientRequestId := Z.

Inductive Address : Type :=
| Peers
| Peer (id : NodeId)
| Local
| Client.

Record Proposal : Type := { proposal_get : bytes }.
Record Response : Type := { response_get : bytes }.
Inductive ResponseError : Type := response_error.

Record ClientRequest : Type := {
  req_id : ClientRequestId;
  req_address : Address;
  req_proposal : Proposal;
}.
Record ClientResponse : Type := {
  res_id : ClientRequestId;
  res_res : Response + ResponseError;
}.

Inductive Command : Type :=
| Tick
| Propose
| VoteRequest (term : Term) (candidate_id : NodeId) (last_term : Term) (head : BlockId)
| VoteResponse (term : Term) (from : NodeId) (granted : bool)
| AppendEntries (term : Term) (leader_id : NodeId) (blocks : list Block)
| AppendResponse (node_id : NodeId) (term : Term) (head : BlockId) (success : bool)
| Heartbeat (term : Term) (commit : BlockId) (leader_id : NodeId)
| HeartbeatResponse (commit : BlockId) (has_committed : bool)
| Timeout
| Noop
| ClientRequestCmd (req : ClientRequest)
| ClientResponseCmd (res : ClientResponse).

Record Message : Type := Message_new {
  msg_from : Address;
  msg_to : Address;
  msg_command : Command;
}.

(** Instructions to the driver of the state machine ([src/raft/fsm.rs]). *)
Inductive Instruction : Type :=
| Apply (block : Block)
| Notify (id : ClientRequestId) (client_address : Address) (block_id : BlockId).

#[global] Instance Address_eq_dec : EqDecision Address.
Proof. solve_decision. Defined.
#[global] Instance Proposal_eq_dec : EqDecision Proposal.
Proof. solve_decision. Defined.
#[global] Instance Response_eq_dec : EqDecision Response.
Proof. solve_decision. Defined.
#[global] Instance ResponseError_eq_dec : EqDecision ResponseError.
Proof. solve_decision. Defined.
#[global] Instance ClientRequest_eq_dec : EqDecision ClientRequest.
Proof. solve_decision. Defined.
#[global] Instance ClientResponse_eq_dec : EqDecision ClientResponse.
Proof. solve_decision. Defined.
#[global] Instance Command_eq_dec : EqDecision Command.
Proof. solve_decision. Defined.
#[global] Instance Message_eq_dec : EqDecision Message.
Proof. solve_decision. Defined.
#[global] Instance Instruction_eq_dec : EqDecision Instruction.
Proof. solve_decision. Defined.
