(* ===== verification/Election.v ===== *)
(** * Elections ([src/raft/election.rs])

    The votes a candidate has collected and the status it derives from them:
    what the status means in terms of the votes, that the equality test for
    defeat is exact on every election that is counted vote by vote, and that two
    won elections share a voter. *)
From S2P Require Import Prelude Rpc.

Record Election : Type := {
  voter_ids : list NodeId;
  votes : gmap NodeId bool;
}.

Inductive ElectionStatus : Type := Elected | Voting | Defeated.

#[global] Instance ElectionStatus_eq_dec : EqDecision ElectionStatus.
Proof. solve_decision. Defined.

Definition election_reset (e : Election) : Election :=
  {| voter_ids := voter_ids e; votes := ∅ |}.

Definition election_new (ids : list NodeId) : Election :=
  election_reset {| voter_ids := ids; votes := ∅ |}.

Definition election_vote (e : Election) (id : NodeId) (vote : bool) : Election :=
  {| voter_ids := voter_ids e; votes := <[id := vote]> (votes e) |}.

Definition voters_size (e : Election) : nat := length (voter_ids e).

Definition quorum_size (e : Election) : nat :=
  if (length (voter_ids e) =? 1)%nat then 0 else length (voter_ids e) / 2 + 1.

(** One turn of the fold over the votes: [(votes, total)]. *)
Definition tally (_ : NodeId) (vote : bool) (acc : nat * nat) : nat * nat :=
  let '(votes, total) := acc in
  ((if vote then votes + 1 else votes)%nat, (total + 1)%nat).

Definition election_status (e : Election) : ElectionStatus :=
  let '(votes, total) := map_fold tally (0, 0)%nat (votes e) in
  if (quorum_size e <=? votes)%nat then Elected
  else if (total - votes =? quorum_size e)%nat then Defeated
  else Voting.

(** ** Counting *)
Definition granted (e : Election) : gset NodeId :=
  dom (filter (λ p, p.2 = true) (votes e)).
Definition rejected (e : Election) : gset NodeId :=
  dom (filter (λ p, p.2 = false) (votes e)).

Lemma elem_of_granted e i : i ∈ granted e ↔ votes e !! i = Some true.
Proof.
  unfold granted. rewrite elem_of_dom. unfold is_Some.
  setoid_rewrite map_lookup_filter_Some. naive_solver.
Qed.

Lemma elem_of_rejected e i : i ∈ rejected e ↔ votes e !! i = Some false.
Proof.
  unfold rejected. rewrite elem_of_dom. unfold is_Some.
  setoid_rewrite map_lookup_filter_Some. naive_solver.
Qed.

Lemma tally_spec (m : gmap NodeId bool) :
  map_fold tally (0, 0)%nat m =
    (size (filter (λ p, p.2 = true) m),
     size (filter (λ p, p.2 = true) m) + size (filter (λ p, p.2 = false) m))%nat.
Proof.
  apply (map_fold_weak_ind (λ r m, r =
    (size (filter (λ p, p.2 = true) m),
     size (filter (λ p, p.2 = true) m) + size (filter (λ p, p.2 = false) m))%nat)).
  - by rewrite !map_filter_empty, !map_size_empty.
  - intros i x m' r Hi ->. unfold tally. destruct x.
    + rewrite map_filter_insert_True, map_filter_insert_False by done.
      rewrite delete_id by done.
      rewrite map_size_insert_None by (by apply map_lookup_filter_None; left).
      f_equal; lia.
    + rewrite map_filter_insert_False, map_filter_insert_True by done.
      rewrite delete_id by done.
      rewrite map_size_insert_None by (by apply map_lookup_filter_None; left).
      f_equal; lia.
Qed.

Lemma status_spec e :
  election_status e =
    if (quorum_size e <=? size (granted e))%nat then Elected
    else if (size (rejected e) =? quorum_size e)%nat then Defeated
    else Voting.
Proof.
  unfold election_status, granted, rejected. rewrite tally_spec, !size_dom.
  by rewrite Nat.add_comm, Nat.add_sub.
Qed.

Lemma rejected_vote_size e id v :
  (size (rejected (election_vote e id v)) ≤ size (rejected e) + 1)%nat.
Proof.
  transitivity (size ({[id]} ∪ rejected e)).
  - apply subseteq_size. intros i. rewrite elem_of_union, elem_of_singleton, !elem_of_rejected.
    simpl. rewrite lookup_insert. case_decide; naive_solver.
  - rewrite size_union_alt, size_singleton.
    pose proof (subseteq_size (rejected e ∖ {[id]}) (rejected e) ltac:(set_solver)). lia.
Qed.

Lemma granted_voters_bound e (X : gset NodeId) :
  NoDup (voter_ids e) → X ⊆ list_to_set (voter_ids e) → (size X ≤ voters_size e)%nat.
Proof.
  intros Hnd HX. unfold voters_size. apply subseteq_size in HX.
  by rewrite size_list_to_set in HX.
Qed.

(** Two sets of voters that each reach the quorum meet. *)
Lemma quorum_meet e (X Y : gset NodeId) :
  (2 ≤ voters_size e)%nat → NoDup (voter_ids e) →
  X ⊆ list_to_set (voter_ids e) → Y ⊆ list_to_set (voter_ids e) →
  (quorum_size e ≤ size X)%nat → (quorum_size e ≤ size Y)%nat →
  ∃ i, i ∈ X ∧ i ∈ Y.
Proof.
  intros Hn Hnd HX HY HqX HqY.
  destruct (set_choose_or_empty (X ∩ Y)) as [[i Hi]|Hempty]; [exists i; set_solver|].
  exfalso. assert (X ## Y) as Hdisj by set_solver.
  pose proof (granted_voters_bound e (X ∪ Y) Hnd ltac:(set_solver)) as Hb.
  rewrite size_union in Hb by done. unfold quorum_size, voters_size in *.
  destruct (Nat.eqb_spec (length (voter_ids e)) 1); [lia|].
  pose proof (Nat.div_mod_eq (length (voter_ids e)) 2).
  pose proof (Nat.mod_upper_bound (length (voter_ids e)) 2). lia.
Qed.

(** Elections as a candidate counts them: it stops at the first result. *)
Inductive polled (ids : list NodeId) : Election → Prop :=
| polled_new : polled ids (election_new ids)
| polled_vote e id v :
    polled ids e → election_status e = Voting → polled ids (election_vote e id v).

Lemma polled_voters ids e : polled ids e → voter_ids e = ids.
Proof. by induction 1. Qed.

Lemma polled_rejected ids e :
  (2 ≤ length ids)%nat → polled ids e → (size (rejected e) ≤ quorum_size e)%nat.
Proof.
  intros Hn. induction 1 as [|e id v He IH Hv].
  - assert (rejected (election_new ids) = ∅) as -> by done. rewrite size_empty. lia.
  - change (quorum_size (election_vote e id v)) with (quorum_size e).
    pose proof (rejected_vote_size e id v). rewrite status_spec in Hv.
    destruct (Nat.leb_spec (quorum_size e) (size (granted e))); [done|].
    destruct (Nat.eqb_spec (size (rejected e)) (quorum_size e)); [done|]. lia.
Qed.

(** ** Properties *)

(** Two elections over the same voters that are both won have a voter in
    common that granted both (two voters or more, each listed once, and only
    voters voted): the quorum is a majority. *)
Theorem elected_share_voter e1 e2 :
  voter_ids e1 = voter_ids e2 → NoDup (voter_ids e1) → (2 ≤ voters_size e1)%nat →
  dom (votes e1) ⊆ list_to_set (voter_ids e1) → dom (votes e2) ⊆ list_to_set (voter_ids e2) →
  election_status e1 = Elected → election_status e2 = Elected →
  ∃ i, votes e1 !! i = Some true ∧ votes e2 !! i = Some true.
Proof.
  intros Hids Hnd Hn H1 H2. rewrite !status_spec.
  destruct (Nat.leb_spec (quorum_size e1) (size (granted e1))) as [Hq1|];
    [|by case_match]. intros _.
  destruct (Nat.leb_spec (quorum_size e2) (size (granted e2))) as [Hq2|];
    [|by case_match]. intros _.
  assert (quorum_size e2 = quorum_size e1) as Hq by (unfold quorum_size; by rewrite Hids).
  assert (∀ e, granted e ⊆ dom (votes e)) as Hdom.
  { intros e i. rewrite elem_of_granted, elem_of_dom. by eexists. }
  destruct (quorum_meet e1 (granted e1) (granted e2)) as (i & Hi1 & Hi2); try done.
  - etransitivity; [apply Hdom|done].
  - rewrite Hids. etransitivity; [apply Hdom|done].
  - by rewrite <-Hq.
  - exists i. by rewrite !elem_of_granted in Hi1, Hi2.
Qed.

(** In an election counted vote by vote the status says what the votes say:
    elected exactly with a quorum of grants, defeated exactly with a quorum of
    rejections and none of grants; the test [total - votes == quorum] misses no
    defeat. *)
Theorem status_exact ids e :
  (2 ≤ length ids)%nat → polled ids e →
  (election_status e = Elected ↔ (quorum_size e ≤ size (granted e))%nat) ∧
  (election_status e = Defeated ↔
     (size (granted e) < quorum_size e ≤ size (rejected e))%nat).
Proof.
  intros Hn He. pose proof (polled_rejected ids e Hn He). rewrite status_spec.
  destruct (Nat.leb_spec (quorum_size e) (size (granted e)));
    destruct (Nat.eqb_spec (size (rejected e)) (quorum_size e)); split; naive_solver lia.
Qed.

(** A cluster of one node is always won, before any vote. *)
Theorem single_node_elected id e :
  voter_ids e = [id] → election_status e = Elected.
Proof. intros He. rewrite status_spec. unfold quorum_size. by rewrite He. Qed.

(** ** Witnesses *)
Definition ballot3 (l : list (NodeId * bool)) : Election :=
  foldl (λ e p, election_vote e p.1 p.2) (election_new [1; 2; 3]%Z) l.

Lemma elected_share_voter_witness :
  ∃ i, votes (ballot3 [(1, true); (2, true)]%Z) !! i = Some true ∧
       votes (ballot3 [(3, true); (2, true)]%Z) !! i = Some true.
Proof.
  apply (elected_share_voter (ballot3 [(1, true); (2, true)]%Z) (ballot3 [(3, true); (2, true)]%Z));
    [done|by apply (bool_decide_eq_true_1 _)|simpl; unfold voters_size; simpl; lia
    |by apply (bool_decide_eq_true_1 _)|by apply (bool_decide_eq_true_1 _)|done|done].
Defined.

Lemma status_exact_witness :
  election_status (ballot3 [(1, true); (2, false); (3, false)]%Z) = Defeated ↔
  (size (granted (ballot3 [(1, true); (2, false); (3, false)]%Z)) <
   quorum_size (ballot3 [(1, true); (2, false); (3, false)]%Z) ≤
   size (rejected (ballot3 [(1, true); (2, false); (3, false)]%Z)))%nat.
Proof.
  apply (status_exact [1; 2; 3]%Z); [simpl; lia|].
  repeat (apply polled_vote; [|done]). apply polled_new.
Defined.

Lemma single_node_elected_witness : election_status (election_new [7]%Z) = Elected.
Proof. by apply (single_node_elected 7). Defined.
