(* ===== verification/Progress.v ===== *)
(** * Replication progress ([src/raft/progress.rs])

    What the leader knows of each node: the newest block it confirmed and
    whether it is probed or replicated to.  The committed index is the newest
    block a majority confirmed; it does not depend on the iteration order of the
    hash map and never goes back. *)
From S2P Require Import Prelude Bytes Storage Chain Rpc.

Class ProgressState (T : Type) := { state_reset : T → T }.

Record Probe : Type := { paused : bool }.
Record Snapshot : Type := { pending : option LogIndex }.
(** A [VecDeque] with its capacity. *)
Record Replicate : Type := { inflight : list LogIndex; inflight_capacity : nat }.

#[global] Instance Probe_state : ProgressState Probe :=
  {| state_reset _ := {| paused := false |} |}.
#[global] Instance Snapshot_state : ProgressState Snapshot :=
  {| state_reset _ := {| pending := None |} |}.
#[global] Instance Replicate_state : ProgressState Replicate := {| state_reset s := s |}.

Definition MAX_INFLIGHT : nat := 5.

Record Progress (T : Type) : Type := {
  p_node_id : NodeId;
  p_state : T;
  p_active : bool;
  p_head : BlockId;
}.
Arguments Build_Progress {T} _ _ _ _.
Arguments p_node_id {T} _.
Arguments p_state {T} _.
Arguments p_active {T} _.
Arguments p_head {T} _.

Definition progress_reset `{ProgressState T} (p : Progress T) : Progress T :=
  {| p_node_id := p_node_id p; p_state := state_reset (p_state p);
     p_active := false; p_head := p_head p |}.

Definition progress_increment {T} (p : Progress T) (block_id : BlockId) : bool * Progress T :=
  if bytes_ltb (p_head p) block_id then
    (true, {| p_node_id := p_node_id p; p_state := p_state p;
              p_active := p_active p; p_head := block_id |})
  else (false, p).

Definition probe_new (node_id : NodeId) : Progress Probe :=
  {| p_node_id := node_id; p_state := {| paused := false |};
     p_active := false; p_head := BlockId_new 0 |}.
Definition probe_is_active (p : Progress Probe) : bool := negb (paused (p_state p)).

Definition probe_from_replicate (p : Progress Replicate) : Progress Probe :=
  {| p_node_id := p_node_id p; p_state := {| paused := false |};
     p_active := p_active p; p_head := p_head p |}.

Definition snapshot_is_active (p : Progress Snapshot) : bool := p_active p.
Definition snapshot_fail (p : Progress Snapshot) : Progress Snapshot :=
  {| p_node_id := p_node_id p; p_state := {| pending := None |};
     p_active := p_active p; p_head := p_head p |}.

Definition replicate_is_active (p : Progress Replicate) : bool :=
  (length (inflight (p_state p)) <? inflight_capacity (p_state p))%nat.

Definition replicate_from_probe (p : Progress Probe) : Progress Replicate :=
  {| p_node_id := p_node_id p;
     p_state := {| inflight := []; inflight_capacity := MAX_INFLIGHT |};
     p_active := p_active p; p_head := p_head p |}.

Inductive NodeProgress : Type :=
| NProbe (p : Progress Probe)
| NReplicate (p : Progress Replicate)
| NSnapshot (p : Progress Snapshot).

Definition node_progress_new (node_id : NodeId) : NodeProgress := NProbe (probe_new node_id).

Definition node_advance (np : NodeProgress) (block_id : BlockId) : outcome NodeProgress :=
  match np with
  | NProbe prog =>
      let '(up, prog) := progress_increment prog block_id in
      Ret (if up then NReplicate (replicate_from_probe prog) else NProbe prog)
  | NReplicate prog =>
      let '(up, prog) := progress_increment prog block_id in
      Ret (if up then NReplicate prog else NProbe (probe_from_replicate prog))
  | NSnapshot _ => Panic
  end.

Definition node_is_active (np : NodeProgress) : bool :=
  match np with
  | NProbe p => probe_is_active p
  | NReplicate p => replicate_is_active p
  | NSnapshot p => snapshot_is_active p
  end.

Definition node_head (np : NodeProgress) : BlockId :=
  match np with NProbe p => p_head p | NReplicate p => p_head p | NSnapshot p => p_head p end.

Record ReplicationProgress : Type := { progress : gmap NodeId NodeProgress }.

Definition replication_insert (r : ReplicationProgress) (node_id : NodeId) : ReplicationProgress :=
  {| progress := <[node_id := NProbe (probe_new node_id)]> (progress r) |}.

Definition replication_new (nodes : list NodeId) : outcome ReplicationProgress :=
  _ ← assert (negb (bool_decide (nodes = [])));
  Ret (foldl replication_insert {| progress := ∅ |} nodes).

Definition replication_get (r : ReplicationProgress) (node_id : NodeId) : option NodeProgress :=
  progress r !! node_id.

Definition replication_remove (r : ReplicationProgress) (node_id : NodeId) :
    option NodeProgress * ReplicationProgress :=
  (progress r !! node_id, {| progress := delete node_id (progress r) |}).

Definition replication_advance (r : ReplicationProgress) (node_id : NodeId) (block_id : BlockId) :
    outcome ReplicationProgress :=
  let '(node, r) := replication_remove r node_id in
  node ← unwrap node;
  node ← node_advance node block_id;
  Ret {| progress := <[node_id := node]> (progress r) |}.

(** The order of [indices.sort_by(|a, b| b.cmp(a))]. *)
Definition newer (a b : BlockId) : Prop := bytes_le b a.
#[global] Instance newer_dec : RelDecision newer.
Proof. intros a b. unfold newer. apply _. Defined.

(** The index over the progress values in the order the map yields them. *)
Definition committed_of (values : list NodeProgress) : outcome BlockId :=
  indices ← force ((λ np, match np with
                          | NProbe pr => Ret (p_head pr)
                          | NReplicate pr => Ret (p_head pr)
                          | NSnapshot _ => Panic
                          end) <$> values);
  let indices := merge_sort newer indices in
  unwrap (indices !! (length indices / 2)%nat).

Definition committed_index (r : ReplicationProgress) : outcome BlockId :=
  committed_of (map_to_list (progress r)).*2.

(** ** Counting the nodes that hold a block *)
Definition holders (k : BlockId) (l : list BlockId) : nat := length (filter (bytes_le k) l).

Lemma newer_trans : Transitive newer.
Proof. intros a b c H1 H2. unfold newer in *. by etransitivity. Qed.

Lemma newer_total : Total newer.
Proof.
  intros a b. unfold newer, bytes_le. rewrite (bytes_leb_ltb a b).
  destruct (bytes_ltb b a) eqn:E; [left; apply bytes_leb_lt_eq; auto|by right].
Qed.

Lemma newer_antisymm : AntiSymm (=) newer.
Proof. intros a b H1 H2. unfold newer in *. by apply (anti_symm bytes_le). Qed.

Lemma sorted_index_majority s i k :
  StronglySorted newer s → s !! i = Some k →
  (i < holders k s)%nat ∧ ∀ k', (i < holders k' s)%nat → bytes_le k' k.
Proof.
  intros Hs Hi. unfold holders.
  rewrite <-(take_drop_middle s i k Hi) in Hs |- *.
  pose proof (lookup_lt_Some _ _ _ Hi) as Hlen.
  apply StronglySorted_app in Hs as (Hcross & _ & Hs2).
  apply StronglySorted_inv in Hs2 as [_ Hk].
  assert (∀ x, bytes_le x x) as Hrefl by (intros; reflexivity).
  split.
  - rewrite filter_app, length_app, filter_cons_True by done. simpl.
    assert (filter (bytes_le k) (take i s) = take i s) as ->.
    { apply list_filter_all. intros x Hx. apply (Hcross x k); [done|set_solver]. }
    rewrite length_take. lia.
  - intros k' Hk'. destruct (newer_total k k') as [|Hlt]; [done|].
    destruct (decide (bytes_le k' k)) as [|Hn]; [done|]. exfalso.
    rewrite filter_app, length_app, filter_cons_False in Hk' by done.
    rewrite Forall_forall in Hk.
    assert (filter (bytes_le k') (drop (S i) s) = []) as E.
    { apply list_filter_none. intros x Hx Hle. apply Hn. transitivity x; [done|].
      by apply Hk. }
    rewrite E in Hk'. pose proof (length_filter (bytes_le k') (take i s)).
    rewrite length_take in *. simpl in *. lia.
Qed.

Lemma holders_perm k l1 l2 : l1 ≡ₚ l2 → holders k l1 = holders k l2.
Proof. intros H. unfold holders. by rewrite H. Qed.

Lemma holders_cons k x l :
  holders k (x :: l) = ((if bool_decide (bytes_le k x) then 1 else 0) + holders k l)%nat.
Proof. unfold holders. rewrite filter_cons. by destruct (decide (bytes_le k x)); case_bool_decide. Qed.

Definition is_snapshot (np : NodeProgress) : bool :=
  match np with NSnapshot _ => true | _ => false end.

Lemma committed_of_spec values :
  Forall (λ np, is_snapshot np = false) values →
  committed_of values =
    unwrap (merge_sort newer (node_head <$> values) !! (length values / 2)%nat).
Proof.
  intros Hv. unfold committed_of.
  assert (((λ np, match np with
    | NProbe pr => Ret (p_head pr) | NReplicate pr => Ret (p_head pr) | NSnapshot _ => Panic
    end) <$> values) = (Ret : BlockId → outcome BlockId) <$> (node_head <$> values)) as ->.
  { induction Hv as [|[] l H _ IH]; [done|..]; cbn in *; by rewrite ?IH. }
  rewrite force_Ret. cbn [mbind outcome_bind].
  by rewrite (Permutation_length (merge_sort_Permutation newer _)), length_fmap.
Qed.

Lemma committed_of_no_snapshot values k :
  committed_of values = Ret k → Forall (λ np, is_snapshot np = false) values.
Proof.
  unfold committed_of. intros (x & Hx & _)%bind_Ret. apply force_Ret_inv in Hx.
  revert x Hx. induction values as [|np values IH]; intros x Hx; [done|].
  destruct x as [|h x]; [done|]. injection Hx as Hh Hx. constructor; [|by eapply IH].
  by destruct np.
Qed.

Lemma committed_majority values k :
  committed_of values = Ret k →
  (length values / 2 < holders k (node_head <$> values))%nat ∧
  ∀ k', (length values / 2 < holders k' (node_head <$> values))%nat → bytes_le k' k.
Proof.
  intros H. rewrite committed_of_spec in H by (by eapply committed_of_no_snapshot).
  inv_run. apply sorted_index_majority in H.
  - destruct H as [H1 H2]. setoid_rewrite (holders_perm _ _ (node_head <$> values)) in H1;
      [|apply merge_sort_Permutation]. split; [done|].
    intros k' Hk'. apply H2. by rewrite (holders_perm _ _ (node_head <$> values))
      by apply merge_sort_Permutation.
  - apply StronglySorted_merge_sort; [apply newer_trans|apply newer_total].
Qed.

Lemma committed_of_total values :
  values ≠ [] → Forall (λ np, is_snapshot np = false) values →
  ∃ k, committed_of values = Ret k.
Proof.
  intros Hne Hv. rewrite committed_of_spec by done.
  destruct (lookup_lt_is_Some_2 (merge_sort newer (node_head <$> values)) (length values / 2)%nat)
    as [k ->]; [|by exists k].
  rewrite (Permutation_length (merge_sort_Permutation newer _)), length_fmap.
  apply Nat.div_lt; [|lia]. destruct values; [done|simpl; lia].
Qed.

Lemma node_advance_spec np b :
  is_snapshot np = false →
  ∃ np', node_advance np b = Ret np' ∧ is_snapshot np' = false ∧
    node_head np' = (if bytes_ltb (node_head np) b then b else node_head np).
Proof.
  intros Hs. destruct np as [p|p|p]; [| |done]; unfold node_advance, progress_increment;
    simpl; destruct (bytes_ltb (p_head p) b); eauto.
Qed.

Lemma values_split (m : gmap NodeId NodeProgress) i np :
  m !! i = Some np → (map_to_list m).*2 ≡ₚ np :: (map_to_list (delete i m)).*2.
Proof.
  intros Hi. rewrite <-(insert_delete_id m i np Hi) at 1.
  by rewrite map_to_list_insert by apply lookup_delete_eq.
Qed.

Lemma values_insert (m : gmap NodeId NodeProgress) i np :
  (map_to_list (<[i:=np]> m)).*2 ≡ₚ np :: (map_to_list (delete i m)).*2.
Proof.
  rewrite <-insert_delete_eq. by rewrite map_to_list_insert by apply lookup_delete_eq.
Qed.

Lemma advance_spec r i b r' :
  replication_advance r i b = Ret r' →
  ∃ np np', progress r !! i = Some np ∧ node_advance np b = Ret np' ∧
    progress r' = <[i:=np']> (progress r).
Proof.
  unfold replication_advance, replication_remove. intros H. inv_run.
  do 2 eexists. split_and!; [done|done|]. simpl. by rewrite insert_delete_eq.
Qed.

(** ** Properties *)

(** C27: the committed index is the newest block that a majority of the nodes
    has confirmed: more than half of them stand at it or beyond, and no newer
    block has that. *)
Theorem committed_index_majority r k :
  committed_index r = Ret k →
  let heads := node_head <$> (map_to_list (progress r)).*2 in
  (size (progress r) / 2 < holders k heads)%nat ∧
  ∀ k', (size (progress r) / 2 < holders k' heads)%nat → bytes_le k' k.
Proof.
  intros H. pose proof (committed_majority _ _ H) as Hm.
  by rewrite length_fmap, length_map_to_list in Hm.
Qed.

(** The committed index does not depend on the order in which the hash map
    yields its values, failures included. *)
Theorem committed_index_order r values :
  values ≡ₚ (map_to_list (progress r)).*2 → committed_of values = committed_index r.
Proof.
  unfold committed_index. generalize ((map_to_list (progress r)).*2). intros l Hp.
  destruct (decide (Forall (λ np, is_snapshot np = false) l)) as [Hl|Hl].
  - rewrite !committed_of_spec by (by rewrite ?Hp). rewrite (Permutation_length Hp).
    f_equal. f_equal. pose proof newer_antisymm. apply (StronglySorted_unique newer).
    + apply StronglySorted_merge_sort; [apply newer_trans|apply newer_total].
    + apply StronglySorted_merge_sort; [apply newer_trans|apply newer_total].
    + by rewrite !merge_sort_Permutation, Hp.
  - assert (∀ l, ¬ Forall (λ np, is_snapshot np = false) l → committed_of l = Panic) as Hpan.
    { clear. intros l Hl. unfold committed_of.
      enough (force ((λ np, match np with
        | NProbe pr => Ret (p_head pr) | NReplicate pr => Ret (p_head pr) | NSnapshot _ => Panic
        end) <$> l) = Panic) as -> by done.
      induction l as [|np l IH]; [by destruct Hl|].
      destruct np; cbn in *; [rewrite IH; [done|]..|done]; intros ?; apply Hl; by constructor. }
    rewrite !Hpan; [done|done|by rewrite Hp].
Qed.

(** A confirmation never takes the committed index back. *)
Theorem advance_committed_index r i b r' k :
  committed_index r = Ret k → replication_advance r i b = Ret r' →
  ∃ k', committed_index r' = Ret k' ∧ bytes_le k k'.
Proof.
  intros Hk Hadv. destruct (advance_spec r i b r' Hadv) as (np & np' & Hi & Hnp & Hr').
  pose proof (committed_of_no_snapshot _ _ Hk) as Hns.
  rewrite (values_split _ _ _ Hi) in Hns. apply Forall_cons in Hns as [Hs Hns].
  destruct (node_advance_spec np b Hs) as (np'' & E & Hs' & Hhead).
  rewrite Hnp in E. injection E as <-.
  assert ((map_to_list (progress r')).*2 ≡ₚ np' :: (map_to_list (delete i (progress r))).*2)
    as Hv' by (rewrite Hr'; apply values_insert).
  destruct (committed_of_total (map_to_list (progress r')).*2) as [k' Hk'].
  - intros E. rewrite E in Hv'. by apply Permutation_nil_l in Hv'.
  - rewrite Hv'. by constructor.
  - exists k'. split; [done|]. apply (committed_majority _ _ Hk').
    destruct (committed_majority _ _ Hk) as [Hm _].
    rewrite (Permutation_length Hv'), (holders_perm _ _ _ (fmap_Permutation node_head _ _ Hv')).
    rewrite (Permutation_length (values_split _ _ _ Hi)) in Hm.
    rewrite (holders_perm _ _ _ (fmap_Permutation node_head _ _ (values_split _ _ _ Hi))) in Hm.
    cbn [fmap list_fmap length] in *. rewrite !holders_cons in *.
    assert (bytes_le k (node_head np) → bytes_le k (node_head np')).
    { rewrite Hhead. intros ?. destruct (bytes_ltb (node_head np) b) eqn:Hlt; [|done].
      transitivity (node_head np); [done|]. apply bytes_leb_lt_eq. by left. }
    repeat case_bool_decide; naive_solver lia.
Qed.

(** ** Witnesses *)
Definition progress3 : ReplicationProgress :=
  ret_or {| progress := ∅ |}
    (r ← replication_new [1; 2; 3]%Z;
     r ← replication_advance r 1%Z (BlockId_new 5);
     replication_advance r 2%Z (BlockId_new 3)).

Lemma committed_index_majority_witness :
  committed_index progress3 = Ret (BlockId_new 3) ∧
  (3 / 2 < holders (BlockId_new 3) (node_head <$> (map_to_list (progress progress3)).*2))%nat.
Proof.
  split; [by vm_compute|].
  apply (committed_index_majority progress3 (BlockId_new 3)). by vm_compute.
Defined.

Lemma committed_index_order_witness :
  committed_of (reverse (map_to_list (progress progress3)).*2) = committed_index progress3.
Proof. apply (committed_index_order progress3). apply reverse_Permutation. Defined.

Lemma advance_committed_index_witness :
  ∃ k', committed_index (ret_or progress3 (replication_advance progress3 3%Z (BlockId_new 4)))
      = Ret k' ∧ bytes_le (BlockId_new 3) k'.
Proof.
  apply (advance_committed_index progress3 3%Z (BlockId_new 4)); [by vm_compute|].
  apply is_ret_or. by vm_compute.
Defined.
