(* ===== verification/Config.v ===== *)
(** * Configuration of a node ([src/raft/config.rs])

    The configuration record, its validation and the default configuration. *)
From S2P Require Import Prelude Bytes Storage Chain Rpc.
Local Open Scope Z_scope.

(** Addresses as the 32 or 128 bits they stand for. *)
Inductive IpAddr : Type := V4 (bits : Z) | V6 (bits : Z).
Record SocketAddr : Type := { sock_ip : IpAddr; sock_port : Z }.
Record Node : Type := { n_id : NodeId; n_addr : SocketAddr }.

(** Durations are in nanoseconds. *)
Definition from_millis (ms : Z) : Z := ms * 1000000.
Definition from_secs (s : Z) : Z := s * 1000000000.

Record RaftConfig : Type := {
  data_directory : string;
  run_for : option Z;
  cfg_id : NodeId;
  cfg_ip : IpAddr;
  cfg_port : Z;
  nodes : list Node;
  protocol_version : Z;
  heartbeat_timeout : Z;
  election_timeout : Z;
  commit_timeout : Z;
  max_append_entries : Z;
  snapshot_interval : Z;
  snapshot_threshold : Z;
}.

Definition MAX_PROTOCOL_VERSION : Z := 0.

Definition validate (c : RaftConfig) : outcome unit :=
  if MAX_PROTOCOL_VERSION <? protocol_version c then Err (ErrMsg "invalid protocol version")
  else if cfg_id c =? 0 then Err (ErrMsg "id cannot be 0")
  else if cfg_port c <? 1023 then Err (ErrMsg "port value too low")
  else if heartbeat_timeout c <? from_millis 5 then Err (ErrMsg "heartbeat timeout is too low")
  else if election_timeout c <? from_millis 5 then Err (ErrMsg "election timeout is too low")
  else if commit_timeout c <? from_millis 1 then Err (ErrMsg "commit timeout is too low")
  else if snapshot_interval c <? from_millis 5 then Err (ErrMsg "snapshot interval is too low")
  else Ret tt.

(** [Ipv6Addr::to_ipv4]: the IPv4-compatible and IPv4-mapped addresses. *)
Definition to_ipv4 (bits : Z) : option Z :=
  let high := bits `div` 2 ^ 32 in
  if (high =? 0) || (high =? 0xffff) then Some (bits `mod` 2 ^ 32) else None.

(** [resolve]: the first of the addresses the system's resolver answers with. *)
Definition resolve (answer : outcome (list SocketAddr)) : outcome (option IpAddr) :=
  iter ← unwrap_result answer;
  Ret (head (sock_ip <$> iter)).

(** [resolved] is what the resolver answers for localhost, [dir] the temporary
    directory. *)
Definition config_default (resolved : option IpAddr) (dir : string) : outcome RaftConfig :=
  let ip := match resolved with Some ip => ip | None => V4 0 end in
  id ← match ip with V4 bits => Ret bits | V6 bits => unwrap (to_ipv4 bits) end;
  Ret {|
    data_directory := dir;
    run_for := None;
    cfg_id := id;
    cfg_ip := ip;
    cfg_port := 6669;
    nodes := [];
    protocol_version := 0;
    heartbeat_timeout := from_millis 100;
    election_timeout := from_millis 1000;
    commit_timeout := from_millis 50;
    max_append_entries := 64;
    snapshot_interval := from_secs 120;
    snapshot_threshold := 8192;
  |}.

Lemma validate_spec c :
  (validate c = Ret tt ↔
    protocol_version c ≤ MAX_PROTOCOL_VERSION ∧ cfg_id c ≠ 0 ∧ 1023 ≤ cfg_port c ∧
    from_millis 5 ≤ heartbeat_timeout c ∧ from_millis 5 ≤ election_timeout c ∧
    from_millis 1 ≤ commit_timeout c ∧ from_millis 5 ≤ snapshot_interval c) ∧
  validate c ≠ Panic.
Proof.
  unfold validate.
  repeat match goal with
  | |- context [if ?a <? ?b then _ else _] => destruct (Z.ltb_spec a b); [split; [split; [done|lia]|done]|]
  | |- context [if ?a =? ?b then _ else _] => destruct (Z.eqb_spec a b); [split; [split; [done|lia]|done]|]
  end.
  split; [|done]. split; [lia|done].
Qed.

(** ** Properties *)

(** The validation accepts a configuration exactly if its protocol version
    is supported, its id is not 0, its port is at least 1023 and every timeout
    reaches its minimum; otherwise it ends with an error, never a panic. *)
Theorem validate_exact c :
  (validate c = Ret tt ↔
    protocol_version c ≤ MAX_PROTOCOL_VERSION ∧ cfg_id c ≠ 0 ∧ 1023 ≤ cfg_port c ∧
    from_millis 5 ≤ heartbeat_timeout c ∧ from_millis 5 ≤ election_timeout c ∧
    from_millis 1 ≤ commit_timeout c ∧ from_millis 5 ≤ snapshot_interval c) ∧
  validate c ≠ Panic.
Proof. apply validate_spec. Qed.

(** The default configuration is valid exactly if localhost resolves to an
    address other than 0.0.0.0: the id of a node is its address. *)
Theorem default_valid resolved dir c :
  config_default resolved dir = Ret c → (validate c = Ret tt ↔ cfg_id c ≠ 0).
Proof.
  unfold config_default. intros H. inv_run. split.
  - intros Hv. by apply (proj1 (validate_spec _)) in Hv as (_ & ? & _).
  - intros Hid. apply (proj1 (validate_spec _)). simpl in *. unfold from_millis, from_secs.
    unfold MAX_PROTOCOL_VERSION. lia.
Qed.

Lemma default_valid_witness :
  ∃ c, config_default (Some (V4 2130706433)) "tmp" = Ret c ∧
    (validate c = Ret tt ↔ cfg_id c ≠ 0).
Proof.
  eexists. split; [reflexivity|]. by apply (default_valid (Some (V4 2130706433)) "tmp").
Defined.
