(* ===== verification/Raft.v ===== *)
(** * The Raft state machine: common part ([src/raft/mod.rs])

    The state all roles share, the three roles, the effects of a node (its
    outgoing channels, the clock, the random generator, the debug state file)
    and the base methods of [Raft<T>]. *)
From S2P Require Import Prelude Bytes Storage Chain Rpc Election Progress Config.
Local Open Scope Z_scope.

(** ** The outside of a node *)

(** What the clock, the random generator and the file system answer, as
    functions of the number of questions asked before. *)
Class Env := {
  clock : nat → Z;
  draw : nat → Z → Z → Z;
  state_file_ok : nat → bool;
}.

(** [Instant::now] is monotone; [gen_range(lo..hi)] is within its range. *)
Class EnvLaws `{!Env} := {
  clock_mono i j : (i ≤ j)%nat → clock i ≤ clock j;
  draw_range i lo hi : lo < hi → lo ≤ draw i lo hi < hi;
}.

(** An unbounded channel as its sender sees it: everything sent, in order;
    sending fails once the receiver is gone. *)
Record chan (A : Type) : Type := { sent : list A; receiver_alive : bool }.
Arguments sent {A} _.
Arguments receiver_alive {A} _.

(** What the leader writes to [josefine.json]. *)
Record RaftDebugState : Type := {
  dbg_leader_id : NodeId;
  dbg_commit : BlockId;
  dbg_term : Term;
}.

Record World : Type := {
  rpc_tx : chan Message;
  fsm_tx : chan Instruction;
  asked : nat;
  state_file : option RaftDebugState;
}.

Abbreviation M := (SM World).

Definition ask (w : World) : World :=
  {| rpc_tx := rpc_tx w; fsm_tx := fsm_tx w; asked := S (asked w); state_file := state_file w |}.

Definition rpc_send (m : Message) : M unit := λ w,
  if receiver_alive (rpc_tx w) then
    (Ret tt, {| rpc_tx := {| sent := sent (rpc_tx w) ++ [m]; receiver_alive := true |};
                fsm_tx := fsm_tx w; asked := asked w; state_file := state_file w |})
  else (Err ErrSend, w).

Definition fsm_send (i : Instruction) : M unit := λ w,
  if receiver_alive (fsm_tx w) then
    (Ret tt, {| rpc_tx := rpc_tx w;
                fsm_tx := {| sent := sent (fsm_tx w) ++ [i]; receiver_alive := true |};
                asked := asked w; state_file := state_file w |})
  else (Err ErrSend, w).

(** [self.fsm_tx.send(i).unwrap()]. *)
Definition fsm_send_unwrap (i : Instruction) : M unit := λ w,
  match fsm_send i w with (Err _, w') => (Panic, w') | r => r end.

Section Outside.
Context {ENV : Env}.

Definition instant_now : M Z := λ w, (Ret (clock (asked w)), ask w).
Definition elapsed (t : Z) : M Z := now ← instant_now; mret (Z.max 0 (now - t)).
Definition gen_range (lo hi : Z) : M Z := λ w,
  if lo <? hi then (Ret (draw (asked w) lo hi), ask w) else (Panic, w).
End Outside.

(** Driving an iterator of the chain: each element is read when it is needed. *)
Definition drive (l : list (outcome Block)) (f : Block → M unit) : M unit :=
  for_each l (λ o, b ← lift o; f b).
Definition drive_skip1 (l : list (outcome Block)) (f : Block → M unit) : M unit :=
  match l with
  | [] => mret tt
  | o :: l => _ ← lift o; drive l f
  end.

(** ** State and roles *)
Record State : Type := {
  current_term : Term;
  voted_for : option NodeId;
  election_time : option Z;
  election_timer : option Z;
  min_election_timeout : Z;
  max_election_timeout : Z;
}.

Definition State_default : State := {|
  current_term := 0;
  voted_for := None;
  election_time := None;
  election_timer := None;
  min_election_timeout := 500;
  max_election_timeout := 1000;
|}.

Definition set_voted_for (v : option NodeId) (s : State) : State :=
  {| current_term := current_term s; voted_for := v; election_time := election_time s;
     election_timer := election_timer s; min_election_timeout := min_election_timeout s;
     max_election_timeout := max_election_timeout s |}.
Definition set_current_term (t : Term) (s : State) : State :=
  {| current_term := t; voted_for := voted_for s; election_time := election_time s;
     election_timer := election_timer s; min_election_timeout := min_election_timeout s;
     max_election_timeout := max_election_timeout s |}.
Definition set_election_time (t : option Z) (s : State) : State :=
  {| current_term := current_term s; voted_for := voted_for s; election_time := t;
     election_timer := election_timer s; min_election_timeout := min_election_timeout s;
     max_election_timeout := max_election_timeout s |}.
Definition set_election_timer (t : option Z) (s : State) : State :=
  {| current_term := current_term s; voted_for := voted_for s; election_time := election_time s;
     election_timer := t; min_election_timeout := min_election_timeout s;
     max_election_timeout := max_election_timeout s |}.

Inductive RaftRole : Type := RoleFollower | RoleCandidate | RoleLeader.

Class Role (T : Type) := {
  role_term : T → Term → outcome T;
  role_role : T → RaftRole;
}.

Record Follower : Type := {
  leader_id : option NodeId;
  proxied_reqs : gset ClientRequestId;
  queued_reqs : list ClientRequest;
}.
#[global] Instance Follower_role : Role Follower := {|
  role_term f _ :=
    Ret {| leader_id := None; proxied_reqs := proxied_reqs f; queued_reqs := queued_reqs f |};
  role_role _ := RoleFollower;
|}.

Record Candidate : Type := {
  election : Election;
  c_queued_reqs : list ClientRequest;
}.
#[global] Instance Candidate_role : Role Candidate := {|
  role_term c _ :=
    Ret {| election := election_reset (election c); c_queued_reqs := c_queued_reqs c |};
  role_role _ := RoleCandidate;
|}.

Record Leader : Type := {
  l_progress : ReplicationProgress;
  heartbeat_time : Z;
  l_heartbeat_timeout : Z;
}.
#[global] Instance Leader_role : Role Leader := {|
  role_term _ _ := Panic;
  role_role _ := RoleLeader;
|}.

(** ** [Raft<T>] *)
Section Base.
Context {SLED : Sled} {BINC : Bincode Block} {ENV : Env}.

Record Raft (T : Type) : Type := {
  r_id : NodeId;
  r_config : RaftConfig;
  r_state : State;
  r_role : T;
  r_chain : Chain;
}.
#[global] Arguments Build_Raft {T} _ _ _ _ _.
#[global] Arguments r_id {T} _.
#[global] Arguments r_config {T} _.
#[global] Arguments r_state {T} _.
#[global] Arguments r_role {T} _.
#[global] Arguments r_chain {T} _.

Definition with_state {T} (f : State → State) (r : Raft T) : Raft T :=
  {| r_id := r_id r; r_config := r_config r; r_state := f (r_state r);
     r_role := r_role r; r_chain := r_chain r |}.
Definition with_role {T} (role : T) (r : Raft T) : Raft T :=
  {| r_id := r_id r; r_config := r_config r; r_state := r_state r;
     r_role := role; r_chain := r_chain r |}.
Definition with_chain {T} (c : Chain) (r : Raft T) : Raft T :=
  {| r_id := r_id r; r_config := r_config r; r_state := r_state r;
     r_role := r_role r; r_chain := c |}.

Definition needs_election {T} (r : Raft T) : M bool :=
  match election_time (r_state r), election_timer (r_state r) with
  | Some time, Some timeout => e ← elapsed time; mret (timeout <? e)
  | _, _ => mret false
  end.

(** The remaining time that [Debug for State] prints: the clock is read once to
    compare and once to subtract, and a negative [Duration] is a panic. *)
Definition debug_timeout (s : State) : M Z :=
  match election_time s, election_timer s with
  | Some time, Some timeout =>
      e ← elapsed time;
      if e <? timeout then
        e ← elapsed time;
        if e <=? timeout then mret (timeout - e) else lift Panic
      else mret 0
  | _, _ => mret 0
  end.

Definition raft_term `{Role T} (r : Raft T) (term : Term) : outcome (Raft T) :=
  let r := with_state (set_current_term term) (with_state (set_voted_for None) r) in
  role ← role_term (r_role r) term;
  Ret (with_role role r).

Definition send {T} (r : Raft T) (to : Address) (cmd : Command) : M unit :=
  rpc_send (Message_new (Peer (r_id r)) to cmd).

Definition send_all {T} (r : Raft T) (cmd : Command) : M unit :=
  rpc_send (Message_new (Peer (r_id r)) Peers cmd).

Inductive RaftHandle : Type :=
| HFollower (r : Raft Follower)
| HCandidate (r : Raft Candidate)
| HLeader (r : Raft Leader).

Definition is_follower (h : RaftHandle) : bool :=
  match h with HFollower _ => true | _ => false end.
Definition is_candidate (h : RaftHandle) : bool :=
  match h with HCandidate _ => true | _ => false end.
Definition is_leader (h : RaftHandle) : bool :=
  match h with HLeader _ => true | _ => false end.
Definition get_follower (h : RaftHandle) : option (Raft Follower) :=
  match h with HFollower r => Some r | _ => None end.
Definition get_candidate (h : RaftHandle) : option (Raft Candidate) :=
  match h with HCandidate r => Some r | _ => None end.
Definition get_leader (h : RaftHandle) : option (Raft Leader) :=
  match h with HLeader r => Some r | _ => None end.
End Base.

(** ** What a computation sends *)
Definition msgs (w : World) : list Message := sent (rpc_tx w).
Definition instrs (w : World) : list Instruction := sent (fsm_tx w).

(** Whatever the way it ends, [m] only adds messages that satisfy [P]; and when
    it returns a value, [Q] holds of the messages it added and of the value. *)
Definition does {A} (P : Message → Prop) (Q : list Message → A → Prop) (m : M A) : Prop :=
  ∀ w, ∃ new, msgs (m w).2 = msgs w ++ new ∧ Forall P new ∧
              ∀ a, (m w).1 = Ret a → Q new a.

(** Nothing is known of the value. *)
Abbreviation any := (λ _ _, True).
(** Nothing was sent. *)
Abbreviation quiet := (λ n _, n = []).

Create HintDb does.

Section Does.
Context {SLED : Sled} {BINC : Bincode Block} {ENV : Env}.
Implicit Types P : Message → Prop.

Lemma does_quiet {A} P (m : M A) : (∀ w, msgs (m w).2 = msgs w) → does P quiet m.
Proof. intros H w. exists []. by rewrite H, app_nil_r. Qed.

Lemma does_ret {A} P (Q : list Message → A → Prop) a : Q [] a → does P Q (mret a).
Proof. intros HQ w. exists []. rewrite app_nil_r. split_and!; [done..|]. cbn. by intros ? [= <-]. Qed.

Lemma does_lift {A} P (Q : list Message → A → Prop) o :
  (∀ a, o = Ret a → Q [] a) → does P Q (lift o).
Proof. intros HQ w. exists []. rewrite app_nil_r. split_and!; [done..|]. cbn. auto. Qed.

Lemma does_bind {A B} P R Q (m : M A) (f : A → M B) :
  does P R m → (∀ n a, R n a → does P (λ n', Q (n ++ n')) (f a)) → does P Q (m ≫= f).
Proof.
  intros Hm Hf w. destruct (Hm w) as (n1 & H1 & HP1 & HR). unfold mbind, SM_bind.
  destruct (m w) as [[a|e|] w1]; simpl in *; [|by exists n1..].
  destruct (Hf n1 a (HR a eq_refl) w1) as (n2 & H2 & HP2 & HQ). exists (n1 ++ n2).
  rewrite H2, H1, app_assoc. split_and!; [done| |done]. by apply Forall_app.
Qed.

Lemma does_weaken {A} P P' (Q Q' : list Message → A → Prop) m :
  does P Q m → (∀ x, P x → P' x) → (∀ n a, Forall P n → Q n a → Q' n a) → does P' Q' m.
Proof.
  intros Hm HP HQ w. destruct (Hm w) as (n & Hn & HPn & HQn). exists n.
  split_and!; [done|by eapply Forall_impl|auto].
Qed.

Lemma does_rpc_send P m : P m → does P (λ n _, n = [m]) (rpc_send m).
Proof.
  intros Hm w. unfold rpc_send. destruct (receiver_alive (rpc_tx w)).
  - exists [m]. split_and!; [done|by constructor|done].
  - exists []. by rewrite app_nil_r.
Qed.

Lemma does_bind_lift {A B} P Q (o : outcome A) (f : A → M B) :
  (∀ a, o = Ret a → does P Q (f a)) → does P Q (lift o ≫= f).
Proof.
  intros Hf. eapply (does_bind _ (λ n a, n = [] ∧ o = Ret a)); [by apply does_lift|].
  intros n a [-> Ho]. auto.
Qed.

Lemma does_bind_send {B} P Q m (f : unit → M B) :
  P m → does P (λ n, Q (m :: n)) (f tt) → does P Q (rpc_send m ≫= f).
Proof.
  intros Hm Hf. eapply does_bind; [by apply does_rpc_send|]. by intros n [] ->.
Qed.

Lemma does_fsm_send P i : does P quiet (fsm_send i).
Proof. apply does_quiet. intros w. unfold fsm_send. by case_match. Qed.

Lemma does_fsm_send_unwrap P i : does P quiet (fsm_send_unwrap i).
Proof. apply does_quiet. intros w. unfold fsm_send_unwrap, fsm_send.
  by destruct (receiver_alive (fsm_tx w)). Qed.

Lemma does_instant_now P : does P quiet instant_now.
Proof. by apply does_quiet. Qed.

Lemma does_elapsed P t : does P quiet (elapsed t).
Proof. by apply does_quiet. Qed.

Lemma does_gen_range P lo hi : does P quiet (gen_range lo hi).
Proof. apply does_quiet. intros w. unfold gen_range. by case_match. Qed.

Lemma does_needs_election {T} P (r : Raft T) : does P quiet (needs_election r).
Proof. unfold needs_election. apply does_quiet. intros w. by repeat case_match. Qed.

Lemma does_any {A} P Q (m : M A) : does P Q m → does P any m.
Proof. intros H. by eapply does_weaken. Qed.

Lemma does_for_each {A} P (l : list A) (f : A → M unit) :
  (∀ a, does P any (f a)) → does P any (for_each l f).
Proof.
  intros Hf. induction l as [|a l IH]; simpl; [by apply does_ret|].
  eapply does_bind; [apply Hf|]. auto.
Qed.

(** A state-passing loop whose state keeps an invariant. *)
Lemma does_sfold {A B} P (I : B → Prop) (f : B → A → M B) l b :
  I b → (∀ b a, I b → does P (λ _, I) (f b a)) → does P (λ _, I) (sfold f b l).
Proof.
  intros Hb Hf. revert b Hb. induction l as [|a l IH]; intros b Hb; simpl; [by apply does_ret|].
  eapply does_bind; [by apply Hf|]. intros n b' Hb'. by apply IH.
Qed.

Lemma does_drive P l f : (∀ b, does P any (f b)) → does P any (drive l f).
Proof.
  intros Hf. apply does_for_each. intros o.
  eapply does_bind; [by apply (does_lift _ any)|]. by intros n b _.
Qed.

Lemma does_drive_skip1 P l f : (∀ b, does P any (f b)) → does P any (drive_skip1 l f).
Proof.
  intros Hf. destruct l; [by apply does_ret|].
  eapply does_bind; [by apply (does_lift _ any)|]. intros _ _ _. by apply does_drive.
Qed.
End Does.

#[export] Hint Resolve does_fsm_send does_fsm_send_unwrap does_instant_now does_elapsed
  does_gen_range does_needs_election does_any does_for_each does_drive does_drive_skip1 : does.

(** One step of a computation whose first part is known to the hint database:
    [does_step n a H] names the messages, the value and what is known of it. *)
Tactic Notation "does_step" simple_intropattern(n) simple_intropattern(a) simple_intropattern(H) :=
  eapply does_bind; [solve [eauto with does]|]; intros n a H.

(** ** Kinds of messages *)

(** A granted vote. *)
Definition is_grant (m : Message) : bool :=
  match msg_command m with VoteResponse _ _ true => true | _ => false end.

(** The node a message presents as the leader. *)
Definition leads (m : Message) : option NodeId :=
  match msg_command m with
  | Heartbeat _ _ l => Some l
  | AppendEntries _ l _ => Some l
  | _ => None
  end.

(** A message signed by node [i]; its votes are its own and sent to one peer. *)
Definition signed (i : NodeId) (m : Message) : Prop :=
  msg_from m = Peer i ∧
  match msg_command m with
  | VoteResponse _ from _ => from = i ∧ ∃ c, msg_to m = Peer c
  | Heartbeat _ _ l => l = i
  | AppendEntries _ l _ => l = i
  | _ => True
  end.

(** A message signed by [i] that grants no vote and presents no leader. *)
Definition plain (i : NodeId) (m : Message) : Prop :=
  signed i m ∧ is_grant m = false ∧ leads m = None.
