(* ===== verification/Leader.v ===== *)
(** * The leader ([src/raft/leader.rs]) *)
From S2P Require Import Prelude Bytes Storage Chain Rpc Election Progress Config Raft.
Local Open Scope Z_scope.

Section Ops.
Context {SLED : Sled} {BINC : Bincode Block} {ENV : Env}.

Definition heartbeat (r : Raft Leader) : M unit :=
  send_all r (Heartbeat (current_term (r_state r)) (chain_get_commit (r_chain r)) (r_id r)).

Definition on_transition (r : Raft Leader) : outcome (Raft Leader) := Ret r.

Definition needs_heartbeat (r : Raft Leader) : M bool :=
  e ← elapsed (heartbeat_time (r_role r));
  mret (l_heartbeat_timeout (r_role r) <? e).

Definition reset_heartbeat_timer (r : Raft Leader) : M (Raft Leader) :=
  now ← instant_now;
  mret (with_role {| l_progress := l_progress (r_role r); heartbeat_time := now;
                     l_heartbeat_timeout := l_heartbeat_timeout (r_role r) |} r).

Definition commit (r : Raft Leader) : M (BlockId * Raft Leader) :=
  quorum_idx ← lift (committed_index (l_progress (r_role r)));
  if bytes_ltb (chain_get_commit (r_chain r)) quorum_idx then
    let prev := chain_get_commit (r_chain r) in
    '(new, chain) ← lift (chain_commit (r_chain r) quorum_idx);
    _ ← drive_skip1 (chain_range chain (Included prev) (Included new))
          (λ block, fsm_send_unwrap (Apply block));
    mret (quorum_idx, with_chain chain r)
  else mret (quorum_idx, r).

(** Creating, serializing and writing [josefine.json]; any failure panics. *)
Definition write_state (r : Raft Leader) : M unit := λ w,
  if state_file_ok (asked w) then
    (Ret tt, {| rpc_tx := rpc_tx w; fsm_tx := fsm_tx w; asked := S (asked w);
                state_file := Some {| dbg_leader_id := r_id r;
                                      dbg_commit := chain_get_commit (r_chain r);
                                      dbg_term := current_term (r_state r) |} |})
  else (Panic, w).

(** The blocks sent to a node: [.range(head..).nth(1)] when it is probed,
    [.range(head..).skip(1).take(MAX_INFLIGHT)] when it is replicated to. *)
Definition probe_blocks (r : Raft Leader) (p : Progress Probe) : outcome (list Block) :=
  l ← force (take 2 (chain_range (r_chain r) (Included (p_head p)) Unbounded));
  Ret (match l !! 1%nat with Some block => [block] | None => [] end).
Definition replicate_blocks (r : Raft Leader) (p : Progress Replicate) : outcome (list Block) :=
  l ← force (take (1 + MAX_INFLIGHT) (chain_range (r_chain r) (Included (p_head p)) Unbounded));
  Ret (drop 1 l).

Definition append_entries_msg (r : Raft Leader) (to : NodeId) (blocks : list Block) : Message :=
  Message_new (Peer (r_id r)) (Peer to)
    (AppendEntries (current_term (r_state r)) (r_id r) blocks).

Definition replicate_node (r : Raft Leader) (node : Node) : M unit :=
  match replication_get (l_progress (r_role r)) (n_id node) with
  | None => mret tt
  | Some np =>
      if negb (node_is_active np) then mret tt
      else match np with
           | NProbe p =>
               blocks ← lift (probe_blocks r p);
               rpc_send (append_entries_msg r (n_id node) blocks)
           | NReplicate p =>
               blocks ← lift (replicate_blocks r p);
               rpc_send (append_entries_msg r (n_id node) blocks)
           | NSnapshot _ => mret tt
           end
  end.

Definition replicate (r : Raft Leader) : M unit :=
  for_each (nodes (r_config r)) (replicate_node r).

Definition apply_append_response (r : Raft Leader) (node_id : NodeId) (head : BlockId) :
    M RaftHandle :=
  progress ← lift (replication_advance (l_progress (r_role r)) node_id head);
  let r := with_role {| l_progress := progress; heartbeat_time := heartbeat_time (r_role r);
                        l_heartbeat_timeout := l_heartbeat_timeout (r_role r) |} r in
  '(_, r) ← commit r;
  mret (HLeader r).

(** The last call is [self.apply(Command::AppendResponse ..)], which dispatches to
    [apply_append_response]. *)
Definition apply_client_request (r : Raft Leader) (req : ClientRequest) : M RaftHandle :=
  let block := {| u_data := proposal_get (req_proposal req) |} in
  '(block_id, chain) ← lift (chain_append (r_chain r) block);
  let r := with_chain chain r in
  _ ← fsm_send (Notify (req_id req) (req_address req) block_id);
  let head := chain_get_head (r_chain r) in
  apply_append_response r (r_id r) head.

Definition follower_from_leader (r : Raft Leader) : Raft Follower :=
  {| r_id := r_id r; r_config := r_config r; r_state := r_state r;
     r_role := {| leader_id := None; proxied_reqs := ∅; queued_reqs := [] |};
     r_chain := r_chain r |}.

Definition apply_append_entries (r : Raft Leader) (term : Term) : M RaftHandle :=
  if current_term (r_state r) <? term then
    r ← lift (raft_term r term);
    mret (HFollower (follower_from_leader r))
  else mret (HLeader r).

Definition apply_heartbeat_response (r : Raft Leader) (commit : BlockId) (has_committed : bool) :
    M RaftHandle :=
  _ ← (if negb has_committed && bytes_ltb (BlockId_new 0) commit then replicate r else mret tt);
  mret (HLeader r).

Definition apply_tick (r : Raft Leader) : M RaftHandle :=
  _ ← write_state r;
  due ← needs_heartbeat r;
  r ← (if (due : bool) then _ ← heartbeat r; reset_heartbeat_timer r else mret r);
  _ ← replicate r;
  mret (HLeader r).

Definition apply (r : Raft Leader) (cmd : Command) : M RaftHandle :=
  match cmd with
  | Tick => apply_tick r
  | HeartbeatResponse commit has_committed => apply_heartbeat_response r commit has_committed
  | AppendResponse node_id _ head _ => apply_append_response r node_id head
  | AppendEntries term _ _ => apply_append_entries r term
  | ClientRequestCmd req => apply_client_request r req
  | _ => mret (HLeader r)
  end.
End Ops.
