(* ===== verification/Candidate.v ===== *)
(** * The candidate ([src/raft/candidate.rs]), first part

    Everything but the timeout of an election, which goes back through the
    follower; that part is in [Handle]. *)
From S2P Require Import Prelude Bytes Storage Chain Rpc Election Progress Config Raft.
From S2P Require Leader.
Local Open Scope Z_scope.

Section Ops.
Context {SLED : Sled} {BINC : Bincode Block} {ENV : Env} {BUILD : Build}.

Definition follower_from_candidate (r : Raft Candidate) : Raft Follower :=
  {| r_id := r_id r; r_config := r_config r; r_state := r_state r;
     r_role := {| leader_id := None; proxied_reqs := ∅;
                  queued_reqs := c_queued_reqs (r_role r) |};
     r_chain := r_chain r |}.

Definition leader_from_candidate (r : Raft Candidate) : M (Raft Leader) :=
  let ids := (n_id <$> nodes (r_config r)) ++ [r_id r] in
  progress ← lift (replication_new ids);
  now ← instant_now;
  lift (unwrap_result (Leader.on_transition
    {| r_id := r_id r; r_config := r_config r; r_state := r_state r;
       r_role := {| l_progress := progress; heartbeat_time := now;
                    l_heartbeat_timeout := Config.heartbeat_timeout (r_config r) |};
       r_chain := r_chain r |})).

Definition defeat (r : Raft Candidate) : M RaftHandle :=
  let r := with_state (set_voted_for None) r in
  mret (HFollower (follower_from_candidate r)).

Definition elect (r : Raft Candidate) : M RaftHandle :=
  raft ← leader_from_candidate r;
  _ ← Leader.heartbeat raft;
  mret (HLeader raft).

Definition apply_vote_response (r : Raft Candidate) (granted : bool) (from : NodeId) :
    M RaftHandle :=
  let r := with_role {| election := election_vote (election (r_role r)) from granted;
                        c_queued_reqs := c_queued_reqs (r_role r) |} r in
  match election_status (election (r_role r)) with
  | Elected => elect r
  | Voting => mret (HCandidate r)
  | Defeated => defeat r
  end.

(** The last call is [self.apply(Command::VoteResponse ..)], which dispatches to
    [apply_vote_response]. *)
Definition seek_election (r : Raft Candidate) : M RaftHandle :=
  let r := with_state (set_voted_for (Some (r_id r))) r in
  term ← lift (u64_add (current_term (r_state r)) 1);
  let r := with_state (set_current_term term) r in
  _ ← for_each (nodes (r_config r)) (λ _,
        send_all r (VoteRequest term (r_id r) term (chain_get_head (r_chain r))));
  apply_vote_response r true (r_id r).

Definition apply_vote_request (r : Raft Candidate) (candidate_id : NodeId) (term : Term) :
    M RaftHandle :=
  if current_term (r_state r) <? term then
    r ← lift (raft_term r term);
    mret (HFollower (follower_from_candidate r))
  else
    _ ← send r (Peer candidate_id) (VoteResponse (current_term (r_state r)) (r_id r) false);
    mret (HCandidate r).

Definition apply_append_entries (r : Raft Candidate) (term : Term) : M RaftHandle :=
  if current_term (r_state r) <=? term then mret (HFollower (follower_from_candidate r))
  else mret (HCandidate r).

Definition apply_heartbeat (r : Raft Candidate) (term : Term) (leader_id : NodeId)
    (commit : BlockId) : M RaftHandle :=
  has_committed ← lift (chain_has (r_chain r) commit);
  let commit := chain_get_commit (r_chain r) in
  r ← lift (raft_term r term);
  let r := with_state (set_voted_for (Some leader_id)) r in
  let raft := follower_from_candidate r in
  _ ← send raft (Peer leader_id) (HeartbeatResponse commit has_committed);
  mret (HFollower raft).

Definition apply_client_request (r : Raft Candidate) (req : ClientRequest) : M RaftHandle :=
  mret (HCandidate (with_role {| election := election (r_role r);
                                 c_queued_reqs := c_queued_reqs (r_role r) ++ [req] |} r)).
End Ops.
