(* ===== verification/Follower.v ===== *)
(** * The follower ([src/raft/follower.rs]) *)
From S2P Require Import Prelude Bytes Storage Chain Rpc Election Progress Config Raft.
From S2P Require Candidate.
Local Open Scope Z_scope.

Section Ops.
Context {SLED : Sled} {BINC : Bincode Block} {ENV : Env} {BUILD : Build}.

Definition can_vote (r : Raft Follower) (last_term : Term) (head : BlockId) : bool :=
  negb (bool_decide (is_Some (voted_for (r_state r)))
        || (last_term <? current_term (r_state r))
        || bytes_ltb head (chain_get_commit (r_chain r))).

Definition get_randomized_timeout (r : Raft Follower) : M Z :=
  timeout ← gen_range (min_election_timeout (r_state r)) (max_election_timeout (r_state r));
  mret (from_millis timeout).

Definition set_election_timeout (r : Raft Follower) : M (Raft Follower) :=
  timeout ← get_randomized_timeout r;
  let r := with_state (set_election_timer (Some timeout)) r in
  now ← instant_now;
  mret (with_state (set_election_time (Some now)) r).

Definition init (r : Raft Follower) : M (Raft Follower) := set_election_timeout r.

(** [d] is the tree that sled opens at the data directory. *)
Definition new (config : RaftConfig) (d : db) : M (Raft Follower) :=
  _ ← lift (validate config);
  chain ← lift (chain_new d);
  init {| r_id := cfg_id config; r_config := config; r_state := State_default;
          r_role := {| leader_id := None; proxied_reqs := ∅; queued_reqs := [] |};
          r_chain := chain |}.

Definition apply_self (r : Raft Follower) : M RaftHandle := mret (HFollower r).

Definition with_leader (l : option NodeId) (r : Raft Follower) : Raft Follower :=
  with_role {| leader_id := l; proxied_reqs := proxied_reqs (r_role r);
               queued_reqs := queued_reqs (r_role r) |} r.

Definition candidate_from_follower (r : Raft Follower) : Raft Candidate :=
  let node_ids := (n_id <$> nodes (r_config r)) ++ [r_id r] in
  {| r_id := r_id r; r_config := r_config r; r_state := r_state r;
     r_role := {| election := election_new node_ids; c_queued_reqs := [] |};
     r_chain := r_chain r |}.

Definition apply_timeout (r : Raft Follower) : M RaftHandle :=
  match voted_for (r_state r) with
  | None =>
      r ← set_election_timeout r;
      Candidate.seek_election (candidate_from_follower r)
  | Some _ => apply_self r
  end.

(** The call on expiry is [self.apply(Command::Timeout)], which dispatches to
    [apply_timeout]. *)
Definition apply_tick (r : Raft Follower) : M RaftHandle :=
  due ← needs_election r;
  if (due : bool) then apply_timeout r else apply_self r.

Definition apply_append_entries (r : Raft Follower) (blocks : list Block)
    (leader_id : NodeId) (term : Term) : M RaftHandle :=
  r ← match voted_for (r_state r) with
      | None =>
          if current_term (r_state r) <=? term then
            r ← lift (raft_term r term);
            now ← instant_now;
            let r := with_state (set_election_time (Some now)) r in
            let r := with_leader (Some leader_id) r in
            mret (with_state (set_voted_for (Some leader_id)) r)
          else mret r
      | Some _ => mret r
      end;
  _ ← match voted_for (r_state r) with
      | Some voted_for =>
          lift (assert (negb (negb (voted_for =? leader_id)
                              && (term <? current_term (r_state r)))))
      | None => mret tt
      end;
  if decide (blocks = []) then apply_self r
  else
    chain ← lift (ofold chain_extend (r_chain r) blocks);
    let r := with_chain chain r in
    _ ← rpc_send (Message_new (Peer (r_id r)) (Peer leader_id)
          (AppendResponse (r_id r) (current_term (r_state r)) (chain_get_head (r_chain r)) true));
    apply_self r.

(** One turn of the loop over the queued requests. *)
Definition flush_one (leader_id : NodeId) (r : Raft Follower) (req : ClientRequest) :
    M (Raft Follower) :=
  _ ← send r (Peer leader_id) (ClientRequestCmd req);
  mret (with_role {| Raft.leader_id := Raft.leader_id (r_role r);
                     proxied_reqs := {[req_id req]} ∪ proxied_reqs (r_role r);
                     queued_reqs := queued_reqs (r_role r) |} r).

Definition flush_queue (leader_id : NodeId) (r : Raft Follower) : M (Raft Follower) :=
  let queue := queued_reqs (r_role r) in
  sfold (flush_one leader_id)
    (with_role {| Raft.leader_id := Raft.leader_id (r_role r);
                  proxied_reqs := proxied_reqs (r_role r); queued_reqs := [] |} r) queue.

Definition apply_heartbeat (r : Raft Follower) (leader_id : NodeId) (term : Term)
    (commit : BlockId) : M RaftHandle :=
  r ← set_election_timeout r;
  r ← lift (raft_term r term);
  let r := with_leader (Some leader_id) r in
  let r := with_state (set_voted_for (Some leader_id)) r in
  r ← flush_queue leader_id r;
  has_committed ← lift (chain_has (r_chain r) commit);
  r ← (if (has_committed : bool) && bytes_ltb (chain_get_commit (r_chain r)) commit then
         let prev := chain_get_commit (r_chain r) in
         '(_, chain) ← lift (chain_commit (r_chain r) commit);
         _ ← drive (chain_range chain (Included prev) (Excluded commit))
               (λ block, fsm_send_unwrap (Apply block));
         mret (with_chain chain r)
       else mret r);
  _ ← send r (Peer leader_id)
        (HeartbeatResponse (chain_get_commit (r_chain r)) has_committed);
  apply_self r.

Definition apply_vote_request (r : Raft Follower) (candidate_id : NodeId)
    (last_term : Term) (head : BlockId) : M RaftHandle :=
  if can_vote r last_term head then
    _ ← send r (Peer candidate_id) (VoteResponse (current_term (r_state r)) (r_id r) true);
    apply_self (with_state (set_voted_for (Some candidate_id)) r)
  else
    _ ← send r (Peer candidate_id) (VoteResponse (current_term (r_state r)) (r_id r) false);
    apply_self r.

Definition apply_client_request (r : Raft Follower) (req : ClientRequest) : M RaftHandle :=
  let req := {| req_id := req_id req; req_address := Peer (r_id r);
                req_proposal := req_proposal req |} in
  match leader_id (r_role r) with
  | Some l =>
      _ ← send r (Peer l) (ClientRequestCmd req);
      apply_self (with_role {| leader_id := leader_id (r_role r);
                               proxied_reqs := {[req_id req]} ∪ proxied_reqs (r_role r);
                               queued_reqs := queued_reqs (r_role r) |} r)
  | None =>
      apply_self (with_role {| leader_id := leader_id (r_role r);
                               proxied_reqs := proxied_reqs (r_role r);
                               queued_reqs := queued_reqs (r_role r) ++ [req] |} r)
  end.

Definition apply_client_response (r : Raft Follower) (res : ClientResponse) : M RaftHandle :=
  _ ← send r Client (ClientResponseCmd {| res_id := res_id res; res_res := res_res res |});
  apply_self (with_role {| leader_id := leader_id (r_role r);
                           proxied_reqs := proxied_reqs (r_role r) ∖ {[res_id res]};
                           queued_reqs := queued_reqs (r_role r) |} r).

Definition apply (r : Raft Follower) (cmd : Command) : M RaftHandle :=
  match cmd with
  | Tick => apply_tick r
  | AppendEntries term leader_id blocks => apply_append_entries r blocks leader_id term
  | Heartbeat term commit leader_id => apply_heartbeat r leader_id term commit
  | VoteRequest _ candidate_id last_term head => apply_vote_request r candidate_id last_term head
  | Timeout => apply_timeout r
  | ClientRequestCmd req => apply_client_request r req
  | ClientResponseCmd res => apply_client_response r res
  | _ => apply_self r
  end.
End Ops.
