(* ===== verification/Handle.v ===== *)
(** * The handle: dispatch to the roles
    ([src/raft/mod.rs], [src/raft/candidate.rs]) *)
From S2P Require Import Prelude Bytes Storage Chain Rpc Election Progress Config Raft.
From S2P Require Leader Candidate Follower.
Local Open Scope Z_scope.

Section Ops.
Context {SLED : Sled} {BINC : Bincode Block} {ENV : Env} {BUILD : Build}.

(** [Raft<Candidate>::apply_tick]: an election that timed out is left through the
    follower's timeout, which starts the next one. *)
Definition candidate_apply_tick (r : Raft Candidate) : M RaftHandle :=
  due ← needs_election r;
  if (due : bool) then
    match election_status (election (r_role r)) with
    | Voting | Defeated =>
        let r := with_state (set_voted_for None) r in
        Follower.apply (Candidate.follower_from_candidate r) Timeout
    | Elected => lift Panic
    end
  else mret (HCandidate r).

Definition candidate_apply (r : Raft Candidate) (cmd : Command) : M RaftHandle :=
  match cmd with
  | Tick => candidate_apply_tick r
  | VoteRequest term candidate_id _ _ => Candidate.apply_vote_request r candidate_id term
  | VoteResponse _ from granted => Candidate.apply_vote_response r granted from
  | AppendEntries term _ _ => Candidate.apply_append_entries r term
  | Heartbeat term commit leader_id => Candidate.apply_heartbeat r term leader_id commit
  | ClientRequestCmd req => Candidate.apply_client_request r req
  | _ => mret (HCandidate r)
  end.

Definition handle_new (config : RaftConfig) (d : db) : M RaftHandle := λ w,
  match Follower.new config d w with
  | (Ret r, w') => (Ret (HFollower r), w')
  | (_, w') => (Panic, w')
  end.

Definition handle_apply (h : RaftHandle) (cmd : Command) : M RaftHandle :=
  match h with
  | HFollower r => Follower.apply r cmd
  | HCandidate r => candidate_apply r cmd
  | HLeader r => Leader.apply r cmd
  end.

(** The internal calls of [apply] are calls of the dispatcher. *)
Lemma follower_tick_applies r :
  Follower.apply_tick r = (due ← needs_election r;
    if (due : bool) then handle_apply (HFollower r) Timeout else mret (HFollower r)).
Proof. done. Qed.

Lemma seek_election_applies (r : Raft Candidate) :
  Candidate.seek_election r =
    (let r := with_state (set_voted_for (Some (r_id r))) r in
     term ← lift (u64_add (current_term (r_state r)) 1);
     let r := with_state (set_current_term term) r in
     _ ← for_each (nodes (r_config r)) (λ _,
           send_all r (VoteRequest term (r_id r) term (chain_get_head (r_chain r))));
     handle_apply (HCandidate r) (VoteResponse term (r_id r) true)).
Proof. done. Qed.

Lemma leader_request_applies (r : Raft Leader) req :
  Leader.apply_client_request r req =
    ('(block_id, chain) ← lift (chain_append (r_chain r)
        {| u_data := proposal_get (req_proposal req) |});
     let r := with_chain chain r in
     _ ← fsm_send (Notify (req_id req) (req_address req) block_id);
     handle_apply (HLeader r)
       (AppendResponse (r_id r) (current_term (r_state r)) (chain_get_head (r_chain r)) true)).
Proof. done. Qed.
End Ops.
