(* ===== verification/Fsm.v ===== *)
(** * The driver of the state machine ([src/raft/fsm.rs])

    The driver receives the committed blocks and the notifications of the node,
    applies the blocks to the application's state machine and answers the
    clients whose requests became blocks. *)
From S2P Require Import Prelude Bytes Storage Chain Rpc Raft.
Local Open Scope Z_scope.

(** The trait [Fsm]: [transition] may fail or panic, and it mutates the machine
    in every case. *)
Class Fsm := {
  fsm : Type;
  transition : fsm → bytes → outcome bytes * fsm;
}.

Section Ops.
Context {FSM : Fsm}.

Record Driver : Type := {
  d_fsm : fsm;
  notifications : gmap BlockId (Address * ClientRequestId);
}.

Definition driver_new (f : fsm) : Driver := {| d_fsm := f; notifications := ∅ |}.

Definition exec (d : Driver) (block : Block) : outcome bytes * Driver :=
  let '(res, f) := transition (d_fsm d) (b_data block) in
  (res, {| d_fsm := f; notifications := notifications d |}).

(** [res.map(Response::new).map_err(|_e| ResponseError {})]. *)
Definition response_of (res : outcome bytes) : Response + ResponseError :=
  match res with Ret b => inl {| response_get := b |} | _ => inr response_error end.

Definition response_msg (to : Address) (id : ClientRequestId) (res : outcome bytes) : Message :=
  Message_new Local to (ClientResponseCmd {| res_id := id; res_res := response_of res |}).

(** One instruction: the body of the loop of [run].  A panic of the state machine
    ends the task. *)
Definition driver_step (d : Driver) (i : Instruction) : M Driver :=
  match i with
  | Apply block =>
      if decide (b_id block = BlockId_new 0) then mret d
      else
        let '(res, d) := exec d block in
        match res with
        | Panic => lift Panic
        | _ =>
            match notifications d !! b_id block with
            | Some (to, id) =>
                _ ← rpc_send (response_msg to id res);
                mret {| d_fsm := d_fsm d; notifications := delete (b_id block) (notifications d) |}
            | None => mret d
            end
        end
  | Notify id client_address block_id =>
      mret {| d_fsm := d_fsm d; notifications := <[block_id := (client_address, id)]> (notifications d) |}
  end.

(** [run] on the instructions that arrive before the shutdown. *)
Definition driver_run (d : Driver) (l : list Instruction) : M Driver := sfold driver_step d l.

(** The driver only sends responses. *)
Lemma driver_step_does d i :
  does (λ m, ∃ res, msg_command m = ClientResponseCmd res) any (driver_step d i).
Proof.
  destruct i as [b|id a k]; simpl; [|by apply does_ret].
  case_decide; [by apply does_ret|]. destruct (exec d b) as [res d'].
  assert (does (λ m, ∃ res, msg_command m = ClientResponseCmd res) any
    match notifications d' !! b_id b with
    | Some (to, id) =>
        _ ← rpc_send (response_msg to id res);
        mret {| d_fsm := d_fsm d'; notifications := delete (b_id b) (notifications d') |}
    | None => mret d'
    end) as Hsend.
  { destruct (notifications d' !! b_id b) as [[to id]|]; [|by apply does_ret].
    apply does_bind_send; [by eexists|]. by apply does_ret. }
  destruct res; [done..|]. by apply does_lift.
Qed.
End Ops.
