(* ===== verification/Tcp.v ===== *)
(** * Outgoing connections ([src/raft/tcp.rs])

    The task that distributes the messages of a node to the queues of its
    peers: who a message is for, and that a queue holds the messages for its
    peer in the order the node sent them, less those dropped when it was full. *)
From S2P Require Import Prelude Bytes Storage Chain Rpc Config.
Local Open Scope Z_scope.

(** The bounded channel to the task of a peer: what waits in it, and what the
    task took out of it so far. *)
Record PeerChan : Type := {
  queue : list Message;
  taken : list Message;
  peer_alive : bool;
}.
Definition CAPACITY : nat := 1000.

Definition send_task_init (nodes : list Node) : gmap NodeId PeerChan :=
  foldl (λ txs node, <[n_id node := {| queue := []; taken := []; peer_alive := true |}]> txs) ∅ nodes.

(** A message that comes from this node itself is signed with its address. *)
Definition sign (id : NodeId) (m : Message) : Message :=
  if decide (msg_from m = Local) then Message_new (Peer id) (msg_to m) (msg_command m) else m.

Definition recipients (txs : gmap NodeId PeerChan) (m : Message) : list NodeId :=
  match msg_to m with
  | Peers => (map_to_list txs).*1
  | Peer peer => [peer]
  | _ => []
  end.

(** [tx.try_send(message)]: a full queue drops the message, a closed one ends
    the task. *)
Definition try_send_to (m : Message) (txs : gmap NodeId PeerChan) (id : NodeId) :
    outcome (gmap NodeId PeerChan) :=
  match txs !! id with
  | Some tx =>
      if negb (peer_alive tx) then Err (ErrMsg "could not send message")
      else if (length (queue tx) <? CAPACITY)%nat then
        Ret (<[id := {| queue := queue tx ++ [m]; taken := taken tx; peer_alive := true |}]> txs)
      else Ret txs
  | None => Ret txs
  end.

(** One message: the body of the loop of [send_task]. *)
Definition send_task_step (id : NodeId) (txs : gmap NodeId PeerChan) (m : Message) :
    outcome (gmap NodeId PeerChan) :=
  let m := sign id m in
  ofold (try_send_to m) txs (recipients txs m).

(** [stream.send(message)] of the task of peer [id] ([send_messages]): it takes
    the oldest message. *)
Definition send_messages_step (id : NodeId) (txs : gmap NodeId PeerChan) : gmap NodeId PeerChan :=
  match txs !! id with
  | Some {| queue := m :: q; taken := t; peer_alive := a |} =>
      <[id := {| queue := q; taken := t ++ [m]; peer_alive := a |}]> txs
  | _ => txs
  end.

(** The task of the node and those of its peers, interleaved. *)
Inductive TcpEvent : Type := Distribute (m : Message) | Take (id : NodeId).
Definition tcp_step (id : NodeId) (txs : gmap NodeId PeerChan) (e : TcpEvent) :
    outcome (gmap NodeId PeerChan) :=
  match e with
  | Distribute m => send_task_step id txs m
  | Take j => Ret (send_messages_step j txs)
  end.

(** ** Whom a message is for *)
Definition addressed (m : Message) (j : NodeId) : bool :=
  match msg_to m with Peers => true | Peer k => bool_decide (k = j) | _ => false end.
Definition routed (id j : NodeId) (l : list TcpEvent) : list Message :=
  l ≫= λ e, match e with
            | Distribute m => if addressed m j then [sign id m] else []
            | Take _ => []
            end.

(** The contents of a channel: taken, then waiting. *)
Definition passed (tx : PeerChan) : list Message := taken tx ++ queue tx.

(** What one [try_send] may do to the channel of [j]. *)
Definition offers (m : Message) (tx tx' : PeerChan) : Prop :=
  taken tx' = taken tx ∧ peer_alive tx' = peer_alive tx ∧
  ((queue tx' = queue tx ++ [m]) ∨ (queue tx' = queue tx ∧ (CAPACITY ≤ length (queue tx))%nat)).

Lemma sign_to id m : msg_to (sign id m) = msg_to m.
Proof. unfold sign. by case_decide. Qed.

Lemma try_send_spec m txs i txs' :
  try_send_to m txs i = Ret txs' →
  dom txs' = dom txs ∧ (∀ j, j ≠ i → txs' !! j = txs !! j) ∧
  (∀ tx, txs !! i = Some tx → ∃ tx', txs' !! i = Some tx' ∧ offers m tx tx').
Proof.
  unfold try_send_to. destruct (txs !! i) as [tx|] eqn:Hi; [|by intros [= <-]].
  destruct (peer_alive tx) eqn:Ha; [|done]. cbn [negb]. destruct (Nat.ltb_spec (length (queue tx)) CAPACITY); intros [= <-].
  - split_and!.
    + apply dom_insert_lookup_L. by eexists.
    + intros j ?. by rewrite lookup_insert_ne.
    + intros ? [= <-]. rewrite lookup_insert_eq. eexists. split; [done|]. split; [done|]. split; [by rewrite Ha|]. by left.
  - split_and!; [done..|]. intros ? [= <-]. exists tx. split; [done|]. split; [done|]. split; [done|]. by right.
Qed.

(** A pass over distinct recipients offers the message once to each. *)
Lemma try_send_all m l txs txs' :
  NoDup l → ofold (try_send_to m) txs l = Ret txs' →
  dom txs' = dom txs ∧
  ∀ j tx, txs !! j = Some tx → ∃ tx', txs' !! j = Some tx' ∧
    if decide (j ∈ l) then offers m tx tx' else tx' = tx.
Proof.
  revert txs. induction l as [|i l IH]; intros txs Hnd Hrun; simpl in Hrun.
  { injection Hrun as <-. split; [done|]. intros j tx Hj. exists tx. split; [done|].
    case_decide; [by apply not_elem_of_nil in H|done]. }
  apply NoDup_cons in Hnd as [Hi Hnd]. apply bind_Ret in Hrun as (txs1 & H1 & Hrun).
  apply try_send_spec in H1 as (Hd & Hne & Heq). destruct (IH _ Hnd Hrun) as [Hd' Hl].
  split; [congruence|]. intros j tx Hj. destruct (decide (j = i)) as [->|Hji].
  - destruct (Heq _ Hj) as (tx1 & Hj1 & Hof). destruct (Hl _ _ Hj1) as (tx' & Hj' & Hd2).
    exists tx'. split; [done|]. rewrite decide_False in Hd2 by done. subst tx'.
    rewrite decide_True by set_solver. done.
  - rewrite <-Hne in Hj by done. destruct (Hl _ _ Hj) as (tx' & Hj' & Hd2).
    exists tx'. split; [done|]. destruct (decide (j ∈ l)).
    + by rewrite decide_True by set_solver.
    + by rewrite decide_False by set_solver.
Qed.

Lemma send_task_step_spec id txs m txs' :
  send_task_step id txs m = Ret txs' →
  dom txs' = dom txs ∧
  ∀ j tx, txs !! j = Some tx → ∃ tx', txs' !! j = Some tx' ∧
    if addressed m j then offers (sign id m) tx tx' else tx' = tx.
Proof.
  unfold send_task_step. intros Hrun. apply try_send_all in Hrun as [Hd Hl].
  - split; [done|]. intros j tx Hj. destruct (Hl j tx Hj) as (tx' & Hj' & Hcase).
    exists tx'. split; [done|]. revert Hcase. unfold recipients, addressed. rewrite sign_to.
    destruct (msg_to m) as [|k| |].
    + rewrite decide_True; [done|]. apply list_elem_of_fmap. exists (j, tx).
      split; [done|]. by apply elem_of_map_to_list.
    + case_bool_decide as Hk.
      * rewrite decide_True; [done|]. by apply list_elem_of_singleton.
      * rewrite decide_False; [done|]. intros ?%list_elem_of_singleton. congruence.
    + rewrite decide_False; [done|]. by apply not_elem_of_nil.
    + rewrite decide_False; [done|]. by apply not_elem_of_nil.
  - unfold recipients. destruct (msg_to _); [apply NoDup_fst_map_to_list|apply NoDup_singleton|by constructor..].
Qed.

(** The channels hold what was routed to them, less what a full queue dropped. *)
Definition delivers (id : NodeId) (h : list TcpEvent) (txs : gmap NodeId PeerChan) : Prop :=
  ∀ j tx, txs !! j = Some tx →
    passed tx `sublist_of` routed id j h ∧
    ((length (routed id j h) ≤ CAPACITY)%nat → passed tx = routed id j h).

Lemma routed_snoc id j h e : routed id j (h ++ [e]) = routed id j h ++ routed id j [e].
Proof. unfold routed. by rewrite bind_app. Qed.

Lemma routed_distribute id j m :
  routed id j [Distribute m] = if addressed m j then [sign id m] else [].
Proof. unfold routed. simpl. by rewrite app_nil_r. Qed.

Lemma offers_delivers m tx tx' (r : list Message) :
  offers m tx tx' → passed tx `sublist_of` r →
  ((length r ≤ CAPACITY)%nat → passed tx = r) →
  passed tx' `sublist_of` r ++ [m] ∧
  ((length (r ++ [m]) ≤ CAPACITY)%nat → passed tx' = r ++ [m]).
Proof.
  unfold passed. intros (-> & _ & [->|[-> Hfull]]) Hsub Hall.
  - rewrite app_assoc. split; [by apply sublist_app|].
    rewrite length_app. simpl. intros ?. rewrite Hall by lia. done.
  - split; [by apply sublist_inserts_r|]. rewrite length_app. simpl. intros Hlen.
    specialize (Hall ltac:(lia)). rewrite <-Hall, length_app in Hlen. lia.
Qed.

Lemma tcp_step_delivers id h txs e txs' :
  delivers id h txs → tcp_step id txs e = Ret txs' → delivers id (h ++ [e]) txs'.
Proof.
  intros Hdel Hstep j tx' Hj'. rewrite routed_snoc. destruct e as [m|k]; simpl in Hstep.
  - apply send_task_step_spec in Hstep as [Hd Hl].
    assert (is_Some (txs !! j)) as [tx Hj]
      by (apply elem_of_dom; rewrite <-Hd; apply elem_of_dom; by eexists).
    destruct (Hdel j tx Hj) as [Hsub Hall]. destruct (Hl j tx Hj) as (tx2 & Hj2 & Hcase).
    rewrite Hj' in Hj2. injection Hj2 as <-. rewrite routed_distribute.
    destruct (addressed m j); [by eapply offers_delivers|].
    rewrite app_nil_r. by subst.
  - injection Hstep as <-. change (routed id j [Take k]) with (@nil Message). rewrite app_nil_r.
    unfold send_messages_step in Hj'. destruct (txs !! k) as [[q t a]|] eqn:Hk; [|by apply Hdel].
    destruct q as [|m q]; [by apply Hdel|]. destruct (decide (j = k)) as [->|Hne].
    + rewrite lookup_insert_eq in Hj'. injection Hj' as <-. apply Hdel in Hk.
      unfold passed in *. simpl in *. by rewrite <-app_assoc.
    + rewrite lookup_insert_ne in Hj' by done. by apply Hdel.
Qed.

Lemma tcp_run_delivers id l h txs txs' :
  delivers id h txs → ofold (tcp_step id) txs l = Ret txs' → delivers id (h ++ l) txs'.
Proof.
  revert h txs. induction l as [|e l IH]; intros h txs Hdel Hrun; simpl in Hrun.
  - injection Hrun as <-. by rewrite app_nil_r.
  - apply bind_Ret in Hrun as (txs1 & H1 & Hrun). rewrite cons_middle, app_assoc.
    eapply IH; [by eapply tcp_step_delivers|done].
Qed.

Lemma init_delivers id nodes : delivers id [] (send_task_init nodes).
Proof.
  unfold send_task_init. assert (delivers id [] ∅) as H0 by done. revert H0.
  generalize (∅ : gmap NodeId PeerChan). induction nodes as [|n l IH]; intros txs Hdel; [done|].
  simpl. apply IH. intros j tx. rewrite lookup_insert_Some. intros [[_ <-]|[_ Hj]]; [done|].
  by apply Hdel.
Qed.

(** ** Properties *)

(** Whatever the interleaving of the distributing task with the tasks of
    the peers, what reaches a peer is a subsequence of the messages addressed to
    it, in the order the node sent them, none duplicated and each signed; as
    long as the queue of the peer holds fewer than its capacity nothing is
    lost. *)
Theorem send_task_fifo id nodes l txs j tx :
  ofold (tcp_step id) (send_task_init nodes) l = Ret txs → txs !! j = Some tx →
  passed tx `sublist_of` routed id j l ∧
  ((length (routed id j l) ≤ CAPACITY)%nat → passed tx = routed id j l).
Proof. intros Hrun Hj. by apply (tcp_run_delivers id l [] _ txs (init_delivers id nodes) Hrun). Qed.

(** ** Witnesses *)
Definition tcp_events : list TcpEvent :=
  [Distribute (Message_new (Peer 1) Peers Tick); Take 2;
   Distribute (Message_new Local (Peer 2) Noop);
   Distribute (Message_new (Peer 1) (Peer 3) Noop)].
Definition tcp_peers : list Node :=
  [{| n_id := 2; n_addr := {| sock_ip := V4 0; sock_port := 0 |} |}; {| n_id := 3; n_addr := {| sock_ip := V4 0; sock_port := 0 |} |}].
Definition tcp_txs : gmap NodeId PeerChan :=
  ret_or ∅ (ofold (tcp_step 1) (send_task_init tcp_peers) tcp_events).

Lemma send_task_fifo_witness :
  passed (default {| queue := []; taken := []; peer_alive := true |} (tcp_txs !! 2)) =
    routed 1 2 tcp_events ∧ length (routed 1 2 tcp_events) = 2%nat.
Proof.
  split; [|reflexivity].
  apply (send_task_fifo 1 tcp_peers tcp_events tcp_txs 2 _); [reflexivity|reflexivity|].
  unfold CAPACITY. simpl. lia.
Defined.
