(* ===== verification/Server.v ===== *)
(** * The server of a node ([src/raft/server.rs], [src/raft/client.rs])

    The event loop that owns the Raft state machine, and the node as a whole:
    event loop, driver, and the channels between them. *)
From S2P Require Import Prelude Bytes Storage Chain Rpc Election Progress Config Raft.
From S2P Require Import Handle Fsm.
Local Open Scope Z_scope.

(** The sending half of a client's oneshot channel.  That of a proxied request
    has a receiver that was dropped at once. *)
Inductive Responder : Type := Dropped | ToClient (client : nat).

(** [Uuid::new_v4], and whether a client still waits when it is answered. *)
Class ServerEnv := {
  uuid : nat → ClientRequestId;
  waiting : nat → bool;
}.

Section Ops.
Context {SLED : Sled} {BINC : Bincode Block} {ENV : Env} {BUILD : Build} {SENV : ServerEnv}.

(** The state of [event_loop]; the ticks, the messages of the node's own channel,
    those of the peers and the requests of the clients are its inputs. *)
Record EventLoop : Type := {
  raft : RaftHandle;
  requests : gmap ClientRequestId Responder;
  tcp_tx : chan Message;
  answers : list (nat * (Response + ResponseError));
}.

Inductive Event : Type :=
| EvTick
| EvTcp (msg : Message)
| EvRpc (msg : Message)
| EvClient (proposal : Proposal) (client : nat).

Definition with_raft (h : RaftHandle) (s : EventLoop) : EventLoop :=
  {| raft := h; requests := requests s; tcp_tx := tcp_tx s; answers := answers s |}.
Definition with_requests (r : gmap ClientRequestId Responder) (s : EventLoop) : EventLoop :=
  {| raft := raft s; requests := r; tcp_tx := tcp_tx s; answers := answers s |}.

(** [raft = raft.apply(command)?]. *)
Definition loop_apply (s : EventLoop) (cmd : Command) : M EventLoop :=
  h ← handle_apply (raft s) cmd;
  mret (with_raft h s).

Definition tcp_tx_send (s : EventLoop) (msg : Message) : M EventLoop :=
  if receiver_alive (tcp_tx s) then
    mret {| raft := raft s; requests := requests s;
            tcp_tx := {| sent := sent (tcp_tx s) ++ [msg]; receiver_alive := true |};
            answers := answers s |}
  else lift (Err ErrSend).

(** [tx.send(res.res).expect(..)]. *)
Definition respond (s : EventLoop) (tx : Responder) (res : Response + ResponseError) :
    M EventLoop :=
  match tx with
  | ToClient c =>
      if waiting c then
        mret {| raft := raft s; requests := requests s; tcp_tx := tcp_tx s;
                answers := answers s ++ [(c, res)] |}
      else lift Panic
  | Dropped => lift Panic
  end.

Definition new_uuid : M ClientRequestId := λ w, (Ret (uuid (asked w)), ask w).

(** One turn of the loop. *)
Definition event_loop_step (s : EventLoop) (e : Event) : M EventLoop :=
  match e with
  | EvTick => loop_apply s Tick
  | EvTcp msg =>
      match msg_to msg, msg_command msg with
      | Peer _, ClientRequestCmd req =>
          loop_apply (with_requests (<[req_id req := Dropped]> (requests s)) s) (msg_command msg)
      | _, _ => loop_apply s (msg_command msg)
      end
  | EvRpc msg =>
      match msg_to msg with
      | Peer _ | Peers => tcp_tx_send s msg
      | Local => loop_apply s (msg_command msg)
      | Client =>
          match msg_command msg with
          | ClientResponseCmd res =>
              match requests s !! res_id res with
              | Some tx =>
                  respond (with_requests (delete (res_id res) (requests s)) s) tx (res_res res)
              | None => lift Panic
              end
          | _ => lift (Err (ErrMsg "unexpected message"))
          end
      end
  | EvClient proposal client =>
      id ← new_uuid;
      loop_apply (with_requests (<[id := ToClient client]> (requests s)) s)
        (ClientRequestCmd {| req_id := id; req_address := Client; req_proposal := proposal |})
  end.
End Ops.

(** ** A node: its event loop and its driver over the shared channels *)
Section Node.
Context {SLED : Sled} {BINC : Bincode Block} {ENV : Env} {BUILD : Build} {SENV : ServerEnv}.
Context {FSM : Fsm}.

(** [alive] is false once a task failed: the server joins its tasks and stops at
    the first failure.  [rpc_read] and [fsm_read] count the messages and the
    instructions taken from the node's channels. *)
Record ServerNode : Type := {
  sn_loop : EventLoop;
  sn_driver : Driver;
  sn_world : World;
  rpc_read : nat;
  fsm_read : nat;
  alive : bool;
}.

(** The end of an event: the new state, or the node as it stopped.  The state and the
    chain of a node that stopped are those before the event that failed; what that
    event sent is kept, but not the entries it wrote to the database before it failed.
    No task of the node reads them any more: it takes no more steps. *)
Definition after_event (n : ServerNode) (read : nat) (r : outcome EventLoop * World) : ServerNode :=
  match r.1 with
  | Ret s => {| sn_loop := s; sn_driver := sn_driver n; sn_world := r.2;
                rpc_read := read; fsm_read := fsm_read n; alive := true |}
  | _ => {| sn_loop := sn_loop n; sn_driver := sn_driver n; sn_world := r.2;
            rpc_read := read; fsm_read := fsm_read n; alive := false |}
  end.
Definition after_instruction (n : ServerNode) (r : outcome Driver * World) : ServerNode :=
  match r.1 with
  | Ret d => {| sn_loop := sn_loop n; sn_driver := d; sn_world := r.2;
                rpc_read := rpc_read n; fsm_read := S (fsm_read n); alive := true |}
  | _ => {| sn_loop := sn_loop n; sn_driver := sn_driver n; sn_world := r.2;
            rpc_read := rpc_read n; fsm_read := S (fsm_read n); alive := false |}
  end.

(** The steps of a live node; [In m] says that [m] can arrive from a peer. *)
Inductive node_step (In : Message → Prop) (n : ServerNode) : ServerNode → Prop :=
| node_tick :
    alive n = true →
    node_step In n (after_event n (rpc_read n) (event_loop_step (sn_loop n) EvTick (sn_world n)))
| node_tcp m :
    alive n = true → In m →
    node_step In n (after_event n (rpc_read n) (event_loop_step (sn_loop n) (EvTcp m) (sn_world n)))
| node_rpc m :
    alive n = true → msgs (sn_world n) !! rpc_read n = Some m →
    node_step In n
      (after_event n (S (rpc_read n)) (event_loop_step (sn_loop n) (EvRpc m) (sn_world n)))
| node_client p c :
    alive n = true →
    node_step In n
      (after_event n (rpc_read n) (event_loop_step (sn_loop n) (EvClient p c) (sn_world n)))
| node_driver i :
    alive n = true → instrs (sn_world n) !! fsm_read n = Some i →
    node_step In n (after_instruction n (driver_step (sn_driver n) i (sn_world n))).

(** [Server::run] before the first event. *)
Definition server_new (config : RaftConfig) (d : db) (f : fsm) (asked : nat) : outcome ServerNode :=
  let w := {| rpc_tx := {| sent := []; receiver_alive := true |};
              fsm_tx := {| sent := []; receiver_alive := true |};
              asked := asked; state_file := None |} in
  let '(o, w) := handle_new config d w in
  h ← o;
  Ret {| sn_loop := {| raft := h; requests := ∅;
                       tcp_tx := {| sent := []; receiver_alive := true |}; answers := [] |};
         sn_driver := driver_new f; sn_world := w;
         rpc_read := 0; fsm_read := 0; alive := true |}.
End Node.
