(* ===== verification/Runtime.v ===== *)
(** * Shutting a process down ([src/util.rs], [src/main.rs], [src/lib.rs])

    A [Shutdown] is one end of a broadcast channel: every long-running task holds
    one, waits for it at every turn of its loop and ends when it is told to.  The
    file models the handle, the tasks of a process and the clones their handles
    come from, and shows which tasks a Ctrl-C reaches. *)
From S2P Require Import Prelude Bytes Storage Chain Rpc Config.
Local Open Scope Z_scope.

(** ** The broadcast channel

    [tokio::sync::broadcast].  [missed] is how many values each receiver has yet
    to see: a receiver subscribes with none, a value counts for every receiver,
    and one that is more than the capacity behind is told so and skips. *)
Class Broadcast := {
  bchan : Type;
  channel : nat → nat * bchan;
  subscribe : bchan → nat * bchan;
  bsend : bchan → option bchan;
  brecv : nat → bchan → option (bool * bchan);
  unsubscribe : nat → bchan → bchan;
  capacity : bchan → nat;
  missed : bchan → gmap nat nat;
}.

Class BroadcastLaws (B : Broadcast) : Prop := {
  channel_spec cap : missed (channel cap).2 = {[ (channel cap).1 := 0%nat ]};
  channel_capacity cap : capacity (channel cap).2 = cap;
  subscribe_fresh c : missed c !! (subscribe c).1 = None;
  subscribe_spec c : missed (subscribe c).2 = <[(subscribe c).1 := 0%nat]> (missed c);
  subscribe_capacity c : capacity (subscribe c).2 = capacity c;
  bsend_none c : bsend c = None ↔ missed c = ∅;
  bsend_spec c c' : bsend c = Some c' → missed c' = S <$> missed c ∧ capacity c' = capacity c;
  brecv_pending r c : missed c !! r = Some 0%nat → brecv r c = None;
  brecv_value r c n : missed c !! r = Some (S n) →
    ∃ c', brecv r c = Some (bool_decide (S n ≤ capacity c)%nat, c') ∧
          missed c' = <[r := if decide (S n ≤ capacity c)%nat then n else capacity c]> (missed c) ∧
          capacity c' = capacity c;
  unsubscribe_spec r c : missed (unsubscribe r c) = delete r (missed c);
  unsubscribe_capacity r c : capacity (unsubscribe r c) = capacity c;
}.

Section Handle.
Context {BC : Broadcast}.

(** The sender of a handle and those of its clones are one sender; the handle is
    known by its receiver. *)
Record Shutdown : Type := { receiver : nat }.

Definition Shutdown_new : Shutdown * bchan :=
  let '(rx, c) := channel 1 in ({| receiver := rx |}, c).

(** [self.0.send(()).expect(..)]. *)
Definition shutdown (c : bchan) : outcome bchan :=
  match bsend c with Some c => Ret c | None => Panic end.

(** [self.1.recv().await?]: [None] while it has to wait. *)
Definition wait (s : Shutdown) (c : bchan) : option (outcome unit * bchan) :=
  match brecv (receiver s) c with
  | Some (true, c) => Some (Ret (), c)
  | Some (false, c) => Some (Err (ErrMsg "channel lagged"), c)
  | None => None
  end.

Definition Shutdown_clone (c : bchan) : Shutdown * bchan :=
  let '(rx, c) := subscribe c in ({| receiver := rx |}, c).

Definition Shutdown_drop (s : Shutdown) (c : bchan) : bchan := unsubscribe (receiver s) c.

(** [JosefineRaft::run_for] before it runs the server: a clone of the handle for the
    task it spawns. *)
Definition raft_run_for (duration : Z) (c : bchan) : Shutdown * bchan := Shutdown_clone c.

(** That task: [let _ = sleep(duration)] drops the timer without waiting for it. *)
Definition run_for_task (s : Shutdown) (c : bchan) : outcome bchan :=
  c ← shutdown c;
  Ret (Shutdown_drop s c).

(** ** The tasks of a process

    The holders of a handle: [main] keeps one for [lib::run] and gives one to the
    Ctrl-C handler; [run] gives one to each server, and the servers to their tasks. *)
Inductive Task : Type :=
| Run
| CtrlCHandler
| BrokerServer
| BrokerReceive
| RaftServer
| RaftReceive
| RaftSend
| RaftConnect (peer : NodeId)
| RaftDriver
| RaftLoop.

#[global] Instance task_eq_dec : EqDecision Task.
Proof. solve_decision. Defined.
#[global] Instance task_countable : Countable Task.
Proof.
  refine (inj_countable'
    (λ t, match t with
          | Run => inl 0 | CtrlCHandler => inl 1 | BrokerServer => inl 2 | BrokerReceive => inl 3
          | RaftServer => inl 4 | RaftReceive => inl 5 | RaftSend => inl 6 | RaftDriver => inl 7
          | RaftLoop => inl 8 | RaftConnect p => inr p
          end)
    (λ x : Z + Z, match x with
          | inl 0 => Run | inl 1 => CtrlCHandler | inl 2 => BrokerServer | inl 3 => BrokerReceive
          | inl 4 => RaftServer | inl 5 => RaftReceive | inl 6 => RaftSend | inl 7 => RaftDriver
          | inl _ => RaftLoop | inr p => RaftConnect p
          end) _).
  by intros [].
Defined.

(** From whose handle a task's own is cloned.  [handle_messages] of the broker
    takes over the handle of its server. *)
Definition cloned_from (t : Task) : option Task :=
  match t with
  | Run => None
  | CtrlCHandler | BrokerServer | RaftServer => Some Run
  | BrokerReceive => Some BrokerServer
  | RaftReceive | RaftSend | RaftDriver | RaftLoop => Some RaftServer
  | RaftConnect _ => Some RaftSend
  end.

(** The tasks whose loop selects on [shutdown.wait()]: the holders of the others
    only pass them on.  While such a task is in another branch of its loop it does not
    look at its handle ([busy] below). *)
Definition watches (t : Task) : bool :=
  match t with
  | Run | CtrlCHandler | RaftServer => false
  | _ => true
  end.

(** [busy]: the tasks that are in the body of another branch of their [select!] and
    do not look at their handle, such as a peer's task while it is connected or
    sleeps; [stopped]: the tasks the shutdown has ended; [failed]: those that ended
    otherwise. *)
Record Process : Type := {
  p_chan : bchan;
  handles : gmap Task Shutdown;
  busy : gset Task;
  stopped : gset Task;
  failed : gset Task;
}.

(** [Turn t]: the [select!] of [t] polls the handle; [Work t]: it takes another
    branch, which [Back t] comes back from; [Fail t]: the task ends with an error,
    a panic or because its channel has closed. *)
Inductive ProcessEvent : Type :=
| Start (t : Task)
| CtrlC
| Turn (t : Task)
| Work (t : Task)
| Back (t : Task)
| Fail (t : Task).

Definition process_init : Process :=
  let '(s, c) := Shutdown_new in
  {| p_chan := c; handles := {[ Run := s ]}; busy := ∅; stopped := ∅; failed := ∅ |}.

Definition with_busy (p : Process) (b : gset Task) : Process :=
  {| p_chan := p_chan p; handles := handles p; busy := b; stopped := stopped p; failed := failed p |}.

(** A task starts while the one it comes from has its handle.  When the [select!]
    of a task polls its handle and it is told, the task ends ([_ = shutdown.wait()
    => break]: an error ends it too) and the handle is dropped.  The handler of
    Ctrl-C belongs to the process and does not end. *)
Definition process_step (p : Process) (e : ProcessEvent) : outcome Process :=
  match e with
  | Start t =>
      match cloned_from t ≫= λ parent, handles p !! parent, handles p !! t with
      | Some _, None =>
          if decide (t ∈ stopped p ∪ failed p) then Ret p
          else
            let '(s, c) := Shutdown_clone (p_chan p) in
            Ret {| p_chan := c; handles := <[t := s]> (handles p); busy := busy p ∖ {[ t ]};
                   stopped := stopped p; failed := failed p |}
      | _, _ => Ret p
      end
  | CtrlC =>
      match handles p !! CtrlCHandler with
      | Some _ =>
          c ← shutdown (p_chan p);
          Ret {| p_chan := c; handles := handles p; busy := busy p; stopped := stopped p; failed := failed p |}
      | None => Ret p
      end
  | Turn t =>
      match watches t && bool_decide (t ∉ busy p), handles p !! t with
      | true, Some s =>
          match wait s (p_chan p) with
          | Some (_, c) =>
              Ret {| p_chan := Shutdown_drop s c; handles := delete t (handles p); busy := busy p;
                     stopped := {[ t ]} ∪ stopped p; failed := failed p |}
          | None => Ret p
          end
      | _, _ => Ret p
      end
  | Work t => Ret (with_busy p ({[ t ]} ∪ busy p))
  | Back t => Ret (with_busy p (busy p ∖ {[ t ]}))
  | Fail t =>
      match handles p !! t with
      | Some s =>
          if decide (t = CtrlCHandler) then Ret p
          else Ret {| p_chan := Shutdown_drop s (p_chan p); handles := delete t (handles p); busy := busy p;
                      stopped := stopped p; failed := {[ t ]} ∪ failed p |}
      | None => Ret p
      end
  end.

Definition process_run (l : list ProcessEvent) : outcome Process :=
  ofold process_step process_init l.
End Handle.

(** ** Who is told *)
Section Spec.
Context {BC : Broadcast} {BLAWS : BroadcastLaws BC}.

(** Whatever the duration, the handles there were when [run_for] was called are told
    as soon as the task it spawned has its turn; a handle that was cloned in between,
    by the server it runs, too. *)
Lemma run_for_at_once duration c :
  let '(s, c1) := raft_run_for duration c in
  (∃ c2, run_for_task s c1 = Ret c2 ∧ missed c2 = S <$> missed c) ∧
  let '(h, c3) := Shutdown_clone c1 in
  ∃ c4, run_for_task s c3 = Ret c4 ∧ missed c4 !! receiver h = Some 1%nat.
Proof.
  unfold raft_run_for, run_for_task, Shutdown_clone, Shutdown_drop.
  pose proof (subscribe_spec c) as Hs. pose proof (subscribe_fresh c) as Hn. destruct (subscribe c) as [r c1]. cbn in *.
  pose proof (subscribe_spec c1) as Hs1. pose proof (subscribe_fresh c1) as Hn1. destruct (subscribe c1) as [r1 c3]. cbn in *.
  assert (∀ c' r' n, missed c' !! r' = Some n → ∃ c2, bsend c' = Some c2 ∧ missed c2 = S <$> missed c') as Hsend.
  { intros c' r' n Hr. destruct (bsend c') as [c2|] eqn:Hb; [exists c2; by split; [|eapply bsend_spec]|].
    apply bsend_none in Hb. by rewrite Hb in Hr. }
  unfold shutdown. split.
  - destruct (Hsend c1 r 0%nat) as (c2 & -> & Hc2); [by rewrite Hs, lookup_insert_eq|]. eexists. split; [done|].
    cbn. rewrite unsubscribe_spec, Hc2, Hs, fmap_insert. apply delete_insert_id. by rewrite lookup_fmap, Hn.
  - destruct (Hsend c3 r1 0%nat) as (c2 & -> & Hc2); [by rewrite Hs1, lookup_insert_eq|]. eexists. split; [done|].
    cbn. rewrite unsubscribe_spec, Hc2, Hs1, fmap_insert, lookup_delete_ne, lookup_insert_eq; [done|].
    intros ->. by rewrite Hs, lookup_insert_eq in Hn1.
Qed.

Definition told (p : Process) (t : Task) : Prop :=
  ∃ s n, handles p !! t = Some s ∧ missed (p_chan p) !! receiver s = Some (S n).

(** Each running task has a receiver of its own. *)
Record pinv (p : Process) : Prop := {
  pinv_receives t s : handles p !! t = Some s → is_Some (missed (p_chan p) !! receiver s);
  pinv_own t t' s s' : handles p !! t = Some s → handles p !! t' = Some s' →
    receiver s = receiver s' → t = t';
}.




Lemma not_told p t s :
  pinv p → handles p !! t = Some s → ¬ told p t → missed (p_chan p) !! receiver s = Some 0%nat.
Proof.
  intros Hinv Ht Hnot. destruct (pinv_receives p Hinv t s Ht) as [[|n] Hn]; [done|].
  destruct Hnot. by exists s, n.
Qed.















End Spec.

(** ** A channel in memory, and a Ctrl-C during the start of a process *)
Record MemChan : Type := { mc_capacity : nat; mc_missed : gmap nat nat }.

#[export] Instance mem_broadcast : Broadcast := {|
  bchan := MemChan;
  channel cap := (0%nat, {| mc_capacity := cap; mc_missed := {[ 0%nat := 0%nat ]} |});
  subscribe c :=
    let r := fresh (dom (mc_missed c)) in
    (r, {| mc_capacity := mc_capacity c; mc_missed := <[r := 0%nat]> (mc_missed c) |});
  bsend c :=
    if decide (mc_missed c = ∅) then None
    else Some {| mc_capacity := mc_capacity c; mc_missed := S <$> mc_missed c |};
  brecv r c :=
    match mc_missed c !! r with
    | Some (S n) =>
        Some (bool_decide (S n ≤ mc_capacity c)%nat,
              {| mc_capacity := mc_capacity c;
                 mc_missed := <[r := if decide (S n ≤ mc_capacity c)%nat then n
                                     else mc_capacity c]> (mc_missed c) |})
    | _ => None
    end;
  unsubscribe r c := {| mc_capacity := mc_capacity c; mc_missed := delete r (mc_missed c) |};
  capacity := mc_capacity;
  missed := mc_missed;
|}.

#[export] Instance mem_broadcast_laws : BroadcastLaws mem_broadcast.
Proof.
  split; try done.
  - intros c. cbn. apply not_elem_of_dom, is_fresh.
  - intros c. cbn. by case_decide.
  - intros c c'. cbn. case_decide; [done|]. by intros [= <-].
  - intros r c. cbn. by intros ->.
  - intros r c n. cbn. intros ->. eexists. by split.
Qed.

(** The event loop runs when Ctrl-C comes; the driver starts after it, the sending
    task is writing to its peers, and the receiving task has failed. *)
Definition demo_start : list ProcessEvent :=
  [Start CtrlCHandler; Start BrokerServer; Start RaftServer; Start RaftLoop; Start RaftReceive; Start RaftSend;
   Start (RaftConnect 2); Work (RaftConnect 2); Fail RaftReceive; CtrlC;
   Start RaftDriver; Turn RaftLoop; Turn RaftDriver; Turn (RaftConnect 2); Turn RaftReceive].

Example late_task_runs_on :
  match process_run demo_start with
  | Ret p => bool_decide (stopped p = {[ RaftLoop ]}) && bool_decide (failed p = {[ RaftReceive ]})
  | _ => false
  end = true.
Proof. vm_compute. reflexivity. Qed.

