(* ===== verification/Invariants.v ===== *)
(** * Invariants of a node

    What a single node can do, whatever commands it is given: which role
    follows which, which votes it grants, which messages it sends, and what an
    election it wins is worth. *)
From S2P Require Import Prelude Bytes Storage Chain Rpc Election Progress Config Raft.
From S2P Require Leader Candidate Follower.
From S2P Require Import Handle.
Local Open Scope Z_scope.

Section Facts.
Context {SLED : Sled} {BINC : Bincode Block} {ENV : Env} {BUILD : Build}.

(** ** Vocabulary *)
Definition handle_id (h : RaftHandle) : NodeId :=
  match h with HFollower r => r_id r | HCandidate r => r_id r | HLeader r => r_id r end.
Definition handle_config (h : RaftHandle) : RaftConfig :=
  match h with HFollower r => r_config r | HCandidate r => r_config r | HLeader r => r_config r end.
Definition handle_state (h : RaftHandle) : State :=
  match h with HFollower r => r_state r | HCandidate r => r_state r | HLeader r => r_state r end.

(** The voters of an election: the peers of the node and itself. *)
Definition voters (c : RaftConfig) (i : NodeId) : list NodeId := (n_id <$> nodes c) ++ [i].

(** Same node: same id and configuration. *)
Definition same_node {T U} (r : Raft T) (r' : Raft U) : Prop :=
  r_id r' = r_id r ∧ r_config r' = r_config r.
Definition same_handle (h h' : RaftHandle) : Prop :=
  handle_id h' = handle_id h ∧ handle_config h' = handle_config h.

(** A follower that voted: for a candidate it granted, or for a leader it heard. *)
Definition has_voted (r : Raft Follower) : Prop := is_Some (voted_for (r_state r)).
Definition settled (h : RaftHandle) : Prop :=
  match h with HFollower r => has_voted r | _ => False end.

(** The leader a follower knows, and the one a command presents. *)
Definition known_leader (h : RaftHandle) : option NodeId :=
  match h with HFollower r => leader_id (r_role r) | _ => None end.
Definition presents (cmd : Command) : option NodeId :=
  match cmd with Heartbeat _ _ l => Some l | AppendEntries _ l _ => Some l | _ => None end.
Definition learns (p : option NodeId) (h h' : RaftHandle) : Prop :=
  ∀ l, known_leader h' = Some l → known_leader h = Some l ∨ p = Some l.

(** The candidate a command makes the node grant its vote to. *)
Definition grants (h : RaftHandle) (cmd : Command) : option NodeId :=
  match h, cmd with
  | HFollower r, VoteRequest _ c last_term head =>
      if Follower.can_vote r last_term head then Some c else None
  | _, _ => None
  end.

(** [backed E ids]: some election over [ids] is won with votes of [E] only. *)
Definition backed (E : NodeId → Prop) (ids : list NodeId) : Prop :=
  ∃ e, voter_ids e = ids ∧ election_status e = Elected ∧ ∀ j, j ∈ granted e → E j.

(** The votes a candidate counted, and those that made a leader, are in [E]; a
    candidate has no result yet. *)
Definition justified (E : NodeId → Prop) (h : RaftHandle) : Prop :=
  match h with
  | HFollower _ => True
  | HCandidate r =>
      voter_ids (election (r_role r)) = voters (r_config r) (r_id r) ∧
      election_status (election (r_role r)) = Voting ∧
      ∀ j, j ∈ granted (election (r_role r)) → E j
  | HLeader r => backed E (voters (r_config r) (r_id r))
  end.

(** A message a node may send on a command. *)
Definition may_send (E : NodeId → Prop) (h : RaftHandle) (cmd : Command) (m : Message) : Prop :=
  signed (handle_id h) m ∧
  (is_grant m = true → ∃ c, grants h cmd = Some c ∧ msg_to m = Peer c) ∧
  (is_Some (leads m) → ¬ settled h ∧ grants h cmd = None ∧
    backed E (voters (handle_config h) (handle_id h))).

(** What holds of the handle after a command. *)
Definition next_ok (E : NodeId → Prop) (h : RaftHandle) (cmd : Command)
    (new : list Message) (h' : RaftHandle) : Prop :=
  same_handle h h' ∧ justified E h' ∧
  (settled h ∨ is_Some (grants h cmd) → settled h') ∧
  (is_leader h = true ∨ Exists (λ m, is_Some (leads m)) new → is_leader h' = true) ∧
  learns (presents cmd) h h'.

(** A node that voted grants no vote. *)
Lemma settled_grants h cmd : settled h → grants h cmd = None.
Proof.
  destruct h as [r| |]; [|by intros []..]. intros Hv. destruct cmd; try done. simpl.
  unfold Follower.can_vote. by rewrite bool_decide_eq_true_2.
Qed.

(** ** The follower *)

(** Keeps its role, its vote and sends nothing of weight. *)
Definition follows (p : option NodeId) (r : Raft Follower) (h' : RaftHandle) : Prop :=
  ∃ r', h' = HFollower r' ∧ same_node r r' ∧ (has_voted r → has_voted r') ∧
        learns p (HFollower r) (HFollower r').

Lemma follows_same p r r' :
  same_node r r' → (has_voted r → has_voted r') →
  leader_id (r_role r') = leader_id (r_role r) → follows p r (HFollower r').
Proof. intros Hs Hv Hl. exists r'. split_and!; [done..|]. intros l. simpl. rewrite Hl. by left. Qed.

Lemma follows_refl p r : follows p r (HFollower r).
Proof. by apply follows_same. Qed.

Lemma plain_send i to cmd :
  match cmd with VoteResponse _ _ _ | Heartbeat _ _ _ | AppendEntries _ _ _ => false | _ => true end
    = true → plain i (Message_new (Peer i) to cmd).
Proof. by destruct cmd. Qed.

Lemma set_election_timeout_does P r :
  does P (λ n r', n = [] ∧ same_node r r' ∧ voted_for (r_state r') = voted_for (r_state r) ∧
    r_chain r' = r_chain r ∧ r_role r' = r_role r) (Follower.set_election_timeout r).
Proof.
  intros w. exists []. rewrite app_nil_r.
  unfold Follower.set_election_timeout, Follower.get_randomized_timeout, gen_range.
  unfold mbind, SM_bind, instant_now, mret, SM_ret, lift.
  destruct (_ <? _); simpl; (split_and!; [done..|]); [|done]. by intros r' [= <-].
Qed.

Lemma follower_term_same (r r' : Raft Follower) t :
  raft_term r t = Ret r' → same_node r r' ∧ r_chain r' = r_chain r ∧
    queued_reqs (r_role r') = queued_reqs (r_role r) ∧ current_term (r_state r') = t ∧
    voted_for (r_state r') = None.
Proof. unfold raft_term. cbn. by intros [= <-]. Qed.

Lemma flush_queue_does i l r :
  r_id r = i →
  does (plain i) (λ _ r', same_node r r' ∧ r_state r' = r_state r ∧
    r_chain r' = r_chain r ∧ leader_id (r_role r') = leader_id (r_role r))
    (Follower.flush_queue l r).
Proof.
  intros <-. unfold Follower.flush_queue. apply does_sfold; [done|].
  intros r1 req (Hs & Hst & Hc & Hl). unfold Follower.flush_one, send.
  apply does_bind_send; [rewrite (proj1 Hs); by apply plain_send|].
  by apply does_ret.
Qed.

Lemma append_entries_does r blocks l t :
  does (plain (r_id r)) (λ _, follows (Some l) r) (Follower.apply_append_entries r blocks l t).
Proof.
  unfold Follower.apply_append_entries.
  eapply (does_bind _ (λ _ r1, same_node r r1 ∧ (has_voted r → has_voted r1) ∧
    learns (Some l) (HFollower r) (HFollower r1))).
  { assert (learns (Some l) (HFollower r) (HFollower r)) by (intros l'; by left).
    destruct (voted_for (r_state r)) eqn:E; [by apply does_ret|].
    destruct (_ <=? _); [|by apply does_ret].
    apply does_bind_lift. intros r1 (Hs & _)%follower_term_same.
    does_step n now _. apply does_ret. split_and!; [done|intros _; by eexists|].
    intros l' [= <-]. by right. }
  intros n1 r1 (Hs & Hv & Hl).
  eapply (does_bind _ any); [case_match; [by apply does_lift|by apply does_ret]|].
  intros n2 [] _. case_decide; [apply does_ret; by exists r1|].
  apply does_bind_lift. intros c _.
  apply does_bind_send; [simpl; rewrite (proj1 Hs); by apply plain_send|].
  apply does_ret. by exists (with_chain c r1).
Qed.

Lemma heartbeat_does r l t c :
  does (plain (r_id r)) (λ _ h', ∃ r', h' = HFollower r' ∧ same_node r r' ∧ has_voted r' ∧
                                       leader_id (r_role r') = Some l)
    (Follower.apply_heartbeat r l t c).
Proof.
  unfold Follower.apply_heartbeat.
  eapply does_bind; [apply set_election_timeout_does|].
  intros n1 r1 (_ & Hs1 & _).
  apply does_bind_lift. intros r2 (Hs2 & _)%follower_term_same.
  assert (same_node r r2) as [Hi Hc] by (unfold same_node in *; destruct_and!; split; congruence).
  eapply does_bind; [by apply flush_queue_does|].
  intros n2 r3 ([Hi3 Hc3] & Hst & _ & Hl). cbn in Hi3, Hc3, Hl. clear n1 Hs1 n2 Hs2.
  assert (has_voted r3) as Hv by (unfold has_voted; rewrite Hst; by eexists).
  apply does_bind_lift. intros hc _.
  eapply (does_bind _ (λ _ r4, same_node r3 r4 ∧ has_voted r4 ∧ leader_id (r_role r4) = Some l)).
  { destruct (hc && _); [|by apply does_ret].
    apply does_bind_lift. intros [k c'] _. does_step n3 u _. by apply does_ret. }
  intros n3 r4 ([Hi4 Hc4] & Hv4 & Hl4).
  apply does_bind_send; [rewrite Hi4, Hi3, Hi; by apply plain_send|].
  apply does_ret. exists r4. split_and!; [done|split; congruence|done|done].
Qed.

Lemma vote_request_does r c lt hd :
  does (λ m, signed (r_id r) m ∧ leads m = None ∧
             (is_grant m = true → Follower.can_vote r lt hd = true ∧ msg_to m = Peer c))
    (λ _ h', ∃ r', h' = HFollower r' ∧ same_node r r' ∧ (has_voted r → has_voted r') ∧
                   (Follower.can_vote r lt hd = true → has_voted r') ∧ r_role r' = r_role r)
    (Follower.apply_vote_request r c lt hd).
Proof.
  unfold Follower.apply_vote_request, Follower.apply_self, send.
  destruct (Follower.can_vote r lt hd) eqn:E;
    (apply does_bind_send; [split_and!; [split; [done|split; [done|by eexists]]|done|done]|]);
    apply does_ret; eexists; (split_and!; [done|done| | |done]); [..|done|done]; intros _; by eexists.
Qed.

Lemma client_request_does r req :
  does (plain (r_id r)) (λ _, follows None r) (Follower.apply_client_request r req).
Proof.
  unfold Follower.apply_client_request, Follower.apply_self, send. case_match.
  - apply does_bind_send; [by apply plain_send|]. apply does_ret. by apply follows_same.
  - apply does_ret. by apply follows_same.
Qed.

Lemma client_response_does r res :
  does (plain (r_id r)) (λ _, follows None r) (Follower.apply_client_response r res).
Proof.
  unfold Follower.apply_client_response, Follower.apply_self, send.
  apply does_bind_send; [by apply plain_send|]. apply does_ret. by apply follows_same.
Qed.

(** ** The candidate *)

(** What a node [i] may do when an election over [ids] is counted. *)
Definition campaign_msg (E : NodeId → Prop) (c : RaftConfig) (i : NodeId) (m : Message) : Prop :=
  signed i m ∧ is_grant m = false ∧ (is_Some (leads m) → backed E (voters c i)).
Definition campaign_end (E : NodeId → Prop) (c : RaftConfig) (i : NodeId)
    (new : list Message) (h' : RaftHandle) : Prop :=
  handle_id h' = i ∧ handle_config h' = c ∧ justified E h' ∧
  (Exists (λ m, is_Some (leads m)) new → is_leader h' = true) ∧ known_leader h' = None.

Lemma plain_campaign E c i m : plain i m → campaign_msg E c i m.
Proof. intros (Hs & Hg & Hl). split_and!; [done..|]. rewrite Hl. by intros []. Qed.

Lemma plain_no_leads i new : Forall (plain i) new → ¬ Exists (λ m, is_Some (leads m)) new.
Proof.
  intros Hn (m & Hm & Hl)%Exists_exists. rewrite Forall_forall in Hn.
  destruct (Hn m Hm) as (_ & _ & Heq). rewrite Heq in Hl. by destruct Hl.
Qed.

Lemma granted_vote e from g j :
  j ∈ granted (election_vote e from g) → (g = true ∧ j = from) ∨ j ∈ granted e.
Proof.
  rewrite !elem_of_granted. simpl. rewrite lookup_insert. case_decide; naive_solver.
Qed.

Lemma elect_does E r :
  backed E (voters (r_config r) (r_id r)) →
  does (campaign_msg E (r_config r) (r_id r)) (campaign_end E (r_config r) (r_id r))
    (Candidate.elect r).
Proof.
  intros HE. unfold Candidate.elect, Candidate.leader_from_candidate. cbv zeta.
  eapply (does_bind _ (λ _ raft, r_id raft = r_id r ∧ r_config raft = r_config r)).
  { apply does_bind_lift. intros p _. does_step n now _. apply does_lift.
    by intros raft [= <-]%unwrap_result_Ret. }
  intros n raft [Hi Hc]. unfold Leader.heartbeat, send_all.
  rewrite <-Hi, <-Hc in *. apply does_bind_send; [by split_and!|].
  apply does_ret. by split_and!.
Qed.

Lemma vote_response_does E r g from :
  voter_ids (election (r_role r)) = voters (r_config r) (r_id r) →
  (∀ j, j ∈ granted (election (r_role r)) → E j) → (g = true → E from) →
  does (campaign_msg E (r_config r) (r_id r)) (campaign_end E (r_config r) (r_id r))
    (Candidate.apply_vote_response r g from).
Proof.
  intros Hids HE Hg. unfold Candidate.apply_vote_response. cbv zeta.
  set (e := election_vote (election (r_role r)) from g). cbn [with_role r_role election].
  assert (∀ j, j ∈ granted e → E j) as HE'.
  { intros j [[? ->]|?]%granted_vote; auto. }
  destruct (election_status e) eqn:Hst.
  - set (r' := with_role _ r). apply (elect_does E r'). by exists e.
  - apply does_ret. split_and!; [done..| |done]. by intros ?%Exists_nil.
  - apply does_ret. split_and!; [done..| |done]. by intros ?%Exists_nil.
Qed.

Lemma seek_election_does E r :
  election (r_role r) = election_new (voters (r_config r) (r_id r)) → E (r_id r) →
  does (campaign_msg E (r_config r) (r_id r)) (campaign_end E (r_config r) (r_id r))
    (Candidate.seek_election r).
Proof.
  intros Hel HE. unfold Candidate.seek_election. cbv zeta.
  apply does_bind_lift. intros t _. eapply does_bind.
  { eapply does_weaken; [|apply plain_campaign|intros n a Hn _; exact Hn].
    apply does_for_each. intros _.
    eapply does_weaken; [by apply does_rpc_send, plain_send|done|done]. }
  intros n [] Hn. set (r' := with_state _ _).
  eapply does_weaken; [apply (vote_response_does E r' true (r_id r')); cbn|done|].
  - by rewrite Hel.
  - rewrite Hel. intros j. by rewrite elem_of_granted.
  - done.
  - intros n' h' _ (Hi & Hc & Hj & Hl & Hk). split_and!; [done..| |done].
    intros [Hx|Hx]%Exists_app; [|auto].
    by apply (plain_no_leads _ _ Hn) in Hx.
Qed.

Lemma timeout_does E r :
  ¬ has_voted r → E (r_id r) →
  does (campaign_msg E (r_config r) (r_id r)) (campaign_end E (r_config r) (r_id r))
    (Follower.apply_timeout r).
Proof.
  intros Hv HE. unfold Follower.apply_timeout.
  destruct (voted_for (r_state r)) as [v|] eqn:Hvote; [by destruct Hv; exists v|].
  eapply does_bind; [apply set_election_timeout_does|].
  intros n r1 (-> & [Hi Hc] & _). rewrite <-Hi, <-Hc in *.
  by apply (seek_election_does E (Follower.candidate_from_follower r1)).
Qed.

(** ** The handle *)
Lemma does_plain E h cmd m (Q : RaftHandle → Prop) :
  grants h cmd = None →
  does (plain (handle_id h)) (λ _, Q) m →
  (∀ h', Q h' → same_handle h h' ∧ justified E h' ∧ (settled h → settled h') ∧
                (is_leader h = true → is_leader h' = true) ∧ learns (presents cmd) h h') →
  does (may_send E h cmd) (next_ok E h cmd) m.
Proof.
  intros Hg Hm HQ. eapply does_weaken; [exact Hm| |].
  - intros x (Hs & Hgr & Hl). split_and!; [done|by rewrite Hgr|]. rewrite Hl. by intros [].
  - intros n h' Hn (H1 & H2 & H3 & H4 & H5)%HQ. split_and!; [done..| | |done].
    + intros [?|[? ?]]; [auto|congruence].
    + intros [?|?]; [auto|]. by eapply plain_no_leads in Hn.
Qed.

Lemma does_campaign E h cmd m :
  grants h cmd = None → ¬ settled h → is_leader h = false →
  does (campaign_msg E (handle_config h) (handle_id h))
       (campaign_end E (handle_config h) (handle_id h)) m →
  does (may_send E h cmd) (next_ok E h cmd) m.
Proof.
  intros Hg Hs Hl Hm. eapply does_weaken; [exact Hm| |].
  - intros x (H1 & H2 & H3). split_and!; [done|by rewrite H2|]. auto.
  - intros n h' _ (H1 & H2 & H3 & H4 & H5). split_and!; [done..| | |].
    + intros [?|[? ?]]; [done|congruence].
    + intros [?|?]; [congruence|auto].
    + intros l. by rewrite H5.
Qed.

Lemma follows_next E p r h' :
  follows p r h' →
  same_handle (HFollower r) h' ∧ justified E h' ∧ (settled (HFollower r) → settled h') ∧
  (is_leader (HFollower r) = true → is_leader h' = true) ∧ learns p (HFollower r) h'.
Proof. by intros (r' & -> & [Hi Hc] & Hv & Hl). Qed.

Lemma does_follows E r cmd m :
  grants (HFollower r) cmd = None →
  does (plain (r_id r)) (λ _, follows (presents cmd) r) m →
  does (may_send E (HFollower r) cmd) (next_ok E (HFollower r) cmd) m.
Proof. intros Hg Hm. eapply does_plain; [done|exact Hm|]. apply follows_next. Qed.

Lemma follower_timeout_step E r cmd :
  grants (HFollower r) cmd = None → E (r_id r) →
  does (may_send E (HFollower r) cmd) (next_ok E (HFollower r) cmd) (Follower.apply_timeout r).
Proof.
  intros Hg HE. destruct (decide (is_Some (voted_for (r_state r)))) as [Hv|Hv].
  - apply does_follows; [done|].
    unfold Follower.apply_timeout. destruct Hv as [v ->].
    apply does_ret, follows_refl.
  - apply does_campaign; [done..|]. by apply timeout_does.
Qed.

Lemma follower_step E r cmd :
  E (r_id r) →
  does (may_send E (HFollower r) cmd) (next_ok E (HFollower r) cmd) (Follower.apply r cmd).
Proof.
  intros HE.
  assert (∀ cmd, grants (HFollower r) cmd = None →
    does (may_send E (HFollower r) cmd) (next_ok E (HFollower r) cmd) (Follower.apply_self r))
    as Hself.
  { intros cmd' Hg. apply does_follows; [done|].
    apply does_ret, follows_refl. }
  destruct cmd as [| |t c lt hd| |t l bs| |t k l| | | |req|res]; simpl; auto.
  - unfold Follower.apply_tick. does_step n due ->. destruct due; [|by apply Hself].
    by apply follower_timeout_step.
  - eapply does_weaken; [apply vote_request_does| |].
    + intros m (H1 & H2 & H3). split_and!; [done| |rewrite H2; by intros []].
      intros [H4 H5]%H3. exists c. simpl. by rewrite H4.
    + intros n h' Hn (r' & -> & [Hi Hc] & Hv & Hg & Hrole). split_and!; [done..| | |].
      * simpl. intros [?|[? ?]]; [auto|]. apply Hg. by destruct (Follower.can_vote r lt hd).
      * intros [?|(m & Hm & Hl)%Exists_exists]; [done|]. rewrite Forall_forall in Hn.
        destruct (Hn m Hm) as (_ & Hnone & _). rewrite Hnone in Hl. by destruct Hl.
      * intros l. simpl. rewrite Hrole. by left.
  - apply does_follows; [done|apply append_entries_does].
  - apply does_follows; [done|].
    eapply does_weaken; [apply heartbeat_does|done|].
    intros n h' _ (r' & -> & Hs & Hv & Hl). exists r'. split_and!; [done..|].
    intros l'. simpl. rewrite Hl. by right.
  - by apply follower_timeout_step.
  - apply does_follows; [done|apply client_request_does].
  - apply does_follows; [done|apply client_response_does].
Qed.

Lemma candidate_step E r cmd :
  justified E (HCandidate r) → E (r_id r) → (∀ t j, cmd = VoteResponse t j true → E j) →
  does (may_send E (HCandidate r) cmd) (next_ok E (HCandidate r) cmd) (candidate_apply r cmd).
Proof.
  intros Hj HE Hcmd. pose proof Hj as (Hids & Hst & Hgr).
  assert (∀ r', same_node r r' → election (r_role r') = election (r_role r) →
    does (may_send E (HCandidate r) cmd) (next_ok E (HCandidate r) cmd)
      (mret (HCandidate r'))) as Hself.
  { intros r' [Hi Hc] Hel. apply does_campaign; [by destruct cmd|by intros []|done|].
    apply does_ret.
    split; [done|]. split; [done|]. split; [|by split; [intros ?%Exists_nil|]].
    unfold justified. by rewrite Hel, Hi, Hc. }
  destruct cmd as [| |t c lt hd|t j g|t l bs| |t k l| | | |req|res]; simpl;
    try by apply Hself.
  - unfold candidate_apply_tick. does_step n due ->. destruct due; [|by apply Hself].
    rewrite Hst. apply does_campaign; [done|by intros []|done|].
    by apply (timeout_does E (Candidate.follower_from_candidate (with_state (set_voted_for None) r)));
      [intros [? ?]|].
  - unfold Candidate.apply_vote_request. destruct (_ <? _).
    + apply does_bind_lift. intros r' Hr'. apply does_campaign; [done|by intros []|done|]. apply does_ret.
      unfold raft_term in Hr'. cbn in Hr'. injection Hr' as <-. split_and!; [done..| |done].
      by intros ?%Exists_nil.
    + eapply (does_plain _ _ _ _ (λ h', h' = HCandidate r)); [done| |by intros h' ->].
      apply does_bind_send; [|by apply does_ret].
      split_and!; [split; [done|split; [done|by eexists]]|done|done].
  - apply does_campaign; [done|by intros []|done|]. apply vote_response_does; [done..|].
    intros ->. by eapply Hcmd.
  - unfold Candidate.apply_append_entries. destruct (_ <=? _); [|by apply Hself].
    apply does_campaign; [done|by intros []|done|]. apply does_ret. split_and!; [done..| |done].
    by intros ?%Exists_nil.
  - unfold Candidate.apply_heartbeat. apply does_bind_lift. intros hc _.
    apply does_bind_lift. intros r' Hr'. unfold raft_term in Hr'. cbn in Hr'. injection Hr' as <-.
    eapply (does_plain _ _ _ _ (λ h', ∃ r', h' = HFollower r' ∧ same_node r r' ∧ leader_id (r_role r') = None)); [done| |].
    + apply does_bind_send; [by apply plain_send|]. apply does_ret. by eexists.
    + intros h' (r' & -> & [Hi Hc] & Hl). split_and!; [done..|]. intros l'. simpl. by rewrite Hl.
Qed.

(** ** The leader *)
Definition leader_msg (i : NodeId) (m : Message) : Prop := signed i m ∧ is_grant m = false.

Lemma leader_replicate_does r :
  does (leader_msg (r_id r)) any (Leader.replicate r).
Proof.
  unfold Leader.replicate. apply does_for_each. intros node. unfold Leader.replicate_node.
  assert (∀ bs, does (leader_msg (r_id r)) any
    (rpc_send (Leader.append_entries_msg r (n_id node) bs))) as Hsend.
  { intros bs. eapply does_any, does_rpc_send. by split_and!. }
  repeat case_match; try by apply does_ret.
  all: apply does_bind_lift; intros bs _; apply Hsend.
Qed.

Lemma leader_commit_does P r :
  does P (λ _ x, same_node r x.2 ∧ r_state x.2 = r_state r) (Leader.commit r).
Proof.
  unfold Leader.commit. apply does_bind_lift. intros q _. destruct (bytes_ltb _ _).
  - apply does_bind_lift. intros [new c] _. does_step n u _. by apply does_ret.
  - by apply does_ret.
Qed.

Lemma leader_step E r cmd :
  justified E (HLeader r) →
  does (may_send E (HLeader r) cmd) (next_ok E (HLeader r) cmd) (Leader.apply r cmd).
Proof.
  intros Hj.
  enough (does (leader_msg (r_id r)) (λ _ h', ∃ r', h' = HLeader r' ∧ same_node r r')
    (Leader.apply r cmd)) as Hdoes.
  { eapply does_weaken; [exact Hdoes| |].
    - intros m [Hs Hg]. split_and!; [done|by rewrite Hg|]. intros _. split_and!; [by intros []| |done].
      by destruct cmd.
    - intros n h' _ (r' & -> & [Hi Hc]). split_and!; [done| |by destruct cmd; intros [?|[? ?]]|done|done].
      cbn in *. by rewrite Hi, Hc. }
  assert (∀ r', same_node r r' → does (leader_msg (r_id r))
    (λ _ h', ∃ r', h' = HLeader r' ∧ same_node r r') (mret (HLeader r'))) as Hself.
  { intros r' Hs. apply does_ret. by eexists. }
  assert (∀ r' i k, same_node r r' → does (leader_msg (r_id r))
    (λ _ h', ∃ r', h' = HLeader r' ∧ same_node r r') (Leader.apply_append_response r' i k)) as Hresp.
  { intros r' i k [Hi Hc]. apply does_bind_lift. intros p _.
    eapply does_bind; [apply leader_commit_does|]. intros n [q r''] [[Hi2 Hc2] _].
    apply Hself. unfold same_node. cbn in *. by rewrite Hi2, Hc2. }
  destruct cmd as [| |t c lt hd|t j g|t l bs|i t k s|t k l|k s| | |req|res]; simpl;
    try by apply Hself.
  - unfold Leader.apply_tick. eapply (does_bind _ any).
    { eapply does_any, does_quiet. intros w. unfold Leader.write_state. by case_match. }
    intros n1 [] _. unfold Leader.needs_heartbeat.
    eapply (does_bind _ any); [eapply does_any, does_quiet; done|]. intros n2 due _.
    eapply (does_bind _ (λ _ r', same_node r r')).
    { destruct due; [|by apply does_ret]. apply does_bind_send; [by split_and!|].
      unfold Leader.reset_heartbeat_timer. does_step n3 now _. by apply does_ret. }
    intros n3 r' [Hi Hc]. eapply does_bind; [rewrite <-Hi; apply leader_replicate_does|].
    intros n4 [] _. by apply Hself.
  - unfold Leader.apply_append_entries. destruct (_ <? _); [|by apply Hself].
    by apply does_bind_lift.
  - by apply Hresp.
  - unfold Leader.apply_heartbeat_response. eapply (does_bind _ any).
    { case_match; [apply leader_replicate_does|by apply does_ret]. }
    intros n [] _. by apply Hself.
  - unfold Leader.apply_client_request. apply does_bind_lift. intros [b c] _.
    does_step n u _. by apply Hresp.
Qed.

(** Every command, on every role. *)
Lemma handle_step E h cmd :
  justified E h → E (handle_id h) → (∀ t j, cmd = VoteResponse t j true → E j) →
  does (may_send E h cmd) (next_ok E h cmd) (handle_apply h cmd).
Proof.
  intros Hj HE Hcmd. destruct h as [r|r|r]; simpl in *.
  - by apply follower_step.
  - by apply candidate_step.
  - by apply leader_step.
Qed.
End Facts.
