(* ===== verification/Demo.v ===== *)
(** * A concrete instance

    An in-memory database, a clock that advances a second at every reading, a
    random generator that draws its lower bound and a state machine that echoes
    its input: the instance the witnesses run the definitions on. *)
From S2P Require Import Prelude Bytes Storage Chain Rpc Election Progress Config Raft.
From S2P Require Import Handle Fsm Server.
Local Open Scope Z_scope.

#[export] Instance demo_sled : Sled := mem_sled.
#[export] Instance demo_sled_laws : SledLaws := mem_sled_laws.
#[export] Instance demo_bincode : Bincode Block := mem_block_bincode.
#[export] Instance demo_bincode_laws : BincodeLaws Block := mem_block_bincode_laws.
#[export] Instance demo_bincode_min : BincodeMin Block 24 := mem_block_bincode_min.
#[export] Instance demo_env : Env := {|
  clock n := from_secs (Z.of_nat n);
  draw _ lo _ := lo;
  state_file_ok _ := true;
|}.
#[export] Instance demo_build : Build := {| overflow_checks := true |}.
#[export] Instance demo_server_env : ServerEnv := {| uuid n := Z.of_nat n; waiting _ := true |}.
#[export] Instance demo_fsm : Fsm := {|
  fsm := list bytes;
  transition l b := (Ret b, l ++ [b]);
|}.

#[export] Instance demo_env_laws : EnvLaws.
Proof.
  split.
  - intros i j Hij. cbn. unfold from_secs. lia.
  - intros i lo hi Hlh. cbn. lia.
Qed.

Definition demo_addr : SocketAddr := {| sock_ip := V4 2130706433; sock_port := 8080 |}.
Definition demo_config (id : NodeId) (peers : list NodeId) : RaftConfig := {|
  data_directory := "/tmp";
  run_for := None;
  cfg_id := id;
  cfg_ip := V4 2130706433;
  cfg_port := 8080;
  nodes := (λ i, {| n_id := i; n_addr := demo_addr |}) <$> peers;
  protocol_version := 0;
  Config.heartbeat_timeout := from_millis 100;
  Config.election_timeout := from_secs 1;
  commit_timeout := from_secs 1;
  max_append_entries := 64;
  snapshot_interval := from_secs 120;
  snapshot_threshold := 8192;
|}.

Definition demo_world : World := {|
  rpc_tx := {| sent := []; receiver_alive := true |};
  fsm_tx := {| sent := []; receiver_alive := true |};
  asked := 0;
  state_file := None;
|}.

(** A follower of the cluster, and a node of it. *)
Definition demo_follower (id : NodeId) (peers : list NodeId) : Raft Follower := {|
  r_id := id;
  r_config := demo_config id peers;
  r_state := State_default;
  r_role := {| leader_id := None; proxied_reqs := ∅; queued_reqs := [] |};
  r_chain := mem_chain;
|}.
Definition demo_leader (id : NodeId) (peers : list NodeId) : Raft Leader := {|
  r_id := id;
  r_config := demo_config id peers;
  r_state := State_default;
  r_role := {| l_progress := {| progress := list_to_map ((λ i, (i, node_progress_new i)) <$> peers ++ [id]) |};
               heartbeat_time := 0; l_heartbeat_timeout := from_millis 100 |};
  r_chain := mem_chain;
|}.
Definition demo_request (id : ClientRequestId) (data : bytes) : ClientRequest :=
  {| req_id := id; req_address := Client; req_proposal := {| proposal_get := data |} |}.
Definition demo_node0 : ServerNode := {|
  sn_loop := {| raft := HFollower (demo_follower 0 []); requests := ∅;
                tcp_tx := {| sent := []; receiver_alive := true |}; answers := [] |};
  sn_driver := driver_new [];
  sn_world := demo_world;
  rpc_read := 0; fsm_read := 0; alive := true;
|}.
Definition demo_server (id : NodeId) (peers : list NodeId) : ServerNode :=
  ret_or demo_node0 (server_new (demo_config id peers) mem_empty [] 0).

Lemma demo_server_new id :
  id ∈ [1; 2; 3] →
  server_new (demo_config id (filter (λ j, j ≠ id) [1; 2; 3])) mem_empty [] 0 =
    Ret (demo_server id (filter (λ j, j ≠ id) [1; 2; 3])).
Proof.
  intros Hid. unfold demo_server. apply is_ret_or.
  assert (∀ i, i = 1 ∨ i = 2 ∨ i = 3 →
    is_ret (server_new (demo_config i (filter (λ j, j ≠ i) [1; 2; 3])) mem_empty [] 0) = true) as H.
  { intros i [->|[->| ->]]; by vm_compute. }
  apply H. set_solver.
Qed.

Lemma demo_newest k : is_Some (t_blocks (abs mem_chain) !! k) → be_val k ≤ 0.
Proof.
  unfold demo_sled, demo_bincode, demo_sled_laws. rewrite mem_chain_abs. simpl.
  rewrite lookup_singleton. case_decide as Hk; [|by intros []].
  rewrite <-Hk, (proj2 is_id_zero). lia.
Qed.
