(* ===== verification/Cluster.v ===== *)
(** * The cluster

    The nodes of a cluster and the network between them, as a transition
    system: any node may take any step of its server, and a message that a node
    handed to its connections may reach the nodes it is addressed to at any
    later time, any number of times or never.  A node that failed takes no more
    steps.  The invariant relates the votes a candidate counted to the votes
    granted in the cluster, and gives that no two nodes ever act as leader. *)
From S2P Require Import Prelude Bytes Storage Chain Rpc Election Progress Config Raft.
From S2P Require Import Handle Fsm Tcp Server Invariants Demo.
Local Open Scope Z_scope.

(** ** The history of one node *)
Section History.
Context {SLED : Sled} {BINC : Bincode Block} {ENV : Env} {BUILD : Build}.

(** [hist]: every message node [x] put on its channel; [h]: its handle, while it
    runs; [E]: the nodes whose vote it may count; [L]: the nodes that presented
    themselves as leader. *)
Record node_inv (cfg : RaftConfig) (E L : NodeId → Prop) (x : NodeId) (hist : list Message)
    (h : option RaftHandle) : Prop := {
  ni_self h' : h = Some h' → handle_id h' = x ∧ handle_config h' = cfg ∧ justified E h';
  ni_signed m : m ∈ hist → signed x m ∨ ∃ res, msg_command m = ClientResponseCmd res;
  ni_one_grant m1 m2 : m1 ∈ hist → m2 ∈ hist → is_grant m1 = true → is_grant m2 = true →
    msg_to m1 = msg_to m2;
  ni_granted m h' : m ∈ hist → is_grant m = true → h = Some h' → settled h';
  ni_backed m : m ∈ hist → is_Some (leads m) → backed E (voters cfg x);
  ni_leader m h' : m ∈ hist → is_Some (leads m) → h = Some h' → is_leader h' = true;
  ni_exclusive m1 m2 : m1 ∈ hist → m2 ∈ hist → is_Some (leads m1) → is_grant m2 = false;
  ni_follow h' l : h = Some h' → known_leader h' = Some l → L l;
}.

Lemma backed_mono (E E' : NodeId → Prop) ids : (∀ j, E j → E' j) → backed E ids → backed E' ids.
Proof. intros HE (e & ? & ? & Hg). exists e. split_and!; [done..|]. auto. Qed.

Lemma justified_mono (E E' : NodeId → Prop) h :
  (∀ j, E j → E' j) → justified E h → justified E' h.
Proof.
  intros HE. destruct h as [r|r|r]; simpl; [done| |by apply backed_mono].
  intros (? & ? & ?). split_and!; [done..|]. auto.
Qed.

Lemma node_inv_mono cfg (E E' L L' : NodeId → Prop) x hist h :
  (∀ j, E j → E' j) → (∀ j, L j → L' j) →
  node_inv cfg E L x hist h → node_inv cfg E' L' x hist h.
Proof.
  intros HE HL []. split; try done.
  - intros h' Hh. destruct (ni_self0 h' Hh) as (? & ? & ?). split_and!; [done..|].
    by eapply justified_mono.
  - intros m Hm Hl. eapply backed_mono; [done|]. eauto.
  - intros h' l Hh Hl. eauto.
Qed.

(** A message of no weight may be added, and the node may stop. *)
Lemma node_inv_response cfg E L x hist h m res :
  msg_command m = ClientResponseCmd res → node_inv cfg E L x hist h →
  node_inv cfg E L x (hist ++ [m]) h.
Proof.
  intros Hm [].
  assert (∀ m', m' ∈ hist ++ [m] → is_grant m' = true ∨ is_Some (leads m') → m' ∈ hist) as Hin.
  { intros m' [?|Hs]%elem_of_app; [done|]. apply list_elem_of_singleton in Hs as ->.
    unfold is_grant, leads. rewrite Hm. intros [?|[? ?]]; done. }
  split; [done| | | | | | |done].
  - intros m' [?|Hs]%elem_of_app; [auto|]. apply list_elem_of_singleton in Hs as ->.
    right. by eexists.
  - intros m1 m2 H1 H2 H3 H4. apply ni_one_grant0; auto.
  - intros m' h' H1 H2. apply (ni_granted0 m'); auto.
  - intros m' H1 H2. apply (ni_backed0 m'); auto.
  - intros m' h' H1 H2. apply (ni_leader0 m'); auto.
  - intros m1 m2 H1 H2 H3. destruct (is_grant m2) eqn:H4; [|done].
    rewrite <-H4. apply (ni_exclusive0 m1 m2); auto.
Qed.

Lemma node_inv_responses cfg E L x hist h new :
  Forall (λ m, ∃ res, msg_command m = ClientResponseCmd res) new → node_inv cfg E L x hist h →
  node_inv cfg E L x (hist ++ new) h.
Proof.
  intros Hnew. revert hist. induction Hnew as [|m new [res Hm] _ IH]; intros hist Hn.
  - by rewrite app_nil_r.
  - rewrite cons_middle, app_assoc. by eapply IH, node_inv_response.
Qed.

Lemma node_inv_stop cfg E L x hist h : node_inv cfg E L x hist h → node_inv cfg E L x hist None.
Proof. intros []. by split. Qed.

(** A command: the messages it adds and the handle it leaves. *)
Lemma node_inv_apply cfg E L x hist h cmd w :
  node_inv cfg E L x hist (Some h) → E x →
  (∀ t j, cmd = VoteResponse t j true → E j) → (∀ l, presents cmd = Some l → L l) →
  ∃ new, msgs (handle_apply h cmd w).2 = msgs w ++ new ∧
    node_inv cfg E L x (hist ++ new)
      (match (handle_apply h cmd w).1 with Ret h' => Some h' | _ => None end).
Proof.
  intros Hinv HE Hcmd HL. destruct (ni_self _ _ _ _ _ _ Hinv h eq_refl) as (Hx & Hcfg & Hj).
  destruct (handle_step E h cmd Hj ltac:(by rewrite Hx) Hcmd w) as (new & Hmsgs & Hnew & Hret).
  exists new. split; [done|]. rewrite Forall_forall in Hnew. clear Hcmd Hmsgs.
  unfold may_send in Hnew. rewrite Hx, Hcfg in Hnew.
  assert (∀ h', match (handle_apply h cmd w).1 with Ret h' => Some h' | _ => None end = Some h' →
    next_ok E h cmd new h') as Hnext by (destruct (handle_apply h cmd w) as [[]]; naive_solver).
  clear Hret. revert Hnext.
  generalize (match (handle_apply h cmd w).1 with Ret h' => Some h' | _ => None end).
  intros o Hnext. destruct Hinv as [_ Hsg Hone Hgr Hbk Hld Hex Hfo].
  assert (∀ m1 m2, m1 ∈ hist ++ new → is_Some (leads m1) → m2 ∈ new → is_grant m2 = false) as Hex2.
  { intros m1 m2 [Hm1|Hm1]%elem_of_app Hl Hm2; apply not_true_iff_false; intros Hg;
      destruct (Hnew m2 Hm2) as (_ & Hgc & _); destruct (Hgc Hg) as (c & Hc & _).
    - pose proof (Hld m1 h Hm1 Hl eq_refl). by destruct h.
    - destruct (Hnew m1 Hm1) as (_ & _ & Hlc). destruct (Hlc Hl) as (_ & ? & _). congruence. }
  assert (∀ m1 m2, m1 ∈ hist → m2 ∈ new → is_grant m1 = true → is_grant m2 ≠ true) as Hnog.
  { intros m1 m2 Hm1 Hm2 Hg1 Hg2. destruct (Hnew m2 Hm2) as (_ & Hgc & _).
    destruct (Hgc Hg2) as (c & Hc & _). pose proof (Hgr m1 h Hm1 Hg1 eq_refl) as Hset.
    by rewrite settled_grants in Hc. }
  split.
  - intros h' Hh'. destruct (Hnext h' Hh') as ([Hi Hc] & Hj' & _). split_and!; [congruence..|done].
  - intros m [Hm|Hm]%elem_of_app; [auto|]. left. apply (Hnew m Hm).
  - intros m1 m2 [Hm1|Hm1]%elem_of_app [Hm2|Hm2]%elem_of_app Hg1 Hg2.
    + by apply Hone.
    + by destruct (Hnog m1 m2 Hm1 Hm2 Hg1).
    + by destruct (Hnog m2 m1 Hm2 Hm1 Hg2).
    + destruct (Hnew m1 Hm1) as (_ & Hgc1 & _). destruct (Hgc1 Hg1) as (c1 & Hc1 & ->).
      destruct (Hnew m2 Hm2) as (_ & Hgc2 & _). destruct (Hgc2 Hg2) as (c2 & Hc2 & ->). congruence.
  - intros m h' [Hm|Hm]%elem_of_app Hg Hh'; destruct (Hnext h' Hh') as (_ & _ & Hset & _ & _);
      apply Hset; [left; by eapply Hgr|right].
    destruct (Hnew m Hm) as (_ & Hgc & _). destruct (Hgc Hg) as (c & Hc & _). by rewrite Hc.
  - intros m [Hm|Hm]%elem_of_app Hl; [eauto|]. by apply (Hnew m Hm).
  - intros m h' [Hm|Hm]%elem_of_app Hl Hh'; destruct (Hnext h' Hh') as (_ & _ & _ & Hlead & _);
      apply Hlead; [left; by eapply Hld|right].
    apply Exists_exists. by exists m.
  - intros m1 m2 Hm1 [Hm2|Hm2]%elem_of_app Hl; [|by eapply Hex2].
    apply elem_of_app in Hm1 as [Hm1|Hm1]; [by apply (Hex m1)|].
    apply not_true_iff_false. intros Hg. pose proof (Hgr m2 h Hm2 Hg eq_refl).
    destruct (Hnew m1 Hm1) as (_ & _ & Hlc). by destruct (Hlc Hl).
  - intros h' l Hh' Hl. destruct (Hnext h' Hh') as (_ & _ & _ & _ & Hlearn).
    destruct (Hlearn l Hl); [by eapply Hfo|auto].
Qed.
End History.

(** ** The event loop of one node *)
Section Loop.
Context {SLED : Sled} {BINC : Bincode Block} {ENV : Env} {BUILD : Build} {SENV : ServerEnv}.

(** The command an event makes the loop apply. *)
Definition applied (e : Event) : option Command :=
  match e with
  | EvTcp m => Some (msg_command m)
  | EvRpc m => if decide (msg_to m = Local) then Some (msg_command m) else None
  | _ => None
  end.

(** What an event does to the node: the messages it adds and the loop it leaves. *)
Definition event_ok (cfg : RaftConfig) (E L : NodeId → Prop) (x : NodeId) (s : EventLoop) (w : World)
    (e : Event) (r : outcome EventLoop * World) : Prop :=
  (∃ new, msgs r.2 = msgs w ++ new) ∧
  node_inv cfg E L x (msgs r.2) (match r.1 with Ret s' => Some (raft s') | _ => None end) ∧
  (∀ s', r.1 = Ret s' → ∀ m, m ∈ sent (tcp_tx s') → m ∈ sent (tcp_tx s) ∨ e = EvRpc m).

Lemma loop_apply_ok cfg E L x s w e s0 cmd :
  raft s0 = raft s → tcp_tx s0 = tcp_tx s →
  node_inv cfg E L x (msgs w) (Some (raft s)) → E x →
  (∀ t j, cmd = VoteResponse t j true → E j) → (∀ l, presents cmd = Some l → L l) →
  event_ok cfg E L x s w e (loop_apply s0 cmd w).
Proof.
  intros Hr Ht Hinv HE Hcmd HL.
  destruct (node_inv_apply cfg E L x (msgs w) (raft s) cmd w Hinv HE Hcmd HL) as (new & Hm & Hnew).
  unfold event_ok, loop_apply, mbind, SM_bind. rewrite Hr.
  destruct (handle_apply (raft s) cmd w) as [[h|er|] w']; simpl in *; rewrite Hm;
    (split_and!; [by eexists|done|]); [|done..].
  intros s' [= <-] m. simpl. rewrite Ht. auto.
Qed.

Lemma event_loop_ok cfg E L x s w e :
  node_inv cfg E L x (msgs w) (Some (raft s)) → E x →
  (∀ t j, applied e = Some (VoteResponse t j true) → E j) →
  (∀ cmd l, applied e = Some cmd → presents cmd = Some l → L l) →
  event_ok cfg E L x s w e (event_loop_step s e w).
Proof.
  intros Hinv HE Hcmd HL.
  assert (∀ r : outcome EventLoop, (∀ s', r = Ret s' → raft s' = raft s ∧
    ∀ m, m ∈ sent (tcp_tx s') → m ∈ sent (tcp_tx s) ∨ e = EvRpc m) →
    event_ok cfg E L x s w e (r, w)) as Hquiet.
  { intros r Hr. split_and!; [exists []; by rewrite app_nil_r| |].
    - destruct r as [s'| |]; simpl; [|by eapply node_inv_stop..].
      destruct (Hr s' eq_refl) as [-> _]. done.
    - intros s' Hs'. by apply Hr. }
  destruct e as [|m|m|p c]; simpl in *.
  - by apply loop_apply_ok.
  - assert (∀ t j, msg_command m = VoteResponse t j true → E j) as Hm.
    { intros t j Hm. apply (Hcmd t j). by rewrite Hm. }
    assert (∀ l, presents (msg_command m) = Some l → L l) as Hp by (intros l; by apply HL).
    destruct (msg_to m) as [|k| |]; [|destruct (msg_command m)|..]; by apply loop_apply_ok.
  - destruct (msg_to m) as [|k| |] eqn:Hto.
    + unfold tcp_tx_send. destruct (receiver_alive _); apply Hquiet; [|done].
      intros s' [= <-]. split; [done|]. simpl. intros m' [?|Hm]%elem_of_app; [by left|].
      apply list_elem_of_singleton in Hm as ->. by right.
    + unfold tcp_tx_send. destruct (receiver_alive _); apply Hquiet; [|done].
      intros s' [= <-]. split; [done|]. simpl. intros m' [?|Hm]%elem_of_app; [by left|].
      apply list_elem_of_singleton in Hm as ->. by right.
    + rewrite decide_True in Hcmd, HL by done. apply loop_apply_ok; try done.
      * intros t j Hm. apply (Hcmd t j). by rewrite Hm.
      * intros l. by apply HL.
    + destruct (msg_command m); try by apply Hquiet.
      destruct (requests s !! _) as [[|cl]|]; [by apply Hquiet| |by apply Hquiet].
      simpl. destruct (waiting cl); apply Hquiet; [|done].
      intros s' [= <-]. split; [done|]. auto.
  - by apply (loop_apply_ok cfg E L x s (ask w)).
Qed.
End Loop.

(** ** The cluster as a transition system *)
Section Cluster.
Context {SLED : Sled} {BINC : Bincode Block} {ENV : Env} {BUILD : Build} {SENV : ServerEnv}.
Context {FSM : Fsm}.
Variable cfg : NodeId → RaftConfig.

Abbreviation Cluster := (gmap NodeId ServerNode).

(** A message [m] that can arrive at [y]: some node handed it to its connections
    and has a connection to [y] it is addressed to. *)
Definition arrives (c : Cluster) (y : NodeId) (m : Message) : Prop :=
  ∃ x n m0, c !! x = Some n ∧ m0 ∈ sent (tcp_tx (sn_loop n)) ∧
    y ∈ n_id <$> nodes (cfg x) ∧ addressed m0 y = true ∧ m = sign x m0.

Definition cluster_start (ids : list NodeId) (c : Cluster) : Prop :=
  (∀ x, is_Some (c !! x) → x ∈ ids) ∧
  ∀ x n, c !! x = Some n → cfg_id (cfg x) = x ∧ ∃ d f k, server_new (cfg x) d f k = Ret n.

Inductive cluster_step (c : Cluster) : Cluster → Prop :=
| cluster_node x n n' :
    c !! x = Some n → node_step (arrives c x) n n' → cluster_step c (<[x := n']> c).

(** The nodes whose votes for [x] exist: [x] itself and those that granted it. *)
Definition voted_to (c : Cluster) (x j : NodeId) : Prop :=
  j = x ∨ ∃ n m, c !! j = Some n ∧ m ∈ msgs (sn_world n) ∧ is_grant m = true ∧ msg_to m = Peer x.

(** The nodes that presented themselves as leader. *)
Definition presented (c : Cluster) (l : NodeId) : Prop :=
  ∃ n m, c !! l = Some n ∧ m ∈ msgs (sn_world n) ∧ leads m = Some l.

Definition running (n : ServerNode) : option RaftHandle :=
  if alive n then Some (raft (sn_loop n)) else None.

Definition cluster_inv (ids : list NodeId) (c : Cluster) : Prop :=
  (∀ x, is_Some (c !! x) → x ∈ ids) ∧
  ∀ x n, c !! x = Some n →
    node_inv (cfg x) (voted_to c x) (presented c) x (msgs (sn_world n)) (running n) ∧
    ∀ m, m ∈ sent (tcp_tx (sn_loop n)) → m ∈ msgs (sn_world n).

(** A grant that arrives was cast by its sender for the receiver. *)
Lemma arrives_grant ids c x m t j :
  cluster_inv ids c → arrives c x m → msg_command m = VoteResponse t j true → voted_to c x j.
Proof.
  intros [_ Hinv] (y & n & m0 & Hy & Hm0 & _ & Haddr & ->) Hcmd.
  destruct (Hinv y n Hy) as [Hn Htcp]. apply Htcp in Hm0.
  assert (msg_command m0 = VoteResponse t j true) as Hcmd0
    by (revert Hcmd; unfold sign; by case_decide).
  destruct (ni_signed _ _ _ _ _ _ Hn m0 Hm0) as [[_ Hs]|[res Hs]]; [|congruence].
  rewrite Hcmd0 in Hs. destruct Hs as [-> [k Hk]]. right. exists n, m0.
  unfold is_grant, addressed in *. rewrite Hcmd0, Hk in *. split_and!; [done..|].
  by apply bool_decide_eq_true_1 in Haddr as ->.
Qed.

(** A leader that a message presents presented itself. *)
Lemma arrives_leader ids c x m l :
  cluster_inv ids c → arrives c x m → presents (msg_command m) = Some l → presented c l.
Proof.
  intros [_ Hinv] (y & n & m0 & Hy & Hm0 & _ & _ & ->) Hl.
  destruct (Hinv y n Hy) as [Hn Htcp]. apply Htcp in Hm0.
  assert (msg_command (sign y m0) = msg_command m0) as Heq by (unfold sign; by case_decide).
  rewrite Heq in Hl. assert (leads m0 = Some l) as Hl0 by done.
  destruct (ni_signed _ _ _ _ _ _ Hn m0 Hm0) as [[_ Hs]|[res Hs]].
  - assert (l = y) as -> by (unfold leads in Hl0; destruct (msg_command m0); naive_solver).
    by exists n, m0.
  - unfold leads in Hl0. by rewrite Hs in Hl0.
Qed.

Lemma own_leader ids c x n m l :
  cluster_inv ids c → c !! x = Some n → m ∈ msgs (sn_world n) →
  presents (msg_command m) = Some l → presented c l.
Proof.
  intros [_ Hinv] Hx Hm Hl. destruct (Hinv x n Hx) as [Hn _].
  assert (leads m = Some l) as Hl0 by done.
  destruct (ni_signed _ _ _ _ _ _ Hn m Hm) as [[_ Hs]|[res Hs]].
  - assert (l = x) as -> by (unfold leads in Hl0; destruct (msg_command m); naive_solver).
    by exists n, m.
  - unfold leads in Hl0. by rewrite Hs in Hl0.
Qed.

(** A node's own queue brings it no grant. *)
Lemma own_grant ids c x n m t j :
  cluster_inv ids c → c !! x = Some n → m ∈ msgs (sn_world n) → msg_to m = Local →
  msg_command m ≠ VoteResponse t j true.
Proof.
  intros [_ Hinv] Hx Hm Hto Hcmd. destruct (Hinv x n Hx) as [Hn _].
  destruct (ni_signed _ _ _ _ _ _ Hn m Hm) as [[_ Hs]|[res Hs]]; [|congruence].
  rewrite Hcmd in Hs. destruct Hs as [_ [k Hk]]. congruence.
Qed.

(** Replacing a node by a later state of it keeps the others' votes. *)
Lemma voted_to_grow (c : Cluster) x n n' new y j :
  c !! x = Some n → msgs (sn_world n') = msgs (sn_world n) ++ new →
  voted_to c y j → voted_to (<[x := n']> c) y j.
Proof.
  intros Hx Hm [->|(nj & m & Hj & Hin & Hg & Hto)]; [by left|]. right.
  destruct (decide (j = x)) as [->|Hne].
  - rewrite Hx in Hj. injection Hj as <-. exists n', m. rewrite lookup_insert_eq, Hm.
    split_and!; [done| |done..]. apply elem_of_app. by left.
  - exists nj, m. by rewrite lookup_insert_ne.
Qed.

Lemma presented_grow (c : Cluster) x n n' new l :
  c !! x = Some n → msgs (sn_world n') = msgs (sn_world n) ++ new →
  presented c l → presented (<[x := n']> c) l.
Proof.
  intros Hx Hm (nl & m & Hj & Hin & Hl). destruct (decide (l = x)) as [->|Hne].
  - rewrite Hx in Hj. injection Hj as <-. exists n', m. rewrite lookup_insert_eq, Hm.
    split_and!; [done| |done]. apply elem_of_app. by left.
  - exists nl, m. by rewrite lookup_insert_ne.
Qed.

Lemma cluster_replace ids (c : Cluster) x n n' new :
  cluster_inv ids c → c !! x = Some n → msgs (sn_world n') = msgs (sn_world n) ++ new →
  node_inv (cfg x) (voted_to c x) (presented c) x (msgs (sn_world n')) (running n') →
  (∀ m, m ∈ sent (tcp_tx (sn_loop n')) → m ∈ msgs (sn_world n')) →
  cluster_inv ids (<[x := n']> c).
Proof.
  intros [Hids Hinv] Hx Hm Hn' Htcp. split.
  { intros y. rewrite lookup_insert_is_Some. intros [<-|[_ Hy]]; apply Hids; [by eexists|done]. }
  intros y ny [[<- <-]|[Hne Hy]]%lookup_insert_Some.
  - split; [|done]. eapply node_inv_mono; [| |exact Hn']; intros j;
      [by eapply voted_to_grow|by eapply presented_grow].
  - destruct (Hinv y ny Hy) as [Hny Hty]. split; [|done].
    eapply node_inv_mono; [| |exact Hny]; intros j;
      [by eapply voted_to_grow|by eapply presented_grow].
Qed.

(** The end of an event of a node's loop. *)
Lemma cluster_event ids c x n e read :
  cluster_inv ids c → c !! x = Some n → alive n = true →
  (∀ t j, applied e = Some (VoteResponse t j true) → voted_to c x j) →
  (∀ cmd l, applied e = Some cmd → presents cmd = Some l → presented c l) →
  (∀ m, e = EvRpc m → m ∈ msgs (sn_world n)) →
  cluster_inv ids (<[x := after_event n read (event_loop_step (sn_loop n) e (sn_world n))]> c).
Proof.
  intros Hinv Hx Hal Hcmd HL Hown. destruct (proj2 Hinv x n Hx) as [Hn Htcp].
  unfold running in Hn. rewrite Hal in Hn.
  destruct (event_loop_ok (cfg x) (voted_to c x) (presented c) x (sn_loop n) (sn_world n) e Hn
    ltac:(by left) Hcmd HL) as ([new Hnew] & Hok & Htx).
  assert (∀ m, m ∈ msgs (sn_world n) → m ∈ msgs (event_loop_step (sn_loop n) e (sn_world n)).2)
    as Hsub by (intros m; rewrite Hnew, elem_of_app; by left).
  eapply cluster_replace; [done|done| | |]; unfold after_event;
    destruct (event_loop_step (sn_loop n) e (sn_world n)) as [[s'|er|] w']; simpl in *; try done;
    try by auto.
  intros m Hm. destruct (Htx s' eq_refl m Hm) as [?| ->]; auto.
Qed.

Lemma cluster_step_inv ids c c' : cluster_inv ids c → cluster_step c c' → cluster_inv ids c'.
Proof.
  intros Hinv [x n n' Hx Hstep]. destruct Hstep as [Hal|m Hal Hm|m Hal Hm|p cl Hal|i Hal Hi].
  - by apply cluster_event.
  - apply cluster_event; try done.
    + simpl. intros t j [= Hcmd]. by eapply arrives_grant.
    + simpl. intros cmd l [= <-]. by eapply arrives_leader.
  - apply list_elem_of_lookup_2 in Hm. apply cluster_event; try done.
    + simpl. intros t j. case_decide as Hto; [|done]. intros [= Hcmd].
      by destruct (own_grant ids c x n m t j Hinv Hx Hm Hto).
    + simpl. intros cmd l. case_decide; [|done]. intros [= <-]. by eapply own_leader.
    + by intros m' [= <-].
  - by apply cluster_event.
  - destruct (driver_step_does (sn_driver n) i (sn_world n)) as (new & Hnew & Hres & _).
    destruct (proj2 Hinv x n Hx) as [Hn Htcp].
    apply (node_inv_responses _ _ _ _ _ _ new Hres) in Hn. rewrite <-Hnew in Hn.
    assert (∀ m, m ∈ msgs (sn_world n) → m ∈ msgs (driver_step (sn_driver n) i (sn_world n)).2)
      as Hsub by (intros m; rewrite Hnew, elem_of_app; by left).
    unfold running in Hn. rewrite Hal in Hn.
    eapply cluster_replace; [done|done| | |]; unfold after_instruction;
      destruct (driver_step (sn_driver n) i (sn_world n)) as [[d'|er|] w']; simpl in *; try done;
      try (by intros m Hm; apply Hsub, Htcp); by eapply node_inv_stop.
Qed.

Lemma server_new_inv E L x d f k n :
  cfg_id (cfg x) = x → server_new (cfg x) d f k = Ret n →
  node_inv (cfg x) E L x (msgs (sn_world n)) (running n) ∧ sent (tcp_tx (sn_loop n)) = [].
Proof.
  intros Hid. unfold server_new. set (w := Build_World _ _ _ _).
  destruct (handle_new (cfg x) d w) as [o w'] eqn:Hnew. intros (h & -> & [= <-])%bind_Ret.
  unfold handle_new in Hnew. destruct (Follower.new (cfg x) d w) as [[r|er|] w1] eqn:Hr;
    injection Hnew as ? <-; try done. subst h.
  assert (msgs w1 = [] ∧ r_id r = x ∧ r_config r = cfg x ∧ leader_id (r_role r) = None)
    as (Hm & Hi & Hc & Hl).
  { unfold Follower.new in Hr. apply SM_bind_Ret in Hr as ([] & w2 & [_ ->]%lift_Ret & Hr).
    apply SM_bind_Ret in Hr as (ch & w2 & [_ ->]%lift_Ret & Hr). unfold Follower.init in Hr.
    match type of Hr with Follower.set_election_timeout ?r0 _ = _ =>
      destruct (set_election_timeout_does (λ _, True) r0 w) as (nw & Hnw & _ & Hq) end.
    rewrite Hr in Hnw, Hq. destruct (Hq r eq_refl) as (-> & [Hi Hc] & _ & _ & Hrole).
    cbn in *. rewrite Hrole. split_and!; [done|congruence|done|done]. }
  simpl. rewrite Hm. split; [|done]. unfold running. split; simpl; by (intros; set_solver).
Qed.

Lemma start_inv ids c : cluster_start ids c → cluster_inv ids c.
Proof.
  intros [Hids Hc]. split; [done|]. intros x n Hx. destruct (Hc x n Hx) as (Hid & d & f & k & Hn).
  destruct (server_new_inv (voted_to c x) (presented c) x d f k n Hid Hn) as [Hi Ht]. split; [done|].
  rewrite Ht. by intros m ?%elem_of_nil.
Qed.

Lemma reachable_inv ids c0 c : cluster_start ids c0 → rtc cluster_step c0 c → cluster_inv ids c.
Proof.
  intros H0 Hr. apply start_inv in H0. induction Hr; eauto using cluster_step_inv.
Qed.

(** ** Leadership *)

(** A node that acts or ever acted as leader: it is one, or it presented itself
    as one in a message. *)
Definition led (n : ServerNode) : Prop :=
  (∃ m, m ∈ msgs (sn_world n) ∧ is_Some (leads m)) ∨
  (alive n = true ∧ is_leader (raft (sn_loop n)) = true).

(** Every node knows the same cluster. *)
Definition consistent (ids : list NodeId) : Prop :=
  NoDup ids ∧ ∀ x, x ∈ ids → voters (cfg x) x ≡ₚ ids.

Lemma led_backed ids c x n :
  cluster_inv ids c → c !! x = Some n → led n →
  backed (voted_to c x) (voters (cfg x) x) ∧
  ∀ m, m ∈ msgs (sn_world n) → is_grant m = false.
Proof.
  intros [_ Hinv] Hx Hled. destruct (Hinv x n Hx) as [Hn _].
  destruct Hled as [(m & Hm & Hl)|[Hal Hl]].
  - split; [by eapply ni_backed|]. intros m' Hm'. by eapply (ni_exclusive _ _ _ _ _ _ Hn m m').
  - unfold running in Hn. rewrite Hal in Hn.
    destruct (ni_self _ _ _ _ _ _ Hn _ eq_refl) as (Hi & Hc & Hj).
    destruct (raft (sn_loop n)) as [r|r|r] eqn:Hr; [done..|]. simpl in Hi, Hc, Hj.
    rewrite Hi, Hc in Hj. split; [done|].
    intros m Hm. apply not_true_iff_false. intros Hg.
    by destruct (ni_granted _ _ _ _ _ _ Hn m _ Hm Hg eq_refl).
Qed.

(** Two nodes backed by the votes of the cluster share a voter. *)
Lemma backed_share ids c x y :
  cluster_inv ids c → consistent ids → x ∈ ids → y ∈ ids → (2 ≤ length ids)%nat →
  backed (voted_to c x) (voters (cfg x) x) → backed (voted_to c y) (voters (cfg y) y) →
  ∃ i, voted_to c x i ∧ voted_to c y i.
Proof.
  intros [Hids _] [Hnd Hcfg] Hx Hy Hlen (e1 & Hv1 & Hs1 & Hg1) (e2 & Hv2 & Hs2 & Hg2).
  assert (∀ z, z ∈ ids → ∀ j, voted_to c z j → j ∈ ids) as Hin.
  { intros z Hz j [->|(n & m & Hj & _)]; [done|]. apply Hids. by eexists. }
  pose proof (Hcfg x Hx) as Hp1. pose proof (Hcfg y Hy) as Hp2. rewrite <-Hv1 in Hp1.
  rewrite <-Hv2 in Hp2.
  assert (quorum_size e2 = quorum_size e1) as Hq
    by (unfold quorum_size; by rewrite (Permutation_length Hp1), (Permutation_length Hp2)).
  rewrite status_spec in Hs1, Hs2.
  destruct (Nat.leb_spec (quorum_size e1) (size (granted e1))); [|by destruct (_ =? _)%nat].
  destruct (Nat.leb_spec (quorum_size e2) (size (granted e2))); [|by destruct (_ =? _)%nat].
  destruct (quorum_meet e1 (granted e1) (granted e2)) as (i & Hi1 & Hi2).
  - unfold voters_size. by rewrite (Permutation_length Hp1).
  - by rewrite Hp1.
  - intros j Hj. apply elem_of_list_to_set. rewrite Hp1. eauto.
  - intros j Hj. apply elem_of_list_to_set. rewrite Hp1. eauto.
  - done.
  - by rewrite <-Hq.
  - exists i. auto.
Qed.

Lemma leaders_same ids c x y nx ny :
  cluster_inv ids c → consistent ids →
  c !! x = Some nx → c !! y = Some ny → led nx → led ny → x = y.
Proof.
  intros Hinv Hcons Hx Hy Hlx Hly.
  assert (x ∈ ids) as Hxi by (apply Hinv; by eexists).
  assert (y ∈ ids) as Hyi by (apply Hinv; by eexists).
  destruct (decide (2 ≤ length ids)%nat) as [Hlen|Hlen].
  2:{ destruct ids as [|a [|b ids]]; simpl in Hlen; [by apply elem_of_nil in Hxi| |lia].
      apply list_elem_of_singleton in Hxi, Hyi. congruence. }
  destruct (led_backed ids c x nx Hinv Hx Hlx) as [Hbx Hgx].
  destruct (led_backed ids c y ny Hinv Hy Hly) as [Hby Hgy].
  destruct (backed_share ids c x y) as (i & [->|(n1 & m1 & Hi1 & Hm1 & Hg1 & Ht1)] & Hiy); try done.
  - destruct Hiy as [->|(n2 & m2 & Hi2 & Hm2 & Hg2 & Ht2)]; [done|].
    rewrite Hx in Hi2. injection Hi2 as <-. by rewrite Hgx in Hg2.
  - destruct Hiy as [->|(n2 & m2 & Hi2 & Hm2 & Hg2 & Ht2)].
    + rewrite Hy in Hi1. injection Hi1 as <-. by rewrite Hgy in Hg1.
    + rewrite Hi1 in Hi2. injection Hi2 as <-. destruct (proj2 Hinv i n1 Hi1) as [Hn _].
      pose proof (ni_one_grant _ _ _ _ _ _ Hn m1 m2 Hm1 Hm2 Hg1 Hg2). congruence.
Qed.

Lemma known_leader_led ids c x n l :
  cluster_inv ids c → c !! x = Some n → alive n = true →
  known_leader (raft (sn_loop n)) = Some l → ∃ nl, c !! l = Some nl ∧ led nl.
Proof.
  intros [_ Hinv] Hx Hal Hl. destruct (Hinv x n Hx) as [Hn _]. unfold running in Hn.
  rewrite Hal in Hn. destruct (ni_follow _ _ _ _ _ _ Hn _ l eq_refl Hl) as (nl & m & Hnl & Hm & Hlm).
  exists nl. split; [done|]. left. exists m. split; [done|]. by eexists.
Qed.

(** ** Properties *)

(** C3: election safety. In any run of a cluster whose nodes all know the same
    members, with messages delayed, reordered, repeated and lost at will and
    nodes failing at any point, no two nodes ever act as leader: there is one
    leader for the life of the cluster. *)
Theorem one_leader ids c0 c x y nx ny :
  consistent ids → cluster_start ids c0 → rtc cluster_step c0 c →
  c !! x = Some nx → c !! y = Some ny → led nx → led ny → x = y.
Proof. intros Hcons H0 Hr. apply (leaders_same ids); eauto using reachable_inv. Qed.

(** Followers agree. In any run, two followers that know a leader know the
    same one, and it is a node that acted as leader: a request is never forwarded
    to two places. *)
Theorem followers_agree ids c0 c x y nx ny lx ly :
  consistent ids → cluster_start ids c0 → rtc cluster_step c0 c →
  c !! x = Some nx → c !! y = Some ny → alive nx = true → alive ny = true →
  known_leader (raft (sn_loop nx)) = Some lx → known_leader (raft (sn_loop ny)) = Some ly →
  lx = ly ∧ ∃ nl, c !! lx = Some nl ∧ led nl.
Proof.
  intros Hcons H0 Hr Hx Hy Hax Hay Hlx Hly. pose proof (reachable_inv ids c0 c H0 Hr) as Hinv.
  destruct (known_leader_led ids c x nx lx) as (n1 & H1 & Hd1); try done.
  destruct (known_leader_led ids c y ny ly) as (n2 & H2 & Hd2); try done.
  split; [by eapply leaders_same|by exists n1].
Qed.


(** The votes counted were cast. In any run, a candidate's election has no
    result yet, so the arm of its tick that panics on a won election is not
    reached, and every vote it counts as granted is its own or one the voter
    granted to it. *)
Theorem counted_votes_cast ids c0 c x n r :
  cluster_start ids c0 → rtc cluster_step c0 c → c !! x = Some n →
  alive n = true → raft (sn_loop n) = HCandidate r →
  election_status (election (r_role r)) = Voting ∧
  ∀ j, votes (election (r_role r)) !! j = Some true → voted_to c x j.
Proof.
  intros H0 Hr Hx Hal Hraft. destruct (proj2 (reachable_inv ids c0 c H0 Hr) x n Hx) as [Hn _].
  unfold running in Hn. rewrite Hal, Hraft in Hn.
  destruct (ni_self _ _ _ _ _ _ Hn _ eq_refl) as (_ & _ & _ & Hst & Hg). split; [done|].
  intros j. rewrite <-elem_of_granted. apply Hg.
Qed.
End Cluster.

(** ** Executable runs *)
Section Runs.
Context {SLED : Sled} {BINC : Bincode Block} {ENV : Env} {BUILD : Build} {SENV : ServerEnv}.
Context {FSM : Fsm}.
Variable cfg : NodeId → RaftConfig.

(** What may happen next: [Receive y x k], the [k]-th message of [x] arrives at [y]. *)
Inductive Action : Type :=
| TickOf (x : NodeId)
| RpcOf (x : NodeId)
| DriverOf (x : NodeId)
| Request (x : NodeId) (p : Proposal) (client : nat)
| Receive (y x : NodeId) (k : nat).

Definition incoming (c : gmap NodeId ServerNode) (y x : NodeId) (k : nat) : option Message :=
  n ← c !! x;
  m ← sent (tcp_tx (sn_loop n)) !! k;
  guard (y ∈ n_id <$> nodes (cfg x));;
  guard (addressed m y = true);;
  Some (sign x m).

Definition act (c : gmap NodeId ServerNode) (a : Action) : gmap NodeId ServerNode :=
  let on x (f : ServerNode → option ServerNode) :=
    match c !! x with
    | Some n => if alive n then match f n with Some n' => <[x := n']> c | None => c end else c
    | None => c
    end in
  let event n read e := after_event n read (event_loop_step (sn_loop n) e (sn_world n)) in
  match a with
  | TickOf x => on x (λ n, Some (event n (rpc_read n) EvTick))
  | RpcOf x => on x (λ n, m ← msgs (sn_world n) !! rpc_read n;
                          Some (event n (S (rpc_read n)) (EvRpc m)))
  | DriverOf x => on x (λ n, i ← instrs (sn_world n) !! fsm_read n;
                             Some (after_instruction n (driver_step (sn_driver n) i (sn_world n))))
  | Request x p client => on x (λ n, Some (event n (rpc_read n) (EvClient p client)))
  | Receive y x k => on y (λ n, m ← incoming c y x k; Some (event n (rpc_read n) (EvTcp m)))
  end.

Lemma incoming_arrives c y x k m : incoming c y x k = Some m → arrives cfg c y m.
Proof.
  unfold incoming. intros H. simplify_option_eq.
  eexists x, _, _. split_and!; try done. by eapply list_elem_of_lookup_2.
Qed.

Lemma act_step c a : rtc (cluster_step cfg) c (act c a).
Proof.
  assert (∀ x (f : ServerNode → option ServerNode),
    (∀ n n', c !! x = Some n → alive n = true → f n = Some n' → node_step (arrives cfg c x) n n') →
    rtc (cluster_step cfg) c (match c !! x with
      | Some n => if alive n then match f n with Some n' => <[x := n']> c | None => c end else c
      | None => c end)) as Hon.
  { intros x f Hf. destruct (c !! x) as [n|] eqn:Hx; [|done]. destruct (alive n) eqn:Hal; [|done].
    destruct (f n) as [n'|] eqn:Hn'; [|done]. apply rtc_once. econstructor; eauto. }
  destruct a as [x|x|x|x p cl|y x k]; apply Hon; intros n n' Hn Hal Hf.
  - injection Hf as <-. by constructor.
  - destruct (msgs _ !! _) as [m|] eqn:Hm; [|done]. injection Hf as <-. by constructor.
  - destruct (instrs _ !! _) as [i|] eqn:Hi; [|done]. injection Hf as <-. by constructor.
  - injection Hf as <-. by constructor.
  - destruct (incoming c y x k) as [m|] eqn:Hm; [|done]. injection Hf as <-.
    constructor; [done|]. by eapply incoming_arrives.
Qed.

Lemma acts_steps l c : rtc (cluster_step cfg) c (foldl act c l).
Proof.
  revert c. induction l as [|a l IH]; intros c; simpl; [done|].
  etransitivity; [apply act_step|apply IH].
Qed.
End Runs.

(** ** Witnesses: an election in a cluster of three *)
Definition ids3 : list NodeId := [1; 2; 3].
Definition cfg3 (x : NodeId) : RaftConfig := demo_config x (filter (λ j, j ≠ x) ids3).
Definition cluster3 : gmap NodeId ServerNode :=
  list_to_map ((λ x, (x, demo_server x (filter (λ j, j ≠ x) ids3))) <$> ids3).

(** Node 1 times out and asks for votes, node 2 grants, node 1 wins and its
    heartbeat reaches the others. *)
Definition election3 : list Action :=
  [TickOf 1; RpcOf 1; RpcOf 1; Receive 2 1 0; RpcOf 2; Receive 1 2 0; RpcOf 1;
   Receive 2 1 2; Receive 3 1 2].
Definition elected3 : gmap NodeId ServerNode := foldl (act cfg3) cluster3 election3.
Definition node3 (x : NodeId) : ServerNode := default demo_node0 (elected3 !! x).

Lemma consistent3 : consistent cfg3 ids3.
Proof.
  split; [by apply (bool_decide_eq_true_1 _)|].
  intros x Hx. unfold ids3 in Hx. rewrite !elem_of_cons in Hx.
  destruct Hx as [->|[->|[->|Hx]]]; [..|by apply elem_of_nil in Hx];
    by apply (bool_decide_eq_true_1 _).
Qed.

Lemma start3 : cluster_start cfg3 ids3 cluster3.
Proof.
  assert (∀ x n, cluster3 !! x = Some n →
    x ∈ ids3 ∧ n = demo_server x (filter (λ j, j ≠ x) ids3)) as Hin.
  { intros x n Hx. apply elem_of_list_to_map_2, list_elem_of_fmap in Hx as (y & [= -> ->] & Hy).
    done. }
  split; [by intros x [n [Hx _]%Hin]|].
  intros x n [Hx ->]%Hin. split; [done|]. exists mem_empty, [], 0%nat. by apply demo_server_new.
Qed.

Lemma elected3_node x :
  bool_decide (is_Some (elected3 !! x)) = true → elected3 !! x = Some (node3 x).
Proof. intros [n Hn]%bool_decide_eq_true_1. unfold node3. by rewrite Hn. Qed.

Lemma one_leader_witness :
  led (node3 1) ∧ ∀ y ny, elected3 !! y = Some ny → led ny → 1 = y.
Proof.
  assert (led (node3 1)) as Hled by (right; split; vm_compute; reflexivity).
  split; [exact Hled|]. intros y ny Hy Hly.
  apply (one_leader cfg3 ids3 cluster3 elected3 1 y (node3 1) ny consistent3 start3
    (acts_steps cfg3 election3 cluster3)); [|exact Hy|exact Hled|exact Hly].
  apply elected3_node. vm_compute. reflexivity.
Defined.

Lemma followers_agree_witness :
  known_leader (raft (sn_loop (node3 2))) = Some 1 ∧
  known_leader (raft (sn_loop (node3 3))) = Some 1 ∧
  ∃ nl, elected3 !! 1 = Some nl ∧ led nl.
Proof.
  split; [vm_compute; reflexivity|]. split; [vm_compute; reflexivity|].
  apply (followers_agree cfg3 ids3 cluster3 elected3 2 3 (node3 2) (node3 3) 1 1 consistent3 start3
    (acts_steps cfg3 election3 cluster3));
    [apply elected3_node|apply elected3_node|..]; vm_compute; reflexivity.
Defined.



(** Node 1 while it waits for votes. *)
Definition campaign3 : gmap NodeId ServerNode := foldl (act cfg3) cluster3 [TickOf 1].
Definition candidate3 : ServerNode := default demo_node0 (campaign3 !! 1).

Lemma counted_votes_cast_witness :
  ∃ r, raft (sn_loop candidate3) = HCandidate r ∧
    election_status (election (r_role r)) = Voting ∧ votes (election (r_role r)) !! 1 = Some true.
Proof.
  assert (is_candidate (raft (sn_loop candidate3)) = true) as Hc by (vm_compute; reflexivity).
  assert (match raft (sn_loop candidate3) with
          | HCandidate r => bool_decide (votes (election (r_role r)) !! 1 = Some true)
          | _ => true end = true) as Hv by (vm_compute; reflexivity).
  destruct (raft (sn_loop candidate3)) as [r|r|r] eqn:Hr; [discriminate Hc| |discriminate Hc].
  exists r. split; [reflexivity|].
  assert (bool_decide (is_Some (campaign3 !! 1)) = true) as [n Hn]%bool_decide_eq_true_1
    by (vm_compute; reflexivity).
  split; [|by apply bool_decide_eq_true_1 in Hv].
  apply (counted_votes_cast cfg3 ids3 cluster3 campaign3 1 candidate3 r start3
    (acts_steps cfg3 [TickOf 1] cluster3)); [| |exact Hr].
  - unfold candidate3. rewrite Hn. reflexivity.
  - vm_compute. reflexivity.
Defined.
