(* ===== verification/Replication.v ===== *)
(** * Replication

    The data plane of the roles: what a leader commits, applies and sends to its
    followers, and what a follower does with a heartbeat and with the blocks it
    is sent. *)
From S2P Require Import Prelude Bytes Storage Chain Rpc Election Progress Config Raft.
From S2P Require Leader Candidate Follower.
From S2P Require Import Handle Fsm Server Invariants Demo.
Local Open Scope Z_scope.

(** ** Effects on the world *)
Definition push_msgs (l : list Message) (w : World) : World :=
  {| rpc_tx := {| sent := sent (rpc_tx w) ++ l; receiver_alive := receiver_alive (rpc_tx w) |};
     fsm_tx := fsm_tx w; asked := asked w; state_file := state_file w |}.
Definition push_instrs (l : list Instruction) (w : World) : World :=
  {| rpc_tx := rpc_tx w;
     fsm_tx := {| sent := sent (fsm_tx w) ++ l; receiver_alive := receiver_alive (fsm_tx w) |};
     asked := asked w; state_file := state_file w |}.

Lemma push_msgs_nil w : push_msgs [] w = w.
Proof. unfold push_msgs. rewrite app_nil_r. by destruct w as [[] ? ? ?]. Qed.
Lemma push_instrs_nil w : push_instrs [] w = w.
Proof. unfold push_instrs. rewrite app_nil_r. by destruct w as [? [] ? ?]. Qed.
Lemma push_msgs_app l1 l2 w : push_msgs (l1 ++ l2) w = push_msgs l2 (push_msgs l1 w).
Proof. unfold push_msgs. simpl. by rewrite app_assoc. Qed.
Lemma push_instrs_app l1 l2 w : push_instrs (l1 ++ l2) w = push_instrs l2 (push_instrs l1 w).
Proof. unfold push_instrs. simpl. by rewrite app_assoc. Qed.

Lemma rpc_send_alive m w :
  receiver_alive (rpc_tx w) = true → rpc_send m w = (Ret tt, push_msgs [m] w).
Proof. intros H. unfold rpc_send, push_msgs. by rewrite H. Qed.

Lemma fsm_send_alive i w :
  receiver_alive (fsm_tx w) = true → fsm_send i w = (Ret tt, push_instrs [i] w).
Proof. intros H. unfold fsm_send, push_instrs. by rewrite H. Qed.

Lemma fsm_send_Ret i w u w' :
  fsm_send i w = (Ret u, w') → w' = push_instrs [i] w ∧ receiver_alive (fsm_tx w) = true.
Proof.
  unfold fsm_send, push_instrs. destruct (receiver_alive (fsm_tx w)); [|done]. by intros [= _ <-].
Qed.

(** Applying a range that decodes. *)
Lemma drive_apply l w :
  receiver_alive (fsm_tx w) = true →
  drive (Ret <$> l) (λ b, fsm_send_unwrap (Apply b)) w = (Ret tt, push_instrs (Apply <$> l) w).
Proof.
  revert w. induction l as [|b l IH]; intros w Hw; [by rewrite push_instrs_nil|].
  unfold drive in *. cbn [fmap list_fmap for_each].
  change (Apply b :: (Apply <$> l)) with ([Apply b] ++ (Apply <$> l)). rewrite push_instrs_app.
  erewrite SM_bind_step; [apply (IH (push_instrs [Apply b] w) Hw)|].
  erewrite SM_bind_step by done. unfold fsm_send_unwrap. by rewrite fsm_send_alive.
Qed.

Lemma drive_apply_Ret l w u w' :
  drive (Ret <$> l) (λ b, fsm_send_unwrap (Apply b)) w = (Ret u, w') →
  w' = push_instrs (Apply <$> l) w.
Proof.
  revert w. induction l as [|b l IH]; intros w H; unfold drive in *; cbn [fmap list_fmap for_each] in H.
  - apply mret_Ret in H as [_ ->]. by rewrite push_instrs_nil.
  - apply SM_bind_Ret in H as (u1 & w1 & H1 & H).
    apply SM_bind_Ret in H1 as (b' & w2 & [[= <-] ->]%lift_Ret & H1).
    assert (w1 = push_instrs [Apply b] w) as ->.
    { unfold fsm_send_unwrap in H1. destruct (fsm_send (Apply b) w) as [[]] eqn:Hs; try done.
      injection H1 as <- <-. by apply fsm_send_Ret in Hs as [-> _]. }
    apply IH in H as ->. by rewrite <-push_instrs_app.
Qed.

(** ** Ranges next to each other *)
Section Ranges.
Context {SLED : Sled} {BINC : Bincode Block}
  {SLAWS : SledLaws} {BLAWS : BincodeLaws Block} {BMIN : BincodeMin Block 24}.

Lemma range_of_nil c k : range_of c (Excluded k) (Included k) [].
Proof.
  split; [by constructor|]. intros b. split; [by intros ?%elem_of_nil|].
  intros [_ H]. exfalso. unfold in_range in H. simpl in H. apply andb_true_iff in H as [H1 H2].
  apply bytes_leb_lt_eq in H2 as [H2|H2]; [|by rewrite H2, bytes_ltb_irrefl in H1].
  pose proof (bytes_lt_trans _ _ _ H1 H2). by rewrite bytes_ltb_irrefl in *.
Qed.

(** A range that starts at a stored block yields it first. *)
Lemma range_of_head c k hi l b :
  chain_wf c → t_blocks (abs c) !! k = Some b → below hi k = true →
  range_of c (Included k) hi l → ∃ l', l = b :: l' ∧ range_of c (Excluded k) hi l'.
Proof.
  intros Hc Hk Hhi [Hsort Hin].
  destruct (wf_block _ (wf_tree c Hc) k b Hk) as (Hbk & Hid & _ & _).
  assert (b ∈ l) as Hb.
  { apply Hin. rewrite Hbk. split; [done|]. unfold in_range. simpl. rewrite Hhi, andb_true_r.
    apply bytes_leb_lt_eq. by right. }
  assert (∀ x, x ∈ l → is_id (b_id x) ∧ be_val k ≤ be_val (b_id x)) as Hge.
  { intros x [Hx Hr]%Hin. assert (is_id (b_id x)) as Hix
      by (eapply tree_is_id; [apply (wf_tree c Hc)|by eexists]). split; [done|].
    apply andb_true_iff in Hr as [Hr _]. simpl in Hr. rewrite is_id_leb in Hr by done. lia. }
  destruct l as [|x l]; [by apply elem_of_nil in Hb|].
  apply StronglySorted_cons in Hsort as [Hx Hsort].
  assert (x = b) as ->.
  { apply elem_of_cons in Hb as [->|Hb]; [done|]. rewrite Forall_forall in Hx.
    pose proof (Hx b Hb) as Hlt. unfold id_lt in Hlt. rewrite Hbk in Hlt.
    destruct (Hge x ltac:(set_solver)). lia. }
  exists l. split; [done|]. split; [done|]. intros y. unfold in_range in *. cbn [above] in *. split.
  - intros Hy. rewrite Forall_forall in Hx. pose proof (Hx y Hy) as Hlt. unfold id_lt in Hlt.
    destruct (Hin y) as [Hy' _]. destruct (Hy' ltac:(set_solver)) as [Hyb Hyr]. split; [done|].
    apply andb_true_iff in Hyr as [_ ->]. rewrite andb_true_r.
    destruct (Hge y ltac:(set_solver)). rewrite is_id_ltb by done. rewrite Hbk in Hlt. lia.
  - intros [Hy Hr]. apply andb_true_iff in Hr as [Hr Hr2].
    assert (y ∈ b :: l) as [->|?]%elem_of_cons; [|by rewrite Hbk, bytes_ltb_irrefl in Hr|done].
    apply Hin. split; [done|]. rewrite Hr2, andb_true_r. apply bytes_leb_lt_eq. by left.
Qed.

Lemma range_of_app c a k1 k2 l1 l2 :
  chain_wf c → is_id a → is_id k1 → is_id k2 → be_val a ≤ be_val k1 ≤ be_val k2 →
  range_of c (Excluded a) (Included k1) l1 → range_of c (Excluded k1) (Included k2) l2 →
  range_of c (Excluded a) (Included k2) (l1 ++ l2).
Proof.
  intros Hc Ha Hk1 Hk2 Hle [Hs1 H1] [Hs2 H2].
  assert (∀ x lo k, is_id lo → is_id k → t_blocks (abs c) !! b_id x = Some x →
    in_range (Excluded lo) (Included k) (b_id x) = true ↔
    be_val lo < be_val (b_id x) ≤ be_val k) as Hr.
  { intros x lo k Hlo Hk Hx. assert (is_id (b_id x)) as Hix
      by (eapply tree_is_id; [apply (wf_tree c Hc)|by eexists]).
    unfold in_range. simpl. rewrite is_id_ltb, is_id_leb, andb_true_iff by done. lia. }
  split.
  - apply StronglySorted_app_2; [|done..]. intros x y [Hx Hxr]%H1 [Hy Hyr]%H2.
    apply Hr in Hxr, Hyr; try done. unfold id_lt. lia.
  - intros x. rewrite elem_of_app, H1, H2. split.
    + intros [[Hx Hxr]|[Hx Hxr]]; (split; [done|]); apply Hr in Hxr; try done; apply Hr; try done; lia.
    + intros [Hx Hxr]. apply Hr in Hxr; try done.
      destruct (Z.le_gt_cases (be_val (b_id x)) (be_val k1)); [left|right];
        (split; [done|]); apply Hr; try done; lia.
Qed.

Lemma range_of_same c c' lo hi l :
  t_blocks (abs c') = t_blocks (abs c) → range_of c lo hi l → range_of c' lo hi l.
Proof. intros Heq [Hs Hin]. split; [done|]. by rewrite Heq. Qed.
End Ranges.

(** ** The leader's log and what it applied *)
Section LeaderLog.
Context {SLED : Sled} {BINC : Bincode Block} {ENV : Env} {BUILD : Build}
  {SLAWS : SledLaws} {BLAWS : BincodeLaws Block} {BMIN : BincodeMin Block 24}.

Definition applied_block (i : Instruction) : option Block :=
  match i with Apply b => Some b | Notify _ _ _ => None end.
Definition applied_blocks (w : World) : list Block := omap applied_block (instrs w).

(** The blocks a leader applied are exactly the committed ones, in their order. *)
Record leader_log (r : Raft Leader) (w : World) : Prop := {
  ll_wf : chain_wf (r_chain r);
  ll_newest k : is_Some (t_blocks (abs (r_chain r)) !! k) → be_val k ≤ be_val (c_head (r_chain r));
  ll_gen : 0 ≤ gen_id (id_gen (r_chain r));
  ll_heads i np : progress (l_progress (r_role r)) !! i = Some np → node_head np ≠ commit_key;
  ll_applied : range_of (r_chain r) (Excluded (BlockId_new 0)) (Included (c_commit (r_chain r)))
                 (applied_blocks w);
}.

(** A computation that leaves the driver's channel alone. *)
Definition silent {A} (m : M A) : Prop := ∀ w, fsm_tx (m w).2 = fsm_tx w.

Lemma silent_bind {A B} (m : M A) (f : A → M B) :
  silent m → (∀ a, silent (f a)) → silent (m ≫= f).
Proof.
  intros Hm Hf w. pose proof (Hm w) as Hw. unfold mbind, SM_bind.
  destruct (m w) as [[a|e|] w1]; simpl in *; [|done..]. by rewrite Hf.
Qed.
Lemma silent_for_each {A} (l : list A) (f : A → M unit) :
  (∀ a, silent (f a)) → silent (for_each l f).
Proof. intros Hf. induction l; simpl; [done|]. by apply silent_bind. Qed.
Lemma silent_rpc_send m : silent (rpc_send m).
Proof. intros w. unfold rpc_send. by case_match. Qed.
Lemma silent_lift {A} (o : outcome A) : silent (lift o).
Proof. done. Qed.
Lemma silent_replicate r : silent (Leader.replicate r).
Proof.
  apply silent_for_each. intros node. unfold Leader.replicate_node.
  repeat case_match; try done; (apply silent_bind; [done|]; intros; apply silent_rpc_send).
Qed.

Lemma leader_log_silent r w w' : leader_log r w → fsm_tx w' = fsm_tx w → leader_log r w'.
Proof. intros [] H. split; try done. unfold applied_blocks, instrs. by rewrite H. Qed.

Lemma leader_log_role r w role :
  leader_log r w → (∀ i np, progress (l_progress role) !! i = Some np → node_head np ≠ commit_key) →
  leader_log (with_role role r) w.
Proof. intros [] H. by split. Qed.

Lemma applied_blocks_push l w :
  applied_blocks (push_instrs l w) = applied_blocks w ++ omap applied_block l.
Proof. unfold applied_blocks, instrs. simpl. by rewrite omap_app. Qed.

Lemma omap_apply (l : list Block) : omap applied_block (Apply <$> l) = l.
Proof. induction l as [|b l IH]; [done|]. cbn. by f_equal. Qed.

(** The range a commit applies: the blocks after the previous commit. *)
Lemma commit_range c c' k :
  chain_wf c → chain_wf c' → abs c' = tree_commit k (abs c) → is_id k →
  be_val (c_commit c) ≤ be_val k →
  ∃ b l, chain_range c' (Included (c_commit c)) (Included k) = (Ret : Block → outcome Block) <$> (b :: l) ∧
         range_of c' (Excluded (c_commit c)) (Included k) l.
Proof.
  intros Hc Hc' Habs Hk Hle. destruct (range_below_commit (Included (c_commit c)) k Hk) as [_ Hr].
  destruct (range_blocks c' _ _ Hc' Hr) as (l & Hrun & Hof).
  destruct (wf_commit _ (wf_tree c Hc)) as [b Hb]. cbn in Hb.
  destruct (range_of_head c' (c_commit c) (Included k) l b) as (l' & -> & Hof'); try done.
  - by rewrite Habs.
  - simpl. pose proof (commit_is_id c Hc). rewrite is_id_leb by done. lia.
  - by exists b, l'.
Qed.

Lemma committed_head p k : committed_index p = Ret k →
  ∃ i np, progress p !! i = Some np ∧ node_head np = k.
Proof.
  unfold committed_index. intros H.
  rewrite committed_of_spec in H by (by eapply committed_of_no_snapshot).
  apply unwrap_Ret, list_elem_of_lookup_2 in H.
  rewrite merge_sort_Permutation in H. apply list_elem_of_fmap in H as (np & -> & H).
  apply list_elem_of_fmap in H as ([i np'] & -> & H). exists i, np'. split; [|done].
  by apply elem_of_map_to_list in H.
Qed.

Lemma commit_log r w q r' w' :
  leader_log r w → Leader.commit r w = (Ret (q, r'), w') →
  leader_log r' w' ∧ id_gen (r_chain r') = id_gen (r_chain r).
Proof.
  intros Hll H. destruct Hll as [Hwf Hnew Hgen Hheads Happ]. unfold Leader.commit in H.
  apply SM_bind_Ret in H as (k & w1 & [Hk ->]%lift_Ret & H).
  destruct (committed_head _ _ Hk) as (i & np & Hnp & Hnk). pose proof (Hheads i np Hnp) as Hne.
  rewrite Hnk in Hne. unfold chain_get_commit in H.
  destruct (bytes_ltb (c_commit (r_chain r)) k) eqn:Hlt.
  2:{ apply mret_Ret in H as [[= -> ->] ->]. split; [|done]. by split. }
  pose proof (commit_branch (r_chain r) k Hwf Hne) as Hbr.
  destruct (t_blocks (abs (r_chain r)) !! k) as [bk|] eqn:Hbk;
    [|by rewrite Hbr in H; apply SM_bind_Ret in H as (? & ? & [? ?]%lift_Ret & _)].
  destruct Hbr as (c' & Hrun & Hwf' & Habs & Hg & _). rewrite Hrun in H.
  apply SM_bind_Ret in H as (x & w1 & [[= <-] ->]%lift_Ret & H).
  assert (is_id k) as Hid by (eapply tree_is_id; [apply (wf_tree _ Hwf)|by eexists]).
  pose proof (commit_is_id _ Hwf) as Hcid. rewrite is_id_ltb in Hlt by done.
  destruct (commit_range (r_chain r) c' k) as (b & l & Hrange & Hof); try done; [lia|].
  rewrite Hrange in H. apply SM_bind_Ret in H as (u & w1 & Hd & H).
  cbn [fmap list_fmap drive_skip1] in Hd.
  apply SM_bind_Ret in Hd as (? & ? & [_ ->]%lift_Ret & Hd). apply drive_apply_Ret in Hd as ->.
  apply mret_Ret in H as [[= -> ->] ->]. split; [|done].
  assert (t_blocks (abs c') = t_blocks (abs (r_chain r))) as Hbs by (by rewrite Habs).
  assert (c_head c' = c_head (r_chain r)) as Hh by (by apply (f_equal t_head) in Habs).
  assert (c_commit c' = k) as Hck by (by apply (f_equal t_commit) in Habs).
  split; cbn [with_chain r_chain r_role]; [done| |by rewrite Hg|done|].
  - rewrite Hbs, Hh. exact Hnew.
  - rewrite applied_blocks_push, omap_apply, Hck. destruct is_id_zero as [Hz Hzv].
    apply (range_of_app c' _ (c_commit (r_chain r))); try done.
    + rewrite Hzv. pose proof (be_val_range (c_commit (r_chain r))). lia.
    + by eapply range_of_same.
Qed.

Lemma range_of_append c c' id data lo k l :
  is_id id → is_id k → be_val k < be_val id → t_blocks (abs c) !! id = None →
  abs c' = tree_append id data (abs c) → range_of c lo (Included k) l →
  range_of c' lo (Included k) l.
Proof.
  intros Hid Hk Hlt Hnone Habs [Hs Hin]. split; [done|]. intros b. rewrite Hin, Habs.
  unfold tree_append. cbn [t_blocks]. rewrite lookup_insert. case_decide as Heq; [|done].
  rewrite <-Heq, Hnone. split; [by intros [? ?]|]. intros [_ Hr]. exfalso.
  unfold in_range in Hr. apply andb_true_iff in Hr as [_ Hr]. simpl in Hr.
  rewrite is_id_leb in Hr by done. lia.
Qed.

Lemma append_log r w data id c' :
  leader_log r w → gen_id (id_gen (r_chain r)) < id_limit →
  chain_append (r_chain r) {| u_data := data |} = Ret (id, c') →
  leader_log (with_chain c' r) w ∧ is_id (c_head c') ∧
  gen_id (id_gen c') = gen_id (id_gen (r_chain r)) + 1.
Proof.
  intros [Hwf Hnew Hgen Hheads Happ] Hlim Hrun.
  pose proof (append_branch (r_chain r) data Hwf ltac:(lia)) as Hbr. cbv zeta in Hbr.
  set (n := gen_id (id_gen (r_chain r))) in *. destruct (is_id_new n ltac:(lia)) as [Hid Hval].
  destruct (Z.ltb_spec (be_val (c_head (r_chain r))) n) as [Hlt|]; [|by rewrite Hbr in Hrun].
  destruct Hbr as (c2 & Hrun2 & Hwf' & Habs & Hg). rewrite Hrun in Hrun2. injection Hrun2 as -> <-.
  assert (c_head c' = BlockId_new n) as Hh by (by apply (f_equal t_head) in Habs).
  assert (c_commit c' = c_commit (r_chain r)) as Hck by (by apply (f_equal t_commit) in Habs).
  assert (t_blocks (abs (r_chain r)) !! BlockId_new n = None) as Hnone.
  { destruct (t_blocks (abs (r_chain r)) !! BlockId_new n) eqn:E; [|done].
    pose proof (Hnew (BlockId_new n) ltac:(by eexists)). lia. }
  pose proof (Hnew _ (wf_commit _ (wf_tree _ Hwf))) as Hcle. cbn in Hcle.
  split_and!; [|by rewrite Hh|done]. split; cbn [with_chain r_chain r_role]; [done| |lia|done|].
  - intros k. rewrite Habs, Hh, Hval. cbn [tree_append t_blocks]. rewrite lookup_insert.
    case_decide as Hk; [subst; lia|]. intros Hs. apply Hnew in Hs. lia.
  - rewrite Hck. eapply range_of_append; eauto using commit_is_id. lia.
Qed.

Lemma append_response_log r w i k h' w' :
  leader_log r w → k ≠ commit_key →
  Leader.apply_append_response r i k w = (Ret h', w') →
  ∃ r', h' = HLeader r' ∧ leader_log r' w' ∧ id_gen (r_chain r') = id_gen (r_chain r).
Proof.
  intros Hll Hk H. unfold Leader.apply_append_response in H.
  apply SM_bind_Ret in H as (p & w1 & [Hp ->]%lift_Ret & H).
  apply SM_bind_Ret in H as ([q r2] & w1 & Hc & H). apply mret_Ret in H as [-> ->].
  eapply commit_log in Hc as [Hll' Hg].
  - by exists r2.
  - apply leader_log_role; [done|]. cbn [l_progress].
    destruct (advance_spec _ _ _ _ Hp) as (np & np' & Hi & Hadv & ->).
    intros j nj. rewrite lookup_insert. case_decide; [|by apply (ll_heads _ _ Hll)].
    intros [= <-]. pose proof (ll_heads _ _ Hll i np Hi) as Hne.
    destruct (is_snapshot np) eqn:Hs; [destruct np; try done; cbn in Hadv; congruence|].
    destruct (node_advance_spec np k Hs) as (np2 & Hadv2 & _ & Hh). rewrite Hadv in Hadv2.
    injection Hadv2 as <-. rewrite Hh. by case_match.
Qed.

Lemma silent_tick r : silent (Leader.apply_tick r).
Proof.
  unfold Leader.apply_tick. apply silent_bind.
  { intros w. unfold Leader.write_state. by case_match. }
  intros _. apply silent_bind; [done|]. intros due. apply silent_bind.
  { destruct due; [|done]. apply silent_bind; [apply silent_rpc_send|done]. }
  intros r'. apply silent_bind; [apply silent_replicate|done].
Qed.

Lemma tick_same r w h' w' :
  Leader.apply_tick r w = (Ret h', w') →
  ∃ role, h' = HLeader (with_role role r) ∧ l_progress role = l_progress (r_role r).
Proof.
  unfold Leader.apply_tick. intros H. apply SM_bind_Ret in H as (u1 & w1 & _ & H).
  apply SM_bind_Ret in H as (due & w2 & _ & H). apply SM_bind_Ret in H as (r' & w3 & Hr & H).
  apply SM_bind_Ret in H as (u2 & w4 & _ & H). apply mret_Ret in H as [-> _]. destruct due.
  - apply SM_bind_Ret in Hr as (u3 & w5 & _ & Hr). unfold Leader.reset_heartbeat_timer in Hr.
    apply SM_bind_Ret in Hr as (now & w6 & _ & Hr). apply mret_Ret in Hr as [-> _]. by eexists.
  - apply mret_Ret in Hr as [-> _]. exists (r_role r). split; [|done]. by destruct r.
Qed.

(** The confirmations a leader receives name blocks, not the commit entry. *)
Definition sane (cmd : Command) : Prop :=
  match cmd with AppendResponse _ _ head _ => head ≠ commit_key | _ => True end.

Lemma leader_apply_log r w cmd h' w' :
  leader_log r w → sane cmd → gen_id (id_gen (r_chain r)) < id_limit →
  Leader.apply r cmd w = (Ret h', w') →
  ∃ r', h' = HLeader r' ∧ leader_log r' w' ∧
        gen_id (id_gen (r_chain r')) ≤ gen_id (id_gen (r_chain r)) + 1.
Proof.
  intros Hll Hsane Hgen H.
  assert (∀ w', fsm_tx w' = fsm_tx w → ∃ r', HLeader r = HLeader r' ∧ leader_log r' w' ∧
    gen_id (id_gen (r_chain r')) ≤ gen_id (id_gen (r_chain r)) + 1) as Hsame.
  { intros w2 Hw. exists r. split_and!; [done|by eapply leader_log_silent|lia]. }
  destruct cmd as [| |t c lt hd|t j g|t l bs|i t k s|t k l|k s| | |req|res]; simpl in H;
    try by (apply mret_Ret in H as [-> ->]; apply Hsame).
  - pose proof (silent_tick r w) as Hs. rewrite H in Hs. cbn in Hs.
    destruct (tick_same r w h' w' H) as (role & -> & Hp). eexists. split_and!; [done| |cbn; lia].
    apply (leader_log_silent _ w); [|done]. apply leader_log_role; [done|].
    rewrite Hp. apply (ll_heads _ _ Hll).
  - unfold Leader.apply_append_entries in H. destruct (_ <? _).
    + by apply SM_bind_Ret in H as (? & ? & [? ?]%lift_Ret & _).
    + apply mret_Ret in H as [-> ->]. by apply Hsame.
  - apply append_response_log in H as (r' & -> & Hll' & Hg); [|done..].
    exists r'. rewrite Hg. split_and!; [done..|lia].
  - unfold Leader.apply_heartbeat_response in H. apply SM_bind_Ret in H as (u & w1 & H1 & H).
    apply mret_Ret in H as [-> ->]. apply Hsame. destruct (_ && _).
    + pose proof (silent_replicate r w) as Hs. by rewrite H1 in Hs.
    + by apply mret_Ret in H1 as [_ ->].
  - unfold Leader.apply_client_request in H.
    apply SM_bind_Ret in H as ([id c'] & w1 & [Ha ->]%lift_Ret & H).
    apply SM_bind_Ret in H as (u & w1 & Hn & H). apply fsm_send_Ret in Hn as [-> _].
    destruct (append_log r w _ id c' Hll Hgen Ha) as (Hll' & Hid & Hg).
    apply append_response_log in H as (r' & -> & Hll2 & Hg2).
    + exists r'. rewrite Hg2. cbn [with_chain r_chain]. split_and!; [done..|lia].
    + destruct Hll'. split; try done. by rewrite applied_blocks_push, app_nil_r.
    + by apply is_id_not_commit.
Qed.

Lemma leader_run_log cmds r w h' w' :
  leader_log r w → Forall sane cmds →
  gen_id (id_gen (r_chain r)) + Z.of_nat (length cmds) ≤ id_limit →
  sfold handle_apply (HLeader r) cmds w = (Ret h', w') → ∃ r', h' = HLeader r' ∧ leader_log r' w'.
Proof.
  intros Hll Hsane. revert r w Hll. induction Hsane as [|cmd cmds Hs Hsane IH]; intros r w Hll Hgen H.
  - apply mret_Ret in H as [-> ->]. by exists r.
  - cbn [sfold length] in *. apply SM_bind_Ret in H as (h1 & w1 & H1 & H).
    apply leader_apply_log in H1 as (r1 & -> & Hll1 & Hg); [|done|done|lia].
    apply (IH r1 w1); [done|lia|done].
Qed.

(** C5: the leader applies every committed block exactly once, in order.
    Whatever commands a leader executes (ticks, requests, confirmations in any
    order, heartbeat responses, messages of other leaders), as long as it does
    not fail the blocks it handed to its state machine are exactly the blocks
    after the genesis block up to the commit, oldest first. *)
Theorem leader_applies_committed cmds r w h' w' :
  leader_log r w → Forall sane cmds →
  gen_id (id_gen (r_chain r)) + Z.of_nat (length cmds) ≤ id_limit →
  sfold handle_apply (HLeader r) cmds w = (Ret h', w') →
  ∃ r', h' = HLeader r' ∧ chain_wf (r_chain r') ∧
    range_of (r_chain r') (Excluded (BlockId_new 0)) (Included (c_commit (r_chain r')))
      (applied_blocks w').
Proof.
  intros Hll Hsane Hgen H. destruct (leader_run_log cmds r w h' w') as (r' & -> & []); [done..|].
  by exists r'.
Qed.
End LeaderLog.

(** ** Sending blocks *)
Section Sending.
Context {SLED : Sled} {BINC : Bincode Block} {ENV : Env} {BUILD : Build}
  {SLAWS : SledLaws} {BLAWS : BincodeLaws Block} {BMIN : BincodeMin Block 24}.

(** Before the first commit an open range decodes. *)
Lemma range_uncommitted c k :
  chain_wf c → contents (c_db c) !! commit_key = None →
  ∃ l, chain_range c (Included k) Unbounded = (Ret : Block → outcome Block) <$> l ∧
       range_of c (Included k) (Excluded commit_key) l.
Proof.
  intros Hc Hnone.
  destruct (decode_entries c (Included k) (Excluded commit_key) Hc) as (l & Hl & Hof).
  { unfold in_range. simpl. by rewrite bytes_ltb_irrefl, andb_false_r. }
  exists l. split; [|done]. unfold chain_range. rewrite db_range_spec.
  replace (entries (Included k) Unbounded (contents (c_db c)))
    with (entries (Included k) (Excluded commit_key) (contents (c_db c))).
  { by apply decode_Forall2. }
  symmetry. apply entries_unique; [apply entries_sorted|].
  intros [k' v]. rewrite elem_of_entries. cbn [fst snd].
  unfold in_range. cbn [above below]. rewrite andb_true_r.
  split; [by intros [? [? _]%andb_true_iff]|]. intros [Hv Hk]. split; [done|]. rewrite Hk.
  assert (k' ≠ commit_key) as Hne by congruence.
  assert (is_Some (t_blocks (abs c) !! k')) as Hs by (apply (contains_block c k' Hc Hne); by eexists).
  apply is_id_below_commit. by eapply tree_is_id; [apply (wf_tree c Hc)|].
Qed.

(** The blocks sent to a node whose progress stands at the stored block [k]:
    those after it, one when it is probed and up to five when it is replicated to. *)
Definition next_blocks (np : NodeProgress) (l : list Block) : list Block :=
  match np with NProbe _ => take 1 l | NReplicate _ => take MAX_INFLIGHT l | NSnapshot _ => [] end.

Lemma force_take n (l : list Block) :
  force (take n ((Ret : Block → outcome Block) <$> l)) = Ret (take n l).
Proof. by rewrite <-fmap_take, force_Ret. Qed.

Lemma blocks_after c k b :
  chain_wf c → contents (c_db c) !! commit_key = None → t_blocks (abs c) !! k = Some b →
  ∃ l, chain_range c (Included k) Unbounded = (Ret : Block → outcome Block) <$> (b :: l) ∧
       range_of c (Excluded k) (Excluded commit_key) l.
Proof.
  intros Hc Hnone Hb. destruct (range_uncommitted c k Hc Hnone) as (l & Hrun & Hof).
  destruct (range_of_head c k (Excluded commit_key) l b) as (l' & -> & Hof'); try done.
  - cbn. apply is_id_below_commit. eapply tree_is_id; [apply (wf_tree c Hc)|by eexists].
  - by exists l'.
Qed.

Lemma replicate_node_run r node np w :
  chain_wf (r_chain r) → contents (c_db (r_chain r)) !! commit_key = None →
  replication_get (l_progress (r_role r)) (n_id node) = Some np →
  node_is_active np = true → is_snapshot np = false →
  is_Some (t_blocks (abs (r_chain r)) !! node_head np) → receiver_alive (rpc_tx w) = true →
  ∃ l, range_of (r_chain r) (Excluded (node_head np)) (Excluded commit_key) l ∧
    Leader.replicate_node r node w =
      (Ret tt, push_msgs [Leader.append_entries_msg r (n_id node) (next_blocks np l)] w).
Proof.
  intros Hc Hnone Hget Hact Hs [b Hb] Hw.
  destruct (blocks_after (r_chain r) (node_head np) b Hc Hnone Hb) as (l & Hrun & Hof).
  exists l. split; [done|]. unfold Leader.replicate_node. rewrite Hget, Hact. cbn [negb].
  destruct np as [p|p|p]; [| |done]; cbn [node_head] in *.
  - unfold Leader.probe_blocks. rewrite Hrun, force_take. cbn [mbind outcome_bind].
    erewrite SM_bind_step by done. rewrite rpc_send_alive by done. by destruct l.
  - unfold Leader.replicate_blocks. rewrite Hrun, force_take. cbn [mbind outcome_bind].
    erewrite SM_bind_step by done. rewrite rpc_send_alive by done. done.
Qed.

(** Until its first commit a leader sends each active follower exactly the
    blocks that follow the last one the follower confirmed, oldest first: one
    block to a follower it probes, up to five to one it replicates to. *)
Theorem replicate_sends_next r node np w :
  chain_wf (r_chain r) → contents (c_db (r_chain r)) !! commit_key = None →
  nodes (r_config r) = [node] →
  replication_get (l_progress (r_role r)) (n_id node) = Some np →
  node_is_active np = true → is_snapshot np = false →
  is_Some (t_blocks (abs (r_chain r)) !! node_head np) → receiver_alive (rpc_tx w) = true →
  ∃ l, range_of (r_chain r) (Excluded (node_head np)) (Excluded commit_key) l ∧
    Leader.replicate r w =
      (Ret tt, push_msgs [Message_new (Peer (r_id r)) (Peer (n_id node))
        (AppendEntries (current_term (r_state r)) (r_id r) (next_blocks np l))] w).
Proof.
  intros Hc Hnone Hn Hget Hact Hs Hb Hw.
  destruct (replicate_node_run r node np w) as (l & Hof & Hrun); try done.
  exists l. split; [done|]. unfold Leader.replicate. rewrite Hn. cbn [for_each].
  by erewrite SM_bind_step by exact Hrun.
Qed.

(** After a commit, the entry of the committed id follows the blocks, and an
    iterator that reaches it panics. *)
Lemma take_panic n (l : list Block) :
  (length l < n)%nat → force (take n (((Ret : Block → outcome Block) <$> l) ++ [Panic])) = Panic.
Proof.
  intros Hn. rewrite take_ge by (rewrite length_app, length_fmap; simpl; lia).
  rewrite force_app, force_Ret. done.
Qed.

Lemma replicate_node_panics r node np w :
  chain_wf (r_chain r) →
  contents (c_db (r_chain r)) !! commit_key = Some (c_commit (r_chain r)) →
  replication_get (l_progress (r_role r)) (n_id node) = Some np →
  node_is_active np = true → is_snapshot np = false → is_id (node_head np) →
  (∀ k, is_Some (t_blocks (abs (r_chain r)) !! k) → be_val k ≤ be_val (node_head np)) →
  Leader.replicate_node r node w = (Panic, w).
Proof.
  intros Hc Hcommit Hget Hact Hs Hid Hnew.
  destruct (range_open (r_chain r) (node_head np) Hc Hid Hcommit) as (l & Hrun & Hsort & Hin).
  assert (length l < 2)%nat as Hlen.
  { destruct l as [|b1 [|b2 l]]; [simpl; lia..|]. exfalso.
    apply StronglySorted_cons in Hsort as [Hlt _]. apply Forall_cons in Hlt as [Hlt _].
    destruct (proj1 (Hin b1) ltac:(set_solver)) as [Hb1 Hr1].
    destruct (proj1 (Hin b2) ltac:(set_solver)) as [Hb2 _].
    apply andb_true_iff in Hr1 as [Hr1 _]. cbn in Hr1.
    assert (is_id (b_id b1)) by (eapply tree_is_id; [apply (wf_tree _ Hc)|by eexists]).
    rewrite is_id_leb in Hr1 by done. pose proof (Hnew (b_id b2) ltac:(by eexists)).
    unfold id_lt in Hlt. lia. }
  unfold Leader.replicate_node. rewrite Hget, Hact. cbn [negb].
  destruct np as [p|p|p]; [| |done]; cbn [node_head] in *.
  - unfold Leader.probe_blocks. rewrite Hrun, take_panic by lia. done.
  - unfold Leader.replicate_blocks. rewrite Hrun, take_panic by (unfold MAX_INFLIGHT; lia). done.
Qed.

Lemma for_each_fails {A} (l : list A) (f : A → M unit) a :
  a ∈ l → (∀ w, is_ret (f a w).1 = false) → ∀ w, is_ret (for_each l f w).1 = false.
Proof.
  intros Ha Hf. induction l as [|x l IH]; [by apply elem_of_nil in Ha|]. intros w. cbn [for_each].
  unfold mbind, SM_bind. apply elem_of_cons in Ha as [<-|Ha].
  - specialize (Hf w). by destruct (f a w) as [[]].
  - destruct (f x w) as [[u|e|] w1]; [by apply IH|done..].
Qed.

(** C37: a leader fails once a follower has caught up.  After any commit, if one
    of the peers that the leader replicates to stands at the newest block, then
    the next tick of the leader does not succeed: its replication reads past the
    newest block into the entry of the committed id, which is no block. *)
Theorem leader_tick_fails r node np w :
  chain_wf (r_chain r) →
  contents (c_db (r_chain r)) !! commit_key = Some (c_commit (r_chain r)) →
  node ∈ nodes (r_config r) →
  replication_get (l_progress (r_role r)) (n_id node) = Some np →
  node_is_active np = true → is_snapshot np = false → is_id (node_head np) →
  (∀ k, is_Some (t_blocks (abs (r_chain r)) !! k) → be_val k ≤ be_val (node_head np)) →
  is_ret (handle_apply (HLeader r) Tick w).1 = false.
Proof.
  intros Hc Hcommit Hn Hget Hact Hs Hid Hnew.
  destruct (handle_apply (HLeader r) Tick w) as [[h'|e|] w'] eqn:Hrun; [|done..]. exfalso.
  simpl in Hrun. unfold Leader.apply_tick in Hrun.
  apply SM_bind_Ret in Hrun as (u1 & w1 & _ & Hrun).
  apply SM_bind_Ret in Hrun as (due & w2 & _ & Hrun).
  apply SM_bind_Ret in Hrun as (r' & w3 & Hr & Hrun).
  apply SM_bind_Ret in Hrun as (u2 & w4 & Hrep & _).
  assert (r_chain r' = r_chain r ∧ r_config r' = r_config r ∧
    l_progress (r_role r') = l_progress (r_role r)) as (Hch & Hcfg & Hp).
  { destruct due; [|by apply mret_Ret in Hr as [-> _]].
    apply SM_bind_Ret in Hr as (u3 & w5 & _ & Hr). unfold Leader.reset_heartbeat_timer in Hr.
    apply SM_bind_Ret in Hr as (now & w6 & _ & Hr). by apply mret_Ret in Hr as [-> _]. }
  pose proof (for_each_fails (nodes (r_config r')) (Leader.replicate_node r') node) as Hfail.
  unfold Leader.replicate in Hrep. rewrite Hcfg in *. specialize (Hfail Hn).
  assert (∀ w, is_ret (Leader.replicate_node r' node w).1 = false) as Hnode.
  { intros w0. by rewrite (replicate_node_panics r' node np) by (rewrite ?Hch, ?Hp; done). }
  specialize (Hfail Hnode w3). by rewrite Hrep in Hfail.
Qed.
End Sending.

(** ** Witnesses *)
Lemma demo_leader_log : leader_log (demo_leader 1 []) demo_world.
Proof.
  split.
  - exact mem_chain_wf.
  - intros k Hk%demo_newest. exact Hk.
  - cbn. lia.
  - cbn. intros i np Hi. apply lookup_insert_Some in Hi as [[_ <-]|[_ Hi]]; [done|].
    by rewrite lookup_empty in Hi.
  - exact (range_of_nil mem_chain (BlockId_new 0)).
Qed.

Definition demo_cmds : list Command :=
  [ClientRequestCmd (demo_request 7 [x2a]); Tick; ClientRequestCmd (demo_request 8 [x2b])].

Lemma leader_applies_committed_witness :
  ∃ r' w', sfold handle_apply (HLeader (demo_leader 1 [])) demo_cmds demo_world =
      (Ret (HLeader r'), w') ∧
    range_of (r_chain r') (Excluded (BlockId_new 0)) (Included (c_commit (r_chain r')))
      (applied_blocks w') ∧ length (applied_blocks w') = 2%nat.
Proof.
  assert (is_ret (sfold handle_apply (HLeader (demo_leader 1 [])) demo_cmds demo_world).1 = true
    ∧ length (applied_blocks (sfold handle_apply (HLeader (demo_leader 1 [])) demo_cmds demo_world).2)
      = 2%nat) as [Hret Hlen] by (split; vm_compute; reflexivity).
  destruct (sfold handle_apply (HLeader (demo_leader 1 [])) demo_cmds demo_world) as [[h'|e|] w']
    eqn:Hrun; [|discriminate Hret..].
  destruct (leader_applies_committed demo_cmds (demo_leader 1 []) demo_world h' w')
    as (r' & -> & _ & Hof); [exact demo_leader_log|repeat constructor|vm_compute; congruence|exact Hrun|].
  exists r', w'. split; [reflexivity|]. split; [exact Hof|exact Hlen].
Defined.

(** The leader of nodes 1 and 2, with block 1 appended, and with it committed
    and confirmed by node 2. *)
Definition demo_np : NodeProgress :=
  ret_or (node_progress_new 2) (node_advance (node_progress_new 2) (BlockId_new 1)).
Definition demo_leader1 : Raft Leader := with_chain mem_chain1 (demo_leader 1 [2]).
Definition demo_leader1c : Raft Leader :=
  with_chain mem_chain1c (with_role {| l_progress := {| progress := {[2 := demo_np]} |};
    heartbeat_time := 0; l_heartbeat_timeout := 0 |} (demo_leader 1 [2])).

Lemma replicate_sends_next_witness :
  ∃ l, range_of mem_chain1 (Excluded (BlockId_new 0)) (Excluded commit_key) l ∧
    Leader.replicate demo_leader1 demo_world =
      (Ret tt, push_msgs [Message_new (Peer 1) (Peer 2) (AppendEntries 0 1 (take 1 l))] demo_world).
Proof.
  apply (replicate_sends_next demo_leader1 {| n_id := 2; n_addr := demo_addr |} (node_progress_new 2)
    demo_world mem_chain1_wf); try reflexivity. exists genesis. reflexivity.
Defined.

Lemma leader_tick_fails_witness : is_ret (handle_apply (HLeader demo_leader1c) Tick demo_world).1 = false.
Proof.
  apply (leader_tick_fails demo_leader1c {| n_id := 2; n_addr := demo_addr |} demo_np demo_world
    mem_chain1c_wf); try reflexivity.
  - apply list_elem_of_singleton. reflexivity.
  - exact is_id_1.
  - intros k Hk. change (be_val (node_head demo_np)) with 1. apply mem_chain1c_newest. exact Hk.
Defined.
