(* ===== verification/FollowerLog.v ===== *)
(** * The follower's side of replication

    What a heartbeat and a batch of blocks do to a follower on a healthy store:
    its vote, term and leader, the requests it forwards, the blocks it applies
    and the answers it sends. *)
From S2P Require Import Prelude Bytes Storage Chain Rpc Election Progress Config Raft.
From S2P Require Leader Candidate Follower.
From S2P Require Import Handle Fsm Server Invariants Demo Replication.
Local Open Scope Z_scope.

Section Follow.
Context {SLED : Sled} {BINC : Bincode Block} {ENV : Env} {BUILD : Build}
  {SLAWS : SledLaws} {BLAWS : BincodeLaws Block} {BMIN : BincodeMin Block 24}.

Lemma set_election_timeout_run r w :
  min_election_timeout (r_state r) < max_election_timeout (r_state r) →
  ∃ r' w', Follower.set_election_timeout r w = (Ret r', w') ∧
    r_id r' = r_id r ∧ r_config r' = r_config r ∧ r_role r' = r_role r ∧ r_chain r' = r_chain r ∧
    current_term (r_state r') = current_term (r_state r) ∧
    voted_for (r_state r') = voted_for (r_state r) ∧
    rpc_tx w' = rpc_tx w ∧ fsm_tx w' = fsm_tx w.
Proof.
  intros Hlt. unfold Follower.set_election_timeout, Follower.get_randomized_timeout, gen_range.
  unfold mbind, SM_bind. rewrite (proj2 (Z.ltb_lt _ _) Hlt). simpl. by do 2 eexists.
Qed.

(** ** Forwarding *)
Definition forward (i l : NodeId) (req : ClientRequest) : Message :=
  Message_new (Peer i) (Peer l) (ClientRequestCmd req).

Lemma flush_one_run l r req w :
  receiver_alive (rpc_tx w) = true →
  Follower.flush_one l r req w =
    (Ret (with_role {| leader_id := leader_id (r_role r);
                       proxied_reqs := {[req_id req]} ∪ proxied_reqs (r_role r);
                       queued_reqs := queued_reqs (r_role r) |} r),
     push_msgs [forward (r_id r) l req] w).
Proof.
  intros Hw. unfold Follower.flush_one, send. by erewrite SM_bind_step by (by apply rpc_send_alive).
Qed.

Lemma flush_run l r w :
  receiver_alive (rpc_tx w) = true →
  ∃ r', Follower.flush_queue l r w =
      (Ret r', push_msgs (forward (r_id r) l <$> queued_reqs (r_role r)) w) ∧
    r_id r' = r_id r ∧ r_config r' = r_config r ∧ r_state r' = r_state r ∧ r_chain r' = r_chain r ∧
    leader_id (r_role r') = leader_id (r_role r) ∧ queued_reqs (r_role r') = [] ∧
    proxied_reqs (r_role r') = list_to_set (req_id <$> queued_reqs (r_role r)) ∪ proxied_reqs (r_role r).
Proof.
  intros Hw. unfold Follower.flush_queue. cbv zeta.
  set (r0 := with_role _ r). generalize (queued_reqs (r_role r)). intros q.
  assert (∀ r0 : Raft Follower, r_id r0 = r_id r → queued_reqs (r_role r0) = [] →
    ∃ r', sfold (Follower.flush_one l) r0 q w = (Ret r', push_msgs (forward (r_id r) l <$> q) w) ∧
      r_id r' = r_id r0 ∧ r_config r' = r_config r0 ∧ r_state r' = r_state r0 ∧
      r_chain r' = r_chain r0 ∧ leader_id (r_role r') = leader_id (r_role r0) ∧
      queued_reqs (r_role r') = [] ∧
      proxied_reqs (r_role r') = list_to_set (req_id <$> q) ∪ proxied_reqs (r_role r0)) as Hloop.
  { clear r0. revert w Hw. induction q as [|req q IH]; intros w Hw r0 Hi Hq.
    - exists r0. rewrite push_msgs_nil. split_and!; try done. set_solver.
    - cbn [sfold]. erewrite SM_bind_step by (by apply flush_one_run).
      destruct (IH (push_msgs [forward (r_id r0) l req] w) Hw
        (with_role {| leader_id := leader_id (r_role r0);
                      proxied_reqs := {[req_id req]} ∪ proxied_reqs (r_role r0);
                      queued_reqs := queued_reqs (r_role r0) |} r0) Hi Hq)
        as (r' & Hrun & H1 & H2 & H3 & H4 & H5 & H6 & H7).
      exists r'. split; [etransitivity; [exact Hrun|]|].
      + cbn [fmap list_fmap]. by rewrite Hi, <-push_msgs_app.
      + split_and!; try done. rewrite H7. cbn. set_solver. }
  destruct (Hloop r0) as (r' & Hrun & Hrest); [done..|]. by exists r'.
Qed.

(** ** Heartbeats *)
Definition stored (c : Chain) (k : BlockId) : bool := bool_decide (is_Some (t_blocks (abs c) !! k)).

Lemma has_stored c k : chain_wf c → k ≠ commit_key → chain_has c k = Ret (stored c k).
Proof.
  intros Hc Hk. unfold chain_has, stored. rewrite db_contains_key_spec. f_equal.
  apply bool_decide_ext. by apply contains_block.
Qed.

(** The blocks a heartbeat applies when it advances the commit to [k]. *)
Lemma follower_commit_run c k w :
  chain_wf c → t_blocks (abs c) !! k ≠ None → k ≠ commit_key → receiver_alive (fsm_tx w) = true →
  ∃ c' bs, chain_commit c k = Ret (k, c') ∧ chain_wf c' ∧ abs c' = tree_commit k (abs c) ∧
    range_of c' (Included (c_commit c)) (Excluded k) bs ∧
    drive (chain_range c' (Included (c_commit c)) (Excluded k)) (λ b, fsm_send_unwrap (Apply b)) w =
      (Ret tt, push_instrs (Apply <$> bs) w).
Proof.
  intros Hc Hs Hk Hw. pose proof (commit_branch c k Hc Hk) as Hbr.
  destruct (t_blocks (abs c) !! k) as [b|] eqn:Hb; [|done].
  destruct Hbr as (c' & Hrun & Hwf & Habs & _ & _).
  assert (is_id k) as Hid by (eapply tree_is_id; [apply (wf_tree c Hc)|by eexists]).
  destruct (range_below_commit (Included (c_commit c)) k Hid) as [Hr _].
  destruct (range_blocks c' _ _ Hwf Hr) as (bs & Hrange & Hof).
  exists c', bs. split_and!; try done. rewrite Hrange. by apply drive_apply.
Qed.

Lemma heartbeat_run r l t k w :
  chain_wf (r_chain r) → k ≠ commit_key →
  receiver_alive (rpc_tx w) = true → receiver_alive (fsm_tx w) = true →
  min_election_timeout (r_state r) < max_election_timeout (r_state r) →
  let c := r_chain r in
  let advance := stored c k && bytes_ltb (c_commit c) k in
  ∃ r' w' bs, Follower.apply_heartbeat r l t k w = (Ret (HFollower r'), w') ∧
    current_term (r_state r') = t ∧ voted_for (r_state r') = Some l ∧
    leader_id (r_role r') = Some l ∧ queued_reqs (r_role r') = [] ∧
    proxied_reqs (r_role r') = list_to_set (req_id <$> queued_reqs (r_role r)) ∪ proxied_reqs (r_role r) ∧
    chain_wf (r_chain r') ∧
    abs (r_chain r') = (if advance then tree_commit k (abs c) else abs c) ∧
    msgs w' = msgs w ++ (forward (r_id r) l <$> queued_reqs (r_role r)) ++
      [Message_new (Peer (r_id r)) (Peer l)
        (HeartbeatResponse (if advance then k else c_commit c) (stored c k))] ∧
    instrs w' = instrs w ++ (Apply <$> bs) ∧
    (if advance then range_of (r_chain r') (Included (c_commit c)) (Excluded k) bs else bs = []).
Proof.
  intros Hc Hk Hrpc Hfsm Hto c advance. unfold Follower.apply_heartbeat.
  destruct (set_election_timeout_run r w Hto)
    as (r1 & w1 & Hrun1 & Hi1 & Hcfg1 & Hrole1 & Hch1 & _ & _ & Hrpc1 & Hfsm1).
  erewrite SM_bind_step by exact Hrun1. erewrite SM_bind_step by done. cbv zeta.
  set (r2 := with_state (set_voted_for (Some l)) _).
  destruct (flush_run l r2 w1) as (r3 & Hrun3 & Hi3 & _ & Hst3 & Hch3 & Hl3 & Hq3 & Hp3);
    [by rewrite Hrpc1|].
  erewrite SM_bind_step by exact Hrun3. cbn in Hi3, Hst3, Hch3, Hl3, Hp3, Hrun3.
  rewrite Hrole1, Hi1 in *. cbn. rewrite Hch3, Hch1, has_stored by done. fold c.
  set (w3 := push_msgs _ w1).
  erewrite SM_bind_step by done. unfold chain_get_commit. fold advance.
  assert (∃ r4 bs, (if advance then
      '(_, chain) ← lift (chain_commit c k);
      _ ← drive (chain_range chain (Included (c_commit c)) (Excluded k))
            (λ block, fsm_send_unwrap (Apply block));
      mret (with_chain chain r3)
    else mret r3) w3 = (Ret r4, push_instrs (Apply <$> bs) w3) ∧
    r_id r4 = r_id r3 ∧ r_state r4 = r_state r3 ∧ r_role r4 = r_role r3 ∧ chain_wf (r_chain r4) ∧
    abs (r_chain r4) = (if advance then tree_commit k (abs c) else abs c) ∧
    (if advance then range_of (r_chain r4) (Included (c_commit c)) (Excluded k) bs else bs = []))
    as (r4 & bs & Hrun4 & Hi4 & Hst4 & Hrole4 & Hwf4 & Habs4 & Hbs).
  { destruct advance eqn:Hadv.
    - apply andb_true_iff in Hadv as [Hs _]. apply bool_decide_eq_true_1 in Hs as [b Hb].
      destruct (follower_commit_run c k w3 Hc) as (c' & bs & Hcm & Hwf & Habs & Hof & Hd);
        [congruence|done|cbn; by rewrite Hfsm1|].
      exists (with_chain c' r3), bs. split_and!; try done. rewrite Hcm.
      erewrite SM_bind_step by done. cbv beta iota. by erewrite SM_bind_step by exact Hd.
    - exists r3, []. rewrite push_instrs_nil, Hch3, Hch1. split_and!; done. }
  erewrite SM_bind_step by exact Hrun4.
  erewrite SM_bind_step by (apply rpc_send_alive; cbn; by rewrite Hrpc1).
  exists r4, (push_msgs [Message_new (Peer (r_id r)) (Peer l)
    (HeartbeatResponse (if advance then k else c_commit c) (stored c k))]
    (push_instrs (Apply <$> bs) w3)), bs.
  assert (c_commit (r_chain r4) = (if advance then k else c_commit c)) as Hcc.
  { apply (f_equal t_commit) in Habs4. cbn in Habs4. rewrite Habs4. by destruct advance. }
  unfold chain_get_commit. rewrite Hi4, Hi3, Hcc, Hst4, Hst3, Hrole4.
  unfold msgs, instrs. cbn. rewrite Hrpc1, Hfsm1, <-app_assoc. split_and!; try done. by rewrite Hi1, Hrole1.
Qed.

(** ** Blocks from the leader *)

(** Blocks that extend a tree one after the other. *)
Fixpoint extends_ok (t : Tree) (bs : list Block) : Prop :=
  match bs with
  | [] => True
  | b :: bs =>
      is_id (b_id b) ∧ is_id (b_next b) ∧ be_val (b_next b) < be_val (b_id b) ∧
      is_Some (t_blocks t !! b_next b) ∧ extends_ok (tree_extend b t) bs
  end.

Lemma extend_run bs c :
  chain_wf c → extends_ok (abs c) bs →
  ∃ c', ofold chain_extend c bs = Ret c' ∧ chain_wf c' ∧
    abs c' = foldl (λ t b, tree_extend b t) (abs c) bs.
Proof.
  revert c. induction bs as [|b bs IH]; intros c Hc Hok; [by exists c|].
  destruct Hok as (Hid & Hnid & Hlt & [p Hp] & Hok).
  pose proof (extend_branch c b Hc Hid Hlt (is_id_not_commit _ Hnid)) as Hbr. rewrite Hp in Hbr.
  destruct Hbr as (c1 & Hrun & Hwf & Habs & _). cbn. rewrite Hrun. cbn. rewrite <-Habs in *.
  by apply IH.
Qed.

Lemma extend_head bs b0 t :
  t_head (foldl (λ t b, tree_extend b t) t (bs ++ [b0])) = b_id b0.
Proof. by rewrite foldl_app. Qed.

(** ** Properties *)

(** C12: a heartbeat, on every branch.  The follower takes the term, the vote and
    the leader of the heartbeat, forwards its queued requests in order and
    empties the queue, and answers with its commit and whether it has the
    leader's.  If it has that block and it is newer than its own commit, it
    commits it and applies the blocks from its previous commit (included) up to
    the new one (excluded), oldest first; otherwise it applies nothing. *)
Theorem heartbeat_spec r l t k w :
  chain_wf (r_chain r) → k ≠ commit_key →
  receiver_alive (rpc_tx w) = true → receiver_alive (fsm_tx w) = true →
  min_election_timeout (r_state r) < max_election_timeout (r_state r) →
  let c := r_chain r in
  let advance := stored c k && bytes_ltb (c_commit c) k in
  ∃ r' w' bs, handle_apply (HFollower r) (Heartbeat t k l) w = (Ret (HFollower r'), w') ∧
    current_term (r_state r') = t ∧ voted_for (r_state r') = Some l ∧
    leader_id (r_role r') = Some l ∧ queued_reqs (r_role r') = [] ∧
    proxied_reqs (r_role r') = list_to_set (req_id <$> queued_reqs (r_role r)) ∪ proxied_reqs (r_role r) ∧
    chain_wf (r_chain r') ∧
    abs (r_chain r') = (if advance then tree_commit k (abs c) else abs c) ∧
    msgs w' = msgs w ++ (forward (r_id r) l <$> queued_reqs (r_role r)) ++
      [Message_new (Peer (r_id r)) (Peer l)
        (HeartbeatResponse (if advance then k else c_commit c) (stored c k))] ∧
    instrs w' = instrs w ++ (Apply <$> bs) ∧
    (if advance then range_of (r_chain r') (Included (c_commit c)) (Excluded k) bs else bs = []).
Proof. apply heartbeat_run. Qed.

(** The follower does not apply the block it commits.  When a heartbeat moves
    the commit of a follower to block [k], every block it hands to its state
    machine is older than [k]: the newest committed block waits for the next
    commit, while the leader applies it at once. *)
Theorem committed_block_not_applied r l t k w :
  chain_wf (r_chain r) → is_id k → stored (r_chain r) k = true →
  bytes_ltb (c_commit (r_chain r)) k = true →
  receiver_alive (rpc_tx w) = true → receiver_alive (fsm_tx w) = true →
  min_election_timeout (r_state r) < max_election_timeout (r_state r) →
  ∃ r' w' bs, handle_apply (HFollower r) (Heartbeat t k l) w = (Ret (HFollower r'), w') ∧
    c_commit (r_chain r') = k ∧ instrs w' = instrs w ++ (Apply <$> bs) ∧
    ∀ b, b ∈ bs → be_val (b_id b) < be_val k.
Proof.
  intros Hc Hk Hs Hlt Hrpc Hfsm Hto.
  destruct (heartbeat_run r l t k w Hc (is_id_not_commit k Hk) Hrpc Hfsm Hto)
    as (r' & w' & bs & Hrun & _ & _ & _ & _ & _ & Hwf & Habs & _ & Hi & Hof).
  rewrite Hs, Hlt in *. cbn in Habs, Hof. exists r', w', bs. split_and!; [done| |done|].
  - by apply (f_equal t_commit) in Habs.
  - intros b [Hb Hr]%(proj2 Hof). apply andb_true_iff in Hr as [_ Hr]. cbn in Hr.
    assert (is_id (b_id b)) by (eapply tree_is_id; [apply (wf_tree _ Hwf)|by eexists]).
    rewrite is_id_ltb in Hr by done. lia.
Qed.

(** Blocks that extend the follower's tree one after the other are all
    stored, in order, and confirmed to the leader with the last of them as the
    new head; a follower that had not voted also takes the leader's term and
    votes for it. *)
Theorem append_entries_stores r bs b l t w :
  chain_wf (r_chain r) → extends_ok (abs (r_chain r)) (bs ++ [b]) →
  voted_for (r_state r) = None → current_term (r_state r) ≤ t → receiver_alive (rpc_tx w) = true →
  ∃ r' w', handle_apply (HFollower r) (AppendEntries t l (bs ++ [b])) w = (Ret (HFollower r'), w') ∧
    chain_wf (r_chain r') ∧
    abs (r_chain r') = foldl (λ t b, tree_extend b t) (abs (r_chain r)) (bs ++ [b]) ∧
    current_term (r_state r') = t ∧ voted_for (r_state r') = Some l ∧
    leader_id (r_role r') = Some l ∧
    msgs w' = msgs w ++ [Message_new (Peer (r_id r)) (Peer l)
      (AppendResponse (r_id r) t (b_id b) true)].
Proof.
  intros Hc Hok Hv Ht Hw. destruct (extend_run (bs ++ [b]) (r_chain r) Hc Hok) as (c' & Hrun & Hwf & Habs).
  assert (c_head c' = b_id b) as Hh by (apply (f_equal t_head) in Habs; by rewrite extend_head in Habs).
  simpl. unfold Follower.apply_append_entries. rewrite Hv.
  rewrite (proj2 (Z.leb_le _ _) Ht).
  erewrite SM_bind_step; [|reflexivity]. cbv beta. cbn [voted_for r_state with_state set_voted_for].
  erewrite SM_bind_step.
  2:{ rewrite Z.eqb_refl. reflexivity. }
  cbv beta. rewrite decide_False by (by destruct bs). cbn [r_chain with_state with_role].
  change (r_chain (Follower.with_leader _ _)) with (r_chain r). rewrite Hrun.
  erewrite SM_bind_step by done. cbv zeta. unfold chain_get_head. cbn [r_chain with_chain]. rewrite Hh.
  erewrite SM_bind_step by (by apply rpc_send_alive). do 2 eexists. split; [reflexivity|].
  by split_and!.
Qed.
End Follow.

(** ** Witnesses *)
Definition demo_follower1 : Raft Follower :=
  with_chain mem_chain1 (with_role {| leader_id := None; proxied_reqs := ∅;
    queued_reqs := [demo_request 7 [x2a]] |} (demo_follower 2 [1])).

Lemma heartbeat_spec_witness :
  ∃ r' w' bs, handle_apply (HFollower demo_follower1) (Heartbeat 1 (BlockId_new 1) 1) demo_world =
      (Ret (HFollower r'), w') ∧
    abs (r_chain r') = tree_commit (BlockId_new 1) (abs mem_chain1) ∧
    range_of (r_chain r') (Included (BlockId_new 0)) (Excluded (BlockId_new 1)) bs.
Proof.
  assert (stored (r_chain demo_follower1) (BlockId_new 1) &&
    bytes_ltb (c_commit (r_chain demo_follower1)) (BlockId_new 1) = true) as Hadv
    by (vm_compute; reflexivity).
  destruct (heartbeat_spec (SLED := demo_sled) (BINC := demo_bincode) (SLAWS := demo_sled_laws)
    demo_follower1 1 1 (BlockId_new 1) demo_world mem_chain1_wf
    (is_id_not_commit _ is_id_1) eq_refl eq_refl ltac:(reflexivity))
    as (r' & w' & bs & H1 & _ & _ & _ & _ & _ & _ & H2 & _ & _ & H3).
  rewrite Hadv in H2, H3. exists r', w', bs. split_and!; done.
Defined.

Lemma committed_block_not_applied_witness :
  ∃ r' w' bs, handle_apply (HFollower demo_follower1) (Heartbeat 1 (BlockId_new 1) 1) demo_world =
      (Ret (HFollower r'), w') ∧
    c_commit (r_chain r') = BlockId_new 1 ∧ instrs w' = Apply <$> bs ∧
    ∀ b, b ∈ bs → be_val (b_id b) < be_val (BlockId_new 1).
Proof.
  apply (committed_block_not_applied demo_follower1 1 1 (BlockId_new 1) demo_world mem_chain1_wf is_id_1);
    vm_compute; reflexivity.
Defined.

Lemma append_entries_stores_witness :
  ∃ r' w', handle_apply (HFollower (demo_follower 2 [1]))
      (AppendEntries 1 1 [mk_block 1 0 [x2a]; mk_block 2 1 [x2b]]) demo_world =
      (Ret (HFollower r'), w') ∧
    msgs w' = [Message_new (Peer 2) (Peer 1) (AppendResponse 2 1 (BlockId_new 2) true)].
Proof.
  destruct (append_entries_stores (demo_follower 2 [1]) [mk_block 1 0 [x2a]] (mk_block 2 1 [x2b]) 1 1
    demo_world mem_chain_wf) as (r' & w' & H1 & _ & _ & _ & _ & _ & H2);
    [|reflexivity|vm_compute; congruence|reflexivity|by exists r', w'].
  assert (is_id (BlockId_new 2)) as H2 by (apply is_id_new; vm_compute; split; congruence).
  cbn [app extends_ok]. split_and!; try done;
    try (exact is_id_1 || exact (proj1 is_id_zero)); try (vm_compute; reflexivity).
Defined.
