(* ===== verification/SingleNode.v ===== *)
(** * A cluster of one

    A leader without peers commits and applies each request at once; its driver
    answers them in order.  The chain, the progress, the leader and the driver
    together, from request to answer. *)
From S2P Require Import Prelude Bytes Storage Chain Rpc Election Progress Config Raft.
From S2P Require Leader Candidate Follower.
From S2P Require Import Handle Fsm Server Invariants Demo Replication FollowerLog.
Local Open Scope Z_scope.

Section Single.
Context {SLED : Sled} {BINC : Bincode Block} {ENV : Env} {BUILD : Build}
  {SLAWS : SledLaws} {BLAWS : BincodeLaws Block} {BMIN : BincodeMin Block 24}.

(** The instructions of a list of requests whose first block gets id [n]. *)
Fixpoint served (n : Z) (head : BlockId) (reqs : list ClientRequest) : list Instruction :=
  match reqs with
  | [] => []
  | q :: reqs =>
      Notify (req_id q) (req_address q) (BlockId_new n) ::
      Apply {| b_id := BlockId_new n; b_next := head; b_data := proposal_get (req_proposal q) |} ::
      served (n + 1) (BlockId_new n) reqs
  end.

(** A chain whose newest block is the commit. *)
Definition settled_chain (c : Chain) : Prop :=
  chain_wf c ∧ c_commit c = c_head c ∧ be_val (c_head c) < gen_id (id_gen c) ∧
  ∀ k, is_Some (t_blocks (abs c) !! k) → be_val k ≤ be_val (c_head c).

(** A leader without peers with nothing uncommitted. *)
Record single_ok (r : Raft Leader) : Prop := {
  so_chain : settled_chain (r_chain r);
  so_progress : ∃ np, progress (l_progress (r_role r)) = {[r_id r := np]} ∧
    is_snapshot np = false ∧ is_id (node_head np) ∧
    be_val (node_head np) ≤ be_val (c_head (r_chain r));
}.

Lemma committed_single p i np :
  progress p = {[i := np]} → is_snapshot np = false → committed_index p = Ret (node_head np).
Proof.
  intros Hp Hs. unfold committed_index. rewrite Hp, map_to_list_singleton.
  rewrite committed_of_spec by (by repeat constructor). done.
Qed.

Lemma advance_single p i np k :
  progress p = {[i := np]} → is_snapshot np = false → bytes_ltb (node_head np) k = true →
  ∃ p' np', replication_advance p i k = Ret p' ∧ progress p' = {[i := np']} ∧
    is_snapshot np' = false ∧ node_head np' = k.
Proof.
  intros Hp Hs Hlt. unfold replication_advance, replication_remove. rewrite Hp.
  rewrite lookup_singleton_eq. cbn [unwrap mbind outcome_bind].
  destruct (node_advance_spec np k Hs) as (np' & -> & Hs' & Hh). rewrite Hlt in Hh.
  cbn [mbind outcome_bind]. eexists _, np'. split_and!; [done| |done..].
  simpl. by rewrite delete_singleton_eq, insert_empty.
Qed.

Lemma elem_only {A} (l : list A) (R : relation A) b :
  Irreflexive R → StronglySorted R l → (∀ x, x ∈ l ↔ x = b) → l = [b].
Proof.
  intros Hirr Hs Hin. destruct l as [|x l]; [by pose proof (proj2 (Hin b) eq_refl) as ?%elem_of_nil|].
  assert (x = b) as -> by (apply Hin; set_solver). f_equal. destruct l as [|y l]; [done|].
  assert (y = b) as -> by (apply Hin; set_solver).
  apply StronglySorted_cons in Hs as [Hx _]. apply Forall_cons in Hx as [Hx _].
  by destruct (Hirr b).
Qed.

(** Appending to it and committing the new block applies that block alone. *)
Lemma append_commit c data :
  let n := gen_id (id_gen c) in
  let b := {| b_id := BlockId_new n; b_next := c_head c; b_data := data |} in
  settled_chain c → n < id_limit →
  ∃ c1 c2 b0, chain_append c {| u_data := data |} = Ret (BlockId_new n, c1) ∧
    c_head c1 = BlockId_new n ∧ c_commit c1 = c_commit c ∧
    bytes_ltb (c_commit c1) (BlockId_new n) = true ∧
    chain_commit c1 (BlockId_new n) = Ret (BlockId_new n, c2) ∧
    chain_range c2 (Included (c_commit c1)) (Included (BlockId_new n)) = Ret <$> [b0; b] ∧
    settled_chain c2 ∧ c_head c2 = BlockId_new n ∧ gen_id (id_gen c2) = n + 1.
Proof.
  intros n b (Hwf & Hcom & Hgen & Hnew) Hlim. pose proof (be_val_range (c_head c)) as Hpos.
  fold n in Hgen. destruct (is_id_new n ltac:(lia)) as [Hid Hval].
  pose proof (append_branch c data Hwf ltac:(fold n; lia)) as Hbr. cbv zeta in Hbr. fold n in Hbr.
  rewrite (proj2 (Z.ltb_lt _ _) Hgen) in Hbr. destruct Hbr as (c1 & Hap & Hwf1 & Habs1 & Hg1).
  assert (c_head c1 = BlockId_new n) as Hh1 by (by apply (f_equal t_head) in Habs1).
  assert (c_commit c1 = c_commit c) as Hc1 by (by apply (f_equal t_commit) in Habs1).
  assert (t_blocks (abs c1) !! BlockId_new n = Some b) as Hb
    by (rewrite Habs1; cbn [tree_append t_blocks]; by rewrite lookup_insert_eq).
  pose proof (commit_branch c1 (BlockId_new n) Hwf1 (is_id_not_commit _ Hid)) as Hcb.
  rewrite Hb in Hcb. destruct Hcb as (c2 & Hcm & Hwf2 & Habs2 & Hg2 & _).
  assert (be_val (c_commit c1) < n) as Hlt by (rewrite Hc1, Hcom; lia).
  destruct (commit_range c1 c2 (BlockId_new n)) as (b0 & l & Hrange & Hs & Hin); try done; [lia|].
  assert (t_blocks (abs c2) = <[BlockId_new n := b]> (t_blocks (abs c))) as Hbs
    by (rewrite Habs2; cbn [tree_commit t_blocks]; by rewrite Habs1).
  assert (c_head c2 = BlockId_new n) as Hh2 by (apply (f_equal t_head) in Habs2; by rewrite <-Hh1).
  assert (l = [b]) as ->.
  { apply (elem_only l id_lt); [intros x; unfold complement, id_lt; lia|done|]. intros x. rewrite Hin, Hbs.
    pose proof (commit_is_id c1 Hwf1) as Hcid. unfold in_range. cbn [above below]. split.
    - intros [Hx Hr]. rewrite lookup_insert in Hx. case_decide; [congruence|].
      apply andb_true_iff in Hr as [Hr _]. exfalso.
      assert (is_id (b_id x)) as Hxid by (eapply tree_is_id; [apply (wf_tree c Hwf)|by eexists]).
      rewrite is_id_ltb in Hr by done. pose proof (Hnew (b_id x) ltac:(by eexists)).
      rewrite Hc1, Hcom in Hr. lia.
    - intros ->. change (b_id b) with (BlockId_new n).
      rewrite lookup_insert_eq, is_id_ltb, is_id_leb, Hval by done.
      split; [done|]. apply andb_true_iff. lia. }
  exists c1, c2, b0. split_and!; try done.
  - rewrite is_id_ltb by (done || by apply commit_is_id). lia.
  - split_and!; [done| | |].
    + apply (f_equal t_commit) in Habs2. rewrite Hh2. exact Habs2.
    + rewrite Hh2, Hval, Hg2. lia.
    + intros k. rewrite Hbs, Hh2, Hval, lookup_insert. case_decide; [subst; lia|].
      intros Hk%Hnew. lia.
  - by rewrite Hg2.
Qed.

(** One request. *)
Lemma single_request r req w :
  let n := gen_id (id_gen (r_chain r)) in
  single_ok r → n < id_limit → receiver_alive (fsm_tx w) = true →
  ∃ r', handle_apply (HLeader r) (ClientRequestCmd req) w =
      (Ret (HLeader r'), push_instrs (served n (c_head (r_chain r)) [req]) w) ∧
    single_ok r' ∧ gen_id (id_gen (r_chain r')) = n + 1 ∧ c_head (r_chain r') = BlockId_new n ∧
    r_config r' = r_config r.
Proof.
  intros n [Hsc (np & Hp & Hs & Hnid & Hnle)] Hlim Hw.
  destruct (append_commit (r_chain r) (proposal_get (req_proposal req)) Hsc Hlim)
    as (c1 & c2 & b0 & Hap & Hh1 & Hc1 & Hlt & Hcm & Hrange & Hsc2 & Hh2 & Hg2). fold n in Hap, Hh1, Hlt, Hcm, Hrange, Hh2, Hg2.
  pose proof (be_val_range (c_head (r_chain r))) as Hpos. destruct Hsc as (_ & _ & Hgen & _).
  fold n in Hgen. destruct (is_id_new n ltac:(lia)) as [Hid Hval].
  destruct (advance_single (l_progress (r_role r)) (r_id r) np (BlockId_new n) Hp Hs)
    as (p' & np' & Hadv & Hp' & Hs' & Hh'); [rewrite is_id_ltb by done; lia|].
  set (r1 := with_role {| l_progress := p'; heartbeat_time := heartbeat_time (r_role r);
    l_heartbeat_timeout := l_heartbeat_timeout (r_role r) |} (with_chain c1 r)).
  assert (∀ w, receiver_alive (fsm_tx w) = true → Leader.commit r1 w =
    (Ret (BlockId_new n, with_chain c2 r1), push_instrs [Apply {| b_id := BlockId_new n;
       b_next := c_head (r_chain r); b_data := proposal_get (req_proposal req) |}] w)) as Hcommit.
  { intros w1 Hw1. unfold Leader.commit, r1. cbn [with_role with_chain r_chain r_role l_progress].
    rewrite (committed_single p' (r_id r) np' Hp' Hs'), Hh'. unfold chain_get_commit.
    erewrite SM_bind_step by done. rewrite Hlt, Hcm. cbv zeta. erewrite SM_bind_step by done.
    cbv beta iota. rewrite Hrange. cbn [fmap list_fmap drive_skip1].
    erewrite (SM_bind_step _ (λ _, mret _)); [reflexivity|]. erewrite SM_bind_step by done.
    by apply (drive_apply [_]). }
  exists (with_chain c2 r1). split.
  - change (handle_apply (HLeader r) (ClientRequestCmd req)) with (Leader.apply_client_request r req).
    unfold Leader.apply_client_request. rewrite Hap.
    erewrite SM_bind_step by done. cbv beta iota zeta.
    erewrite SM_bind_step by (by apply fsm_send_alive).
    unfold chain_get_head. cbn [with_chain r_chain r_role r_id]. rewrite Hh1.
    unfold Leader.apply_append_response. cbn [with_chain r_chain r_role r_id]. rewrite Hadv.
    erewrite SM_bind_step by done. cbv zeta. fold r1.
    erewrite SM_bind_step by (by apply Hcommit). cbv beta iota. by rewrite <-push_instrs_app.
  - cbn. split_and!; [|done..]. split; [done|]. exists np'. split_and!; [done..| |].
    + by rewrite Hh'.
    + cbn. rewrite Hh', Hh2. lia.
Qed.

Lemma single_run reqs r w :
  single_ok r → gen_id (id_gen (r_chain r)) + Z.of_nat (length reqs) ≤ id_limit →
  receiver_alive (fsm_tx w) = true →
  ∃ r', sfold handle_apply (HLeader r) (ClientRequestCmd <$> reqs) w =
      (Ret (HLeader r'),
       push_instrs (served (gen_id (id_gen (r_chain r))) (c_head (r_chain r)) reqs) w) ∧
    single_ok r'.
Proof.
  revert r w. induction reqs as [|q reqs IH]; intros r w Hok Hlim Hw.
  - exists r. split; [|done]. by rewrite push_instrs_nil.
  - cbn [length] in Hlim. destruct (single_request r q w) as (r1 & Hrun & Hok1 & Hg & Hh & _); [done|lia|done|].
    cbn [fmap list_fmap sfold]. erewrite SM_bind_step by exact Hrun.
    destruct (IH r1 (push_instrs (served (gen_id (id_gen (r_chain r))) (c_head (r_chain r)) [q]) w))
      as (r2 & Hrun2 & Hok2); [done|lia|done|].
    exists r2. split; [|done]. rewrite Hrun2, Hg, Hh, <-push_instrs_app. done.
Qed.

(** ** Becoming the leader *)

(** A follower without peers that has not voted and has a chain to continue. *)
Record lone_follower (r : Raft Follower) : Prop := {
  lf_chain : settled_chain (r_chain r);
  lf_nodes : nodes (r_config r) = [];
  lf_vote : voted_for (r_state r) = None;
  lf_term : 0 ≤ current_term (r_state r) < u64_limit - 1;
  lf_timeout : min_election_timeout (r_state r) < max_election_timeout (r_state r);
}.

Lemma lone_elected e i : voter_ids e = [i] → election_status e = Elected.
Proof. intros He. rewrite status_spec. unfold quorum_size. by rewrite He. Qed.

Lemma elect_run (r : Raft Candidate) w :
  nodes (r_config r) = [] → settled_chain (r_chain r) → receiver_alive (rpc_tx w) = true →
  ∃ r' w', Candidate.elect r w = (Ret (HLeader r'), w') ∧
    single_ok r' ∧ r_chain r' = r_chain r ∧ r_config r' = r_config r ∧
    current_term (r_state r') = current_term (r_state r) ∧
    rpc_tx w' = rpc_tx (push_msgs [Message_new (Peer (r_id r)) Peers
      (Heartbeat (current_term (r_state r)) (c_commit (r_chain r)) (r_id r))] w) ∧
    fsm_tx w' = fsm_tx w.
Proof.
  intros Hn Hc Hw. unfold Candidate.elect, Candidate.leader_from_candidate. rewrite Hn.
  set (p := {| progress := {[r_id r := node_progress_new (r_id r)]} |}).
  change (replication_new ((n_id <$> []) ++ [r_id r])) with (Ret p).
  unfold mbind, SM_bind, lift, instant_now. cbn. unfold Leader.heartbeat, send_all.
  rewrite rpc_send_alive by done. cbn. do 2 eexists. split; [done|]. split_and!; try done.
  split; [done|]. exists (node_progress_new (r_id r)). destruct is_id_zero as [Hz Hzv].
  pose proof (be_val_range (c_head (r_chain r))). cbn in *. split_and!; [done..|]. rewrite Hzv. lia.
Qed.

Lemma lone_timeout r w :
  lone_follower r → receiver_alive (rpc_tx w) = true →
  ∃ r' w', handle_apply (HFollower r) Timeout w = (Ret (HLeader r'), w') ∧
    single_ok r' ∧ r_chain r' = r_chain r ∧ r_config r' = r_config r ∧
    current_term (r_state r') = current_term (r_state r) + 1 ∧
    rpc_tx w' = rpc_tx (push_msgs [Message_new (Peer (r_id r)) Peers
      (Heartbeat (current_term (r_state r) + 1) (c_commit (r_chain r)) (r_id r))] w) ∧
    fsm_tx w' = fsm_tx w.
Proof.
  intros [Hc Hn Hv Ht Hto] Hw. simpl. unfold Follower.apply_timeout. rewrite Hv.
  destruct (set_election_timeout_run r w Hto)
    as (r1 & w1 & Hrun & Hi & Hcfg & _ & Hch & Hterm & _ & Hrpc & Hfsm).
  erewrite SM_bind_step by exact Hrun. unfold Candidate.seek_election. cbv zeta.
  set (r2 := with_state _ (Follower.candidate_from_follower r1)).
  change (current_term (r_state r2)) with (current_term (r_state r1)).
  rewrite Hterm, u64_add_small by lia. erewrite SM_bind_step by done.
  set (r3 := with_state (set_current_term _) r2).
  change (r_config r3) with (r_config r1). rewrite Hcfg, Hn. erewrite SM_bind_step by done.
  unfold Candidate.apply_vote_response. cbv zeta. set (r4 := with_role _ r3).
  rewrite (lone_elected _ (r_id r1)) by (cbn; by rewrite Hcfg, Hn).
  destruct (elect_run r4 w1) as (r5 & w2 & Hel & Hok & Hch5 & Hcf5 & Ht5 & Hr5 & Hf5).
  - cbn. by rewrite Hcfg.
  - cbn. by rewrite Hch.
  - by rewrite Hrpc.
  - exists r5, w2. cbn in Hch5, Hcf5, Ht5, Hr5. rewrite Hch, Hi in *. split_and!; try done.
    + by rewrite Hcf5.
    + by rewrite Hr5, Hrpc.
    + by rewrite Hf5.
Qed.
End Single.

(** ** The driver *)
Section Answers.
Context {FSM : Fsm}.

(** The answers of the state machine to a list of inputs, and its final state. *)
Fixpoint fsm_run (f : fsm) (reqs : list ClientRequest) : list (outcome bytes) * fsm :=
  match reqs with
  | [] => ([], f)
  | q :: reqs =>
      let '(res, f) := transition f (proposal_get (req_proposal q)) in
      let '(l, f) := fsm_run f reqs in (res :: l, f)
  end.

Definition answers_of (reqs : list ClientRequest) (res : list (outcome bytes)) : list Message :=
  zip_with (λ q o, response_msg (req_address q) (req_id q) o) reqs res.

Definition panics (o : outcome bytes) : bool := match o with Panic => true | _ => false end.

Lemma driver_serves reqs d n head w :
  0 < n → n + Z.of_nat (length reqs) ≤ id_limit → receiver_alive (rpc_tx w) = true →
  forallb (λ o, negb (panics o)) (fsm_run (d_fsm d) reqs).1 = true →
  ∃ d', driver_run d (served n head reqs) w =
      (Ret d', push_msgs (answers_of reqs (fsm_run (d_fsm d) reqs).1) w) ∧
    d_fsm d' = (fsm_run (d_fsm d) reqs).2.
Proof.
  revert d n head w. induction reqs as [|q reqs IH]; intros d n head w Hn Hlim Hw Hnp.
  { exists d. split; [|done]. by rewrite push_msgs_nil. }
  cbn [length] in Hlim. destruct (is_id_new n ltac:(lia)) as [_ Hval].
  assert (BlockId_new n ≠ BlockId_new 0) as Hne.
  { intros Heq. destruct is_id_zero as [_ Hz]. rewrite <-Heq, Hval in Hz. lia. }
  unfold driver_run. cbn [served sfold]. erewrite SM_bind_step by done.
  cbn [fsm_run] in *. destruct (transition (d_fsm d) (proposal_get (req_proposal q))) as [res f] eqn:Ht.
  set (d1 := {| d_fsm := f; notifications := delete (BlockId_new n)
    (<[BlockId_new n := (req_address q, req_id q)]> (notifications d)) |}).
  destruct (fsm_run f reqs) as [l f'] eqn:Hf. cbn [fst snd forallb] in Hnp.
  apply andb_true_iff in Hnp as [Hres Hnp].
  destruct (IH d1 (n + 1) (BlockId_new n) (push_msgs [response_msg (req_address q) (req_id q) res] w))
    as (d2 & Hrun2 & Hf2); [lia|lia|done|cbn; by rewrite Hf|].
  exists d2. cbn in Hf2, Hrun2. rewrite Hf in Hf2, Hrun2. split; [|done].
  erewrite SM_bind_step; [etransitivity; [exact Hrun2|]|].
  - cbn. by rewrite <-push_msgs_app.
  - cbn [driver_step b_id b_data]. rewrite decide_False by done.
    unfold exec. cbn [d_fsm notifications b_data]. rewrite Ht. cbn [notifications b_id].
    rewrite lookup_insert_eq. destruct res as [v|e|]; [| |done];
      (erewrite SM_bind_step by (by apply rpc_send_alive)); done.
Qed.
End Answers.

(** ** Properties *)
Section Service.
Context {SLED : Sled} {BINC : Bincode Block} {ENV : Env} {BUILD : Build} {FSM : Fsm}
  {SLAWS : SledLaws} {BLAWS : BincodeLaws Block} {BMIN : BincodeMin Block 24}.

(** From start to answer on a single node.  A follower without peers whose
    election times out becomes leader with one heartbeat; every request it is
    then given becomes a block, is committed and applied, and the driver, given
    the instructions the leader sent, answers each request at its address with
    what the state machine returned for it (or with an error), in the order of
    the requests. *)
Theorem single_node_service (reqs : list ClientRequest) r d w :
  lone_follower r → gen_id (id_gen (r_chain r)) + Z.of_nat (length reqs) ≤ id_limit →
  receiver_alive (rpc_tx w) = true → receiver_alive (fsm_tx w) = true →
  forallb (λ o, negb (panics o)) (fsm_run (d_fsm d) reqs).1 = true →
  ∃ r' w1 new d' w2,
    sfold handle_apply (HFollower r) (Timeout :: (ClientRequestCmd <$> reqs)) w =
      (Ret (HLeader r'), w1) ∧
    instrs w1 = instrs w ++ new ∧
    driver_run d new w1 = (Ret d', w2) ∧
    msgs w2 = msgs w ++
      Message_new (Peer (r_id r)) Peers
        (Heartbeat (current_term (r_state r) + 1) (c_commit (r_chain r)) (r_id r)) ::
      answers_of reqs (fsm_run (d_fsm d) reqs).1 ∧
    d_fsm d' = (fsm_run (d_fsm d) reqs).2.
Proof.
  intros Hlone Hlim Hrpc Hfsm Hnp.
  destruct (lone_timeout r w Hlone Hrpc) as (r1 & w1 & Hrun1 & Hok & Hch & _ & _ & Hr1 & Hf1).
  destruct (single_run reqs r1 w1 Hok) as (r2 & Hrun2 & Hok2); [by rewrite Hch|by rewrite Hf1|].
  set (new := served (gen_id (id_gen (r_chain r1))) (c_head (r_chain r1)) reqs) in *.
  destruct Hok as [(_ & _ & Hgen & _) _]. pose proof (be_val_range (c_head (r_chain r1))).
  destruct (driver_serves reqs d (gen_id (id_gen (r_chain r1))) (c_head (r_chain r1))
    (push_instrs new w1)) as (d' & Hd & Hf); [lia|by rewrite Hch|cbn; by rewrite Hr1|done|].
  exists r2, (push_instrs new w1), new, d', (push_msgs (answers_of reqs (fsm_run (d_fsm d) reqs).1)
    (push_instrs new w1)). split_and!; [| |done| |done].
  - cbn [sfold]. by erewrite SM_bind_step by exact Hrun1.
  - unfold instrs. cbn. by rewrite Hf1.
  - unfold msgs. cbn. rewrite Hr1. cbn. by rewrite <-app_assoc.
Qed.
End Service.

(** ** Witnesses *)
Definition demo_reqs : list ClientRequest := [demo_request 7 [x2a]; demo_request 8 [x2b; x2c]].

Lemma demo_lone : lone_follower (demo_follower 1 []).
Proof.
  split; cbn; try done.
  split_and!; [exact mem_chain_wf|done|vm_compute; reflexivity|].
  intros k Hk%demo_newest. exact Hk.
Qed.

Lemma single_node_service_witness :
  ∃ r' w1 new d' w2,
    sfold handle_apply (HFollower (demo_follower 1 [])) (Timeout :: (ClientRequestCmd <$> demo_reqs))
      demo_world = (Ret (HLeader r'), w1) ∧ driver_run (@driver_new demo_fsm []) new w1 = (Ret d', w2) ∧
    d_fsm d' = [[x2a]; [x2b; x2c]] ∧
    tail (msgs w2) =
      [Message_new Local Client (ClientResponseCmd {| res_id := 7; res_res := inl {| response_get := [x2a] |} |});
       Message_new Local Client (ClientResponseCmd {| res_id := 8; res_res := inl {| response_get := [x2b; x2c] |} |})].
Proof.
  destruct (single_node_service demo_reqs (demo_follower 1 []) (@driver_new demo_fsm []) demo_world)
    as (r' & w1 & new & d' & w2 & H1 & _ & H2 & H3 & H4);
    [exact demo_lone|vm_compute; congruence|reflexivity..|].
  exists r', w1, new, d', w2. rewrite H3, H4. split_and!; try done.
Defined.
