(* ===== verification/Roles.v ===== *)
(** * Roles: votes, timers and requests

    The control plane of single nodes: the timing of elections, what becomes of
    votes and of queued requests when roles change, and the ways out of a role. *)
From S2P Require Import Prelude Bytes Storage Chain Rpc Election Progress Config Raft.
From S2P Require Leader Candidate Follower.
From S2P Require Import Handle Fsm Tcp Server Invariants Demo Replication FollowerLog Cluster.
Local Open Scope Z_scope.

Section Timers.
Context {SLED : Sled} {BINC : Bincode Block} {ENV : Env} {BUILD : Build} {ELAWS : EnvLaws}.

Lemma set_election_timeout_timer r w r' w' :
  Follower.set_election_timeout r w = (Ret r', w') →
  election_time (r_state r') = Some (clock (S (asked w))) ∧
  ∃ ms, election_timer (r_state r') = Some (from_millis ms) ∧
    min_election_timeout (r_state r) ≤ ms < max_election_timeout (r_state r).
Proof.
  unfold Follower.set_election_timeout, Follower.get_randomized_timeout, gen_range.
  unfold mbind, SM_bind. destruct (Z.ltb_spec (min_election_timeout (r_state r))
    (max_election_timeout (r_state r))) as [Hlt|]; [|done].
  simpl. intros [= <- <-]. simpl. split; [done|]. eexists. split; [done|]. by apply draw_range.
Qed.

Lemma needs_election_run {T} (r : Raft T) w time timer :
  election_time (r_state r) = Some time → election_timer (r_state r) = Some timer →
  needs_election r w = (Ret (timer <? Z.max 0 (clock (asked w) - time)), ask w).
Proof. intros H1 H2. unfold needs_election. by rewrite H1, H2. Qed.

(** Printing the state of a node, which the tracing of its handlers does, panics
    exactly if the election timeout runs out between the two readings of the
    clock. *)
Theorem debug_panics_exact s w :
  (debug_timeout s w).1 = Panic ↔
  ∃ time timeout, election_time s = Some time ∧ election_timer s = Some timeout ∧
    Z.max 0 (clock (asked w) - time) < timeout < Z.max 0 (clock (S (asked w)) - time).
Proof.
  unfold debug_timeout. destruct (election_time s) as [time|]; [|split; [done|naive_solver]].
  destruct (election_timer s) as [timeout|]; [|split; [done|naive_solver]].
  unfold elapsed, instant_now, mbind, SM_bind. cbn.
  destruct (Z.ltb_spec (Z.max 0 (clock (asked w) - time)) timeout) as [H1|H1]; cbn.
  - destruct (Z.leb_spec (Z.max 0 (clock (S (asked w)) - time)) timeout) as [H2|H2]; cbn.
    + split; [done|]. intros (? & ? & [= <-] & [= <-] & ?). lia.
    + split; [|done]. intros _. by exists time, timeout.
  - split; [done|]. intros (? & ? & [= <-] & [= <-] & ?). lia.
Qed.

(** The window of an election.  After a follower armed its timer, no tick
    within the shortest timeout changes anything; the first tick after the
    longest one does what a timeout does. *)
Theorem election_window r w r' w' w2 :
  0 ≤ min_election_timeout (r_state r) → Follower.set_election_timeout r w = (Ret r', w') →
  let since := clock (asked w2) - clock (S (asked w)) in
  (since ≤ from_millis (min_election_timeout (r_state r)) →
     handle_apply (HFollower r') Tick w2 = (Ret (HFollower r'), ask w2)) ∧
  (from_millis (max_election_timeout (r_state r)) ≤ since →
     handle_apply (HFollower r') Tick w2 = handle_apply (HFollower r') Timeout (ask w2)).
Proof.
  intros Hmin Hset since. apply set_election_timeout_timer in Hset as (Ht & ms & Hto & Hms).
  simpl. unfold Follower.apply_tick.
  erewrite SM_bind_step by (by apply needs_election_run). fold since. unfold from_millis in *.
  split; intros Hs.
  - by rewrite (proj2 (Z.ltb_ge _ _)) by lia.
  - by rewrite (proj2 (Z.ltb_lt _ _)) by lia.
Qed.
End Timers.

Section Control.
Context {SLED : Sled} {BINC : Bincode Block} {ENV : Env} {BUILD : Build}.

(** A node that voted never campaigns again.  Whatever commands it executes,
    a follower that has granted its vote or heard a leader stays a follower with
    a vote: it starts no election, however long the leader is silent. *)
Theorem settled_forever h cmds w h' w' :
  settled h → sfold handle_apply h cmds w = (Ret h', w') → settled h'.
Proof.
  revert h w. induction cmds as [|cmd cmds IH]; intros h w Hs H; cbn [sfold] in H.
  - by apply mret_Ret in H as [-> _].
  - apply SM_bind_Ret in H as (h1 & w1 & H1 & H). apply (IH h1 w1); [|done].
    destruct (handle_step (λ _, True) h cmd ltac:(by destruct h) I ltac:(done) w)
      as (new & _ & _ & Hnext). rewrite H1 in Hnext.
    destruct (Hnext h1 eq_refl) as (_ & _ & Hset & _). auto.
Qed.

(** A leader cannot step down.  Blocks from a leader of a later term make it
    panic, whatever its state. *)
Theorem leader_step_down_panics r t l bs w :
  current_term (r_state r) < t → handle_apply (HLeader r) (AppendEntries t l bs) w = (Panic, w).
Proof.
  intros Ht. simpl. unfold Leader.apply_append_entries. by rewrite (proj2 (Z.ltb_lt _ _) Ht).
Qed.

(** *** Repeated vote requests *)
Definition ballot (i : NodeId) (term : Term) (c : NodeId) (g : bool) : Message :=
  Message_new (Peer i) (Peer c) (VoteResponse term i g).

Lemma vote_refused_run n r c t lt hd w :
  has_voted r → receiver_alive (rpc_tx w) = true →
  sfold handle_apply (HFollower r) (replicate n (VoteRequest t c lt hd)) w =
    (Ret (HFollower r), push_msgs (replicate n (ballot (r_id r) (current_term (r_state r)) c false)) w).
Proof.
  intros Hv. revert w. induction n as [|n IH]; intros w Hw; [by rewrite push_msgs_nil|].
  cbn [replicate sfold].
  assert (handle_apply (HFollower r) (VoteRequest t c lt hd) w = (Ret (HFollower r),
    push_msgs [ballot (r_id r) (current_term (r_state r)) c false] w)) as Hone.
  { simpl. unfold Follower.apply_vote_request, Follower.can_vote.
    rewrite bool_decide_eq_true_2 by done. simpl.
    by erewrite SM_bind_step by (by apply rpc_send_alive). }
  erewrite SM_bind_step by exact Hone. rewrite IH by done. by rewrite <-push_msgs_app.
Qed.

Lemma counted_last e i l g :
  votes (foldl (λ e g, election_vote e i g) e (l ++ [g])) !! i = Some g.
Proof. rewrite foldl_app. simpl. by rewrite lookup_insert_eq. Qed.

(** A repeated vote request revokes the vote.  A candidate broadcasts its
    request once per peer, so a peer receives it as often as the cluster has
    other members: the first copy is granted and the others are refused, and the
    candidate, which counts the answers as they come, ends with a refusal. *)
Theorem repeated_request_revokes r c t lt hd n e w :
  Follower.can_vote r lt hd = true → receiver_alive (rpc_tx w) = true → (0 < n)%nat →
  let i := r_id r in
  let answers := true :: replicate n false in
  (∃ r', sfold handle_apply (HFollower r) (replicate (S n) (VoteRequest t c lt hd)) w =
     (Ret (HFollower r'), push_msgs (ballot i (current_term (r_state r)) c <$> answers) w)) ∧
  votes (foldl (λ e g, election_vote e i g) e answers) !! i = Some false.
Proof.
  intros Hcan Hw Hn i answers. split.
  - exists (with_state (set_voted_for (Some c)) r). cbn [replicate sfold].
    assert (handle_apply (HFollower r) (VoteRequest t c lt hd) w =
      (Ret (HFollower (with_state (set_voted_for (Some c)) r)),
       push_msgs [ballot i (current_term (r_state r)) c true] w)) as Hone.
    { simpl. unfold Follower.apply_vote_request. rewrite Hcan.
      by erewrite SM_bind_step by (by apply rpc_send_alive). }
    erewrite SM_bind_step by exact Hone. rewrite vote_refused_run; [|by eexists|done].
    unfold answers. cbn [fmap list_fmap]. rewrite fmap_replicate. by rewrite <-push_msgs_app.
  - unfold answers. destruct n as [|n]; [lia|].
    replace (true :: replicate (S n) false) with ((true :: replicate n false) ++ [false]).
    + apply counted_last.
    + cbn [app]. by rewrite replicate_S_end.
Qed.

(** *** Queued requests *)
Definition queued (h : RaftHandle) : list ClientRequest :=
  match h with
  | HFollower r => queued_reqs (r_role r)
  | HCandidate r => c_queued_reqs (r_role r)
  | HLeader _ => []
  end.
Definition no_request (m : Message) : Prop :=
  match msg_command m with ClientRequestCmd _ | ClientResponseCmd _ => False | _ => True end.

Lemma elect_drops r :
  does no_request (λ _ h', queued h' = []) (Candidate.elect r).
Proof.
  unfold Candidate.elect, Candidate.leader_from_candidate. cbv zeta.
  eapply (does_bind _ any).
  { apply does_bind_lift. intros p _. does_step n now _. by apply does_lift. }
  intros n raft _. apply does_bind_send; [done|]. by apply does_ret.
Qed.

Lemma seek_election_drops r :
  c_queued_reqs (r_role r) = [] →
  does no_request (λ _ h', queued h' = []) (Candidate.seek_election r).
Proof.
  intros Hq. unfold Candidate.seek_election. cbv zeta. apply does_bind_lift. intros t _.
  eapply (does_bind _ any).
  { apply does_for_each. intros _. eapply does_any. by apply does_rpc_send. }
  intros n u _. unfold Candidate.apply_vote_response. cbv zeta.
  destruct (election_status _); [apply elect_drops|by apply does_ret..].
Qed.

(** An election loses the requests of the clients.  A follower without a
    leader queues them; when its election times out the queue is not carried
    over to the next role, and no request in it is forwarded or answered. *)
Theorem timeout_drops_requests r w h' w' :
  voted_for (r_state r) = None → handle_apply (HFollower r) Timeout w = (Ret h', w') →
  queued h' = [] ∧ ∃ new, msgs w' = msgs w ++ new ∧ Forall no_request new.
Proof.
  intros Hv Hrun.
  assert (does no_request (λ _ h', queued h' = []) (Follower.apply_timeout r)) as Hdoes.
  { unfold Follower.apply_timeout. rewrite Hv. eapply does_bind; [apply set_election_timeout_does|].
    intros n r1 _. by apply seek_election_drops. }
  simpl in Hrun. destruct (Hdoes w) as (new & Hnew & Hno & Hq). rewrite Hrun in Hnew, Hq.
  split; [by apply Hq|by exists new].
Qed.

(** A restart forgets the vote and the term.  Whatever the node stored, a node
    that is started again is a follower of term 0 that has not voted: only the
    chain is persistent, so it may vote twice. *)
Theorem restart_forgets_vote config d w h w' :
  handle_new config d w = (Ret h, w') →
  ∃ r, h = HFollower r ∧ voted_for (r_state r) = None ∧ current_term (r_state r) = 0 ∧
    leader_id (r_role r) = None.
Proof.
  unfold handle_new. destruct (Follower.new config d w) as [[r|e|] w1] eqn:Hnew; [|done..].
  intros [= <- <-]. exists r. split; [done|]. unfold Follower.new in Hnew.
  apply SM_bind_Ret in Hnew as (u & w2 & _ & Hnew).
  apply SM_bind_Ret in Hnew as (c & w3 & _ & Hnew). unfold Follower.init in Hnew.
  unfold Follower.set_election_timeout in Hnew.
  apply SM_bind_Ret in Hnew as (t & w4 & _ & Hnew). cbv zeta in Hnew.
  apply SM_bind_Ret in Hnew as (now & w5 & _ & Hnew). by apply mret_Ret in Hnew as [-> _].
Qed.
End Control.

(** ** Runs of the cluster of three *)

(** Node 2 is asked for block 42 by client 9 after it heard of leader 1: the request
    is forwarded, replicated to node 3, committed, applied and answered. *)
Definition request2 : list Action :=
  [Request 2 {| proposal_get := [x2a] |} 9; RpcOf 2; RpcOf 2; Receive 1 2 2;
   TickOf 1; RpcOf 1; RpcOf 1; RpcOf 1; Receive 3 1 5; RpcOf 3; RpcOf 3; Receive 1 3 1;
   DriverOf 1; DriverOf 1; RpcOf 1; Receive 2 1 6; RpcOf 2].

(** Node 3 is asked while it campaigns; it then learns of leader 1 from two
    heartbeats and forwards the request it had queued. *)
Definition request3 : list Action :=
  [TickOf 3; Request 3 {| proposal_get := [x2a] |} 9] ++ election3 ++
  [TickOf 1; RpcOf 1; RpcOf 1; RpcOf 1; Receive 3 1 3;
   RpcOf 3; RpcOf 3; RpcOf 3; RpcOf 3; Receive 1 3 3;
   TickOf 1; RpcOf 1; RpcOf 1; RpcOf 1; Receive 2 1 7; RpcOf 2; RpcOf 2; Receive 1 2 2;
   DriverOf 1; DriverOf 1; RpcOf 1].
Definition at_node (l : list Action) (x : NodeId) : ServerNode :=
  default demo_node0 (foldl (act cfg3) cluster3 l !! x).

Example forwarded_request_answered :
  answers (sn_loop (at_node (election3 ++ request2) 2)) = [(9%nat, inl {| response_get := [x2a] |})].
Proof. vm_compute. reflexivity. Qed.

(** A request queued by a candidate stops the leader.  The candidate keeps the
    client's address in it, so the leader looks for the client among its own,
    finds the dropped channel of a forwarded request and panics: in a cluster of
    three without any fault, a reachable state has a leader that stopped. *)
Theorem candidate_request_stops_leader :
  ∃ c n, rtc (cluster_step cfg3) cluster3 c ∧ c !! 1 = Some n ∧
    is_leader (raft (sn_loop n)) = true ∧ alive n = false.
Proof.
  exists (foldl (act cfg3) cluster3 request3), (at_node request3 1).
  split; [apply acts_steps|]. split; [|split; vm_compute; reflexivity].
  assert (bool_decide (is_Some (foldl (act cfg3) cluster3 request3 !! 1)) = true)
    as [n Hn]%bool_decide_eq_true_1 by (vm_compute; reflexivity).
  unfold at_node. by rewrite Hn.
Qed.

(** ** Witnesses *)
Definition armed : outcome (Raft Follower) * World :=
  Follower.set_election_timeout (demo_follower 1 [2]) demo_world.

Lemma election_window_witness :
  ∃ r' w', armed = (Ret r', w') ∧
    handle_apply (HFollower r') Tick w' = handle_apply (HFollower r') Timeout (ask w').
Proof.
  assert (armed = (Ret (ret_or (demo_follower 1 [2]) armed.1), armed.2)) as Harmed
    by (apply run_ret; vm_compute; reflexivity).
  eexists _, _. split; [exact Harmed|].
  eapply (election_window (demo_follower 1 [2]) demo_world);
    [vm_compute; congruence|exact Harmed|vm_compute; congruence].
Defined.

Lemma settled_forever_witness :
  settled (HFollower (with_state (set_voted_for (Some 3)) (demo_follower 1 [2; 3]))) ∧
  ∃ h' w', sfold handle_apply (HFollower (with_state (set_voted_for (Some 3)) (demo_follower 1 [2; 3])))
      [Timeout; Timeout; Tick] demo_world = (Ret h', w') ∧ settled h'.
Proof.
  assert (settled (HFollower (with_state (set_voted_for (Some 3)) (demo_follower 1 [2; 3])))) as Hs
    by (exists 3; reflexivity).
  split; [exact Hs|].
  assert (is_ret (sfold handle_apply (HFollower (with_state (set_voted_for (Some 3)) (demo_follower 1 [2; 3])))
      [Timeout; Timeout; Tick] demo_world).1 = true)
    as Hrun%(run_ret (HFollower (demo_follower 1 []))) by (vm_compute; reflexivity).
  eexists _, _. split; [exact Hrun|].
  eapply (settled_forever _ [Timeout; Timeout; Tick] demo_world); [exact Hs|exact Hrun].
Defined.

Lemma leader_step_down_panics_witness :
  handle_apply (HLeader (demo_leader 1 [2])) (AppendEntries 5 2 []) demo_world = (Panic, demo_world).
Proof. apply leader_step_down_panics. vm_compute. reflexivity. Defined.

Lemma repeated_request_revokes_witness :
  votes (foldl (λ e g, election_vote e 2 g) (election_new [1; 2; 3]) [true; false]) !! 2 = Some false.
Proof.
  apply (repeated_request_revokes (demo_follower 2 [1; 3]) 1 1 1 (BlockId_new 0) 1
    (election_new [1; 2; 3]) demo_world); [vm_compute; reflexivity|reflexivity|lia].
Defined.

Definition waiting_follower : Raft Follower :=
  with_role {| leader_id := None; proxied_reqs := ∅; queued_reqs := [demo_request 7 [x2a]] |}
    (demo_follower 1 [2; 3]).

Lemma timeout_drops_requests_witness :
  queued (HFollower waiting_follower) = [demo_request 7 [x2a]] ∧
  ∃ h' w', handle_apply (HFollower waiting_follower) Timeout demo_world = (Ret h', w') ∧
    queued h' = [].
Proof.
  split; [reflexivity|].
  assert (is_ret (handle_apply (HFollower waiting_follower) Timeout demo_world).1 = true)
    as Hrun%(run_ret (HFollower waiting_follower)) by (vm_compute; reflexivity).
  eexists _, _. split; [exact Hrun|].
  eapply (timeout_drops_requests waiting_follower demo_world); [reflexivity|exact Hrun].
Defined.

Lemma restart_forgets_vote_witness :
  ∃ h w' r, handle_new (demo_config 1 [2; 3]) (c_db mem_chain1c) demo_world = (Ret h, w') ∧
    h = HFollower r ∧ voted_for (r_state r) = None.
Proof.
  assert (is_ret (handle_new (demo_config 1 [2; 3]) (c_db mem_chain1c) demo_world).1 = true) as Hret
    by (vm_compute; reflexivity).
  destruct (handle_new (demo_config 1 [2; 3]) (c_db mem_chain1c) demo_world) as [[h|e|] w'] eqn:Hrun;
    [|discriminate Hret..].
  destruct (restart_forgets_vote (demo_config 1 [2; 3]) (c_db mem_chain1c) demo_world h w' Hrun)
    as (r & Hr & Hv & _).
  exists h, w', r. split; [reflexivity|]. split; [exact Hr|exact Hv].
Defined.
