(* ===== verification/StateMachine.v ===== *)
(** * The state machine and the committed chain

    The driver and the leader together: the state of the application is the fold
    of its transition function over the committed blocks, whatever requests,
    notifications and answers went by. *)
From S2P Require Import Prelude Bytes Storage Chain Rpc Election Progress Config Raft.
From S2P Require Import Handle Fsm Server Invariants Demo Replication.
Local Open Scope Z_scope.

Section Machine.
Context {SLED : Sled} {BINC : Bincode Block} {ENV : Env} {BUILD : Build} {FSM : Fsm}
  {SLAWS : SledLaws} {BLAWS : BincodeLaws Block} {BMIN : BincodeMin Block 24}.

(** The state after the transitions of a list of blocks. *)
Definition fsm_fold (f : fsm) (l : list Block) : fsm :=
  foldl (λ f b, (transition f (b_data b)).2) f l.

(** The blocks that make the machine move: all but the genesis block. *)
Definition moves (l : list Instruction) : list Block :=
  filter (λ b, b_id b ≠ BlockId_new 0) (omap applied_block l).

Lemma driver_step_state d i w d' w' :
  driver_step d i w = (Ret d', w') → d_fsm d' = fsm_fold (d_fsm d) (moves [i]).
Proof.
  destruct i as [b|id a k]; cbn [driver_step]; intros H; [|by apply mret_Ret in H as [-> _]].
  unfold moves. cbn [omap list_omap applied_block]. case_decide as Hb.
  - rewrite filter_cons_False by auto. by apply mret_Ret in H as [-> _].
  - rewrite filter_cons_True by done. unfold exec in H. cbn.
    destruct (transition (d_fsm d) (b_data b)) as [res f].
    assert ((match notifications {| d_fsm := f; notifications := notifications d |} !! b_id b with
      | Some (to, id) => _ ← rpc_send (response_msg to id res);
          mret {| d_fsm := f; notifications := delete (b_id b) (notifications d) |}
      | None => mret {| d_fsm := f; notifications := notifications d |} end) w = (Ret d', w') →
      d_fsm d' = f) as Hsend.
    { clear H. cbn. destruct (notifications d !! b_id b) as [[to id]|]; intros H.
      - apply SM_bind_Ret in H as (u & w1 & _ & H). by apply mret_Ret in H as [-> _].
      - by apply mret_Ret in H as [-> _]. }
    destruct res; [by apply Hsend..|done].
Qed.

Lemma moves_app l1 l2 : moves (l1 ++ l2) = moves l1 ++ moves l2.
Proof. unfold moves. by rewrite omap_app, filter_app. Qed.

Lemma driver_run_state l d w d' w' :
  driver_run d l w = (Ret d', w') → d_fsm d' = fsm_fold (d_fsm d) (moves l).
Proof.
  revert d w. induction l as [|i l IH]; intros d w H; unfold driver_run in *; cbn [sfold] in H.
  - by apply mret_Ret in H as [-> _].
  - apply SM_bind_Ret in H as (d1 & w1 & H1 & H). apply IH in H as ->.
    apply driver_step_state in H1 as ->. change (i :: l) with ([i] ++ l).
    rewrite moves_app. unfold fsm_fold. by rewrite foldl_app.
Qed.

(** A range is determined by the tree. *)
Lemma range_of_unique c lo hi l1 l2 : range_of c lo hi l1 → range_of c lo hi l2 → l1 = l2.
Proof.
  intros [Hs1 H1] [Hs2 H2].
  assert (∀ l, StronglySorted id_lt l → NoDup l) as Hnd.
  { intros l Hs. induction Hs as [|b l Hs IH Hb]; constructor; [|done]. intros Hin.
    rewrite Forall_forall in Hb. specialize (Hb b Hin). unfold id_lt in Hb. lia. }
  assert (AntiSymm (=) id_lt) by (intros b1 b2 Hb1 Hb2; unfold id_lt in *; lia).
  apply (StronglySorted_unique id_lt); [done..|].
  apply NoDup_Permutation; [by apply Hnd..|]. intros b. by rewrite H1, H2.
Qed.

(** The state machine follows the committed chain.  A driver that has worked
    through the instructions of a leader holds the state that the committed
    blocks, taken in order after the genesis block, lead to from the initial
    state: two such machines whose nodes committed the same blocks are equal. *)
Theorem state_follows_commit r w f d' w1 w2 l :
  leader_log r w → driver_run (driver_new f) (instrs w) w1 = (Ret d', w2) →
  range_of (r_chain r) (Excluded (BlockId_new 0)) (Included (c_commit (r_chain r))) l →
  d_fsm d' = fsm_fold f l.
Proof.
  intros Hll Hrun Hl. apply driver_run_state in Hrun. cbn in Hrun. rewrite Hrun. f_equal.
  rewrite (range_of_unique _ _ _ _ _ Hl (ll_applied _ _ Hll)). unfold moves.
  apply list_filter_all. intros b [_ Hr]%(proj2 (ll_applied _ _ Hll)) Heq.
  apply andb_true_iff in Hr as [Hr _]. cbn in Hr. by rewrite Heq, bytes_ltb_irrefl in Hr.
Qed.
End Machine.

(** ** Witnesses *)
Definition served : outcome RaftHandle * World :=
  sfold handle_apply (HLeader (demo_leader 1 [])) demo_cmds demo_world.

Lemma served_log : ∃ r', leader_log r' served.2.
Proof.
  assert (is_ret served.1 = true) as Hrun%(run_ret (HLeader (demo_leader 1 [])))
    by (vm_compute; reflexivity).
  destruct (leader_run_log demo_cmds (demo_leader 1 []) demo_world
    (ret_or (HLeader (demo_leader 1 [])) served.1) served.2 demo_leader_log)
    as (r' & _ & Hll); [repeat constructor|vm_compute; congruence|exact Hrun|]. by exists r'.
Qed.

Lemma state_follows_commit_witness :
  ∃ d' w2, driver_run (@driver_new demo_fsm []) (instrs served.2) demo_world = (Ret d', w2) ∧
    d_fsm d' = @fsm_fold demo_fsm [] (applied_blocks served.2) ∧
    length (applied_blocks served.2) = 2%nat.
Proof.
  destruct served_log as [r' Hll].
  assert (is_ret (driver_run (@driver_new demo_fsm []) (instrs served.2) demo_world).1 = true)
    as Hrun%(run_ret (@driver_new demo_fsm [])) by (vm_compute; reflexivity).
  eexists _, _. split; [exact Hrun|]. split; [|vm_compute; reflexivity].
  apply (state_follows_commit r' served.2 (FSM := demo_fsm) [] _ _ _ _ Hll Hrun).
  exact (ll_applied _ _ Hll).
Defined.
