(* ===== verification/Agreement.v ===== *)
(** * Agreement of the nodes on their blocks

    No two nodes ever store, or hand to their state machine, different blocks
    under the same id.  Blocks travel in append messages only, these are sent by
    leaders, there is one leader for the life of the cluster ([Cluster]), and the
    leader never overwrites a block. *)
From S2P Require Import Prelude Bytes Storage Chain Rpc Election Progress Config Raft.
From S2P Require Leader Candidate Follower.
From S2P Require Import Handle Fsm Tcp Server Invariants Demo Cluster.
Local Open Scope Z_scope.

(** ** The store of a chain, whatever was done to it *)
Section Stores.
Context {SLED : Sled} {BINC : Bincode Block}
  {SLAWS : SledLaws} {BLAWS : BincodeLaws Block} {BMIN : BincodeMin Block 24}.

Definition blocks_in (c : Chain) : gmap bytes Block := t_blocks (abs c).

(** Every key is a block's id of eight bytes or that of the commit entry, whose
    value is too short for a block; the head is a stored block. *)
Record store_ok (c : Chain) : Prop := {
  so_keys k v : contents (c_db c) !! k = Some v →
    k = commit_key ∧ (length v < 24)%nat ∨
    length k = 8%nat ∧ ∃ b, deserialize v = Some b ∧ b_id b = k;
  so_head : is_Some (blocks_in c !! c_head c);
}.

Lemma blocks_in_lookup c k : blocks_in c !! k = contents (c_db c) !! k ≫= deserialize.
Proof. apply abs_blocks_lookup. Qed.

Lemma store_ok_block c k b : store_ok c → blocks_in c !! k = Some b → length k = 8%nat ∧ b_id b = k.
Proof.
  intros Hc. rewrite blocks_in_lookup. intros (v & Hv & Hb)%bind_Some.
  destruct (so_keys c Hc k v Hv) as [[-> Hs]|(Hl & b' & Hb' & Hid)].
  - by rewrite bincode_short in Hb.
  - rewrite Hb' in Hb. by injection Hb as <-.
Qed.

Lemma insert_block_inv d b d' :
  insert_block d b = Ret d' →
  ∃ v, deserialize v = Some b ∧ contents d' = <[b_id b := v]> (contents d).
Proof. destruct (insert_block_spec d b) as (d1 & v & -> & Hv & Hc). intros [= <-]. eauto. Qed.

Lemma store_ok_insert c b d gen :
  store_ok c → length (b_id b) = 8%nat → insert_block (c_db c) b = Ret d →
  let c' := {| c_db := d; id_gen := gen; c_commit := c_commit c; c_head := b_id b |} in
  store_ok c' ∧ blocks_in c' = <[b_id b := b]> (blocks_in c).
Proof.
  intros Hc Hl (v & Hv & Hd)%insert_block_inv c'.
  assert (blocks_in c' = <[b_id b := b]> (blocks_in c)) as Hb.
  { unfold blocks_in, abs, c'. simpl. rewrite Hd. by apply omap_insert_Some. }
  split; [|done]. split.
  - simpl. intros k v'. rewrite Hd, lookup_insert. case_decide; [|by apply (so_keys c Hc)].
    intros [= <-]. subst k. right. eauto.
  - rewrite Hb. simpl. by rewrite lookup_insert_eq.
Qed.

Lemma append_stores c data id c' :
  store_ok c → chain_append c {| u_data := data |} = Ret (id, c') →
  store_ok c' ∧ c_head c' = id ∧ bytes_ltb (c_head c) id = true ∧ length id = 8%nat ∧
  ∃ b, b_id b = id ∧ blocks_in c' = <[id := b]> (blocks_in c).
Proof.
  intros Hc. unfold chain_append. cbn [IdGenerator_next]. intros H. inv_run.
  match goal with H : insert_block _ ?b = Ret ?d |- _ =>
    destruct (store_ok_insert c b d (IdGenerator_next (id_gen c)).2 Hc (length_u64_to_be_bytes _) H)
      as [Hok Hb] end.
  split_and!; [exact Hok|done|done|apply length_u64_to_be_bytes|]. eexists. by split; [|exact Hb].
Qed.

Lemma extend_stores c b c' :
  store_ok c → length (b_id b) = 8%nat → chain_extend c b = Ret c' →
  store_ok c' ∧ blocks_in c' = <[b_id b := b]> (blocks_in c).
Proof.
  intros Hc Hl. unfold chain_extend. intros H. inv_run. case_match; inv_run.
  match goal with H : insert_block _ _ = Ret _ |- _ => by apply (store_ok_insert c b) end.
Qed.

(** What a list of received blocks leaves: each key holds what it held or one of
    the blocks. *)
Lemma extends_stores bs c c' :
  store_ok c → Forall (λ b, length (b_id b) = 8%nat) bs → ofold chain_extend c bs = Ret c' →
  store_ok c' ∧
  (∀ k b, blocks_in c' !! k = Some b → blocks_in c !! k = Some b ∨ b ∈ bs) ∧
  (∀ k b, blocks_in c !! k = Some b →
     blocks_in c' !! k = Some b ∨ ∃ b', b' ∈ bs ∧ b_id b' = k ∧ blocks_in c' !! k = Some b').
Proof.
  intros Hc Hbs. revert c Hc. induction Hbs as [|b bs Hb _ IH]; intros c Hc H; cbn [ofold] in H.
  { inv_run. naive_solver. }
  inv_run. destruct (extend_stores c b x Hc Hb ltac:(done)) as [Hx Hbx].
  destruct (IH x Hx H) as (Hok & Hold & Hnew). split; [done|]. split.
  - intros k b' Hk. destruct (Hold k b' Hk) as [Hk'|?]; [|right; set_solver].
    rewrite Hbx, lookup_insert in Hk'. case_decide; [|by left]. injection Hk' as <-. right. set_solver.
  - intros k b' Hk. destruct (decide (b_id b = k)) as [<-|Hne].
    + destruct (Hnew (b_id b) b) as [Hn|(b2 & ? & ? & ?)]; [by rewrite Hbx, lookup_insert_eq| |];
        right; [exists b|exists b2]; set_solver.
    + destruct (Hnew k b') as [Hn|(b2 & ? & ? & ?)]; [by rewrite Hbx, lookup_insert_ne|by left|].
      right. exists b2. set_solver.
Qed.

Lemma commit_stores c k id c' :
  store_ok c → chain_commit c k = Ret (id, c') →
  store_ok c' ∧ blocks_in c' = blocks_in c ∧ c_head c' = c_head c.
Proof.
  intros Hc. unfold chain_commit. rewrite db_contains_key_spec. cbn [unwrap_result mbind outcome_bind].
  case_bool_decide as Hk; [|done]. destruct Hk as [v Hv].
  destruct (db_insert_spec (c_db c) commit_key k) as (d & -> & Hd). intros [= <- <-].
  assert (length k < 24)%nat as Hl.
  { destruct (so_keys c Hc k v Hv) as [[-> _]|[-> _]]; cbn; lia. }
  set (c' := {| c_db := d; id_gen := id_gen c; c_commit := k; c_head := c_head c |}).
  assert (blocks_in c' = blocks_in c) as Hb.
  { apply map_eq. intros k'. rewrite !blocks_in_lookup. simpl. rewrite Hd, lookup_insert.
    case_decide as E; [|done]. subst k'. simpl. rewrite bincode_short by done.
    destruct (contents (c_db c) !! commit_key) as [v'|] eqn:Hv'; [|done]. simpl.
    destruct (so_keys c Hc _ _ Hv') as [[_ Hs]|[Hs _]]; [by rewrite bincode_short|done]. }
  split_and!; [|done|done]. split.
  - simpl. intros k' v'. rewrite Hd, lookup_insert. case_decide; [|by apply (so_keys c Hc)].
    intros [= <-]. subst k'. by left.
  - rewrite Hb. apply (so_head c Hc).
Qed.

(** The iterator of a range yields stored blocks. *)
Lemma range_stores c lo hi b :
  store_ok c → Ret b ∈ chain_range c lo hi → blocks_in c !! b_id b = Some b.
Proof.
  intros Hc. unfold chain_range. rewrite db_range_spec, <-list_fmap_compose.
  intros ([k v] & Hb & [Hk _]%elem_of_entries)%list_elem_of_fmap. simpl in *.
  destruct (deserialize v) as [b'|] eqn:Hv; [|done]. injection Hb as ->.
  rewrite blocks_in_lookup.
  destruct (so_keys c Hc k v Hk) as [[_ Hs]|(_ & b2 & Hb2 & Hid)].
  - by rewrite bincode_short in Hv.
  - rewrite Hv in Hb2. injection Hb2 as <-. by rewrite Hid, Hk.
Qed.

Lemma force_stores c lo hi n l :
  store_ok c → force (take n (chain_range c lo hi)) = Ret l →
  ∀ b, b ∈ l → blocks_in c !! b_id b = Some b.
Proof.
  intros Hc Hl%force_Ret_inv b Hb. apply (range_stores c lo hi); [done|].
  assert (Ret b ∈ take n (chain_range c lo hi)) as Hin.
  { rewrite Hl. by apply list_elem_of_fmap_2. }
  rewrite <-(take_drop n (chain_range c lo hi)), elem_of_app. by left.
Qed.

(** A store opened on an empty directory. *)
Lemma fresh_store d c :
  contents d = ∅ → chain_new d = Ret c →
  store_ok c ∧ blocks_in c = {[BlockId_new 0 := genesis]} ∧ c_head c = BlockId_new 0 ∧
  c_commit c = BlockId_new 0 ∧ gen_id (id_gen c) = 1.
Proof.
  intros Hd Hc. destruct (open_fresh d Hd) as (c' & Hc' & Hwf & Hg & Habs).
  rewrite Hc in Hc'. injection Hc' as <-.
  assert (blocks_in c = {[BlockId_new 0 := genesis]}) as Hb by (by apply (f_equal t_blocks) in Habs).
  assert (c_head c = BlockId_new 0) as Hh by (by apply (f_equal t_head) in Habs).
  split_and!; [|done|done|by apply (f_equal t_commit) in Habs|done]. split.
  - intros k v Hk. destruct (decide (k = commit_key)) as [->|Hne].
    + left. split; [done|]. destruct (wf_commit_entry c Hwf) as [Hv|[Hv _]]; rewrite Hv in Hk; [|done].
      injection Hk as <-. destruct (commit_is_id c Hwf) as [-> _]. lia.
    + right. destruct (wf_decodes c Hwf k v Hk Hne) as [b Hbv].
      destruct (wf_block _ (wf_tree c Hwf) k b) as (? & [? _] & _); [|eauto].
      by rewrite abs_blocks_lookup, Hk.
  - rewrite Hb, Hh. by rewrite lookup_singleton_eq.
Qed.
End Stores.

(** ** Messages and instructions of a computation *)

(** Whatever the outcome, the messages sent satisfy [P]; if it returns [a] after
    the instructions [i], [Q i a] holds. *)
Definition emits {A} (P : Message → Prop) (Q : list Instruction → A → Prop) (m : M A) : Prop :=
  ∀ w, ∃ new ins, msgs (m w).2 = msgs w ++ new ∧ instrs (m w).2 = instrs w ++ ins ∧
    Forall P new ∧ ∀ a, (m w).1 = Ret a → Q ins a.

Create HintDb emits.

Section Emits.
Context {SLED : Sled} {BINC : Bincode Block} {ENV : Env}.
Implicit Types P : Message → Prop.

Lemma emits_ret {A} P (Q : list Instruction → A → Prop) a : Q [] a → emits P Q (mret a).
Proof.
  intros HQ w. exists [], []. rewrite !app_nil_r. split_and!; [done..|]. cbn. by intros ? [= <-].
Qed.

Lemma emits_quiet {A} P (m : M A) :
  (∀ w, msgs (m w).2 = msgs w ∧ instrs (m w).2 = instrs w) → emits P (λ i _, i = []) m.
Proof. intros H w. exists [], []. rewrite !app_nil_r. destruct (H w). by split_and!. Qed.

Lemma emits_bind {A B} P R Q (m : M A) (f : A → M B) :
  emits P R m → (∀ i a, R i a → emits P (λ i', Q (i ++ i')) (f a)) → emits P Q (m ≫= f).
Proof.
  intros Hm Hf w. destruct (Hm w) as (n1 & i1 & H1 & Hi1 & HP1 & HR). unfold mbind, SM_bind.
  destruct (m w) as [[a|e|] w1]; simpl in *; [|by exists n1, i1..].
  destruct (Hf i1 a (HR a eq_refl) w1) as (n2 & i2 & H2 & Hi2 & HP2 & HQ).
  exists (n1 ++ n2), (i1 ++ i2). rewrite H2, H1, Hi2, Hi1, !app_assoc.
  split_and!; [done|done| |done]. by apply Forall_app.
Qed.

Lemma emits_weaken {A} P (Q Q' : list Instruction → A → Prop) m :
  emits P Q m → (∀ i a, Q i a → Q' i a) → emits P Q' m.
Proof. intros Hm HQ w. destruct (Hm w) as (n & i & ? & ? & ? & ?). exists n, i. naive_solver. Qed.

Lemma emits_bind_lift {A B} P Q (o : outcome A) (f : A → M B) :
  (∀ a, o = Ret a → emits P Q (f a)) → emits P Q (lift o ≫= f).
Proof.
  intros Hf. eapply (emits_bind _ (λ i a, i = [] ∧ o = Ret a)); [|by intros i a [-> ?]; apply Hf].
  intros w. exists [], []. rewrite !app_nil_r. by split_and!.
Qed.

Lemma emits_panic {A} P (Q : list Instruction → A → Prop) : emits P Q (lift Panic).
Proof. intros w. exists [], []. by rewrite !app_nil_r. Qed.

(** A step that sends no instruction. *)
Lemma emits_bind_quiet {A B} P Q (m : M A) (f : A → M B) :
  emits P (λ i _, i = []) m → (∀ a, emits P Q (f a)) → emits P Q (m ≫= f).
Proof. intros Hm Hf. eapply emits_bind; [exact Hm|]. intros i a ->. apply Hf. Qed.

Lemma emits_rpc_send P m : P m → emits P (λ i _, i = []) (rpc_send m).
Proof.
  intros Hm w. unfold rpc_send. destruct (receiver_alive (rpc_tx w)).
  - exists [m], []. rewrite app_nil_r. split_and!; [done|done|by constructor|done].
  - exists [], []. by rewrite !app_nil_r.
Qed.

Lemma emits_fsm_send P i : emits P (λ l _, l = [i]) (fsm_send i).
Proof.
  intros w. unfold fsm_send. destruct (receiver_alive (fsm_tx w)).
  - exists [], [i]. by rewrite app_nil_r.
  - exists [], []. by rewrite !app_nil_r.
Qed.

Lemma emits_fsm_send_unwrap P i : emits P (λ l _, l = [i]) (fsm_send_unwrap i).
Proof.
  intros w. unfold fsm_send_unwrap, fsm_send. destruct (receiver_alive (fsm_tx w)).
  - exists [], [i]. by rewrite app_nil_r.
  - exists [], []. by rewrite !app_nil_r.
Qed.

Lemma emits_for_each {A} P (l : list A) (f : A → M unit) :
  (∀ a, a ∈ l → emits P (λ i _, i = []) (f a)) → emits P (λ i _, i = []) (for_each l f).
Proof.
  intros Hf. induction l as [|a l IH]; simpl; [by apply emits_ret|].
  apply emits_bind_quiet; [apply Hf; set_solver|]. intros _. apply IH. intros. apply Hf. set_solver.
Qed.

Lemma emits_sfold {A B} P (I : B → Prop) (f : B → A → M B) l b :
  I b → (∀ b a, I b → emits P (λ i b', i = [] ∧ I b') (f b a)) →
  emits P (λ i b', i = [] ∧ I b') (sfold f b l).
Proof.
  intros Hb Hf. revert b Hb. induction l as [|a l IH]; intros b Hb; simpl; [by apply emits_ret|].
  eapply emits_bind; [by apply Hf|]. intros i b' [-> Hb']. by apply IH.
Qed.

(** Driving an iterator into the state machine hands over its blocks. *)
Lemma emits_drive P l :
  emits P (λ i _, ∀ b, Apply b ∈ i → Ret b ∈ l) (drive l (λ block, fsm_send_unwrap (Apply block))).
Proof.
  unfold drive. induction l as [|o l IH]; cbn [for_each]; [apply emits_ret; set_solver|].
  eapply (emits_bind _ (λ i _, ∀ b, Apply b ∈ i → o = Ret b)).
  - apply emits_bind_lift. intros b ->. eapply emits_weaken; [apply emits_fsm_send_unwrap|].
    intros i _ ->. set_solver.
  - intros i _ Hi. eapply emits_weaken; [exact IH|]. cbn. intros i' _ Hi' b.
    rewrite elem_of_app, elem_of_cons. intros [<-%Hi|?]; auto.
Qed.

Lemma emits_drive_skip1 P l :
  emits P (λ i _, ∀ b, Apply b ∈ i → Ret b ∈ l) (drive_skip1 l (λ block, fsm_send_unwrap (Apply block))).
Proof.
  destruct l as [|o l]; [apply emits_ret; set_solver|]. cbn. apply emits_bind_lift. intros b0 _.
  eapply emits_weaken; [apply emits_drive|]. cbn. intros i _ Hi b ?%Hi. by constructor.
Qed.

Lemma emits_instant_now P : emits P (λ i _, i = []) instant_now.
Proof. by apply emits_quiet. Qed.
Lemma emits_elapsed P t : emits P (λ i _, i = []) (elapsed t).
Proof. by apply emits_quiet. Qed.
Lemma emits_gen_range P lo hi : emits P (λ i _, i = []) (gen_range lo hi).
Proof. apply emits_quiet. intros w. unfold gen_range. by case_match. Qed.
Lemma emits_needs_election {T} P (r : Raft T) : emits P (λ i _, i = []) (needs_election r).
Proof. unfold needs_election. apply emits_quiet. intros w. by repeat case_match. Qed.
End Emits.

#[export] Hint Resolve emits_instant_now emits_elapsed emits_gen_range emits_needs_election : emits.

(** ** What one command does to the blocks of a node *)
Section Node.
Context {SLED : Sled} {BINC : Bincode Block} {ENV : Env} {BUILD : Build}
  {SLAWS : SledLaws} {BLAWS : BincodeLaws Block} {BMIN : BincodeMin Block 24}.

Definition handle_chain (h : RaftHandle) : Chain :=
  match h with HFollower r => r_chain r | HCandidate r => r_chain r | HLeader r => r_chain r end.
Definition handle_blocks (h : RaftHandle) : gmap bytes Block := blocks_in (handle_chain h).

(** The blocks a command or a message carries. *)
Definition cmd_blocks (cmd : Command) : list Block :=
  match cmd with AppendEntries _ _ bs => bs | _ => [] end.

(** A message of [h] carries blocks only if [h] leads and stores them. *)
Definition carries (h : RaftHandle) (m : Message) : Prop :=
  ∀ b, b ∈ cmd_blocks (msg_command m) → is_leader h = true ∧ handle_blocks h !! b_id b = Some b.

(** No block is newer than the head. *)
Definition newest (h : RaftHandle) : Prop :=
  ∀ k, is_Some (handle_blocks h !! k) → bytes_leb k (c_head (handle_chain h)) = true.

(** The blocks after a command: a leader only adds, under a new id; the others
    add blocks that came with the command; a node that starts to lead has added
    nothing; what went to the state machine is stored. *)
Record blocks_next (h : RaftHandle) (cmd : Command) (ins : list Instruction) (h' : RaftHandle) : Prop := {
  bn_ok : store_ok (handle_chain h');
  bn_applied b : Apply b ∈ ins → handle_blocks h' !! b_id b = Some b;
  bn_leads : is_leader h = true → is_leader h' = true;
  bn_leader : is_leader h = true → newest h →
    newest h' ∧ ∀ k b, handle_blocks h !! k = Some b → handle_blocks h' !! k = Some b;
  bn_old k b : is_leader h = false → handle_blocks h' !! k = Some b →
    handle_blocks h !! k = Some b ∨ b ∈ cmd_blocks cmd;
  bn_kept k b : is_leader h = false → handle_blocks h !! k = Some b →
    handle_blocks h' !! k = Some b ∨
    ∃ b', b' ∈ cmd_blocks cmd ∧ b_id b' = k ∧ handle_blocks h' !! k = Some b';
  bn_elected : is_leader h = false → is_leader h' = true → handle_chain h' = handle_chain h;
}.

Lemma blocks_same h cmd h' :
  store_ok (handle_chain h) → (is_leader h = true → is_leader h' = true) →
  handle_chain h' = handle_chain h → blocks_next h cmd [] h'.
Proof.
  intros Hok Hlead E. assert (handle_blocks h' = handle_blocks h) as Eb by (unfold handle_blocks; by rewrite E).
  split; unfold newest; rewrite ?Eb, ?E; try done.
  - by intros b ?%elem_of_nil.
  - by left.
  - by left.
Qed.

(** A computation that keeps the chain and sends no blocks. *)
Definition keeps (h : RaftHandle) (m : M RaftHandle) : Prop :=
  emits (λ msg, cmd_blocks (msg_command msg) = []) (λ i h', i = [] ∧ handle_chain h' = handle_chain h) m.

Lemma keeps_next h cmd m :
  store_ok (handle_chain h) → is_leader h = false → keeps h m →
  emits (carries h) (blocks_next h cmd) m.
Proof.
  intros Hok Hlead Hm w. destruct (Hm w) as (new & ins & Hn & Hi & HP & HQ). exists new, ins.
  split_and!; [done|done| |].
  - eapply Forall_impl; [exact HP|]. intros msg E b. rewrite E. by intros ?%elem_of_nil.
  - intros h' [-> E]%HQ. apply blocks_same; [done|by rewrite Hlead|done].
Qed.

Lemma keeps_ret h h' : handle_chain h' = handle_chain h → keeps h (mret h').
Proof. intros. by apply emits_ret. Qed.

(** ** Followers and candidates *)
Ltac keeps_send := apply emits_bind_quiet; [by apply emits_rpc_send|]; intros [].

Lemma set_election_timeout_emits P r :
  emits P (λ i r', i = [] ∧ r_chain r' = r_chain r) (Follower.set_election_timeout r).
Proof.
  unfold Follower.set_election_timeout, Follower.get_randomized_timeout.
  eapply (emits_bind _ (λ i _, i = [])).
  { apply emits_bind_quiet; [auto with emits|]. intros t. by apply emits_ret. }
  intros i t ->. apply emits_bind_quiet; [auto with emits|]. intros now. by apply emits_ret.
Qed.

Lemma elect_keeps h (r : Raft Candidate) : r_chain r = handle_chain h → keeps h (Candidate.elect r).
Proof.
  intros Hc. unfold keeps, Candidate.elect, Candidate.leader_from_candidate.
  eapply (emits_bind _ (λ i r', i = [] ∧ r_chain r' = handle_chain h)).
  { apply emits_bind_lift. intros p _. apply emits_bind_quiet; [auto with emits|]. intros now.
    intros w. exists [], []. rewrite !app_nil_r. split_and!; [done..|]. cbn. by intros r' [= <-]. }
  intros i r' [-> Hr']. unfold Leader.heartbeat, send_all. keeps_send. by apply emits_ret.
Qed.

Lemma vote_response_keeps h (r : Raft Candidate) g from :
  r_chain r = handle_chain h → keeps h (Candidate.apply_vote_response r g from).
Proof.
  intros Hc. unfold Candidate.apply_vote_response. case_match; first [by apply keeps_ret|by apply elect_keeps].
Qed.

Lemma timeout_keeps h r : r_chain r = handle_chain h → keeps h (Follower.apply_timeout r).
Proof.
  intros Hc. unfold Follower.apply_timeout. case_match; [by apply keeps_ret|].
  eapply emits_bind; [apply set_election_timeout_emits|]. intros i r1 [-> H1].
  unfold Candidate.seek_election. apply emits_bind_lift. intros t _.
  apply emits_bind_quiet.
  { apply emits_for_each. intros node _. by apply emits_rpc_send. }
  intros _. apply vote_response_keeps. cbn. congruence.
Qed.

Lemma raft_term_chain `{Role T} (r r' : Raft T) t : raft_term r t = Ret r' → r_chain r' = r_chain r.
Proof. unfold raft_term. intros (role & _ & [= <-])%bind_Ret. done. Qed.

Lemma candidate_blocks r cmd :
  store_ok (r_chain r) →
  emits (carries (HCandidate r)) (blocks_next (HCandidate r) cmd) (candidate_apply r cmd).
Proof.
  intros Hok. apply keeps_next; [done..|].
  destruct cmd; simpl; try by apply keeps_ret.
  - unfold candidate_apply_tick. apply emits_bind_quiet; [auto with emits|]. intros due.
    destruct due; [|by apply keeps_ret]. case_match; first [by apply timeout_keeps|by apply emits_panic].
  - unfold Candidate.apply_vote_request. case_match.
    + apply emits_bind_lift. intros r' Hr'%raft_term_chain. by apply keeps_ret.
    + keeps_send. by apply keeps_ret.
  - by apply vote_response_keeps.
  - unfold Candidate.apply_append_entries. case_match; by apply keeps_ret.
  - unfold Candidate.apply_heartbeat. apply emits_bind_lift. intros hc _.
    apply emits_bind_lift. intros r' Hr'%raft_term_chain. keeps_send. by apply keeps_ret.
Qed.

Lemma flush_queue_emits P l r :
  (∀ req, P (Message_new (Peer (r_id r)) (Peer l) (ClientRequestCmd req))) →
  emits P (λ i r', i = [] ∧ r_chain r' = r_chain r ∧ r_id r' = r_id r) (Follower.flush_queue l r).
Proof.
  intros HP. unfold Follower.flush_queue.
  apply (emits_sfold _ (λ r', r_chain r' = r_chain r ∧ r_id r' = r_id r)); [done|].
  intros r1 req [Hc Hi]. unfold Follower.flush_one, send. apply emits_bind_quiet.
  { apply emits_rpc_send. by rewrite Hi. }
  intros []. by apply emits_ret.
Qed.

Lemma no_blocks_carries h m : cmd_blocks (msg_command m) = [] → carries h m.
Proof. intros E b. rewrite E. by intros ?%elem_of_nil. Qed.

(** A follower's heartbeat commits and applies stored blocks. *)
Lemma heartbeat_blocks r l t k cmd :
  store_ok (r_chain r) → cmd_blocks cmd = [] →
  emits (carries (HFollower r)) (blocks_next (HFollower r) cmd) (Follower.apply_heartbeat r l t k).
Proof.
  intros Hok Hcmd. unfold Follower.apply_heartbeat.
  eapply emits_bind; [apply set_election_timeout_emits|]. intros i1 r1 [-> H1].
  apply emits_bind_lift. intros r2 H2%raft_term_chain.
  eapply emits_bind; [apply flush_queue_emits; intros; by apply no_blocks_carries|].
  intros i3 r3 (-> & H3 & _). cbn in H3. rewrite H2, H1 in H3.
  apply emits_bind_lift. intros hc _.
  eapply (emits_bind _ (λ i r4, store_ok (r_chain r4) ∧ blocks_in (r_chain r4) = blocks_in (r_chain r) ∧
    ∀ b, Apply b ∈ i → blocks_in (r_chain r) !! b_id b = Some b)).
  { destruct (hc && _); [|apply emits_ret; rewrite H3; set_solver].
    apply emits_bind_lift. intros [k' c'] Hc'. rewrite H3 in Hc'.
    destruct (commit_stores _ _ _ _ Hok Hc') as (Hok' & Hb' & _).
    eapply emits_bind; [apply emits_drive|]. intros i [] Hi. apply emits_ret.
    cbn [with_chain r_chain]. split_and!; [done..|]. intros b. rewrite app_nil_r. intros Hb%Hi.
    rewrite <-Hb'. by eapply range_stores. }
  intros i4 r4 (Hok4 & Hb4 & Hi4).
  apply emits_bind_quiet; [by apply emits_rpc_send, no_blocks_carries|]. intros [].
  apply emits_ret. rewrite app_nil_r.
  split; unfold handle_blocks; cbn [handle_chain]; rewrite ?Hb4; try done; by left.
Qed.

Lemma append_entries_blocks r bs l t :
  store_ok (r_chain r) → Forall (λ b, length (b_id b) = 8%nat) bs →
  emits (carries (HFollower r)) (blocks_next (HFollower r) (AppendEntries t l bs))
    (Follower.apply_append_entries r bs l t).
Proof.
  intros Hok Hbs. unfold Follower.apply_append_entries.
  eapply (emits_bind _ (λ i r1, i = [] ∧ r_chain r1 = r_chain r)).
  { case_match; [by apply emits_ret|]. case_match; [|by apply emits_ret].
    apply emits_bind_lift. intros r1 H1%raft_term_chain.
    apply emits_bind_quiet; [auto with emits|]. intros now. by apply emits_ret. }
  intros i1 r1 [-> H1].
  apply emits_bind_quiet; [apply emits_quiet; intros w; by repeat case_match|]. intros [].
  case_decide as Hbs0; [apply emits_ret, blocks_same; done|].
  apply emits_bind_lift. intros c Hc. rewrite H1 in Hc.
  destruct (extends_stores bs (r_chain r) c Hok Hbs Hc) as (Hok' & Hold & Hnew).
  apply emits_bind_quiet; [by apply emits_rpc_send, no_blocks_carries|]. intros [].
  apply emits_ret. split; unfold handle_blocks; cbn [handle_chain with_chain r_chain]; auto.
  - by intros b ?%elem_of_nil.
  - done.
  - done.
Qed.

Lemma follower_blocks r cmd :
  store_ok (r_chain r) → Forall (λ b, length (b_id b) = 8%nat) (cmd_blocks cmd) →
  emits (carries (HFollower r)) (blocks_next (HFollower r) cmd) (Follower.apply r cmd).
Proof.
  intros Hok Hbs.
  assert (∀ m, keeps (HFollower r) m →
    emits (carries (HFollower r)) (blocks_next (HFollower r) cmd) m) as Hkeep.
  { intros m. by apply keeps_next. }
  destruct cmd; simpl; try (apply Hkeep, keeps_ret; done).
  - apply Hkeep. unfold Follower.apply_tick. apply emits_bind_quiet; [auto with emits|].
    intros []; [by apply timeout_keeps|by apply keeps_ret].
  - apply Hkeep. unfold Follower.apply_vote_request. case_match; keeps_send; by apply keeps_ret.
  - by apply append_entries_blocks.
  - by apply heartbeat_blocks.
  - by apply Hkeep, timeout_keeps.
  - apply Hkeep. unfold Follower.apply_client_request. case_match; [keeps_send|]; by apply keeps_ret.
  - apply Hkeep. unfold Follower.apply_client_response. keeps_send. by apply keeps_ret.
Qed.
(** ** The leader *)
Lemma replicate_carries (r r0 : Raft Leader) :
  store_ok (r_chain r0) → r_chain r = r_chain r0 →
  emits (carries (HLeader r0)) (λ i _, i = []) (Leader.replicate r).
Proof.
  intros Hok Hc. unfold Leader.replicate. apply emits_for_each. intros node _.
  unfold Leader.replicate_node. case_match; [|by apply emits_ret].
  case_match; [by apply emits_ret|].
  assert (∀ bs, (∀ b, b ∈ bs → blocks_in (r_chain r0) !! b_id b = Some b) →
    emits (carries (HLeader r0)) (λ i _, i = [])
      (rpc_send (Leader.append_entries_msg r (n_id node) bs))) as Hsend.
  { intros bs Hbs. apply emits_rpc_send. intros b Hb. split; [done|]. by apply Hbs. }
  case_match; [| |by apply emits_ret]; apply emits_bind_lift; intros bs Hbs; apply Hsend; intros b Hb.
  - unfold Leader.probe_blocks in Hbs. rewrite Hc in Hbs. inv_run.
    eapply force_stores; [done..|]. case_match; [|by apply elem_of_nil in Hb].
    apply list_elem_of_singleton in Hb as ->. by eapply list_elem_of_lookup_2.
  - unfold Leader.replicate_blocks in Hbs. rewrite Hc in Hbs. inv_run.
    eapply force_stores; [done..|]. rewrite <-(take_drop 1), elem_of_app. by right.
Qed.

(** The chain after a commit has the same blocks; what is applied is stored. *)
Definition committed_from (c : Chain) (i : list Instruction) (c' : Chain) : Prop :=
  store_ok c' ∧ blocks_in c' = blocks_in c ∧ c_head c' = c_head c ∧
  ∀ b, Apply b ∈ i → blocks_in c !! b_id b = Some b.

Lemma commit_emits P r :
  store_ok (r_chain r) →
  emits P (λ i x, committed_from (r_chain r) i (r_chain x.2)) (Leader.commit r).
Proof.
  intros Hok. assert (committed_from (r_chain r) [] (r_chain r)) as Hself.
  { split_and!; [done..|]. by intros b ?%elem_of_nil. }
  unfold Leader.commit. apply emits_bind_lift. intros q _. case_match; [|by apply emits_ret].
  apply emits_bind_lift. intros [k c'] Hc'.
  destruct (commit_stores _ _ _ _ Hok Hc') as (Hok' & Hb' & Hh').
  eapply emits_bind; [apply emits_drive_skip1|]. intros i [] Hi. apply emits_ret.
  split_and!; [done..|]. intros b. rewrite app_nil_r. intros Hb%Hi.
  rewrite <-Hb'. by eapply range_stores.
Qed.

Lemma append_response_emits P r i k :
  store_ok (r_chain r) →
  emits P (λ i h', ∃ r', h' = HLeader r' ∧ committed_from (r_chain r) i (r_chain r'))
    (Leader.apply_append_response r i k).
Proof.
  intros Hok. unfold Leader.apply_append_response. apply emits_bind_lift. intros p _.
  eapply emits_bind; [by apply commit_emits|]. intros i' [q r'] H.
  apply emits_ret. rewrite app_nil_r. by exists r'.
Qed.

(** Same blocks and head, stored blocks applied. *)
Lemma leader_same_blocks r cmd i r' :
  committed_from (r_chain r) i (r_chain r') → blocks_next (HLeader r) cmd i (HLeader r').
Proof.
  intros (Hok & Hb & Hh & Hi).
  split; unfold newest, handle_blocks; cbn [handle_chain]; rewrite ?Hb, ?Hh; try done; by left.
Qed.

(** A request appends a block under an id above all others. *)
Lemma request_blocks r req :
  store_ok (r_chain r) →
  emits (carries (HLeader r)) (blocks_next (HLeader r) (ClientRequestCmd req))
    (Leader.apply_client_request r req).
Proof.
  intros Hok. unfold Leader.apply_client_request. apply emits_bind_lift. intros [id c1] Hap.
  destruct (append_stores _ _ _ _ Hok Hap) as (Hok1 & Hh1 & Hlt & Hl & b & Hid & Hb1).
  eapply emits_bind; [apply emits_fsm_send|]. intros i1 [] ->.
  eapply emits_weaken; [by apply append_response_emits|]. cbn [with_chain r_chain].
  intros i h' (r' & -> & Hok' & Hb' & Hh' & Hi).
  split; unfold newest, handle_blocks; cbn [handle_chain]; rewrite ?Hb', ?Hh', ?Hb1, ?Hh1; try done.
  - intros b'. rewrite elem_of_app, list_elem_of_singleton. intros [?|H%Hi]; [done|].
    by rewrite Hb1 in H.
  - intros _ Hnew. split.
    + intros k. rewrite lookup_insert_is_Some. intros [<-|[_ Hk]]; [apply bytes_leb_lt_eq; by right|].
      specialize (Hnew k Hk). change (bytes_le k id). etransitivity; [exact Hnew|].
      apply bytes_leb_lt_eq. by left.
    + intros k b' Hk. rewrite lookup_insert_ne; [done|]. intros <-.
      specialize (Hnew id ltac:(by eexists)). rewrite bytes_leb_ltb in Hnew. by rewrite Hlt in Hnew.
Qed.

Lemma leader_blocks r cmd :
  store_ok (r_chain r) →
  emits (carries (HLeader r)) (blocks_next (HLeader r) cmd) (Leader.apply r cmd).
Proof.
  intros Hok.
  assert (∀ r', r_chain r' = r_chain r →
    emits (carries (HLeader r)) (blocks_next (HLeader r) cmd) (mret (HLeader r'))) as Hself.
  { intros r' E. by apply emits_ret, blocks_same. }
  destruct cmd; simpl; try by apply Hself.
  - unfold Leader.apply_tick. apply emits_bind_quiet.
    { apply emits_quiet. intros w. unfold Leader.write_state. by case_match. }
    intros []. unfold Leader.needs_heartbeat. apply emits_bind_quiet; [by apply emits_quiet|].
    intros due. eapply (emits_bind _ (λ i r', i = [] ∧ r_chain r' = r_chain r)).
    { destruct due; [|by apply emits_ret]. unfold Leader.heartbeat, send_all.
      apply emits_bind_quiet; [by apply emits_rpc_send, no_blocks_carries|]. intros [].
      unfold Leader.reset_heartbeat_timer.
      apply emits_bind_quiet; [auto with emits|]. intros now. by apply emits_ret. }
    intros i r' [-> E]. apply emits_bind_quiet; [by apply replicate_carries|]. intros []. by apply Hself.
  - unfold Leader.apply_append_entries. case_match; [|by apply Hself]. by apply emits_panic.
  - eapply emits_weaken; [by apply append_response_emits|].
    intros i h' (r' & -> & H). by apply leader_same_blocks.
  - unfold Leader.apply_heartbeat_response. apply emits_bind_quiet.
    { case_match; [by apply replicate_carries|by apply emits_ret]. }
    intros []. by apply Hself.
  - by apply request_blocks.
Qed.

(** ** A node that starts to lead says so *)

(** Whenever a computation returns, [Q] holds of the value and the world. *)
Definition ends {A} (Q : A → World → Prop) (m : M A) : Prop :=
  ∀ w a w', m w = (Ret a, w') → Q a w'.

Lemma ends_bind {A B} Q (m : M A) (f : A → M B) : (∀ a, ends Q (f a)) → ends Q (m ≫= f).
Proof. intros Hf w b w' H. apply SM_bind_Ret in H as (a & w1 & _ & H). by eapply Hf. Qed.

Definition shown (h : RaftHandle) (w : World) : Prop :=
  is_leader h = true → ∃ m, m ∈ msgs w ∧ is_Some (leads m).

Lemma ends_ret h : is_leader h = false → ends shown (mret h).
Proof. intros Hl w a w' [-> ->]%mret_Ret. unfold shown. by rewrite Hl. Qed.

Lemma elect_shown r : ends shown (Candidate.elect r).
Proof.
  unfold Candidate.elect. apply ends_bind. intros raft w a w' H.
  apply SM_bind_Ret in H as (u & w1 & H1 & [-> ->]%mret_Ret). intros _.
  unfold Leader.heartbeat, send_all, rpc_send in H1. destruct (receiver_alive (rpc_tx w)); [|done].
  injection H1 as _ <-. eexists. split; [apply elem_of_app; right; by left|]. by eexists.
Qed.

Lemma vote_response_shown r g from : ends shown (Candidate.apply_vote_response r g from).
Proof.
  unfold Candidate.apply_vote_response. case_match; first [apply elect_shown|by apply ends_ret].
Qed.

Lemma timeout_shown r : ends shown (Follower.apply_timeout r).
Proof.
  unfold Follower.apply_timeout. case_match; [by apply ends_ret|].
  apply ends_bind. intros r1. unfold Candidate.seek_election.
  apply ends_bind. intros t. apply ends_bind. intros []. apply vote_response_shown.
Qed.

Lemma elected_shown h cmd : is_leader h = false → ends shown (handle_apply h cmd).
Proof.
  destruct h as [r|r|r]; intros Hl; [| |done]; destruct cmd; cbn [handle_apply Follower.apply candidate_apply];
    first [by apply ends_ret|apply timeout_shown|apply vote_response_shown|idtac].
  - unfold Follower.apply_tick. apply ends_bind. intros []; [apply timeout_shown|by apply ends_ret].
  - unfold Follower.apply_vote_request. case_match; apply ends_bind; intros; by apply ends_ret.
  - unfold Follower.apply_append_entries. apply ends_bind. intros r1. apply ends_bind. intros _.
    case_decide; [by apply ends_ret|]. apply ends_bind. intros c. apply ends_bind. intros []. by apply ends_ret.
  - unfold Follower.apply_heartbeat. do 4 (apply ends_bind; intros ?). apply ends_bind. intros r2.
    apply ends_bind. intros []. by apply ends_ret.
  - unfold Follower.apply_client_request. case_match; [apply ends_bind; intros []|]; by apply ends_ret.
  - unfold Follower.apply_client_response. apply ends_bind. intros []. by apply ends_ret.
  - unfold candidate_apply_tick. apply ends_bind. intros []; [|by apply ends_ret].
    case_match; first [apply timeout_shown|done].
  - unfold Candidate.apply_vote_request. case_match; apply ends_bind; intros; by apply ends_ret.
  - unfold Candidate.apply_append_entries. case_match; by apply ends_ret.
  - unfold Candidate.apply_heartbeat. do 3 (apply ends_bind; intros ?). by apply ends_ret.
Qed.

(** Every command, on every role. *)
Lemma handle_blocks_step h cmd :
  store_ok (handle_chain h) → Forall (λ b, length (b_id b) = 8%nat) (cmd_blocks cmd) →
  emits (carries h) (blocks_next h cmd) (handle_apply h cmd).
Proof.
  intros Hok Hbs. destruct h as [r|r|r].
  - by apply follower_blocks.
  - by apply candidate_blocks.
  - by apply leader_blocks.
Qed.
End Node.

(** ** Events of a node *)
Section Events.
Context {SLED : Sled} {BINC : Bincode Block} {ENV : Env} {BUILD : Build} {SENV : ServerEnv}
  {FSM : Fsm} {SLAWS : SledLaws} {BLAWS : BincodeLaws Block} {BMIN : BincodeMin Block 24}.

(** The blocks an event brings. *)
Definition event_blocks (e : Event) : list Block := from_option cmd_blocks [] (applied e).

Definition event_next (e : Event) (h : RaftHandle) (ins : list Instruction) (s' : EventLoop) : Prop :=
  ∃ cmd, cmd_blocks cmd ⊆ event_blocks e ∧ blocks_next h cmd ins (raft s').

Lemma loop_apply_blocks s0 s e cmd :
  raft s0 = raft s → store_ok (handle_chain (raft s)) → cmd_blocks cmd ⊆ event_blocks e →
  Forall (λ b, length (b_id b) = 8%nat) (event_blocks e) →
  emits (carries (raft s)) (event_next e (raft s)) (loop_apply s0 cmd).
Proof.
  intros Hr Hok Hcmd He. unfold loop_apply. rewrite Hr. eapply emits_bind.
  - apply handle_blocks_step; [done|]. rewrite Forall_forall in *. auto.
  - intros i h Hh. apply emits_ret. rewrite app_nil_r. by exists cmd.
Qed.

Lemma event_blocks_step s e :
  store_ok (handle_chain (raft s)) → Forall (λ b, length (b_id b) = 8%nat) (event_blocks e) →
  emits (carries (raft s)) (event_next e (raft s)) (event_loop_step s e).
Proof.
  intros Hok He.
  assert (∀ s', raft s' = raft s → event_next e (raft s) [] s') as Hsame.
  { intros s' E. exists Tick. rewrite E. split; [apply list_subseteq_nil|]. by apply blocks_same. }
  assert (∀ m, emits (carries (raft s)) (event_next e (raft s)) (tcp_tx_send s m)) as Hsend.
  { intros m. unfold tcp_tx_send. case_match; [by apply emits_ret, Hsame|].
    intros w. exists [], []. by rewrite !app_nil_r. }
  destruct e as [|m|m|p c]; cbn [event_loop_step].
  - apply loop_apply_blocks; [done..|apply list_subseteq_nil|done].
  - assert (∀ s0, raft s0 = raft s →
      emits (carries (raft s)) (event_next (EvTcp m) (raft s)) (loop_apply s0 (msg_command m))) as H
      by (intros; by apply loop_apply_blocks).
    destruct (msg_to m); [|destruct (msg_command m)|..]; by apply H.
  - destruct (msg_to m) eqn:Hto; [apply Hsend..| |].
    + apply loop_apply_blocks; [done..| |done]. unfold event_blocks. cbn.
      by rewrite decide_True by done.
    + intros w. unfold respond. repeat case_match; exists [], [];
        rewrite !app_nil_r; split_and!; try done; cbn; intros s' [= <-]; by apply Hsame.
  - unfold new_uuid. apply emits_bind_quiet; [by apply emits_quiet|]. intros id.
    apply loop_apply_blocks; [done..|apply list_subseteq_nil|done].
Qed.

Lemma event_shown s e :
  is_leader (raft s) = false → ends (λ s' w, shown (raft s') w) (event_loop_step s e).
Proof.
  intros Hl.
  assert (∀ s0 cmd, raft s0 = raft s → ends (λ s' w, shown (raft s') w) (loop_apply s0 cmd)) as Happly.
  { intros s0 cmd Hr w s' w' H. unfold loop_apply in H. rewrite Hr in H.
    apply SM_bind_Ret in H as (h & w1 & H1 & [-> ->]%mret_Ret). by eapply elected_shown. }
  assert (∀ s' w, raft s' = raft s → shown (raft s') w) as Hsame.
  { intros s' w ->. unfold shown. by rewrite Hl. }
  destruct e as [|m|m|p c]; cbn [event_loop_step].
  - by apply Happly.
  - destruct (msg_to m); [|destruct (msg_command m)|..]; by apply Happly.
  - intros w s' w'. unfold tcp_tx_send, respond.
    destruct (msg_to m); [| |by apply Happly|]; intros H; repeat case_match; inv_run; try done;
      by apply Hsame.
  - apply ends_bind. intros id. by apply Happly.
Qed.

(** The driver hands nothing to itself and sends no block. *)
Lemma driver_blocks_step d i :
  emits (λ m, cmd_blocks (msg_command m) = []) (λ ins _, ins = []) (driver_step d i).
Proof.
  destruct i as [b|id a k]; cbn; [|by apply emits_ret].
  case_decide; [by apply emits_ret|]. destruct (exec d b) as [res d'].
  assert (emits (λ m, cmd_blocks (msg_command m) = []) (λ ins _, ins = [])
    match notifications d' !! b_id b with
    | Some (to, id) =>
        _ ← rpc_send (response_msg to id res);
        mret {| d_fsm := d_fsm d'; notifications := delete (b_id b) (notifications d') |}
    | None => mret d'
    end) as Hsend.
  { case_match; [|by apply emits_ret]. case_match. apply emits_bind_quiet; [by apply emits_rpc_send|].
    intros []. by apply emits_ret. }
  destruct res; [done..|]. apply emits_panic.
Qed.
End Events.

(** ** The blocks of a cluster *)
Section Cluster.
Context {SLED : Sled} {BINC : Bincode Block} {ENV : Env} {BUILD : Build} {SENV : ServerEnv}
  {FSM : Fsm} {SLAWS : SledLaws} {BLAWS : BincodeLaws Block} {BMIN : BincodeMin Block 24}.
Variable cfg : NodeId → RaftConfig.
Variable ids : list NodeId.
Hypothesis Hcons : consistent cfg ids.

Abbreviation Cluster := (gmap NodeId ServerNode).

Definition node_blocks (n : ServerNode) : gmap bytes Block := handle_blocks (raft (sn_loop n)).

(** A block that was sent in a message. *)
Definition published (c : Cluster) (b : Block) : Prop :=
  ∃ y n m, c !! y = Some n ∧ m ∈ msgs (sn_world n) ∧ b ∈ cmd_blocks (msg_command m).

(** [n] as part of [c]: it sends the blocks it stores and only as leader; another
    node stores the first block and published ones; every node has the first
    block and those it handed to its state machine. *)
Record node_blocks_ok (c : Cluster) (n : ServerNode) : Prop := {
  nb_ok : store_ok (handle_chain (raft (sn_loop n)));
  nb_sent m : m ∈ msgs (sn_world n) → carries (raft (sn_loop n)) m;
  nb_from k b : is_leader (raft (sn_loop n)) = false → node_blocks n !! k = Some b →
    b = genesis ∨ published c b;
  nb_newest : is_leader (raft (sn_loop n)) = true → newest (raft (sn_loop n));
  nb_genesis : node_blocks n !! BlockId_new 0 = Some genesis;
  nb_led : is_leader (raft (sn_loop n)) = true → ∃ m, m ∈ msgs (sn_world n) ∧ is_Some (leads m);
  nb_applied b : alive n = true → Apply b ∈ instrs (sn_world n) → node_blocks n !! b_id b = Some b;
}.

Definition blocks_inv (c : Cluster) : Prop := ∀ x n, c !! x = Some n → node_blocks_ok c n.

(** Every node starts with an empty database. *)
Definition fresh_start (c : Cluster) : Prop :=
  cluster_start cfg ids c ∧
  ∀ x n, c !! x = Some n → ∃ d f k, contents d = ∅ ∧ server_new (cfg x) d f k = Ret n.

Lemma published_led (c : Cluster) b y n m :
  c !! y = Some n → m ∈ msgs (sn_world n) → b ∈ cmd_blocks (msg_command m) → led n.
Proof.
  intros Hy Hm Hb. left. exists m. split; [done|]. unfold leads, presents.
  destruct (msg_command m); try by apply elem_of_nil in Hb. by eexists.
Qed.

Lemma published_agree c x n b b' :
  cluster_inv cfg ids c → blocks_inv c → c !! x = Some n →
  published c b → node_blocks n !! b_id b = Some b' → b' = b.
Proof.
  intros Hc Hb Hx (y & ny & m & Hy & Hm & Hin) Hst.
  pose proof (published_led c b y ny m Hy Hm Hin) as Hly.
  destruct (nb_sent _ _ (Hb y ny Hy) m Hm b Hin) as [Hlead Hown].
  destruct (is_leader (raft (sn_loop n))) eqn:Hl.
  { assert (x = y) as ->.
    { eapply (leaders_same cfg ids c); try done. left. by apply (nb_led _ _ (Hb x n Hx)). }
    rewrite Hx in Hy. injection Hy as <-. unfold node_blocks in Hst. congruence. }
  destruct (nb_from _ _ (Hb x n Hx) _ _ Hl Hst) as [->|(z & nz & m' & Hz & Hm' & Hin')].
  - destruct (store_ok_block _ _ _ (nb_ok _ _ (Hb x n Hx)) Hst) as [_ Hid].
    pose proof (nb_genesis _ _ (Hb y ny Hy)) as Hg. unfold node_blocks in Hg.
    change (b_id genesis) with (BlockId_new 0) in Hid. rewrite Hid in Hg. congruence.
  - pose proof (published_led c b' z nz m' Hz Hm' Hin') as Hlz.
    assert (z = y) as -> by by eapply (leaders_same cfg ids c).
    rewrite Hz in Hy. injection Hy as <-.
    destruct (nb_sent _ _ (Hb y nz Hz) m' Hm' b' Hin') as [_ Hown'].
    destruct (store_ok_block _ _ _ (nb_ok _ _ (Hb x n Hx)) Hst) as [_ Hid].
    rewrite Hid in Hown'. congruence.
Qed.

Lemma stored_agree c x y nx ny k bx b :
  cluster_inv cfg ids c → blocks_inv c → c !! x = Some nx → c !! y = Some ny →
  node_blocks nx !! k = Some bx → node_blocks ny !! k = Some b → bx = b.
Proof.
  intros Hc Hb Hx Hy Hkx Hky.
  assert (∀ z nz bz w nw bw, c !! z = Some nz → c !! w = Some nw →
    is_leader (raft (sn_loop nz)) = false → node_blocks nz !! k = Some bz →
    node_blocks nw !! k = Some bw → bw = bz) as Hside.
  { intros z nz bz w nw bw Hz Hw Hl Hkz Hkw.
    destruct (store_ok_block _ _ _ (nb_ok _ _ (Hb z nz Hz)) Hkz) as [_ Hid].
    destruct (nb_from _ _ (Hb z nz Hz) _ _ Hl Hkz) as [->|Hpub].
    - pose proof (nb_genesis _ _ (Hb w nw Hw)) as Hg.
      change (b_id genesis) with (BlockId_new 0) in Hid. rewrite Hid in Hg. congruence.
    - eapply published_agree; try done. by rewrite Hid. }
  destruct (is_leader (raft (sn_loop nx))) eqn:Hlx; [|by symmetry; eapply (Hside x nx bx y ny b)].
  destruct (is_leader (raft (sn_loop ny))) eqn:Hly; [|by eapply (Hside y ny b x nx bx)].
  assert (x = y) as ->.
  { eapply (leaders_same cfg ids c); try done; left; [by apply (nb_led _ _ (Hb x nx Hx))|].
    by apply (nb_led _ _ (Hb y ny Hy)). }
  congruence.
Qed.

Lemma published_grow (c : Cluster) x n n' new b :
  c !! x = Some n → msgs (sn_world n') = msgs (sn_world n) ++ new →
  published c b → published (<[x := n']> c) b.
Proof.
  intros Hx Hm (y & ny & m & Hy & Hin & Hb). destruct (decide (y = x)) as [->|Hne].
  - rewrite Hx in Hy. injection Hy as <-. exists x, n', m. rewrite lookup_insert_eq, Hm.
    split_and!; [done| |done]. apply elem_of_app. by left.
  - exists y, ny, m. by rewrite lookup_insert_ne.
Qed.

Lemma node_blocks_grow c c' n :
  (∀ b, published c b → published c' b) → node_blocks_ok c n → node_blocks_ok c' n.
Proof. intros Hp []. split; try done. intros k b Hl Hk. destruct (nb_from0 k b Hl Hk); auto. Qed.

Lemma blocks_replace (c : Cluster) x n n' new :
  blocks_inv c → c !! x = Some n → msgs (sn_world n') = msgs (sn_world n) ++ new →
  node_blocks_ok (<[x := n']> c) n' → blocks_inv (<[x := n']> c).
Proof.
  intros Hb Hx Hm Hn' y ny [[<- <-]|[Hne Hy]]%lookup_insert_Some; [done|].
  eapply node_blocks_grow; [|by eapply Hb]. intros b. by eapply published_grow.
Qed.

(** A node that stops, or whose driver took a step. *)
Lemma node_blocks_same c n n' new :
  node_blocks_ok c n → raft (sn_loop n') = raft (sn_loop n) →
  msgs (sn_world n') = msgs (sn_world n) ++ new → Forall (carries (raft (sn_loop n))) new →
  (alive n' = true → alive n = true ∧ instrs (sn_world n') = instrs (sn_world n)) →
  node_blocks_ok c n'.
Proof.
  intros [] Hr Hm Hnew Hal. unfold node_blocks in *.
  split; unfold node_blocks; rewrite ?Hr; try done.
  - intros m. rewrite Hm. intros [?|Hin]%elem_of_app; [auto|].
    rewrite Forall_forall in Hnew. auto.
  - intros Hl. destruct (nb_led0 Hl) as (m & Hin & Hm'). exists m. split; [|done].
    rewrite Hm. apply elem_of_app. by left.
  - intros b Ha. destruct (Hal Ha) as [? ->]. auto.
Qed.

(** A published block has an id of eight bytes. *)
Lemma published_length c b : blocks_inv c → published c b → length (b_id b) = 8%nat.
Proof.
  intros Hb (y & n & m & Hy & Hm & Hin). destruct (nb_sent _ _ (Hb y n Hy) m Hm b Hin) as [_ Hst].
  by apply (store_ok_block _ _ _ (nb_ok _ _ (Hb y n Hy)) Hst).
Qed.

(** A node that starts to lead: nobody led before, so it has the first block only. *)
Lemma elected_only c x n n' k :
  blocks_inv c → cluster_inv cfg ids (<[x := n']> c) → c !! x = Some n → alive n' = true →
  is_leader (raft (sn_loop n)) = false → is_leader (raft (sn_loop n')) = true →
  is_Some (node_blocks n !! k) → k = BlockId_new 0.
Proof.
  intros Hb Hc' Hx Hal Hl Hl' [b Hk]. pose proof (Hb x n Hx) as Hn.
  assert (∀ b', ¬ published c b') as Hnone.
  { intros b' (y & ny & m & Hy & Hin & Hbm).
    destruct (decide (y = x)) as [->|Hne].
    - rewrite Hx in Hy. injection Hy as <-. destruct (nb_sent _ _ Hn m Hin b' Hbm). congruence.
    - apply Hne. eapply (leaders_same cfg ids (<[x:=n']> c)); [done|done| | | |].
      + by rewrite lookup_insert_ne.
      + by rewrite lookup_insert_eq.
      + by eapply published_led.
      + by right. }
  destruct (nb_from _ _ Hn _ _ Hl Hk) as [->|Hp]; [|by destruct (Hnone b)].
  by destruct (store_ok_block _ _ _ (nb_ok _ _ Hn) Hk) as [_ <-].
Qed.

Lemma elected_newest c x n n' :
  blocks_inv c → cluster_inv cfg ids (<[x := n']> c) → c !! x = Some n → alive n' = true →
  is_leader (raft (sn_loop n)) = false → is_leader (raft (sn_loop n')) = true →
  handle_chain (raft (sn_loop n')) = handle_chain (raft (sn_loop n)) → newest (raft (sn_loop n')).
Proof.
  intros Hb Hc' Hx Hal Hl Hl' Hch k. unfold handle_blocks. rewrite Hch. intros Hk.
  pose proof (elected_only c x n n' _ Hb Hc' Hx Hal Hl Hl' Hk) as ->.
  pose proof (elected_only c x n n' _ Hb Hc' Hx Hal Hl Hl' (so_head _ (nb_ok _ _ (Hb x n Hx)))) as ->.
  apply bytes_leb_lt_eq. by right.
Qed.

(** A published block is never overwritten by another one. *)
Lemma event_keeps c x n e read :
  cluster_inv cfg ids c → blocks_inv c → c !! x = Some n →
  (∀ b, b ∈ event_blocks e → published c b) →
  node_blocks n ⊆ node_blocks (after_event n read (event_loop_step (sn_loop n) e (sn_world n))).
Proof.
  intros Hc Hb Hx He. pose proof (Hb x n Hx) as Hn.
  assert (Forall (λ b, length (b_id b) = 8%nat) (event_blocks e)) as Hlen.
  { apply Forall_forall. intros b Hin. by eapply published_length, He. }
  destruct (event_blocks_step (sn_loop n) e (nb_ok _ _ Hn) Hlen (sn_world n))
    as (new & ins & _ & _ & _ & Hret).
  unfold after_event. destruct (event_loop_step (sn_loop n) e (sn_world n)) as [[s'|er|] w'];
    [|done..]. destruct (Hret s' eq_refl) as (cmd & Hcmd & Hnext).
  apply map_subseteq_spec. intros k b Hk. destruct (is_leader (raft (sn_loop n))) eqn:Hl.
  - apply (proj2 (bn_leader _ _ _ _ Hnext Hl (nb_newest _ _ Hn Hl)) k b Hk).
  - destruct (bn_kept _ _ _ _ Hnext k b Hl Hk) as [?|(b' & Hb' & <- & Hst)]; [done|].
    change (handle_blocks (raft s') !! b_id b' = Some b). rewrite Hst. f_equal. symmetry.
    eapply (published_agree c x n b' b); try done. by apply He, Hcmd.
Qed.

(** An event whose blocks were published. *)
Lemma event_blocks_ok c x n e read :
  cluster_inv cfg ids c → blocks_inv c → c !! x = Some n → alive n = true →
  (∀ b, b ∈ event_blocks e → published c b) →
  let n' := after_event n read (event_loop_step (sn_loop n) e (sn_world n)) in
  cluster_inv cfg ids (<[x := n']> c) → blocks_inv (<[x := n']> c).
Proof.
  intros Hc Hb Hx Hal He n' Hc'. pose proof (Hb x n Hx) as Hn.
  assert (Forall (λ b, length (b_id b) = 8%nat) (event_blocks e)) as Hlen.
  { apply Forall_forall. intros b Hin. by eapply published_length, He. }
  destruct (event_blocks_step (sn_loop n) e (nb_ok _ _ Hn) Hlen (sn_world n))
    as (new & ins & Hm & Hi & Hnew & Hret).
  assert (msgs (sn_world n') = msgs (sn_world n) ++ new) as Hm'.
  { unfold n', after_event. by destruct (event_loop_step _ _ _) as [[]]. }
  eapply blocks_replace; [done..|].
  assert (∀ b, published c b → published (<[x:=n']> c) b) as Hgrow by (intros; by eapply published_grow).
  destruct (event_loop_step (sn_loop n) e (sn_world n)) as [[s'|er|] w'] eqn:Hev;
    [|by eapply node_blocks_same; [by eapply node_blocks_grow|done..]|
      by eapply node_blocks_same; [by eapply node_blocks_grow|done..]].
  destruct (Hret s' eq_refl) as (cmd & Hcmd & [Hok Hap Hleads Hlead Hold Hkept Hel]). clear Hret.
  assert (∀ k b, node_blocks n !! k = Some b → handle_blocks (raft s') !! k = Some b) as Hsame.
  { pose proof (event_keeps c x n e read Hc Hb Hx He) as Hk. rewrite Hev in Hk.
    intros k b Hkb. exact (lookup_weaken _ _ _ _ Hkb Hk). }
  split; unfold node_blocks in *; cbn [n' after_event fst snd sn_loop sn_world] in *.
  - done.
  - intros m. rewrite Hm'. intros Hin b Hbm.
    assert (carries (raft (sn_loop n)) m) as Hcar.
    { apply elem_of_app in Hin as [Hin|Hin]; [by apply (nb_sent _ _ Hn)|].
      rewrite Forall_forall in Hnew. auto. }
    destruct (Hcar b Hbm) as [Hl Hst]. split; [by apply Hleads|by apply Hsame].
  - intros k b Hl Hk. assert (is_leader (raft (sn_loop n)) = false) as Hl0.
    { apply not_true_iff_false. intros H%Hleads. congruence. }
    destruct (Hold k b Hl0 Hk) as [Hk0|Hin]; [|right; by apply Hgrow, He, Hcmd].
    destruct (nb_from _ _ Hn k b Hl0 Hk0); auto.
  - intros Hl. destruct (is_leader (raft (sn_loop n))) eqn:Hl0.
    + by apply Hlead, (nb_newest _ _ Hn).
    + by apply (elected_newest c x n n'); auto.
  - apply Hsame, (nb_genesis _ _ Hn).
  - intros Hl. destruct (is_leader (raft (sn_loop n))) eqn:Hl0.
    + destruct (nb_led _ _ Hn Hl0) as (m & Hin & ?). exists m. split; [|done].
      rewrite Hm'. apply elem_of_app. by left.
    + by eapply (event_shown (sn_loop n) e Hl0).
  - intros b _. rewrite Hi. intros [Hin|Hin]%elem_of_app; [|by apply Hap].
    by apply Hsame, (nb_applied _ _ Hn).
Qed.

Lemma arrives_published c x m b :
  cluster_inv cfg ids c → arrives cfg c x m → b ∈ cmd_blocks (msg_command m) → published c b.
Proof.
  intros [_ Hinv] (y & n & m0 & Hy & Hm0 & _ & _ & ->) Hb.
  exists y, n, m0. split_and!; [done|by apply (Hinv y n Hy)|].
  revert Hb. unfold sign. by case_decide.
Qed.

(** The blocks an event brings in a step of the cluster. *)
Lemma step_event c x n e :
  cluster_inv cfg ids c → c !! x = Some n →
  (∀ m, e = EvTcp m → arrives cfg c x m) → (∀ m, e = EvRpc m → m ∈ msgs (sn_world n)) →
  ∀ b, b ∈ event_blocks e → published c b.
Proof.
  intros Hc Hx Htcp Hrpc b. unfold event_blocks. destruct e as [|m|m|p cl]; cbn.
  - by intros ?%elem_of_nil.
  - intros Hin. eapply arrives_published; [done|by apply Htcp|done].
  - case_decide; [|by intros ?%elem_of_nil]. intros Hin. exists x, n, m. auto.
  - by intros ?%elem_of_nil.
Qed.

(** A step of the cluster is an event or an instruction of one node. *)
Lemma step_cases c c' :
  cluster_step cfg c c' →
  ∃ x n n', c !! x = Some n ∧ alive n = true ∧ c' = <[x := n']> c ∧
    ((∃ e read, n' = after_event n read (event_loop_step (sn_loop n) e (sn_world n)) ∧
       (∀ m, e = EvTcp m → arrives cfg c x m) ∧ (∀ m, e = EvRpc m → m ∈ msgs (sn_world n))) ∨
     ∃ i, instrs (sn_world n) !! fsm_read n = Some i ∧
       n' = after_instruction n (driver_step (sn_driver n) i (sn_world n))).
Proof.
  intros [x n n' Hx Hstep]. exists x, n, n'.
  destruct Hstep as [Hal|m Hal Hm|m Hal Hm|p cl Hal|i Hal Hi]; (split_and!; [done..|]);
    [left|left|left|left|right; by eexists].
  - exists EvTick, (rpc_read n). naive_solver.
  - exists (EvTcp m), (rpc_read n). naive_solver.
  - exists (EvRpc m), (S (rpc_read n)). apply list_elem_of_lookup_2 in Hm. naive_solver.
  - exists (EvClient p cl), (rpc_read n). naive_solver.
Qed.

Lemma blocks_step_inv c c' :
  cluster_inv cfg ids c → blocks_inv c → cluster_step cfg c c' → blocks_inv c'.
Proof.
  intros Hc Hb Hs. pose proof (cluster_step_inv cfg ids c c' Hc Hs) as Hc'.
  apply step_cases in Hs as (x & n & n' & Hx & Hal & -> & [(e & read & -> & Htcp & Hrpc)|(i & _ & ->)]).
  { apply event_blocks_ok; try done. by apply (step_event c x n). }
  destruct (driver_blocks_step (sn_driver n) i (sn_world n)) as (new & ins & Hm & Hins & Hnew & Hret).
  assert (Forall (carries (raft (sn_loop n))) new) as Hcar.
  { eapply Forall_impl; [exact Hnew|]. intros m E b. rewrite E. by intros ?%elem_of_nil. }
  assert (msgs (sn_world (after_instruction n (driver_step (sn_driver n) i (sn_world n))))
    = msgs (sn_world n) ++ new) as Hm'.
  { unfold after_instruction. by destruct (driver_step _ _ _) as [[]]. }
  eapply blocks_replace; [done..|]. eapply node_blocks_same; [| |exact Hm'|exact Hcar|].
  - eapply node_blocks_grow; [|by apply (Hb x)]. intros b. by eapply published_grow.
  - unfold after_instruction. by destruct (driver_step _ _ _) as [[]].
  - unfold after_instruction in *. destruct (driver_step _ _ _) as [[d| |] w']; try done.
    intros _. split; [done|]. cbn in *. by rewrite Hins, (Hret d eq_refl), app_nil_r.
Qed.

Lemma step_keeps c c' y n :
  cluster_inv cfg ids c → blocks_inv c → cluster_step cfg c c' → c !! y = Some n →
  ∃ n', c' !! y = Some n' ∧ node_blocks n ⊆ node_blocks n'.
Proof.
  intros Hc Hb Hs Hy. apply step_cases in Hs as (x & nx & n' & Hx & _ & -> & Hn').
  destruct (decide (y = x)) as [->|Hne]; [|exists n; by rewrite lookup_insert_ne].
  rewrite Hx in Hy. injection Hy as ->. exists n'. rewrite lookup_insert_eq. split; [done|].
  destruct Hn' as [(e & read & -> & Htcp & Hrpc)|(i & _ & ->)].
  - apply (event_keeps c x); try done. by apply (step_event c x n).
  - unfold after_instruction. by destruct (driver_step _ _ _) as [[]].
Qed.

Lemma server_new_blocks x d f k n :
  contents d = ∅ → server_new (cfg x) d f k = Ret n →
  store_ok (handle_chain (raft (sn_loop n))) ∧ node_blocks n = {[BlockId_new 0 := genesis]} ∧
  is_leader (raft (sn_loop n)) = false ∧ msgs (sn_world n) = [] ∧ instrs (sn_world n) = [] ∧
  c_commit (handle_chain (raft (sn_loop n))) = BlockId_new 0 ∧
  gen_id (id_gen (handle_chain (raft (sn_loop n)))) = 1.
Proof.
  intros Hd. unfold server_new. set (w := Build_World _ _ _ _).
  destruct (handle_new (cfg x) d w) as [o w'] eqn:Hnew. intros (h & -> & [= <-])%bind_Ret.
  unfold handle_new in Hnew. destruct (Follower.new (cfg x) d w) as [[r|er|] w1] eqn:Hr;
    injection Hnew as ? <-; try done. subst h.
  unfold Follower.new in Hr. apply SM_bind_Ret in Hr as ([] & w2 & [_ ->]%lift_Ret & Hr).
  apply SM_bind_Ret in Hr as (ch & w2 & [Hch ->]%lift_Ret & Hr). unfold Follower.init in Hr.
  destruct (fresh_store d ch Hd Hch) as (Hok & Hbl & _ & Hcm & Hgen).
  match type of Hr with Follower.set_election_timeout ?r0 _ = _ =>
    destruct (set_election_timeout_does (λ _, True) r0 w) as (nw & Hnw & _ & Hq);
    destruct (set_election_timeout_emits (λ _, True) r0 w) as (_ & ins & _ & Hins & _ & Hq') end.
  rewrite Hr in Hnw, Hq, Hins, Hq'. destruct (Hq r eq_refl) as (-> & _ & _ & Hrc & _).
  cbn in Hrc, Hnw. destruct (Hq' r eq_refl) as [-> _]. cbn in Hins.
  unfold node_blocks, handle_blocks. cbn. by rewrite Hrc.
Qed.

Lemma start_blocks c : fresh_start c → blocks_inv c.
Proof.
  intros [_ Hc] x n Hx. destruct (Hc x n Hx) as (d & f & k & Hd & Hn).
  destruct (server_new_blocks x d f k n Hd Hn) as (Hok & Hb & Hl & Hm & Hi & _).
  split; rewrite ?Hb, ?Hm, ?Hi, ?Hl; try done; try by intros ? ?%elem_of_nil.
  - intros k' b _. rewrite lookup_singleton_Some. intros [_ <-]. by left.
  - by intros ? _ ?%elem_of_nil.
Qed.

Lemma reachable_blocks c0 c :
  fresh_start c0 → rtc (cluster_step cfg) c0 c → cluster_inv cfg ids c ∧ blocks_inv c.
Proof.
  intros H0 Hr. pose proof (start_blocks c0 H0) as Hb.
  pose proof (start_inv cfg ids c0 (proj1 H0)) as Hc. clear H0.
  induction Hr as [c|c c' c'' Hs Hr IH]; [done|].
  apply IH; [by eapply blocks_step_inv|by eapply cluster_step_inv].
Qed.

(** State machine safety. In any run of a cluster that starts with empty
    databases and whose nodes all know the same members, with messages delayed,
    reordered, repeated and lost at will and nodes failing at any point, two
    nodes, running or failed (then before the event in which it failed), never store different blocks under one id, and two
    running nodes never hand different blocks of one id to their state machines;
    what a node handed over it still stores. *)
Theorem blocks_agree c0 c x y nx ny :
  fresh_start c0 → rtc (cluster_step cfg) c0 c → c !! x = Some nx → c !! y = Some ny →
  (∀ k bx b, node_blocks nx !! k = Some bx → node_blocks ny !! k = Some b → bx = b) ∧
  (alive nx = true → alive ny = true → ∀ bx b, Apply bx ∈ instrs (sn_world nx) → Apply b ∈ instrs (sn_world ny) → b_id bx = b_id b →
    bx = b ∧ node_blocks nx !! b_id b = Some b).
Proof.
  intros H0 Hr Hx Hy. destruct (reachable_blocks c0 c H0 Hr) as [Hc Hb].
  assert (∀ k bx b, node_blocks nx !! k = Some bx → node_blocks ny !! k = Some b → bx = b) as Hag.
  { intros k bx b Hkx Hky. by apply (stored_agree c x y nx ny k). }
  split; [done|]. intros Hax Hay bx b Hbx Hby Hid.
  pose proof (nb_applied _ _ (Hb x nx Hx) bx Hax Hbx) as H1.
  pose proof (nb_applied _ _ (Hb y ny Hy) b Hay Hby) as H2.
  rewrite Hid in H1. rewrite (Hag _ _ _ H1 H2) in H1 |- *. done.
Qed.

(** C30: the database of a node is well typed in any such run, also that of a node
    that has failed as it was before the event in which it failed: an entry is the commit, too short for a block, or a block under
    its own id of eight bytes; the head of the chain and the first block are stored. *)
Theorem database_typed c0 c x n :
  fresh_start c0 → rtc (cluster_step cfg) c0 c → c !! x = Some n →
  let chain := handle_chain (raft (sn_loop n)) in
  (∀ k v, contents (c_db chain) !! k = Some v →
     k = commit_key ∧ (length v < 24)%nat ∨
     length k = 8%nat ∧ ∃ b, deserialize v = Some b ∧ b_id b = k) ∧
  is_Some (blocks_in chain !! chain_get_head chain) ∧
  blocks_in chain !! BlockId_new 0 = Some genesis.
Proof.
  intros H0 Hr Hx. destruct (reachable_blocks c0 c H0 Hr) as [_ Hb].
  destruct (Hb x n Hx) as [[Hkeys Hhead] _ _ _ Hgen _]. done.
Qed.
End Cluster.

(** ** Witness: a request to the leader of three reaches a follower *)
Definition share3 : list Action := election3 ++
  [Request 1 {| proposal_get := [x2a] |} 0; TickOf 1; RpcOf 1; RpcOf 1; RpcOf 1; RpcOf 1;
   Receive 2 1 4; RpcOf 2; RpcOf 2; Receive 1 2 2].
Definition shared3 : gmap NodeId ServerNode := foldl (act cfg3) cluster3 share3.
Definition sharer3 (x : NodeId) : ServerNode := default demo_node0 (shared3 !! x).

Lemma shared3_node x : bool_decide (is_Some (shared3 !! x)) = true → shared3 !! x = Some (sharer3 x).
Proof. intros [n Hn]%bool_decide_eq_true_1. unfold sharer3. by rewrite Hn. Qed.

Lemma fresh3 : fresh_start cfg3 ids3 cluster3.
Proof.
  split; [apply start3|]. intros x n Hx.
  assert (x ∈ ids3 ∧ n = demo_server x (filter (λ j, j ≠ x) ids3)) as [Hin ->].
  { apply elem_of_list_to_map_2, list_elem_of_fmap in Hx as (y & [= -> ->] & Hy). done. }
  exists mem_empty, [], 0%nat. split; [reflexivity|]. by apply demo_server_new.
Qed.

Lemma blocks_agree_witness :
  is_Some (node_blocks (sharer3 1) !! BlockId_new 1) ∧
  is_Some (node_blocks (sharer3 2) !! BlockId_new 1) ∧
  (∀ k b b', node_blocks (sharer3 1) !! k = Some b → node_blocks (sharer3 2) !! k = Some b' → b = b').
Proof.
  assert (∀ x, x = 1 ∨ x = 2 → alive (sharer3 x) = true ∧ shared3 !! x = Some (sharer3 x) ∧
    bool_decide (is_Some (node_blocks (sharer3 x) !! BlockId_new 1)) = true) as H.
  { intros x [->| ->]; (split; [|split; [apply shared3_node|]]); vm_compute; reflexivity. }
  destruct (H 1) as (Ha1 & Hn1 & Hs1); [by left|]. destruct (H 2) as (Ha2 & Hn2 & Hs2); [by right|].
  split; [by apply bool_decide_eq_true_1 in Hs1|]. split; [by apply bool_decide_eq_true_1 in Hs2|].
  apply (blocks_agree cfg3 ids3 consistent3 cluster3 shared3 1 2 (sharer3 1) (sharer3 2) fresh3
    (acts_steps cfg3 share3 cluster3) Hn1 Hn2).
Defined.

Lemma database_typed_witness :
  let chain := handle_chain (raft (sn_loop (sharer3 2))) in
  (∀ k v, contents (c_db chain) !! k = Some v →
     k = commit_key ∧ (length v < 24)%nat ∨
     length k = 8%nat ∧ ∃ b, deserialize v = Some b ∧ b_id b = k) ∧
  is_Some (blocks_in chain !! chain_get_head chain) ∧
  blocks_in chain !! BlockId_new 0 = Some genesis.
Proof.
  apply (database_typed cfg3 ids3 consistent3 cluster3 shared3 2).
  - apply fresh3.
  - apply acts_steps.
  - apply shared3_node. vm_compute. reflexivity.
Defined.
