(* ===== verification/Line.v ===== *)
(** * Stores that hold a line of blocks

    A store whose blocks are numbered 0 to [h], each pointing to the one before:
    appending and extending keep it so, and a range of it is a segment. *)
From S2P Require Import Prelude Bytes Storage Chain Rpc Raft Agreement.
Local Open Scope Z_scope.

Abbreviation bid := BlockId_new.

Lemma bid_inj i j : is_u64 i → is_u64 j → bid i = bid j → i = j.
Proof. apply u64_to_be_bytes_inj. Qed.
Lemma bid_ltb i j : is_u64 i → is_u64 j → bytes_ltb (bid i) (bid j) = (i <? j).
Proof. apply bytes_ltb_u64. Qed.
Lemma bid_leb i j : is_u64 i → is_u64 j → bytes_leb (bid i) (bid j) = (i <=? j).
Proof. apply bytes_leb_u64. Qed.
Lemma bid_not_commit i : bid i ≠ commit_key.
Proof. intros H. apply (f_equal length) in H. by rewrite length_u64_to_be_bytes in H. Qed.

(** The block numbered [i]. *)
Definition numbered (i : Z) (b : Block) : Prop :=
  is_u64 i ∧ b_id b = bid i ∧ b_next b = bid (Z.max 0 (i - 1)).

Record line (m : gmap bytes Block) (h : Z) : Prop := {
  ln_range : is_u64 h;
  ln_has i : 0 ≤ i ≤ h → ∃ b, m !! bid i = Some b ∧ numbered i b;
  ln_only k b : m !! k = Some b → ∃ i, 0 ≤ i ≤ h ∧ k = bid i;
}.

Lemma line_u64 m h i : line m h → 0 ≤ i ≤ h → is_u64 i.
Proof. intros [[] _ _] ?. split; lia. Qed.

Lemma line_is_Some m h i : line m h → is_u64 i → is_Some (m !! bid i) ↔ i ≤ h.
Proof.
  intros Hm Hi. split.
  - intros [b Hb]. destruct (ln_only m h Hm _ _ Hb) as (j & Hj & E).
    apply bid_inj in E as ->; [lia|done|by eapply line_u64].
  - intros Hle. destruct (ln_has m h Hm i) as (b & -> & _); [destruct Hi; lia|done].
Qed.

Lemma line_numbered m h k b : line m h → m !! k = Some b → ∃ i, 0 ≤ i ≤ h ∧ k = bid i ∧ numbered i b.
Proof.
  intros Hm Hk. destruct (ln_only m h Hm k b Hk) as (i & Hi & ->).
  destruct (ln_has m h Hm i Hi) as (b' & Hb' & Hn). exists i. rewrite Hk in Hb'. by injection Hb' as <-.
Qed.

Lemma line_genesis : line {[bid 0 := genesis]} 0.
Proof.
  split; [done| |].
  - intros i Hi. assert (i = 0) as -> by lia. exists genesis. by rewrite lookup_singleton_eq.
  - intros k b [<- _]%lookup_singleton_Some. by exists 0.
Qed.

(** Storing a numbered block whose predecessor is there. *)
Lemma line_put m h i b :
  line m h → numbered i b → is_Some (m !! b_next b) →
  ∃ h', h ≤ h' ∧ line (<[b_id b := b]> m) h'.
Proof.
  intros Hm Hb Hnext. pose proof Hb as (Hi & Hid & Hn). exists (Z.max h i). split; [lia|].
  assert (Z.max 0 (i - 1) ≤ h) as Hle.
  { rewrite Hn in Hnext. eapply line_is_Some; [done| |done]. destruct Hi. split; lia. }
  pose proof (ln_range m h Hm) as Hh. rewrite Hid. split.
  - destruct Hh, Hi. split; lia.
  - intros j Hj. rewrite lookup_insert. case_decide as E.
    + exists b. split; [done|]. apply bid_inj in E as <-; [done|done|]. destruct Hh, Hi. split; lia.
    + apply (ln_has m h Hm). destruct (decide (i = j)) as [->|]; [done|lia].
  - intros k b'. rewrite lookup_insert. case_decide; subst.
    + intros _. exists i. destruct Hi. split; [lia|done].
    + intros Hk. destruct (ln_only m h Hm k b' Hk) as (j & Hj & ->). exists j. split; [lia|done].
Qed.

(** ** Segments *)
Definition seg (m : gmap bytes Block) (a n : Z) : list Block := omap (λ i, m !! bid i) (seqZ a n).

Lemma seg_app m a n1 n2 : 0 ≤ n1 → 0 ≤ n2 → seg m a (n1 + n2) = seg m a n1 ++ seg m (a + n1) n2.
Proof. intros. unfold seg. by rewrite seqZ_app, omap_app. Qed.

Lemma seg_nil m a : seg m a 0 = [].
Proof. done. Qed.

(** A segment depends on the blocks in it only. *)
Lemma omap_ext_in {A B} (f g : A → option B) (l : list A) : (∀ x, x ∈ l → f x = g x) → omap f l = omap g l.
Proof.
  induction l as [|x l IH]; intros H; [done|]. cbn. rewrite (H x) by set_solver.
  rewrite IH by set_solver. done.
Qed.

Lemma seg_mono m m' h a n : line m h → m ⊆ m' → 0 ≤ a → a + n ≤ h + 1 → seg m' a n = seg m a n.
Proof.
  intros Hm Hsub Ha Hn. apply omap_ext_in. intros i Hi%elem_of_seqZ.
  destruct (ln_has m h Hm i) as (b & Hb & _); [lia|]. rewrite Hb. by eapply lookup_weaken.
Qed.

Lemma seg_length m h a n : line m h → 0 ≤ a → 0 ≤ n → a + n ≤ h + 1 → length (seg m a n) = Z.to_nat n.
Proof.
  intros Hm Ha Hn Hle. rewrite <-(length_seqZ a n). unfold seg.
  assert (∀ i, i ∈ seqZ a n → is_Some (m !! bid i)) as Hall.
  { intros i Hi%elem_of_seqZ. destruct (ln_has m h Hm i) as (b & -> & _); [lia|done]. }
  induction (seqZ a n) as [|i l IH]; [done|]. cbn. destruct (Hall i) as [b ->]; [set_solver|].
  cbn. f_equal. apply IH. intros j Hj. apply Hall. set_solver.
Qed.

Lemma elem_of_seg m a n b : b ∈ seg m a n ↔ ∃ i, a ≤ i < a + n ∧ m !! bid i = Some b.
Proof.
  unfold seg. rewrite list_elem_of_omap. setoid_rewrite elem_of_seqZ. naive_solver.
Qed.

Lemma seg_filter m h k :
  line m h → 0 ≤ k ≤ h → filter (λ b, b_id b ≠ bid 0) (seg m 1 k) = seg m 1 k.
Proof.
  intros Hm Hk. apply list_filter_all. intros b (i & Hi & Hb)%elem_of_seg E.
  destruct (line_numbered m h _ _ Hm Hb) as (j & Hj & Ej & _ & Hid & _). rewrite Hid in E.
  pose proof (line_u64 m h i Hm ltac:(lia)). pose proof (line_u64 m h j Hm Hj).
  apply bid_inj in Ej; [|done..]. apply bid_inj in E; [lia|done..].
Qed.

Lemma seg_filter_first m h k :
  line m h → 0 ≤ k ≤ h → filter (λ b, b_id b ≠ bid 0) (seg m 0 k) = seg m 1 (Z.max 0 (k - 1)).
Proof.
  intros Hm Hk. destruct (decide (k = 0)) as [->|]; [done|].
  replace (Z.max 0 (k - 1)) with (k - 1) by lia. replace k with (1 + (k - 1)) at 1 by lia.
  rewrite seg_app, filter_app, (seg_filter m h) by (done || lia).
  destruct (ln_has m h Hm 0) as (b & Hb & _ & Hid & _); [pose proof (ln_range _ _ Hm) as []; lia|].
  unfold seg at 1. change (seqZ 0 1) with [0]. cbn [omap list_omap]. rewrite Hb.
  by rewrite filter_cons_False by (intros H; by apply H).
Qed.

Lemma seg_prefix m a n n' : 0 ≤ n ≤ n' → seg m a n `prefix_of` seg m a n'.
Proof.
  intros Hn. replace n' with (n + (n' - n)) by lia. rewrite seg_app by lia. by eexists.
Qed.

Lemma seg_lookup m h a n (i : nat) b :
  line m h → 0 ≤ a → a + n ≤ h + 1 → seg m a n !! i = Some b →
  m !! bid (a + Z.of_nat i) = Some b ∧ numbered (a + Z.of_nat i) b.
Proof.
  intros Hm Ha Hn Hi. pose proof (lookup_lt_Some _ _ _ Hi) as Hlt.
  destruct (Z.le_gt_cases n 0) as [|Hpos]; [unfold seg in Hi; by rewrite seqZ_nil in Hi by lia|].
  rewrite (seg_length m h) in Hlt by (done || lia).
  replace n with (Z.of_nat i + (1 + (n - Z.of_nat i - 1))) in Hi by lia.
  rewrite seg_app in Hi by lia.
  rewrite lookup_app_r in Hi; rewrite (seg_length m h) in * by (done || lia); [|lia].
  rewrite Nat2Z.id, Nat.sub_diag, seg_app in Hi by lia.
  destruct (ln_has m h Hm (a + Z.of_nat i)) as (b' & Hb' & Hnum); [lia|].
  unfold seg at 1 in Hi. change (seqZ (a + Z.of_nat i) 1) with [a + Z.of_nat i] in Hi.
  cbn [omap list_omap] in Hi. rewrite Hb' in Hi. cbn in Hi. by injection Hi as <-.
Qed.

(** A line is the map of its blocks. *)
Lemma line_entries m h :
  line m h → let l := (λ b, (b_id b, b)) <$> seg m 0 (h + 1) in NoDup l.*1 ∧ m = list_to_map l.
Proof.
  intros Hm. cbv zeta. pose proof (ln_range _ _ Hm) as Hh. destruct Hh as [Hh _].
  assert ((λ b, (b_id b, b)) <$> seg m 0 (h + 1) = omap (λ i, pair (bid i) <$> m !! bid i) (seqZ 0 (h + 1))) as ->.
  { unfold seg. rewrite list_fmap_omap. apply omap_ext_in. intros i Hi%elem_of_seqZ. cbn.
    destruct (ln_has m h Hm i) as (b & Hb & _ & Hid & _); [lia|]. rewrite Hb. cbn. by rewrite Hid. }
  match goal with |- ?P ∧ _ => assert P as Hnd end.
  { rewrite list_fmap_omap.
    assert (omap (λ i, fst <$> (pair (bid i) <$> m !! bid i)) (seqZ 0 (h + 1)) = bid <$> seqZ 0 (h + 1)) as ->.
    { rewrite list_fmap_alt. apply omap_ext_in. intros i Hi%elem_of_seqZ.
      destruct (ln_has m h Hm i) as (b' & -> & _); [lia|done]. }
    apply NoDup_fmap_2_strong; [|apply NoDup_seqZ].
    intros i j Hi%elem_of_seqZ Hj%elem_of_seqZ. apply bid_inj; eapply line_u64; try done; lia. }
  split; [done|]. apply map_eq. intros k. apply option_eq. intros b. symmetry. rewrite <-elem_of_list_to_map by done.
  rewrite list_elem_of_omap. split.
  - intros (i & _ & E). destruct (m !! bid i) as [b'|] eqn:Ei; [|done]. by injection E as <- <-.
  - intros Hk. destruct (line_numbered m h k b Hm Hk) as (i & Hi & -> & _). exists i.
    rewrite elem_of_seqZ, Hk. split; [lia|done].
Qed.

Lemma line_size m h : line m h → size m = Z.to_nat (h + 1).
Proof.
  intros Hm. destruct (line_entries m h Hm) as [Hnd E]. cbv zeta in *. pose proof (ln_range _ _ Hm) as [].
  rewrite E, <-length_map_to_list, map_to_list_to_map, length_fmap by done. apply (seg_length m h 0 (h + 1) Hm); lia.
Qed.

(** ** The operations of a chain on a line *)
Section Stores.
Context {SLED : Sled} {BINC : Bincode Block}
  {SLAWS : SledLaws} {BLAWS : BincodeLaws Block} {BMIN : BincodeMin Block 24}.

Lemma extend_line c b i c' h :
  store_ok c → line (blocks_in c) h → numbered i b → chain_extend c b = Ret c' →
  store_ok c' ∧ blocks_in c' = <[b_id b := b]> (blocks_in c) ∧
  c_commit c' = c_commit c ∧ id_gen c' = id_gen c ∧ ∃ h', h ≤ h' ∧ line (blocks_in c') h'.
Proof.
  intros Hok Hl Hb Hx. pose proof Hb as (Hi & Hid & Hn).
  destruct (extend_stores c b c' Hok ltac:(rewrite Hid; apply length_u64_to_be_bytes) Hx) as [Hok' Hbl].
  unfold chain_extend, chain_has in Hx. rewrite db_contains_key_spec in Hx. cbn in Hx.
  case_bool_decide as Hk; [|done]. cbn in Hx. apply bind_Ret in Hx as (d & _ & [= <-]).
  split_and!; [done..|]. rewrite Hbl. eapply line_put; [done..|].
  destruct Hk as [v Hv]. rewrite blocks_in_lookup, Hv. cbn.
  destruct (so_keys c Hok _ _ Hv) as [[E _]|(_ & b' & -> & _)]; [|done].
  by rewrite Hn in E; apply bid_not_commit in E.
Qed.

Lemma extends_line bs c c' h :
  store_ok c → line (blocks_in c) h → Forall (λ b, ∃ i, numbered i b) bs →
  ofold chain_extend c bs = Ret c' →
  store_ok c' ∧ c_commit c' = c_commit c ∧ id_gen c' = id_gen c ∧ ∃ h', h ≤ h' ∧ line (blocks_in c') h'.
Proof.
  intros Hok Hl Hbs. revert c h Hok Hl. induction Hbs as [|b bs [i Hi] _ IH]; intros c h Hok Hl H; cbn in H.
  { injection H as <-. eauto 6 using Z.le_refl. }
  apply bind_Ret in H as (c1 & H1 & H).
  destruct (extend_line c b i c1 h Hok Hl Hi H1) as (Hok1 & _ & Hc1 & Hg1 & h1 & Hle1 & Hl1).
  destruct (IH c1 h1 Hok1 Hl1 H) as (Hok2 & Hc2 & Hg2 & h2 & Hle2 & Hl2).
  split_and!; [done|congruence|congruence|]. exists h2. split; [lia|done].
Qed.

(** Appending to a line whose head is its last block and whose generator comes next. *)
Lemma append_line c data id c' h :
  store_ok c → line (blocks_in c) h → c_head c = bid h → gen_id (id_gen c) = (h + 1) `mod` u64_limit →
  chain_append c {| u_data := data |} = Ret (id, c') →
  store_ok c' ∧ id = bid (h + 1) ∧ c_head c' = id ∧ c_commit c' = c_commit c ∧
  gen_id (id_gen c') = (h + 1 + 1) `mod` u64_limit ∧ blocks_in c ⊆ blocks_in c' ∧
  line (blocks_in c') (h + 1).
Proof.
  intros Hok Hl Hh Hg Hx. destruct (append_stores c data id c' Hok Hx) as (Hok' & Hhead & Hlt & _ & _).
  unfold chain_append in Hx. cbn in Hx. apply bind_Ret in Hx as (u & _ & Hx).
  apply bind_Ret in Hx as (d & Hd & Hx). injection Hx as <- Hc'. rewrite Hg, Hh in *.
  pose proof (ln_range _ _ Hl) as Hu. unfold is_u64 in Hu.
  pose proof (Z.mod_pos_bound (h + 1) u64_limit ltac:(done)) as Hmod.
  rewrite bid_ltb in Hlt by (unfold is_u64; lia). apply Z.ltb_lt in Hlt.
  assert ((h + 1) `mod` u64_limit = h + 1) as E.
  { destruct (decide (h + 1 = u64_limit)) as [E|]; [|rewrite Z.mod_small; lia].
    rewrite E, Z.mod_same in Hlt by done. lia. }
  rewrite E in *. set (b := {| b_id := bid (h + 1); b_next := bid h; b_data := data |}) in *.
  assert (numbered (h + 1) b) as Hb.
  { split_and!; [unfold is_u64; lia|done|]. cbn. by replace (Z.max 0 (h + 1 - 1)) with h by lia. }
  destruct (store_ok_insert c b d {| gen_id := u64_wrapping_add (h + 1) 1 |} Hok
    (length_u64_to_be_bytes _) Hd) as [_ Hbl].
  cbn [b_id b] in Hbl. rewrite Hc' in Hbl. subst b.
  assert (blocks_in c !! bid (h + 1) = None) as Hnew.
  { apply eq_None_not_Some. rewrite line_is_Some by (done || unfold is_u64; lia). lia. }
  split_and!; try done.
  - by rewrite <-Hc'.
  - by rewrite <-Hc'.
  - rewrite Hbl. by apply insert_subseteq.
  - rewrite Hbl. destruct (line_put (blocks_in c) h (h + 1) _ Hl Hb) as (h' & Hle & Hl').
    { cbn. apply line_is_Some with h; [done|unfold is_u64; lia|lia]. }
    assert (h' = h + 1) as ->; [|done].
    apply Z.le_antisymm.
    + destruct (ln_has _ _ Hl' h') as (b' & Hb' & _); [pose proof (ln_range _ _ Hl'); unfold is_u64 in *; lia|].
      rewrite lookup_insert in Hb'. case_decide as Ek.
      * cbn in Ek. apply bid_inj in Ek; [lia|unfold is_u64; lia|apply (ln_range _ _ Hl')].
      * assert (h' ≤ h); [|lia]. apply (line_is_Some _ _ _ Hl); [apply (ln_range _ _ Hl')|by eexists].
    + apply (line_is_Some _ _ (h + 1) Hl'); [unfold is_u64; lia|]. cbn. by rewrite lookup_insert_eq.
Qed.

Lemma commit_line_store c k k' c' h :
  store_ok c → line (blocks_in c) h → k ≠ commit_key → chain_commit c k = Ret (k', c') →
  store_ok c' ∧ blocks_in c' = blocks_in c ∧ c_head c' = c_head c ∧ id_gen c' = id_gen c ∧
  c_commit c' = k ∧ ∃ i, 0 ≤ i ≤ h ∧ k = bid i.
Proof.
  intros Hok Hl Hne Hx. destruct (commit_stores c k k' c' Hok Hx) as (Hok' & Hb & Hh).
  unfold chain_commit in Hx. rewrite db_contains_key_spec in Hx. cbn in Hx.
  case_bool_decide as Hk; [|done]. apply bind_Ret in Hx as (d & _ & [= _ <-]).
  split_and!; [done..|]. destruct Hk as [v Hv].
  destruct (so_keys c Hok k v Hv) as [[E _]|(_ & b & Hbv & _)]; [done|].
  apply (ln_only _ _ Hl k b). by rewrite blocks_in_lookup, Hv.
Qed.

(** Entries in the order of the numbers of their keys are in the order of a range. *)
Lemma seqZ_sorted (f : Z → option bytes) a n :
  (∀ i, a ≤ i < a + n → is_u64 i) → StronglySorted key_lt (omap (λ i, pair (bid i) <$> f i) (seqZ a n)).
Proof.
  destruct (Z.le_gt_cases n 0) as [Hn|Hn]; [rewrite seqZ_nil by lia; constructor|].
  rewrite <-(Z2Nat.id n) by lia. generalize (Z.to_nat n). clear n Hn. intros k. revert a.
  induction k as [|k IH]; intros a Hu; [constructor|].
  rewrite seqZ_cons, Nat2Z.inj_succ, Z.pred_succ by lia.
  assert (StronglySorted key_lt (omap (λ i, pair (bid i) <$> f i) (seqZ (Z.succ a) (Z.of_nat k)))) as Hs.
  { apply IH. intros i Hi. apply Hu. lia. }
  cbn. destruct (f a) as [v|]; cbn; [|done]. constructor; [done|]. apply Forall_forall.
  intros e (i & Hi%elem_of_seqZ & He)%list_elem_of_omap. destruct (f i); [|done]. injection He as <-.
  unfold key_lt. cbn. rewrite bid_ltb by (apply Hu; lia). apply Z.ltb_lt. lia.
Qed.

Lemma decoded_seg c (l : list Block) (ks : list Z) :
  (λ e : entry, unwrap (deserialize e.2)) <$>
    omap (λ i, pair (bid i) <$> contents (c_db c) !! bid i) ks = (Ret : Block → outcome Block) <$> l →
  l = omap (λ i, blocks_in c !! bid i) ks.
Proof.
  revert l. induction ks as [|i ks IH]; intros l Hdec; [by destruct l|].
  cbn [omap list_omap] in *. rewrite blocks_in_lookup.
  destruct (contents (c_db c) !! bid i) as [v|]; [|by apply IH]. cbn [mbind option_bind fmap option_fmap] in *.
  cbn [fmap list_fmap option_map snd] in Hdec.
  destruct l as [|b l]; [done|]. injection Hdec as Hb Hdec.
  destruct (deserialize v) as [b'|]; [|done]. injection Hb as ->. f_equal. by apply IH.
Qed.

(** A range that could be decoded is the segment it covers. *)
Lemma range_seg c lo hi l h a n :
  store_ok c → line (blocks_in c) h → 0 ≤ a → a + n ≤ h + 1 →
  (∀ i, 0 ≤ i ≤ h → in_range lo hi (bid i) = true ↔ a ≤ i < a + n) →
  chain_range c lo hi = (Ret : Block → outcome Block) <$> l → l = seg (blocks_in c) a n.
Proof.
  intros Hok Hl Ha Hn Hr. unfold chain_range. rewrite db_range_spec, <-list_fmap_compose. intros Hdec.
  apply decoded_seg. rewrite <-Hdec. apply (f_equal (fmap _)). symmetry. apply entries_unique.
  { apply seqZ_sorted. intros i Hi. eapply line_u64; [done|lia]. }
  intros [k v]. rewrite list_elem_of_omap. cbn. split.
  - intros (i & Hi%elem_of_seqZ & Hv). destruct (contents (c_db c) !! bid i) as [v'|] eqn:E; [|done].
    injection Hv as <- <-. split; [done|]. apply Hr; lia.
  - intros [Hk Hin]. destruct (so_keys c Hok k v Hk) as [[-> Hs]|(_ & b & Hb & _)].
    + exfalso. assert (Panic ∈ ((Ret : Block → outcome Block) <$> l)) as Hp.
      { rewrite <-Hdec. apply list_elem_of_fmap. exists (commit_key, v). cbn.
        rewrite bincode_short by done. split; [done|]. by apply elem_of_entries. }
      apply list_elem_of_fmap in Hp as (x & ? & _). done.
    + destruct (ln_only _ _ Hl k b) as (i & Hi & ->); [by rewrite blocks_in_lookup, Hk|].
      exists i. apply Hr in Hin; [|done]. rewrite elem_of_seqZ, Hk. by split; [lia|].
Qed.
End Stores.
