(* ===== verification/Lineage.v ===== *)
(** * The line of blocks

    What every command does to the chain of a node, exactly: which blocks it
    stores, commits and hands to the state machine, and what it tells the others.
    From it: the blocks of every node of a cluster are an initial part of one
    line, each linked to the one before, and its state machine was given an
    initial part of that line. *)
From S2P Require Import Prelude Bytes Storage Chain Rpc Election Progress Config Raft.
From S2P Require Leader Candidate Follower.
From S2P Require Import Handle Fsm Tcp Server Invariants Demo Cluster Replication StateMachine Agreement.
Local Open Scope Z_scope.

(** ** Computations whose messages depend on how they end *)

(** As [emits], and if the computation fails its messages satisfy [F]. *)
Definition emitsF {A} (P F : Message → Prop) (Q : list Instruction → A → Prop) (m : M A) : Prop :=
  ∀ w, ∃ new ins, msgs (m w).2 = msgs w ++ new ∧ instrs (m w).2 = instrs w ++ ins ∧
    Forall P new ∧ match (m w).1 with Ret a => Q ins a | _ => Forall F new end.

Section EmitsF.
Context {SLED : Sled} {BINC : Bincode Block} {ENV : Env}.
Implicit Types P F : Message → Prop.

Lemma emitsF_emits {A} P F (Q : list Instruction → A → Prop) m :
  emits P Q m → (∀ x, P x → F x) → emitsF P F Q m.
Proof.
  intros Hm HF w. destruct (Hm w) as (new & ins & ? & ? & HP & HQ). exists new, ins.
  split_and!; [done..|]. destruct (m w).1 eqn:E; [by apply HQ|by eapply Forall_impl..].
Qed.

Lemma emitsF_bind {A B} P F P0 R Q (m : M A) (f : A → M B) :
  emits P0 R m → (∀ x, P0 x → P x ∧ F x) →
  (∀ i a, R i a → emitsF P F (λ i', Q (i ++ i')) (f a)) → emitsF P F Q (m ≫= f).
Proof.
  intros Hm HP0 Hf w. destruct (Hm w) as (n1 & i1 & H1 & Hi1 & HP1 & HR).
  assert (Forall P n1 ∧ Forall F n1) as [HP HF] by (split; (eapply Forall_impl; [exact HP1|]; naive_solver)).
  unfold mbind, SM_bind. destruct (m w) as [[a|e|] w1]; simpl in *; [|by exists n1, i1..].
  destruct (Hf i1 a (HR a eq_refl) w1) as (n2 & i2 & H2 & Hi2 & HP2 & HQ).
  exists (n1 ++ n2), (i1 ++ i2). rewrite H2, H1, Hi2, Hi1, !app_assoc.
  split_and!; [done|done|by apply Forall_app|].
  destruct (f a w1).1; [done|by apply Forall_app..].
Qed.

(** The last message of a computation that then returns. *)
Lemma emitsF_last {A} P F (Q : list Instruction → A → Prop) x a :
  P x → Q [] a → emitsF P F Q (_ ← rpc_send x; mret a).
Proof.
  intros Hx Ha w. unfold mbind, SM_bind, rpc_send. destruct (receiver_alive (rpc_tx w)); cbn.
  - exists [x], []. rewrite app_nil_r. split_and!; [done..|by constructor|done].
  - exists [], []. by rewrite !app_nil_r.
Qed.

Lemma emits_drive_exact P l :
  emits P (λ i _, ∃ bs, l = (Ret : Block → outcome Block) <$> bs ∧ omap applied_block i = bs)
    (drive l (λ block, fsm_send_unwrap (Apply block))).
Proof.
  unfold drive. induction l as [|o l IH]; cbn [for_each]; [apply emits_ret; by exists []|].
  eapply (emits_bind _ (λ i _, ∃ b, o = Ret b ∧ i = [Apply b])).
  - apply emits_bind_lift. intros b ->. eapply emits_weaken; [apply emits_fsm_send_unwrap|].
    intros i _ ->. by exists b.
  - intros i _ (b & -> & ->). eapply emits_weaken; [exact IH|]. cbn. intros i' _ (bs & -> & <-).
    by exists (b :: omap applied_block i').
Qed.

Lemma emits_drive_skip1_exact P l :
  emits P (λ i _, ∃ bs, l = (Ret : Block → outcome Block) <$> bs ∧ omap applied_block i = drop 1 bs)
    (drive_skip1 l (λ block, fsm_send_unwrap (Apply block))).
Proof.
  destruct l as [|o l]; [apply emits_ret; by exists []|]. cbn. apply emits_bind_lift. intros b ->.
  eapply emits_weaken; [apply emits_drive_exact|]. cbn. intros i _ (bs & -> & <-).
  by exists (b :: omap applied_block i).
Qed.
End EmitsF.

(** ** What one command does *)
Section Node.
Context {SLED : Sled} {BINC : Bincode Block} {ENV : Env} {BUILD : Build}.

(** The block a heartbeat says is committed; the node and the block of a
    confirmation. *)
Definition beat (m : Message) : option BlockId :=
  match msg_command m with Heartbeat _ k _ => Some k | _ => None end.
Definition ack (m : Message) : option (NodeId * BlockId) :=
  match msg_command m with AppendResponse j _ k _ => Some (j, k) | _ => None end.
Definition silent_of (m : Message) : Prop := ack m = None ∧ beat m = None.

(** A node says its own commit, and confirms, for itself, the head it has after
    the blocks it was sent. *)
Definition says (h : RaftHandle) (bs : list Block) (m : Message) : Prop :=
  (∀ k, beat m = Some k → k = c_commit (handle_chain h)) ∧
  (∀ j k, ack m = Some (j, k) → j = handle_id h ∧ is_follower h = true ∧ bs ≠ [] ∧
    ∃ c', ofold chain_extend (handle_chain h) bs = Ret c' ∧ c_head c' = k).

Lemma silent_says h bs m : silent_of m → says h bs m ∧ ack m = None.
Proof. intros [H1 H2]. split; [|done]. split; [rewrite H2|rewrite H1]; naive_solver. Qed.

(** Followers and candidates: nothing, the blocks that came, or the commit a
    heartbeat told, with the blocks from the last commit up to the new one. *)
Definition follower_next (c : Chain) (cmd : Command) (ins : list Instruction) (c' : Chain) : Prop :=
  c' = c ∧ omap applied_block ins = [] ∨
  ofold chain_extend c (cmd_blocks cmd) = Ret c' ∧ omap applied_block ins = [] ∨
  ∃ t k l, cmd = Heartbeat t k l ∧ bytes_ltb (c_commit c) k = true ∧
    chain_commit c k = Ret (k, c') ∧
    chain_range c' (Included (c_commit c)) (Excluded k) = (Ret : Block → outcome Block) <$> omap applied_block ins.

(** A leader's commit: the committed index of the progress, if it is newer, with
    the blocks after the last commit up to it. *)
Definition commits (p : ReplicationProgress) (c : Chain) (ins : list Instruction) (c' : Chain) : Prop :=
  ∃ q, committed_index p = Ret q ∧
    (c' = c ∧ omap applied_block ins = [] ∨
     bytes_ltb (c_commit c) q = true ∧ chain_commit c q = Ret (q, c') ∧
     ∃ l, chain_range c' (Included (c_commit c)) (Included q) = (Ret : Block → outcome Block) <$> l ∧
       omap applied_block ins = drop 1 l).

(** The leader: nothing, a confirmation, or a request, whose block it confirms
    for itself. *)
Definition leader_next (r : Raft Leader) (cmd : Command) (ins : list Instruction) (r' : Raft Leader) : Prop :=
  r_chain r' = r_chain r ∧ l_progress (r_role r') = l_progress (r_role r) ∧ omap applied_block ins = [] ∨
  ∃ c1 j k,
    (c1 = r_chain r ∧ (∃ t s, cmd = AppendResponse j t k s) ∨
     j = r_id r ∧ ∃ data, chain_append (r_chain r) {| u_data := data |} = Ret (k, c1)) ∧
    replication_advance (l_progress (r_role r)) j k = Ret (l_progress (r_role r')) ∧
    commits (l_progress (r_role r')) c1 ins (r_chain r').

Definition line_next (h : RaftHandle) (cmd : Command) (ins : list Instruction) (h' : RaftHandle) : Prop :=
  match h with
  | HLeader r => ∃ r', h' = HLeader r' ∧ leader_next r cmd ins r'
  | _ => follower_next (handle_chain h) cmd ins (handle_chain h') ∧
         (∀ r', h' = HLeader r' → r_chain r' = handle_chain h ∧ omap applied_block ins = [] ∧
           replication_new (voters (r_config r') (r_id r')) = Ret (l_progress (r_role r'))) ∧
         (is_follower h = true → cmd_blocks cmd ≠ [] →
           ofold chain_extend (handle_chain h) (cmd_blocks cmd) = Ret (handle_chain h'))
  end.

(** A step that keeps the chain. *)
Definition stays (h : RaftHandle) (cmd : Command) (m : M RaftHandle) : Prop :=
  emits (λ x, ack x = None ∧ says h (cmd_blocks cmd) x) (line_next h cmd) m.

Lemma stays_F h cmd m :
  stays h cmd m → emitsF (says h (cmd_blocks cmd)) (λ x, ack x = None) (line_next h cmd) m.
Proof.
  intros Hm w. destruct (Hm w) as (new & ins & ? & ? & HP & HQ). exists new, ins.
  split_and!; [done..|eapply Forall_impl; [exact HP|]; naive_solver|].
  destruct (m w).1 eqn:E; [by apply HQ|..]; (eapply Forall_impl; [exact HP|]; naive_solver).
Qed.

Lemma line_same h cmd h' :
  is_leader h = false → is_leader h' = false → handle_chain h' = handle_chain h →
  (is_follower h = true → cmd_blocks cmd = []) → line_next h cmd [] h'.
Proof.
  intros Hl Hl' E Hb. unfold line_next.
  destruct h; [..|done]; (split_and!; [left; by rewrite E|by intros r' ->|]); naive_solver.
Qed.

Lemma stays_ret h cmd h' :
  is_leader h = false → is_leader h' = false → handle_chain h' = handle_chain h →
  (is_follower h = true → cmd_blocks cmd = []) → stays h cmd (mret h').
Proof. intros. by apply emits_ret, line_same. Qed.
(** ** Followers and candidates *)
Definition quiet_says (h : RaftHandle) (cmd : Command) (x : Message) : Prop :=
  ack x = None ∧ says h (cmd_blocks cmd) x.

Lemma silent_quiet h cmd m : silent_of m → quiet_says h cmd m.
Proof. intros H. by destruct (silent_says h (cmd_blocks cmd) m H). Qed.

Ltac says_send := apply emits_bind_quiet; [by apply emits_rpc_send, silent_quiet|]; intros [].

Lemma elect_line h cmd (r : Raft Candidate) :
  is_leader h = false → r_chain r = handle_chain h → (is_follower h = true → cmd_blocks cmd = []) →
  stays h cmd (Candidate.elect r).
Proof.
  intros Hl Hc Hb. unfold stays, Candidate.elect, Candidate.leader_from_candidate.
  eapply (emits_bind _ (λ i r', i = [] ∧ r_chain r' = handle_chain h ∧
    replication_new (voters (r_config r') (r_id r')) = Ret (l_progress (r_role r')))).
  { apply emits_bind_lift. intros p Hp. apply emits_bind_quiet; [auto with emits|]. intros now.
    intros w. exists [], []. rewrite !app_nil_r. split_and!; [done..|]. cbn. by intros r' [= <-]. }
  intros i r' (-> & Hr' & Hp). unfold Leader.heartbeat, send_all.
  apply emits_bind_quiet.
  { apply emits_rpc_send. split; [done|]. split; [|done]. cbn. intros k [= <-].
    unfold chain_get_commit. by rewrite Hr'. }
  intros []. apply emits_ret. unfold line_next.
  destruct h; [..|done]; (split_and!; [left; by split|by intros r2 [= <-]|naive_solver]).
Qed.

Lemma vote_response_line h cmd (r : Raft Candidate) g from :
  is_leader h = false → r_chain r = handle_chain h → (is_follower h = true → cmd_blocks cmd = []) →
  stays h cmd (Candidate.apply_vote_response r g from).
Proof.
  intros Hl Hc Hb. unfold Candidate.apply_vote_response.
  case_match; first [by apply stays_ret|by apply elect_line].
Qed.

Lemma timeout_line h cmd r :
  is_leader h = false → r_chain r = handle_chain h → (is_follower h = true → cmd_blocks cmd = []) →
  stays h cmd (Follower.apply_timeout r).
Proof.
  intros Hl Hc Hb. unfold Follower.apply_timeout. case_match; [by apply stays_ret|].
  eapply emits_bind; [apply set_election_timeout_emits|]. intros i r1 [-> H1].
  unfold Candidate.seek_election. apply emits_bind_lift. intros t _.
  apply emits_bind_quiet.
  { apply emits_for_each. intros node _. by apply emits_rpc_send, silent_quiet. }
  intros _. apply vote_response_line; [done| |done]. cbn. congruence.
Qed.

Lemma candidate_line r cmd : stays (HCandidate r) cmd (candidate_apply r cmd).
Proof.
  destruct cmd; cbn [candidate_apply]; try by apply stays_ret.
  - unfold candidate_apply_tick. apply emits_bind_quiet; [auto with emits|]. intros due.
    destruct due; [|by apply stays_ret]. case_match; first [by apply timeout_line|by apply emits_panic].
  - unfold Candidate.apply_vote_request. case_match.
    + apply emits_bind_lift. intros r' Hr'%raft_term_chain. by apply stays_ret.
    + says_send. by apply stays_ret.
  - by apply vote_response_line.
  - unfold Candidate.apply_append_entries. case_match; by apply stays_ret.
  - unfold Candidate.apply_heartbeat. apply emits_bind_lift. intros hc _.
    apply emits_bind_lift. intros r' Hr'%raft_term_chain. says_send. by apply stays_ret.
Qed.

Lemma chain_commit_id c k k' c' : chain_commit c k = Ret (k', c') → k' = k.
Proof.
  unfold chain_commit. intros (known & _ & H)%bind_Ret. destruct known; [|done].
  by apply bind_Ret in H as (d & _ & [= <- _]).
Qed.

Lemma heartbeat_line r l t k :
  stays (HFollower r) (Heartbeat t k l) (Follower.apply_heartbeat r l t k).
Proof.
  unfold stays, Follower.apply_heartbeat.
  eapply emits_bind; [apply set_election_timeout_emits|]. intros i1 r1 [-> H1].
  apply emits_bind_lift. intros r2 H2%raft_term_chain.
  eapply emits_bind; [apply flush_queue_emits; intros; by apply silent_quiet|].
  intros i3 r3 (-> & H3 & _). cbn in H3. rewrite H2, H1 in H3.
  apply emits_bind_lift. intros hc _.
  eapply (emits_bind _ (λ i r4, follower_next (r_chain r) (Heartbeat t k l) i (r_chain r4))).
  { destruct (hc && _) eqn:Hif; [|apply emits_ret; by left].
    apply andb_true_iff in Hif as [_ Hlt]. unfold chain_get_commit in *. rewrite H3 in *.
    apply emits_bind_lift. intros [k' c'] Hc'.
    assert (k' = k) as -> by (by eapply chain_commit_id).
    eapply emits_bind; [apply emits_drive_exact|]. intros i [] (bs & Hr & Hi). apply emits_ret.
    right. right. exists t, k, l. rewrite app_nil_r, Hi. by split_and!. }
  intros i4 r4 H4. says_send. apply emits_ret. rewrite app_nil_r. by split_and!.
Qed.

Lemma append_entries_line r bs l t :
  emitsF (says (HFollower r) bs) (λ x, ack x = None)
    (line_next (HFollower r) (AppendEntries t l bs)) (Follower.apply_append_entries r bs l t).
Proof.
  unfold Follower.apply_append_entries.
  eapply (emitsF_bind _ _ silent_of (λ i r1, i = [] ∧ r_chain r1 = r_chain r ∧ r_id r1 = r_id r)).
  { case_match; [by apply emits_ret|]. case_match; [|by apply emits_ret].
    apply emits_bind_lift. intros r1 H1.
    assert (r_chain r1 = r_chain r ∧ r_id r1 = r_id r) as [].
    { unfold raft_term in H1. apply bind_Ret in H1 as (role & _ & [= <-]). done. }
    apply emits_bind_quiet; [auto with emits|]. intros now. by apply emits_ret. }
  { intros x Hx. by apply silent_says. }
  intros i1 r1 (-> & H1 & Hid).
  eapply (emitsF_bind _ _ silent_of (λ i _, i = [])).
  { apply emits_quiet. intros w. by repeat case_match. }
  { intros x Hx. by apply silent_says. }
  intros i2 [] ->. case_decide as Hbs0.
  { apply (stays_F _ (AppendEntries t l bs)), stays_ret; done. }
  eapply (emitsF_bind _ _ silent_of (λ i c, i = [] ∧ ofold chain_extend (r_chain r1) bs = Ret c)).
  { intros w. exists [], []. rewrite !app_nil_r. by split_and!. }
  { intros x Hx. by apply silent_says. }
  intros i3 c [-> Hc]. rewrite H1 in Hc. apply emitsF_last.
  - split; [done|]. cbn. intros j k [= <- <-]. split_and!; [done..|]. by exists c.
  - cbn. split_and!; [|done..]. right. left. by split.
Qed.

Lemma follower_line r cmd :
  emitsF (says (HFollower r) (cmd_blocks cmd)) (λ x, ack x = None) (line_next (HFollower r) cmd)
    (Follower.apply r cmd).
Proof.
  destruct cmd; cbn [Follower.apply]; try (apply stays_F, stays_ret; done).
  - apply stays_F. unfold Follower.apply_tick. apply emits_bind_quiet; [auto with emits|].
    intros []; [by apply timeout_line|by apply stays_ret].
  - apply stays_F. unfold Follower.apply_vote_request. case_match; says_send; by apply stays_ret.
  - apply append_entries_line.
  - apply stays_F, heartbeat_line.
  - by apply stays_F, timeout_line.
  - apply stays_F. unfold Follower.apply_client_request. case_match; [says_send|]; by apply stays_ret.
  - apply stays_F. unfold Follower.apply_client_response. says_send. by apply stays_ret.
Qed.
(** ** The leader *)
Lemma replicate_says (r : Raft Leader) h cmd : emits (quiet_says h cmd) (λ i _, i = []) (Leader.replicate r).
Proof.
  unfold Leader.replicate. apply emits_for_each. intros node _.
  unfold Leader.replicate_node. repeat case_match; try by apply emits_ret.
  all: apply emits_bind_lift; intros bs _; by apply emits_rpc_send, silent_quiet.
Qed.

Lemma commit_line P r :
  emits P (λ i x, l_progress (r_role x.2) = l_progress (r_role r) ∧
    commits (l_progress (r_role r)) (r_chain r) i (r_chain x.2)) (Leader.commit r).
Proof.
  unfold Leader.commit. apply emits_bind_lift. intros q Hq. case_match eqn:Hlt.
  - apply emits_bind_lift. intros [k c'] Hc'. assert (k = q) as -> by (by eapply chain_commit_id).
    eapply emits_bind; [apply emits_drive_skip1_exact|]. intros i [] (l & Hl & Hi). apply emits_ret.
    split; [done|]. exists q. split; [done|]. right. split_and!; [done..|]. exists l.
    by rewrite app_nil_r.
  - apply emits_ret. split; [done|]. exists q. split; [done|]. by left.
Qed.

Lemma append_response_line P r j k :
  emits P (λ i h', ∃ r', h' = HLeader r' ∧
      replication_advance (l_progress (r_role r)) j k = Ret (l_progress (r_role r')) ∧
      commits (l_progress (r_role r')) (r_chain r) i (r_chain r'))
    (Leader.apply_append_response r j k).
Proof.
  unfold Leader.apply_append_response. apply emits_bind_lift. intros p Hp.
  eapply emits_bind; [by apply commit_line|]. cbn. intros i [q r'] [Hp' Hc]. cbn in Hp'.
  apply emits_ret. rewrite app_nil_r. exists r'. by rewrite Hp'.
Qed.

Lemma leader_line r cmd : stays (HLeader r) cmd (Leader.apply r cmd).
Proof.
  assert (∀ r', r_chain r' = r_chain r → l_progress (r_role r') = l_progress (r_role r) →
    stays (HLeader r) cmd (mret (HLeader r'))) as Hself.
  { intros r' E Ep. apply emits_ret. exists r'. split; [done|]. by left. }
  destruct cmd; cbn [Leader.apply]; try by apply Hself.
  - unfold Leader.apply_tick. apply emits_bind_quiet.
    { apply emits_quiet. intros w. unfold Leader.write_state. by case_match. }
    intros []. unfold Leader.needs_heartbeat. apply emits_bind_quiet; [by apply emits_quiet|].
    intros due. eapply (emits_bind _ (λ i r', i = [] ∧ r_chain r' = r_chain r ∧
      l_progress (r_role r') = l_progress (r_role r))).
    { destruct due; [|by apply emits_ret]. unfold Leader.heartbeat, send_all.
      apply emits_bind_quiet.
      { apply emits_rpc_send. split; [done|]. split; [|done]. cbn. by intros k [= <-]. }
      intros []. unfold Leader.reset_heartbeat_timer.
      apply emits_bind_quiet; [auto with emits|]. intros now. by apply emits_ret. }
    intros i r' (-> & E & Ep). apply emits_bind_quiet; [by apply replicate_says|]. intros [].
    by apply Hself.
  - unfold Leader.apply_append_entries. case_match; [|by apply Hself]. by apply emits_panic.
  - eapply emits_weaken; [by apply append_response_line|].
    intros i h' (r' & -> & Hp & Hc). exists r'. split; [done|]. right. do 3 eexists. split; [left|by split].
    split; [done|]. by do 2 eexists.
  - unfold Leader.apply_heartbeat_response. apply emits_bind_quiet.
    { case_match; [by apply replicate_says|by apply emits_ret]. }
    intros []. by apply Hself.
  - unfold Leader.apply_client_request. apply emits_bind_lift. intros [id c1] Hap.
    eapply emits_bind; [apply emits_fsm_send|]. intros i1 [] ->.
    eapply emits_weaken; [by apply append_response_line|].
    intros i h' (r' & -> & Hp & Hc). exists r'. split; [done|]. right.
    assert (c_head c1 = id) as Hh.
    { unfold chain_append in Hap. cbn in Hap. apply bind_Ret in Hap as (u & _ & Hap).
      by apply bind_Ret in Hap as (d & _ & [= <- <-]). }
    exists c1, (r_id r), id. unfold chain_get_head in Hp. cbn in Hp, Hc. rewrite Hh in Hp.
    split_and!; [right; by eauto|done|exact Hc].
Qed.

(** Every command, on every role. *)
Lemma handle_line h cmd :
  emitsF (says h (cmd_blocks cmd)) (λ x, ack x = None) (line_next h cmd) (handle_apply h cmd).
Proof.
  destruct h as [r|r|r]; [apply follower_line|apply stays_F, candidate_line|apply stays_F, leader_line].
Qed.
End Node.

(** ** What one event does *)
Section Events.
Context {SLED : Sled} {BINC : Bincode Block} {ENV : Env} {BUILD : Build} {SENV : ServerEnv} {FSM : Fsm}.

(** The command of an event: one that was received, or a tick or a request. *)
Definition event_cmd (e : Event) (cmd : Command) : Prop :=
  applied e = Some cmd ∨ applied e = None ∧ (cmd = Tick ∨ ∃ req, cmd = ClientRequestCmd req).

Definition event_line (e : Event) (h : RaftHandle) (ins : list Instruction) (s' : EventLoop) : Prop :=
  (∃ cmd, event_cmd e cmd ∧ line_next h cmd ins (raft s')) ∨
  event_blocks e = [] ∧ raft s' = h ∧ omap applied_block ins = [].

Lemma event_cmd_blocks e cmd : event_cmd e cmd → cmd_blocks cmd = event_blocks e.
Proof.
  unfold event_cmd, event_blocks. intros [->|[-> [->|[req ->]]]]; done.
Qed.

Lemma loop_apply_line s0 s e cmd :
  raft s0 = raft s → event_cmd e cmd →
  emitsF (says (raft s) (event_blocks e)) (λ x, ack x = None) (event_line e (raft s)) (loop_apply s0 cmd).
Proof.
  intros Hr He w. destruct (handle_line (raft s) cmd w) as (new & ins & Hm & Hi & HP & HQ).
  rewrite (event_cmd_blocks _ _ He) in HP.
  exists new, ins. unfold loop_apply, mbind, SM_bind. rewrite Hr.
  destruct (handle_apply (raft s) cmd w) as [[h|er|] w']; cbn in *; (split_and!; [done..|]); try done.
  left. by exists cmd.
Qed.

Lemma event_loop_line s e :
  emitsF (says (raft s) (event_blocks e)) (λ x, ack x = None) (event_line e (raft s))
    (event_loop_step s e).
Proof.
  assert (∀ m : M EventLoop, event_blocks e = [] → (∀ w, ∃ o, m w = (o, w) ∧ ∀ s', o = Ret s' → raft s' = raft s) →
    emitsF (says (raft s) (event_blocks e)) (λ x, ack x = None) (event_line e (raft s)) m) as Hquiet.
  { intros m He Hm w. destruct (Hm w) as (o & -> & Ho). exists [], []. rewrite !app_nil_r.
    split_and!; [done..|]. destruct o as [s'| |]; cbn; [|by constructor..]. right. split_and!; [done|by apply Ho|done]. }
  destruct e as [|m|m|p c]; cbn [event_loop_step].
  - apply loop_apply_line; [done|]. right. auto.
  - assert (∀ s0, raft s0 = raft s → emitsF (says (raft s) (event_blocks (EvTcp m)))
      (λ x, ack x = None) (event_line (EvTcp m) (raft s)) (loop_apply s0 (msg_command m))) as H.
    { intros s0 Hs0. apply loop_apply_line; [done|]. by left. }
    destruct (msg_to m); [|destruct (msg_command m)|..]; by apply H.
  - destruct (msg_to m) eqn:Hto.
    + apply Hquiet; [by unfold event_blocks; cbn; rewrite Hto|]. intros w. unfold tcp_tx_send. case_match; eexists; split; try done; by intros s' [= <-].
    + apply Hquiet; [by unfold event_blocks; cbn; rewrite Hto|]. intros w. unfold tcp_tx_send. case_match; eexists; split; try done; by intros s' [= <-].
    + apply loop_apply_line; [done|]. left. cbn. by rewrite decide_True.
    + apply Hquiet; [by unfold event_blocks; cbn; rewrite Hto|]. intros w. unfold respond. repeat case_match; eexists; split; try done;
        by intros s' [= <-].
  - eapply (emitsF_bind _ _ silent_of (λ i _, i = [])); [by apply emits_quiet| |].
    { intros x Hx. by apply silent_says. }
    intros i id ->. apply loop_apply_line; [done|]. right. eauto.
Qed.
End Events.
