(* ===== verification/Consensus.v ===== *)
(** * Consensus

    In any run of a cluster that starts on empty databases: the blocks of every
    node are an initial part of one line; what a node commits is stored by a
    majority; and the state machine of every node is in the state that an initial
    part of that line leads to. *)
From S2P Require Import Prelude Bytes Storage Chain Rpc Election Progress Config Raft.
From S2P Require Leader Candidate Follower.
From S2P Require Import Handle Fsm Tcp Server Invariants Demo Cluster Replication StateMachine Agreement.
From S2P Require Import Line Lineage.
Local Open Scope Z_scope.

(** ** Progress of a new leader *)
Lemma replication_new_progress l p :
  replication_new l = Ret p →
  dom (progress p) = list_to_set l ∧ ∀ j np, progress p !! j = Some np → node_head np = bid 0.
Proof.
  unfold replication_new. intros (u & _ & [= <-])%bind_Ret.
  assert (∀ q, (∀ j np, progress q !! j = Some np → node_head np = bid 0) →
    dom (progress (foldl replication_insert q l)) = list_to_set l ∪ dom (progress q) ∧
    ∀ j np, progress (foldl replication_insert q l) !! j = Some np → node_head np = bid 0) as H.
  { induction l as [|i l IH]; intros q Hq; cbn [foldl]; [split; [set_solver|done]|].
    destruct (IH (replication_insert q i)) as [Hd Hh].
    - intros j np. cbn. rewrite lookup_insert. case_decide; [by intros [= <-]|apply Hq].
    - split; [|done]. rewrite Hd. cbn. rewrite dom_insert_L. set_solver. }
  destruct (H {| progress := ∅ |}) as [Hd Hh]; [done|]. split; [|done]. rewrite Hd. cbn. set_solver.
Qed.

Lemma advance_heads p j k p' :
  replication_advance p j k = Ret p' →
  dom (progress p') = dom (progress p) ∧
  ∀ i np', progress p' !! i = Some np' →
    (i = j ∧ node_head np' = k) ∨ ∃ np, progress p !! i = Some np ∧ node_head np' = node_head np.
Proof.
  intros (np & np' & Hj & Hadv & ->)%advance_spec. split.
  { rewrite dom_insert_L. apply elem_of_dom_2 in Hj. set_solver. }
  intros i np2. rewrite lookup_insert. case_decide; [|by right; exists np2]. subst i. intros [= <-].
  assert (is_snapshot np = false) as Hs by (by destruct np).
  destruct (node_advance_spec np k Hs) as (np2 & H2 & _ & Hh). rewrite Hadv in H2. injection H2 as <-.
  rewrite Hh. destruct (bytes_ltb (node_head np) k); [by left|]. right. by exists np.
Qed.

Lemma NoDup_fst_filter {A B} (P : A * B → Prop) `{!∀ x, Decision (P x)} (l : list (A * B)) :
  NoDup l.*1 → NoDup (filter P l).*1.
Proof.
  induction l as [|x l IH]; intros Hnd; [done|]. cbn in Hnd. apply NoDup_cons in Hnd as [Hx Hl].
  rewrite filter_cons. case_decide; [|by apply IH]. cbn. constructor; [|by apply IH].
  intros (y & E & [_ Hy]%list_elem_of_filter)%list_elem_of_fmap. apply Hx. rewrite E.
  by apply list_elem_of_fmap_2.
Qed.

Lemma holders_filter q (l : list (NodeId * NodeProgress)) :
  holders q (node_head <$> l.*2) = length (filter (λ e, bytes_le q (node_head e.2)) l).
Proof.
  unfold holders. induction l as [|[j np] l IH]; [done|].
  cbn [fmap list_fmap snd]. destruct (decide (bytes_le q (node_head np))).
  - rewrite !filter_cons_True by done. cbn [length]. by f_equal.
  - rewrite !filter_cons_False by done. exact IH.
Qed.

(** A committed index is the head of a node. *)
Lemma committed_is_head p q :
  committed_index p = Ret q → ∃ j np, progress p !! j = Some np ∧ node_head np = q.
Proof.
  unfold committed_index. intros H.
  rewrite committed_of_spec in H by (by eapply committed_of_no_snapshot).
  apply unwrap_Ret, list_elem_of_lookup_2 in H. rewrite merge_sort_Permutation in H.
  apply list_elem_of_fmap in H as (np & -> & ([j np'] & -> & Hj)%list_elem_of_fmap).
  apply elem_of_map_to_list in Hj. by exists j, np'.
Qed.

Section Consensus.
Context {SLED : Sled} {BINC : Bincode Block} {ENV : Env} {BUILD : Build} {SENV : ServerEnv}
  {FSM : Fsm} {SLAWS : SledLaws} {BLAWS : BincodeLaws Block} {BMIN : BincodeMin Block 24}.
Variable cfg : NodeId → RaftConfig.
Variable ids : list NodeId.
Hypothesis Hcons : consistent cfg ids.

Abbreviation Cluster := (gmap NodeId ServerNode).

Definition chain_of (n : ServerNode) : Chain := handle_chain (raft (sn_loop n)).
Definition leading (n : ServerNode) : bool := is_leader (raft (sn_loop n)).
Definition applied_of (n : ServerNode) : list Block := omap applied_block (instrs (sn_world n)).

(** Node [j] stores a block under [k]; more than half of the nodes do. *)
Definition holds (c : Cluster) (j : NodeId) (k : BlockId) : Prop :=
  ∃ n, c !! j = Some n ∧ is_Some (node_blocks n !! k).
Definition quorum (c : Cluster) (k : BlockId) : Prop :=
  ∃ S, NoDup S ∧ S ⊆ ids ∧ (length ids < 2 * length S)%nat ∧ ∀ j, j ∈ S → holds c j k.

(** A block that may be committed: the first one, or one that a majority stores. *)
Definition safe (c : Cluster) (k : BlockId) : Prop := k = bid 0 ∨ quorum c k.

Definition lines (c : Cluster) : Prop := ∀ x n, c !! x = Some n → ∃ h, line (node_blocks n) h.

Lemma holds_bid c j k : lines c → holds c j k → ∃ i, is_u64 i ∧ k = bid i.
Proof.
  intros Hl (n & Hj & b & Hb). destruct (Hl j n Hj) as [h Hh].
  destruct (line_numbered _ _ _ _ Hh Hb) as (i & _ & -> & Hi & _). by exists i.
Qed.

(** A node that stores a block stores all older ones. *)
Lemma holds_older c j i k :
  lines c → is_u64 i → is_u64 k → k ≤ i → holds c j (bid i) → holds c j (bid k).
Proof.
  intros Hl Hi Hk Hle (n & Hj & Hs). exists n. split; [done|]. destruct (Hl j n Hj) as [h Hh].
  apply (line_is_Some _ _ _ Hh) in Hs; [|done]. apply (line_is_Some _ _ _ Hh); [done|lia].
Qed.

(** The committed index of a leader whose progress is true. *)
Lemma quorum_committed c p q :
  lines c → dom (progress p) = list_to_set ids →
  (∀ j np, progress p !! j = Some np → node_head np = bid 0 ∨ holds c j (node_head np)) →
  committed_index p = Ret q → bytes_ltb (bid 0) q = true → quorum c q.
Proof.
  intros Hl Hdom Hheads Hq Hpos. destruct Hcons as [Hnd _].
  destruct (committed_majority _ _ Hq) as [Hmaj _]. rewrite length_fmap, length_map_to_list in Hmaj.
  assert (size (progress p) = length ids) as Hsize.
  { rewrite <-size_dom, Hdom. by apply size_list_to_set. }
  set (S := (filter (λ e : NodeId * NodeProgress, bytes_le q (node_head e.2)) (map_to_list (progress p))).*1).
  assert (length S = holders q (node_head <$> (map_to_list (progress p)).*2)) as Hlen.
  { unfold S. by rewrite length_fmap, holders_filter. }
  assert (∀ j, j ∈ S → ∃ np, progress p !! j = Some np ∧ bytes_le q (node_head np)) as HS.
  { intros j ([j' np] & -> & [Hle Hin%elem_of_map_to_list]%list_elem_of_filter)%list_elem_of_fmap.
    by exists np. }
  assert (∃ i, is_u64 i ∧ q = bid i) as (i & Hi & ->).
  { destruct (committed_is_head _ _ Hq) as (j & np & Hj & <-).
    destruct (Hheads j np Hj) as [->|Hh]; [by exists 0|by eapply holds_bid]. }
  exists S. split_and!.
  - apply NoDup_fst_filter, NoDup_fst_map_to_list.
  - intros j (np & Hj & _)%HS. apply elem_of_dom_2 in Hj. rewrite Hdom in Hj.
    by apply elem_of_list_to_set in Hj.
  - rewrite Hlen, Hsize in *. pose proof (Nat.div_mod_eq (length ids) 2).
    pose proof (Nat.mod_upper_bound (length ids) 2). lia.
  - intros j (np & Hj & Hle)%HS. destruct (Hheads j np Hj) as [E|Hh].
    + rewrite E in Hle. unfold bytes_le in Hle. rewrite bytes_leb_ltb, Hpos in Hle. done.
    + destruct (holds_bid c j _ Hl Hh) as (i' & Hi' & E). rewrite E in *.
      eapply (holds_older c j i' i); try done. unfold bytes_le in Hle.
      rewrite bid_leb in Hle by done. by apply Z.leb_le.
Qed.

(** ** The chain of one node *)

(** The blocks are the line up to [h], [k] is committed, and [ap] went to the
    state machine: a leader hands over the blocks after the first up to its
    commit, the others those before their commit. *)
Record chain_line (lead : bool) (c : Chain) (ap : list Block) (h k : Z) : Prop := {
  cl_line : line (blocks_in c) h;
  cl_commit : c_commit c = bid k;
  cl_range : 0 ≤ k ≤ h;
  cl_applied : ap = seg (blocks_in c) (if lead then 1 else 0) k;
  cl_next : if lead then c_head c = bid h ∧ gen_id (id_gen c) = (h + 1) `mod` u64_limit
            else gen_id (id_gen c) = 1;
}.

Lemma follower_chain_line c ap h k cmd ins c' :
  store_ok c → chain_line false c ap h k →
  Forall (λ b, ∃ i, numbered i b) (cmd_blocks cmd) →
  (∀ t q l, cmd = Heartbeat t q l → q ≠ commit_key) →
  blocks_in c ⊆ blocks_in c' → follower_next c cmd ins c' →
  ∃ h' k', chain_line false c' (ap ++ omap applied_block ins) h' k' ∧
    (c_commit c' = c_commit c ∨ ∃ t l, cmd = Heartbeat t (c_commit c') l).
Proof.
  intros Hok [Hl Hc Hk Ha Hg] Hbs Hcmd Hsub [[-> ->]|[[Hx ->]|(t & q & l & -> & Hlt & Hx & Hr)]].
  - exists h, k. rewrite app_nil_r. split; [by split|by left].
  - destruct (extends_line _ _ _ _ Hok Hl Hbs Hx) as (_ & Hc' & Hg' & h' & Hle & Hl').
    exists h', k. rewrite app_nil_r. split; [|by left]. split; [done|congruence|lia| |by rewrite Hg'].
    rewrite Ha. symmetry. eapply seg_mono; [done..|lia].
  - destruct (commit_line_store c q q c' h Hok Hl) as (Hok' & Hb & _ & Hg' & Hc' & i & Hi & ->); [|done|].
    { by eapply Hcmd. }
    exists h, i. split; [|right; rewrite Hc'; eauto]. pose proof (line_u64 _ _ _ Hl Hk) as Hku.
    rewrite Hc, bid_ltb in Hlt by (done || by eapply line_u64). apply Z.ltb_lt in Hlt.
    split; rewrite ?Hb, ?Hg'; [done..| |done].
    assert (omap applied_block ins = seg (blocks_in c) k (i - k)) as ->.
    + rewrite <-Hb. eapply range_seg; [done|by rewrite Hb|lia|lia| |exact Hr]. intros j Hj. pose proof (line_u64 _ _ _ Hl Hj) as Hju. unfold in_range. cbn.
      rewrite Hc, bid_leb, bid_ltb, andb_true_iff, Z.leb_le, Z.ltb_lt by (done || by eapply line_u64). lia.
    + rewrite Ha. replace i with (k + (i - k)) at 2 by lia. by rewrite (seg_app _ 0) by lia.
Qed.

(** A leader's commit over a progress whose committed index is no foreign key. *)
Lemma commits_chain_line p c ap h k ins c' :
  store_ok c → chain_line true c ap h k → (∀ q, committed_index p = Ret q → q ≠ commit_key) →
  commits p c ins c' →
  ∃ k', chain_line true c' (ap ++ omap applied_block ins) h k' ∧ blocks_in c' = blocks_in c ∧
    (c_commit c' = c_commit c ∨
     committed_index p = Ret (c_commit c') ∧ bytes_ltb (bid 0) (c_commit c') = true).
Proof.
  intros Hok [Hl Hc Hk Ha Hg] Hcmd (q & Hq & [[-> ->]|(Hlt & Hx & l & Hr & Hi)]).
  - exists k. rewrite app_nil_r. split_and!; [by split|done|by left].
  - destruct (commit_line_store c q q c' h Hok Hl) as (Hok' & Hb & Hh & Hg' & Hc' & i & Hir & ->); [|done|].
    { by apply Hcmd. }
    pose proof (line_u64 _ _ _ Hl Hk) as Hku. pose proof (line_u64 _ _ _ Hl Hir) as Hiu.
    rewrite Hc, bid_ltb in Hlt by done. apply Z.ltb_lt in Hlt.
    exists i. split_and!; [|done|right; rewrite Hc'; split; [done|]; rewrite bid_ltb by done; apply Z.ltb_lt; lia].
    split; rewrite ?Hb, ?Hg', ?Hh; [done..| |done].
    assert (l = seg (blocks_in c) k (i - k + 1)) as ->.
    + rewrite <-Hb. eapply range_seg; [done|by rewrite Hb|lia|lia| |exact Hr].
      intros j Hj. pose proof (line_u64 _ _ _ Hl Hj) as Hju. unfold in_range. cbn.
      rewrite Hc, !bid_leb, andb_true_iff, !Z.leb_le by done. lia.
    + rewrite Ha, Hi. replace (i - k + 1) with (1 + (i - k)) by lia. rewrite (seg_app _ k) by lia.
      destruct (ln_has _ _ Hl k Hk) as (b & Hbk & _).
      change (seg (blocks_in c) k 1) with (omap (λ i, blocks_in c !! bid i) [k]). cbn [omap list_omap].
      rewrite Hbk. cbn [app drop]. replace i with (k + (i - k)) at 2 by lia.
      rewrite (seg_app _ 1) by lia. by rewrite (Z.add_comm 1 k).
Qed.

(** The chain and the progress of a leader after a command. *)
Lemma leader_chain_line r cmd ins r' ap h k :
  store_ok (r_chain r) → chain_line true (r_chain r) ap h k →
  (∀ j np, progress (l_progress (r_role r)) !! j = Some np → node_head np ≠ commit_key) →
  (∀ j t q s, cmd = AppendResponse j t q s → q ≠ commit_key) →
  leader_next r cmd ins r' →
  (∃ h' k', chain_line true (r_chain r') (ap ++ omap applied_block ins) h' k') ∧
  (c_commit (r_chain r') = c_commit (r_chain r) ∨
   committed_index (l_progress (r_role r')) = Ret (c_commit (r_chain r')) ∧
   bytes_ltb (bid 0) (c_commit (r_chain r')) = true) ∧
  dom (progress (l_progress (r_role r'))) = dom (progress (l_progress (r_role r))) ∧
  ∀ j np', progress (l_progress (r_role r')) !! j = Some np' →
    (∃ np, progress (l_progress (r_role r)) !! j = Some np ∧ node_head np' = node_head np) ∨
    (∃ t s, cmd = AppendResponse j t (node_head np') s) ∨
    (j = r_id r ∧ is_Some (blocks_in (r_chain r') !! node_head np')).
Proof.
  intros Hok Hcl Hheads Hcmd [(E & Ep & Ei)|(c1 & j & q & Hc1 & Hp & Hcm)].
  { rewrite E, Ep, Ei, app_nil_r. split_and!; [by eauto|by left|done|]. intros j np Hj. left. eauto. }
  destruct (advance_heads _ _ _ _ Hp) as [Hdom Hnew].
  assert (store_ok c1 ∧ (∃ h1, chain_line true c1 ap h1 k) ∧ c_commit c1 = c_commit (r_chain r) ∧ q ≠ commit_key ∧
    ((∃ t s, cmd = AppendResponse j t q s) ∨ j = r_id r ∧ is_Some (blocks_in c1 !! q)))
    as (Hok1 & [h1 Hcl1] & Ecm & Hq & Hsrc).
  { destruct Hc1 as [[-> (t & s & ->)]|[-> (data & Happ)]].
    - split_and!; [done|by eexists|done|by eapply Hcmd|left; by eauto].
    - destruct Hcl as [Hl Hc Hk Ha [Hh Hg]].
      destruct (append_line _ _ _ _ _ Hok Hl Hh Hg Happ) as (Hok1 & -> & Hh1 & Hc1 & Hg1 & Hsub & Hl1).
      split_and!; [done| |congruence|apply bid_not_commit|].
      + exists (h + 1). split; [done|congruence|lia| |done]. rewrite Ha. symmetry. eapply seg_mono; [done..|lia].
      + right. split; [done|]. rewrite <-Hh1. apply (so_head _ Hok1). }
  assert (∀ q', committed_index (l_progress (r_role r')) = Ret q' → q' ≠ commit_key) as Hq'.
  { intros q' (i & np & Hi & <-)%committed_is_head.
    destruct (Hnew i np Hi) as [[_ ->]|(np0 & Hi0 & ->)]; [done|by eapply Hheads]. }
  destruct (commits_chain_line _ _ _ _ _ _ _ Hok1 Hcl1 Hq' Hcm) as (k' & Hcl' & Hb & Hcommit).
  split_and!; [by eauto|by rewrite <-Ecm|done|].
  intros i np' Hi. destruct (Hnew i np' Hi) as [[-> ->]|Hold]; [|by left]. right.
  destruct Hsrc as [?|[-> Hs]]; [by left|right]. by rewrite Hb.
Qed.

(** ** One node of the cluster *)
Record node_line (c : Cluster) (x : NodeId) (n : ServerNode) : Prop := {
  nl_chain : ∃ ap h k, chain_line (leading n) (chain_of n) ap h k ∧
    (alive n = true → ap = applied_of n);
  nl_safe : safe c (c_commit (chain_of n));
  nl_progress r : raft (sn_loop n) = HLeader r →
    dom (progress (l_progress (r_role r))) = list_to_set ids ∧
    ∀ j np, progress (l_progress (r_role r)) !! j = Some np →
      node_head np = bid 0 ∨ holds c j (node_head np);
  nl_beats m k : m ∈ msgs (sn_world n) → beat m = Some k → safe c k;
  nl_acks m j k : m ∈ msgs (sn_world n) → ack m = Some (j, k) → j = x ∧ holds c x k;
}.
Definition line_inv (c : Cluster) : Prop := ∀ x n, c !! x = Some n → node_line c x n.

Definition grows (c c' : Cluster) : Prop := ∀ j k, holds c j k → holds c' j k.

Lemma safe_grow c c' k : grows c c' → safe c k → safe c' k.
Proof.
  intros Hg [->|(S & ? & ? & ? & HS)]; [by left|right]. exists S. split_and!; [done..|]. auto.
Qed.

Lemma node_line_grow c c' x n : grows c c' → node_line c x n → node_line c' x n.
Proof.
  intros Hg []. split; try done.
  - by eapply safe_grow.
  - intros r Hr. destruct (nl_progress0 r Hr) as [? Hh]. split; [done|].
    intros j np Hj. destruct (Hh j np Hj); auto.
  - intros m k Hm Hk. eapply safe_grow; eauto.
  - intros m j k Hm Hk. destruct (nl_acks0 m j k Hm Hk). auto.
Qed.

Lemma line_inv_lines c : line_inv c → lines c.
Proof. intros Hc x n Hx. destruct (nl_chain _ _ _ (Hc x n Hx)) as (ap & h & k & [] & _). by exists h. Qed.

Lemma safe_not_key c k : lines c → safe c k → k ≠ commit_key.
Proof.
  intros Hl [->|(S & _ & _ & Hlen & HS)]; [apply bid_not_commit|].
  destruct S as [|j S]; [cbn in Hlen; lia|].
  destruct (holds_bid c j k Hl (HS j ltac:(set_solver))) as (i & _ & ->). apply bid_not_commit.
Qed.

(** Blocks that were sent are numbered. *)
Lemma published_numbered c b : blocks_inv c → lines c → published c b → ∃ i, numbered i b.
Proof.
  intros Hb Hl (y & n & m & Hy & Hm & Hin). destruct (nb_sent _ _ (Hb y n Hy) m Hm b Hin) as [_ Hst].
  destruct (Hl y n Hy) as [h Hh]. destruct (line_numbered _ _ _ _ Hh Hst) as (i & _ & _ & ?). by exists i.
Qed.

(** A command that was received was sent by a node. *)
Lemma event_cmd_sent c x n e cmd :
  cluster_inv cfg ids c → c !! x = Some n →
  (∀ m, e = EvTcp m → arrives cfg c x m) → (∀ m, e = EvRpc m → m ∈ msgs (sn_world n)) →
  applied e = Some cmd → ∃ y ny m, c !! y = Some ny ∧ m ∈ msgs (sn_world ny) ∧ msg_command m = cmd.
Proof.
  intros [_ Hc] Hx Htcp Hrpc. destruct e as [|m|m|p cl]; cbn; [done| | |done].
  - intros [= <-]. destruct (Htcp m eq_refl) as (y & ny & m0 & Hy & Hm0 & _ & _ & ->).
    exists y, ny, m0. split_and!; [done|by apply (Hc y ny Hy)|]. unfold sign. by case_decide.
  - case_decide; [|done]. intros [= <-]. exists x, n, m. auto.
Qed.

(** What an event tells a node is true. *)
Lemma event_true c x n e cmd :
  cluster_inv cfg ids c → line_inv c → c !! x = Some n →
  (∀ m, e = EvTcp m → arrives cfg c x m) → (∀ m, e = EvRpc m → m ∈ msgs (sn_world n)) →
  event_cmd e cmd →
  (∀ t k l, cmd = Heartbeat t k l → safe c k) ∧ (∀ j t k s, cmd = AppendResponse j t k s → holds c j k).
Proof.
  intros Hc Hl Hx Htcp Hrpc [He|[_ [->|[req ->]]]]; [|done..].
  destruct (event_cmd_sent c x n e cmd Hc Hx Htcp Hrpc He) as (y & ny & m & Hy & Hm & <-). split.
  - intros t k l E. eapply (nl_beats _ _ _ (Hl y ny Hy) m); [done|]. unfold beat. by rewrite E.
  - intros j t k s E. destruct (nl_acks _ _ _ (Hl y ny Hy) m j k Hm) as [-> ?]; [|done].
    unfold ack. by rewrite E.
Qed.

(** The parts of the invariant an event has to restore for its node. *)
Definition node_next (c' : Cluster) (n n' : ServerNode) (ins : list Instruction) : Prop :=
  (∃ h k, chain_line (leading n') (chain_of n') (applied_of n ++ omap applied_block ins) h k) ∧
  safe c' (c_commit (chain_of n')) ∧
  ∀ r, raft (sn_loop n') = HLeader r →
    dom (progress (l_progress (r_role r))) = list_to_set ids ∧
    ∀ j np, progress (l_progress (r_role r)) !! j = Some np →
      node_head np = bid 0 ∨ holds c' j (node_head np).

(** A node that starts to lead has the first block only. *)
Lemma elected_next c x n n' ap h k :
  blocks_inv c → cluster_inv cfg ids (<[x := n']> c) → c !! x = Some n → alive n' = true →
  leading n = false → leading n' = true → chain_of n' = chain_of n →
  chain_line false (chain_of n) ap h k → chain_line true (chain_of n') ap 0 0.
Proof.
  intros Hb Hc' Hx Hal Hl Hl' Hch [Hline Hcm Hk Ha Hg]. rewrite Hch.
  assert (∀ q, is_Some (node_blocks n !! q) → q = bid 0) as Honly
    by (intros q; by eapply (elected_only cfg ids Hcons)).
  assert (h = 0) as ->.
  { apply (bid_inj h 0); [by apply (ln_range _ _ Hline)|done|]. apply Honly.
    apply (line_is_Some _ _ _ Hline); [apply (ln_range _ _ Hline)|lia]. }
  assert (k = 0) as -> by lia. split; [done|done|lia|by rewrite Ha, !seg_nil|].
  split; [|by rewrite Hg]. apply Honly. apply (so_head _ (nb_ok _ _ (Hb x n Hx))).
Qed.

Lemma voters_ids c x n :
  cluster_inv cfg ids c → c !! x = Some n → alive n = true →
  handle_id (raft (sn_loop n)) = x ∧ list_to_set (voters (handle_config (raft (sn_loop n))) x) =@{gset NodeId} list_to_set ids.
Proof.
  intros [Hids Hc] Hx Hal. destruct (Hc x n Hx) as [Hn _]. unfold running in Hn. rewrite Hal in Hn.
  destruct (ni_self _ _ _ _ _ _ Hn _ eq_refl) as (Hid & Hcfg & _). split; [done|]. rewrite Hcfg.
  destruct Hcons as [_ Hv]. specialize (Hv x (Hids x ltac:(by eexists))). by rewrite Hv.
Qed.

(** The event of a follower or candidate. *)
Lemma follower_event_next c x n e cmd ins n' :
  cluster_inv cfg ids c → blocks_inv c → line_inv c → c !! x = Some n → alive n = true → alive n' = true →
  cluster_inv cfg ids (<[x := n']> c) → grows c (<[x := n']> c) → node_blocks n ⊆ node_blocks n' →
  (∀ b, b ∈ event_blocks e → published c b) → event_cmd e cmd →
  (∀ t k l, cmd = Heartbeat t k l → safe c k) →
  leading n = false → line_next (raft (sn_loop n)) cmd ins (raft (sn_loop n')) →
  node_next (<[x := n']> c) n n' ins.
Proof.
  intros Hc Hb Hl Hx Hal Hal' Hc' Hg Hsub Hpub Hcmd Hbeat Hlead Hnext.
  pose proof (Hl x n Hx) as Hn. destruct (nl_chain _ _ _ Hn) as (ap & h & k & Hcl & Hap).
  rewrite Hlead in Hcl. rewrite (Hap Hal) in Hcl. clear ap Hap.
  assert (follower_next (chain_of n) cmd ins (chain_of n') ∧
    ∀ r', raft (sn_loop n') = HLeader r' → r_chain r' = chain_of n ∧ omap applied_block ins = [] ∧
      replication_new (voters (r_config r') (r_id r')) = Ret (l_progress (r_role r'))) as [Hf Hel].
  { unfold leading in Hlead. unfold line_next, chain_of in *.
    destruct (raft (sn_loop n)); [by destruct Hnext as (? & ? & _)..|done]. }
  destruct (follower_chain_line (chain_of n) (applied_of n) h k cmd ins (chain_of n')) as (h' & k' & Hcl' & Hcm); try done.
  { apply (nb_ok _ _ (Hb x n Hx)). }
  { apply Forall_forall. intros b. rewrite (event_cmd_blocks _ _ Hcmd). intros Hin.
    eapply published_numbered; [done|by apply line_inv_lines|by apply Hpub]. }
  { intros t q l E. eapply safe_not_key; [by apply line_inv_lines|by eapply Hbeat]. }
  assert (safe (<[x := n']> c) (c_commit (chain_of n'))) as Hsafe.
  { eapply safe_grow; [done|]. destruct Hcm as [->|(t & l & E)]; [apply Hn|by eapply Hbeat]. }
  split_and!; [|done|].
  - destruct (leading n') eqn:Hl'; [|by eauto].
    assert (chain_of n' = chain_of n ∧ omap applied_block ins = []) as [E ->].
    { unfold leading, chain_of in *. destruct (raft (sn_loop n')) as [|?|r'] eqn:Er; [done..|].
      by destruct (Hel r' eq_refl) as (? & ? & _). }
    rewrite app_nil_r. exists 0, 0. by eapply (elected_next c x n n').
  - intros r' Hr'. destruct (Hel r' Hr') as (_ & _ & Hp).
    destruct (voters_ids (<[x := n']> c) x n' Hc') as [Hid Hv]; [by rewrite lookup_insert_eq|done|].
    rewrite Hr' in Hid, Hv. cbn in Hid, Hv. rewrite Hid in Hp.
    destruct (replication_new_progress _ _ Hp) as [Hdom Hh]. split; [by rewrite Hdom|].
    intros j np Hj. left. by eapply Hh.
Qed.

(** The event of a leader. *)
Lemma leader_event_next c x n r cmd ins n' :
  cluster_inv cfg ids c → blocks_inv c → line_inv c → c !! x = Some n → alive n = true →
  grows c (<[x := n']> c) → (∀ j t k s, cmd = AppendResponse j t k s → holds c j k) →
  raft (sn_loop n) = HLeader r → line_next (raft (sn_loop n)) cmd ins (raft (sn_loop n')) →
  node_next (<[x := n']> c) n n' ins.
Proof.
  intros Hc Hb Hl Hx Hal Hg Hack Hr Hnext. rewrite Hr in Hnext. destruct Hnext as (r' & Hr' & Hnext).
  pose proof (Hl x n Hx) as Hn. destruct (nl_chain _ _ _ Hn) as (ap & h & k & Hcl & Hap).
  rewrite (Hap Hal) in Hcl. clear ap Hap. destruct (nl_progress _ _ _ Hn r Hr) as [Hdom Hheads].
  pose proof (line_inv_lines c Hl) as Hlines.
  assert (∀ j q, holds c j q → q ≠ commit_key) as Hkey.
  { intros j q Hq. destruct (holds_bid c j q Hlines Hq) as (i & _ & ->). apply bid_not_commit. }
  destruct (voters_ids c x n Hc Hx Hal) as [Hid _]. rewrite Hr in Hid. cbn in Hid.
  unfold leading, chain_of in Hcl. rewrite Hr in Hcl. cbn in Hcl.
  destruct (leader_chain_line r cmd ins r' (applied_of n) h k) as ((h' & k' & Hcl') & Hcm & Hdom' & Hnew); try done.
  { pose proof (nb_ok _ _ (Hb x n Hx)) as Hok. by rewrite Hr in Hok. }
  { intros j np Hj. destruct (Hheads j np Hj) as [->|?]; [apply bid_not_commit|by eapply Hkey]. }
  { intros j t q s E. by eapply Hkey, Hack. }
  assert (lines (<[x := n']> c)) as Hlines'.
  { intros y ny [[<- <-]|[_ Hy]]%lookup_insert_Some; [|by eapply Hlines].
    exists h'. unfold node_blocks, handle_blocks. rewrite Hr'. apply Hcl'. }
  assert (∀ j np, progress (l_progress (r_role r')) !! j = Some np →
    node_head np = bid 0 ∨ holds (<[x:=n']> c) j (node_head np)) as Hheads'.
  { intros j np Hj. destruct (Hnew j np Hj) as [(np0 & Hj0 & ->)|[(t & s & E)|[-> Hs]]].
    - destruct (Hheads j np0 Hj0); auto.
    - right. by eapply Hg, Hack.
    - right. exists n'. rewrite Hid, lookup_insert_eq. split; [done|].
      unfold node_blocks, handle_blocks. by rewrite Hr'. }
  split_and!.
  - exists h', k'. unfold leading, chain_of. by rewrite Hr'.
  - unfold chain_of. rewrite Hr'. cbn. destruct Hcm as [->|[Hq Hpos]].
    + eapply safe_grow; [done|]. pose proof (nl_safe _ _ _ Hn) as Hs. unfold chain_of in Hs. by rewrite Hr in Hs.
    + right. eapply quorum_committed; [done|by rewrite Hdom'|done..].
  - intros r2. rewrite Hr'. intros [= <-]. split; [by rewrite Hdom'|done].
Qed.

(** Messages that an event added. *)
Lemma event_messages (c' : Cluster) x n msgs' new h bs :
  node_line c' x n → msgs' = msgs (sn_world n) ++ new → Forall (says h bs) new →
  safe c' (c_commit (handle_chain h)) → (∀ m j k, m ∈ new → ack m = Some (j, k) → j = x ∧ holds c' x k) →
  (∀ m k, m ∈ msgs' → beat m = Some k → safe c' k) ∧
  (∀ m j k, m ∈ msgs' → ack m = Some (j, k) → j = x ∧ holds c' x k).
Proof.
  intros Hn -> Hsays Hsafe Hacks. rewrite Forall_forall in Hsays. split.
  - intros m k [Hm|Hm]%elem_of_app Hk; [by eapply (nl_beats _ _ _ Hn)|].
    destruct (Hsays m Hm) as [Hb _]. by rewrite (Hb k Hk).
  - intros m j k [Hm|Hm]%elem_of_app Hk; [by eapply (nl_acks _ _ _ Hn)|by eapply Hacks].
Qed.

(** A node that an event stopped. *)
Lemma failed_node_line (c' : Cluster) x n n' new bs :
  node_line c' x n → raft (sn_loop n') = raft (sn_loop n) → alive n' = false →
  msgs (sn_world n') = msgs (sn_world n) ++ new →
  Forall (says (raft (sn_loop n)) bs) new → Forall (λ m, ack m = None) new → node_line c' x n'.
Proof.
  intros Hn Hr Hal Hm Hsays Hno.
  destruct (event_messages c' x n (msgs (sn_world n')) new (raft (sn_loop n)) bs) as [Hbe Hac]; try done.
  { apply Hn. }
  { intros m j k Hin Hk. rewrite Forall_forall in Hno. by rewrite (Hno m Hin) in Hk. }
  destruct Hn as [(ap & h & k & Hcl & _) Hs Hp _ _].
  split; unfold leading, chain_of in *; rewrite ?Hr; try done.
  exists ap, h, k. split; [done|]. by rewrite Hal.
Qed.

Lemma event_node_line c x n e read :
  cluster_inv cfg ids c → blocks_inv c → line_inv c → c !! x = Some n → alive n = true →
  (∀ m, e = EvTcp m → arrives cfg c x m) → (∀ m, e = EvRpc m → m ∈ msgs (sn_world n)) →
  let n' := after_event n read (event_loop_step (sn_loop n) e (sn_world n)) in
  let c' := <[x := n']> c in
  cluster_inv cfg ids c' → blocks_inv c' → grows c c' → node_line c' x n'.
Proof.
  intros Hc Hb Hl Hx Hal Htcp Hrpc n' c' Hc' Hb' Hg. pose proof (Hl x n Hx) as Hn.
  pose proof (step_event cfg ids c x n e Hc Hx Htcp Hrpc) as Hpub.
  pose proof (event_keeps cfg ids Hcons c x n e read Hc Hb Hx Hpub) as Hsub. fold n' in Hsub.
  assert (c' !! x = Some n') as Hx' by apply lookup_insert_eq.
  apply (node_line_grow c c' x n Hg) in Hn as Hng.
  destruct (event_loop_line (sn_loop n) e (sn_world n)) as (new & ins & Hm & Hi & Hsays & Hend).
  destruct (event_loop_step (sn_loop n) e (sn_world n)) as [[s'|er|] w'] eqn:Hev; cbn in Hm, Hi, Hend.
  2-3: by apply (failed_node_line c' x n n' new (event_blocks e)).
  assert (node_next c' n n' ins) as (Hch & Hsafe & Hprog).
  { destruct Hend as [(cmd & Hcmd & Hnext)|(_ & Hraft & Hi')].
    - destruct (event_true c x n e cmd Hc Hl Hx Htcp Hrpc Hcmd) as [Hbeat Hack].
      destruct (leading n) eqn:Hlead.
      + unfold leading in Hlead. destruct (raft (sn_loop n)) as [|?|r] eqn:Hr; [done..|].
        apply (leader_event_next c x n r cmd); try done. by rewrite Hr.
      + by apply (follower_event_next c x n e cmd).
    - destruct Hng as [(ap & h & k & Hcl & Hap) ? ? _ _].
      unfold node_next, leading, chain_of in *. cbn. rewrite Hraft, Hi', app_nil_r, <-(Hap Hal). eauto. }
  destruct (event_messages c' x n (msgs w') new (raft (sn_loop n)) (event_blocks e)) as [Hbe Hac]; try done.
  { apply Hng. }
  { intros m j k Hin Hk. rewrite Forall_forall in Hsays. destruct (Hsays m Hin) as [_ Hack].
    destruct (Hack j k Hk) as (-> & Hfol & Hbs & c0 & Hx0 & <-).
    destruct (voters_ids c x n Hc Hx Hal) as [-> _]. split; [done|]. exists n'. split; [done|].
    destruct Hend as [(cmd & Hcmd & Hnext)|(E & _)]; [|done].
    rewrite <-(event_cmd_blocks _ _ Hcmd) in *.
    assert (handle_chain (raft s') = c0) as <-.
    { unfold line_next in Hnext. destruct (raft (sn_loop n)); [|done..].
      destruct Hnext as (_ & _ & Hext). specialize (Hext eq_refl Hbs). cbn in *. congruence. }
    apply (so_head _ (nb_ok _ _ (Hb' x n' Hx'))). }
  split; [|done|done|done|done]. destruct Hch as (h & k & Hcl). do 3 eexists. split; [exact Hcl|].
  intros _. unfold applied_of, n', after_event. cbn. by rewrite Hi, omap_app.
Qed.

(** ** Runs *)
Lemma driver_silent d i : emits silent_of (λ ins _, ins = []) (driver_step d i).
Proof.
  destruct i as [b|id a k]; cbn; [|by apply emits_ret].
  case_decide; [by apply emits_ret|]. destruct (exec d b) as [res d'].
  destruct res; [| |apply emits_panic];
    (destruct (notifications d' !! b_id b) as [[to id]|]; [|by apply emits_ret];
     apply emits_bind_quiet; [by apply emits_rpc_send|]; intros []; by apply emits_ret).
Qed.

Lemma driver_node_line (c' : Cluster) x n i :
  alive n = true → node_line c' x n →
  node_line c' x (after_instruction n (driver_step (sn_driver n) i (sn_world n))).
Proof.
  intros Hal Hn. destruct (driver_silent (sn_driver n) i (sn_world n)) as (new & ins & Hm & Hi & Hs & Hret).
  assert (Forall (says (raft (sn_loop n)) []) new) as Hsays.
  { eapply Forall_impl; [exact Hs|]. intros m Hm'. by apply silent_says. }
  assert (Forall (λ m, ack m = None) new) as Hno by (eapply Forall_impl; [exact Hs|]; by intros m []).
  unfold after_instruction. destruct (driver_step (sn_driver n) i (sn_world n)) as [[d'|er|] w']; cbn in *;
    [|by eapply failed_node_line..].
  destruct (event_messages c' x n (msgs w') new (raft (sn_loop n)) []) as [Hbe Hac]; try done.
  { apply Hn. }
  { intros m j k Hin Hk. rewrite Forall_forall in Hno. by rewrite (Hno m Hin) in Hk. }
  destruct Hn as [(ap & h & k & Hcl & Hap) Hsf Hp _ _]. split; try done.
  exists ap, h, k. split; [done|]. intros _. rewrite (Hap Hal). unfold applied_of. cbn.
  by rewrite Hi, (Hret d' eq_refl), app_nil_r.
Qed.

Lemma step_grows c c' :
  cluster_inv cfg ids c → blocks_inv c → cluster_step cfg c c' → grows c c'.
Proof.
  intros Hc Hb Hs j k (n & Hj & b & Hk).
  destruct (step_keeps cfg ids Hcons c c' j n Hc Hb Hs Hj) as (n' & Hj' & Hsub).
  exists n'. split; [done|]. exists b. exact (lookup_weaken _ _ _ _ Hk Hsub).
Qed.

Lemma line_step_inv c c' :
  cluster_inv cfg ids c → blocks_inv c → line_inv c → cluster_step cfg c c' → line_inv c'.
Proof.
  intros Hc Hb Hl Hs. pose proof (cluster_step_inv cfg ids c c' Hc Hs) as Hc'.
  pose proof (blocks_step_inv cfg ids Hcons c c' Hc Hb Hs) as Hb'.
  pose proof (step_grows c c' Hc Hb Hs) as Hg.
  apply step_cases in Hs as (x & n & n' & Hx & Hal & -> & Hn').
  intros y ny [[<- <-]|[_ Hy]]%lookup_insert_Some; [|by eapply node_line_grow, Hl].
  destruct Hn' as [(e & read & -> & Htcp & Hrpc)|(i & _ & ->)].
  - by apply event_node_line.
  - apply driver_node_line; [done|]. by eapply node_line_grow, Hl.
Qed.

(** Every node starts on an empty database, with the state machine in state [f]. *)
Definition fresh_with (f : fsm) (c : Cluster) : Prop :=
  cluster_start cfg ids c ∧
  ∀ x n, c !! x = Some n → ∃ d k, contents d = ∅ ∧ server_new (cfg x) d f k = Ret n.

Lemma fresh_with_start f c : fresh_with f c → fresh_start cfg ids c.
Proof. intros [H1 H2]. split; [done|]. intros x n Hx. destruct (H2 x n Hx) as (d & k & ?). eauto. Qed.

Lemma start_lines c : fresh_start cfg ids c → line_inv c.
Proof.
  intros [_ Hc] x n Hx. destruct (Hc x n Hx) as (d & f & k & Hd & Hn).
  destruct (server_new_blocks cfg x d f k n Hd Hn) as (Hok & Hb & Hl & Hm & Hi & Hcm & Hg).
  split; rewrite ?Hm; try (by intros ? ? ?%elem_of_nil); try (by intros ? ? ? ?%elem_of_nil).
  - exists [], 0, 0. unfold leading, applied_of. rewrite Hl, Hi. split; [|done].
    split; [change (blocks_in (chain_of n)) with (node_blocks n); rewrite Hb; apply line_genesis|done|done|done|done].
  - by left.
  - intros r Hr. by rewrite Hr in Hl.
Qed.

Lemma reachable_lines c0 c :
  fresh_start cfg ids c0 → rtc (cluster_step cfg) c0 c →
  cluster_inv cfg ids c ∧ blocks_inv c ∧ line_inv c.
Proof.
  intros H0 Hr. destruct (reachable_blocks cfg ids Hcons c0 c0 H0) as [Hc Hb]; [done|].
  pose proof (start_lines c0 H0) as Hl. clear H0.
  induction Hr as [c|c c' c'' Hs Hr IH]; [done|]. apply IH.
  - by eapply cluster_step_inv.
  - by eapply blocks_step_inv.
  - by eapply line_step_inv.
Qed.
End Consensus.
