(* ===== verification/Replicated.v ===== *)
(** * The replicated state machine

    What a cluster promises as a whole: what a node committed is stored by a
    majority, and all nodes run one state machine over one log. *)
From S2P Require Import Prelude Bytes Storage Chain Rpc Election Progress Config Raft.
From S2P Require Leader Candidate Follower.
From S2P Require Import Handle Fsm Tcp Server Invariants Demo Cluster Replication StateMachine Agreement.
From S2P Require Import Line Lineage Consensus.
Local Open Scope Z_scope.

(** ** Lists that are initial parts of one list *)
Lemma prefix_take_eq {A} (l l' : list A) : l `prefix_of` l' → l = take (length l) l'.
Proof. intros [k ->]. by rewrite take_app_length. Qed.

Lemma chain_of_prefixes {A} (L : list (list A)) :
  (∀ l l', l ∈ L → l' ∈ L → l `prefix_of` l' ∨ l' `prefix_of` l) →
  ∃ top, (top ∈ L ∨ top = []) ∧ ∀ l, l ∈ L → l `prefix_of` top.
Proof.
  induction L as [|l L IH]; intros Hcmp.
  { exists []. split; [by right|]. by intros l ?%elem_of_nil. }
  destruct IH as (top & Htop & Hall). { intros l1 l2 H1 H2. apply Hcmp; by apply list_elem_of_further. }
  assert (l `prefix_of` top ∨ top `prefix_of` l) as [Hle|Hle].
  { destruct Htop as [Htop| ->]; [|right; apply prefix_nil].
    apply Hcmp; [apply list_elem_of_here|by apply list_elem_of_further]. }
  - exists top. split; [destruct Htop; [left; by apply list_elem_of_further|by right]|].
    intros l' [->|?]%elem_of_cons; auto.
  - exists l. split; [left; apply list_elem_of_here|].
    intros l' [->|?]%elem_of_cons; [done|]. etrans; [by apply Hall|done].
Qed.

Lemma prefix_filter {A} (P : A → Prop) `{!∀ x, Decision (P x)} (l l' : list A) :
  l `prefix_of` l' → filter P l `prefix_of` filter P l'.
Proof. intros [k ->]. rewrite filter_app. by eexists. Qed.

Section Replicated.
Context {SLED : Sled} {BINC : Bincode Block} {ENV : Env} {BUILD : Build} {SENV : ServerEnv}
  {FSM : Fsm} {SLAWS : SledLaws} {BLAWS : BincodeLaws Block} {BMIN : BincodeMin Block 24}.
Variable cfg : NodeId → RaftConfig.
Variable ids : list NodeId.
Hypothesis Hcons : consistent cfg ids.

Abbreviation Cluster := (gmap NodeId ServerNode).

(** More than half of the members store the block. *)
Definition on_majority (c : Cluster) (b : Block) : Prop :=
  ∃ S, NoDup S ∧ S ⊆ ids ∧ (length ids < 2 * length S)%nat ∧
    ∀ j, j ∈ S → ∃ n, c !! j = Some n ∧ node_blocks n !! b_id b = Some b.

Lemma quorum_majority c x n b :
  cluster_inv cfg ids c → blocks_inv c → c !! x = Some n → node_blocks n !! b_id b = Some b →
  quorum ids c (b_id b) → on_majority c b.
Proof.
  intros Hc Hb Hx Hst (S & HS1 & HS2 & HS3 & Hall). exists S. split_and!; [done..|].
  intros j (nj & Hj & b' & Hb')%Hall. exists nj. split; [done|].
  by assert (b' = b) as -> by by apply (stored_agree cfg ids Hcons c j x nj n (b_id b)).
Qed.

(** The block numbered [i], not the first, of a node that committed [k] or more. *)
Lemma committed_majority_at c x n ap h k i b :
  cluster_inv cfg ids c → blocks_inv c → line_inv ids c → c !! x = Some n →
  chain_line (leading n) (chain_of n) ap h k → 0 < i ≤ k → node_blocks n !! bid i = Some b →
  on_majority c b.
Proof.
  intros Hc Hb Hl Hx [Hline Hcm Hk _ _] Hi Hst.
  destruct (line_numbered _ _ _ _ Hline Hst) as (j & Hj & E & _ & Hid & _).
  pose proof (line_u64 _ _ i Hline ltac:(lia)) as Hiu. pose proof (line_u64 _ _ k Hline ltac:(lia)) as Hku.
  pose proof (line_u64 _ _ j Hline ltac:(lia)) as Hju.
  apply bid_inj in E as <-; [|done..].
  apply (quorum_majority c x n); [done..|by rewrite Hid|]. rewrite Hid.
  destruct (nl_safe _ _ _ _ (Hl x n Hx)) as [E|(S & ? & ? & ? & HS)]; rewrite Hcm in *.
  { apply bid_inj in E; [lia|done|done]. }
  exists S. split_and!; [done..|]. intros y Hy%HS. eapply (holds_older c y k i); try done; [|lia].
  by eapply line_inv_lines.
Qed.

(** ** The driver of a node *)

(** It has run the instructions it took. *)
Definition driver_ok (f : fsm) (n : ServerNode) : Prop :=
  alive n = true → (fsm_read n ≤ length (instrs (sn_world n)))%nat ∧
    d_fsm (sn_driver n) = fsm_fold f (moves (take (fsm_read n) (instrs (sn_world n)))).
Definition drivers_ok (f : fsm) (c : Cluster) : Prop := ∀ x n, c !! x = Some n → driver_ok f n.

Lemma driver_ok_event f n e read :
  alive n = true → driver_ok f n →
  driver_ok f (after_event n read (event_loop_step (sn_loop n) e (sn_world n))).
Proof.
  intros Hal Hn. destruct (Hn Hal) as [Hle Hd].
  destruct (event_loop_line (sn_loop n) e (sn_world n)) as (new & ins & _ & Hi & _).
  unfold driver_ok, after_event. destruct (event_loop_step (sn_loop n) e (sn_world n)) as [[s'|er|] w'];
    cbn in *; [intros _|done..]. rewrite Hi, length_app, take_app_le by done. split; [lia|done].
Qed.

Lemma driver_ok_instruction f n i :
  alive n = true → driver_ok f n → instrs (sn_world n) !! fsm_read n = Some i →
  driver_ok f (after_instruction n (driver_step (sn_driver n) i (sn_world n))).
Proof.
  intros Hal Hn Hi. destruct (Hn Hal) as [Hle Hd].
  destruct (driver_silent (sn_driver n) i (sn_world n)) as (new & ins & _ & Hins & _ & Hret).
  unfold driver_ok, after_instruction.
  destruct (driver_step (sn_driver n) i (sn_world n)) as [[d'|er|] w'] eqn:Hs;
    cbn [fst snd alive sn_world sn_driver fsm_read] in *; [intros _|done..].
  rewrite Hins, (Hret d' eq_refl), app_nil_r. split; [by apply lookup_lt_Some in Hi|].
  rewrite (take_S_r _ _ _ Hi), moves_app. apply driver_step_state in Hs as ->. rewrite Hd.
  unfold fsm_fold. by rewrite foldl_app.
Qed.

Lemma reachable_drivers f c0 c :
  fresh_with cfg ids f c0 → rtc (cluster_step cfg) c0 c → drivers_ok f c.
Proof.
  intros [_ H0] Hr.
  assert (drivers_ok f c0) as Hd.
  { intros x n Hx _. destruct (H0 x n Hx) as (d & k & Hd & Hn).
    assert (sn_driver n = driver_new f ∧ fsm_read n = 0%nat) as [-> ->].
    { unfold server_new in Hn. destruct (handle_new _ _ _) as [o w']. by apply bind_Ret in Hn as (h & _ & [= <-]). }
    split; [lia|done]. }
  clear H0. induction Hr as [c|c c' c'' Hs Hr IH]; [done|]. apply IH. clear IH Hr.
  apply step_cases in Hs as (x & n & n' & Hx & Hal & -> & Hn').
  intros y ny [[<- <-]|[_ Hy]]%lookup_insert_Some; [|by eapply Hd].
  destruct Hn' as [(e & read & -> & _)|(i & Hi & ->)].
  - apply driver_ok_event; [done|by eapply Hd].
  - apply driver_ok_instruction; [done|by eapply Hd|done].
Qed.

(** What a node whose commit is [k] hands to its machine: a leader all blocks up
    to its commit, the others those before it. *)
Definition handed_over (lead : bool) (k : Z) : Z := if lead then k else Z.max 0 (k - 1).

(** The blocks that moved the machine of a node are the first ones of its line. *)
Lemma driver_moves f c x n :
  line_inv ids c → driver_ok f n → c !! x = Some n → alive n = true →
  ∃ h k, chain_line (leading n) (chain_of n) (applied_of n) h k ∧
    moves (instrs (sn_world n)) = seg (node_blocks n) 1 (handed_over (leading n) k) ∧
    moves (take (fsm_read n) (instrs (sn_world n))) `prefix_of` moves (instrs (sn_world n)).
Proof.
  intros Hl Hd Hx Hal. destruct (nl_chain _ _ _ _ (Hl x n Hx)) as (ap & h & k & Hcl & Hap).
  rewrite (Hap Hal) in Hcl. exists h, k. split_and!; [done| |].
  - change (moves (instrs (sn_world n))) with (filter (λ b, b_id b ≠ bid 0) (applied_of n)).
    pose proof Hcl as [Hline _ Hk Ha _]. rewrite Ha.
    change (blocks_in (chain_of n)) with (node_blocks n) in *.
    destruct (leading n); [by apply (seg_filter _ h)|by apply (seg_filter_first _ h)].
  - rewrite <-(take_drop (fsm_read n) (instrs (sn_world n))) at 2. rewrite moves_app. by eexists.
Qed.

(** ** One log *)
Lemma lines_comparable c x y nx ny hx hy :
  cluster_inv cfg ids c → blocks_inv c → c !! x = Some nx → c !! y = Some ny →
  line (node_blocks nx) hx → line (node_blocks ny) hy → hx ≤ hy →
  seg (node_blocks nx) 1 hx `prefix_of` seg (node_blocks ny) 1 hy.
Proof.
  intros Hc Hb Hx Hy Hlx Hly Hle. pose proof (ln_range _ _ Hlx) as [Hpos _].
  replace (seg (node_blocks nx) 1 hx) with (seg (node_blocks ny) 1 hx); [apply seg_prefix; lia|].
  apply omap_ext_in. intros i Hi%elem_of_seqZ.
  destruct (ln_has _ _ Hlx i) as (bx & Hbx & _); [lia|]. destruct (ln_has _ _ Hly i) as (b & Hby & _); [lia|].
  rewrite Hbx, Hby. f_equal. symmetry. by apply (stored_agree cfg ids Hcons c x y nx ny (bid i)).
Qed.

Lemma one_log c :
  cluster_inv cfg ids c → blocks_inv c → line_inv ids c →
  ∃ log : list Block,
    (∀ i b, log !! i = Some b → numbered (Z.of_nat i + 1) b) ∧
    ∀ x n h, c !! x = Some n → line (node_blocks n) h → seg (node_blocks n) 1 h `prefix_of` log.
Proof.
  intros Hc Hb Hl.
  assert (∀ x n, c !! x = Some n → line (node_blocks n) (Z.of_nat (size (node_blocks n)) - 1)) as Hsize.
  { intros x n Hx. destruct (line_inv_lines ids c Hl x n Hx) as [h Hh]. 
    assert (size (node_blocks n) = Z.to_nat (h + 1)) as ->; [|pose proof (ln_range _ _ Hh) as []; by replace (Z.of_nat (Z.to_nat (h + 1)) - 1) with h by lia].
    by apply line_size. }
  set (log_of n := seg (node_blocks n) 1 (Z.of_nat (size (node_blocks n)) - 1)).
  destruct (chain_of_prefixes (log_of <$> (map_to_list c).*2)) as (log & Hin & Hall).
  - intros l l' (n & -> & ([x n'] & -> & Hx%elem_of_map_to_list)%list_elem_of_fmap)%list_elem_of_fmap
      (m & -> & ([y m'] & -> & Hy%elem_of_map_to_list)%list_elem_of_fmap)%list_elem_of_fmap. cbn [snd] in *.
    pose proof (Hsize x n' Hx). pose proof (Hsize y m' Hy).
    destruct (Z.le_ge_cases (Z.of_nat (size (node_blocks n')) - 1) (Z.of_nat (size (node_blocks m')) - 1));
      [left; by apply (lines_comparable c x y)|right; by apply (lines_comparable c y x)].
  - exists log. split.
    + destruct Hin as [(n & -> & ([x n'] & -> & Hx%elem_of_map_to_list)%list_elem_of_fmap)%list_elem_of_fmap| ->]; [|done].
      intros i b Hi. cbn [snd] in *. pose proof (Hsize x n' Hx) as Hh.
      destruct (seg_lookup _ _ 1 (Z.of_nat (size (node_blocks n')) - 1) i b Hh) as [_ Hn]; [lia..|done|].
      by rewrite Z.add_comm.
    + intros x n h Hx Hh. etrans; [|apply Hall, (list_elem_of_fmap_2 log_of), list_elem_of_fmap].
      * pose proof (Hsize x n Hx) as Hh'. apply (lines_comparable c x x); try done.
        rewrite (line_size _ _ Hh). pose proof (ln_range _ _ Hh) as []. lia.
      * exists (x, n). split; [done|]. by apply elem_of_map_to_list.
Qed.

(** The blocks of a node as an initial part of the log. *)
Lemma node_of_log c x n h log :
  blocks_inv c → c !! x = Some n → line (node_blocks n) h → seg (node_blocks n) 1 h `prefix_of` log →
  node_blocks n = list_to_map ((λ b, (b_id b, b)) <$> genesis :: take (Z.to_nat h) log).
Proof.
  intros Hb Hx Hh Hpre. pose proof (ln_range _ _ Hh) as [Hpos _].
  destruct (line_entries _ _ Hh) as [_ E]. cbv zeta in E. rewrite E at 1. do 2 f_equal.
  apply prefix_take_eq in Hpre. rewrite (seg_length _ h) in Hpre by (done || lia). rewrite <-Hpre.
  rewrite (Z.add_comm h 1), seg_app by lia. unfold seg at 1. change (seqZ 0 1) with [0].
  cbn [omap list_omap]. by rewrite (nb_genesis _ _ (Hb x n Hx)).
Qed.

(** C4: what is committed is on a majority.  In any run of a cluster that starts
    with empty databases and whose nodes all know the same members, with messages
    delayed, reordered, repeated and lost at will and nodes failing at any point,
    every block after the genesis block and up to the commit of a node, leader or not,
    running or failed, is stored by more than half of the members.  A failed node
    counts with what it held before the event in which it failed. *)
Theorem committed_on_majority c0 c x n b :
  fresh_start cfg ids c0 → rtc (cluster_step cfg) c0 c → c !! x = Some n →
  node_blocks n !! b_id b = Some b → b_id b ≠ BlockId_new 0 →
  bytes_leb (b_id b) (chain_get_commit (chain_of n)) = true → on_majority c b.
Proof.
  intros H0 Hr Hx Hst Hne Hle. destruct (reachable_lines cfg ids Hcons c0 c H0 Hr) as (Hc & Hb & Hl).
  destruct (nl_chain _ _ _ _ (Hl x n Hx)) as (ap & h & k & Hcl & _). pose proof Hcl as [Hline Hcm Hk _ _].
  destruct (line_numbered _ _ _ _ Hline Hst) as (i & Hi & Ei & _). unfold chain_get_commit in Hle.
  rewrite Hcm, Ei, bid_leb in Hle by (eapply line_u64; [done|lia]). apply Z.leb_le in Hle.
  eapply (committed_majority_at c x n ap h k i); try done; [|by rewrite <-Ei].
  destruct (decide (i = 0)) as [->|]; [done|lia].
Qed.

(** C1: the replicated state machine.  In any such run there is one log of blocks,
    numbered from 1 and each pointing to the one before, such that every node,
    running or failed (then before the event in which it failed), stores the genesis
    block and an initial part of the log and nothing else; and the state machine of every running node is in the state that
    an initial part of the log leads to from the initial state, all of it stored by
    more than half of the members.  Once its driver has worked through its
    instructions, that part ends at the commit of a leader, and one block before
    the commit of any other node. *)
Theorem replicated_state_machine f c0 c :
  fresh_with cfg ids f c0 → rtc (cluster_step cfg) c0 c →
  ∃ log : list Block,
    (∀ i b, log !! i = Some b →
       b_id b = BlockId_new (Z.of_nat i + 1) ∧ b_next b = BlockId_new (Z.of_nat i)) ∧
    ∀ x n, c !! x = Some n →
      (∃ h, node_blocks n = list_to_map ((λ b, (b_id b, b)) <$> genesis :: take h log)) ∧
      (alive n = true → ∃ k,
        d_fsm (sn_driver n) = fsm_fold f (take k log) ∧
        (∀ b, b ∈ take k log → on_majority c b) ∧
        (fsm_read n = length (instrs (sn_world n)) →
         ∃ q, is_u64 q ∧ chain_get_commit (chain_of n) = BlockId_new q ∧ Z.of_nat k = handed_over (leading n) q)).
Proof.
  intros H0 Hr. destruct (reachable_lines cfg ids Hcons c0 c) as (Hc & Hb & Hl); [by eapply fresh_with_start|done|].
  pose proof (reachable_drivers f c0 c H0 Hr) as Hd. destruct (one_log c Hc Hb Hl) as (log & Hnum & Hlog).
  exists log. split.
  { intros i b (_ & Hid & Hnx)%Hnum. split; [done|]. by replace (Z.max 0 (Z.of_nat i + 1 - 1)) with (Z.of_nat i) in Hnx by lia. }
  intros x n Hx. destruct (line_inv_lines ids c Hl x n Hx) as [h Hh].
  split; [exists (Z.to_nat h); by eapply node_of_log; [..|by eapply Hlog]|]. intros Hal.
  destruct (driver_moves f c x n Hl (Hd x n Hx) Hx Hal) as (h' & q & Hcl & Hmv & Hpre).
  pose proof Hcl as [Hline Hcm Hq _ _]. destruct (Hd x n Hx Hal) as [_ Hst]. rewrite Hst.
  assert (0 ≤ handed_over (leading n) q ≤ q) as Hle by (unfold handed_over; case_match; lia).
  exists (length (moves (take (fsm_read n) (instrs (sn_world n))))). rewrite <-prefix_take_eq; [split_and!|].
  - done.
  - intros b Hin. eapply elem_of_prefix in Hin; [|exact Hpre].
    rewrite Hmv in Hin. apply elem_of_seg in Hin as (i & Hi & Hib).
    eapply (committed_majority_at c x n _ h' q i); try done. lia.
  - intros ->. exists q. split_and!; [by eapply line_u64|done|]. rewrite firstn_all, Hmv.
    rewrite (seg_length _ h') by (done || lia). lia.
  - etrans; [done|]. rewrite Hmv. etrans; [|by eapply (Hlog x n h')]. apply seg_prefix. lia.
Qed.
End Replicated.

(** ** Witnesses: blocks of requests to the leader of three, on two of them *)
Definition block3 : Block :=
  {| b_id := BlockId_new 1; b_next := BlockId_new 0; b_data := [x2a] |}.

Lemma committed_on_majority_witness :
  node_blocks (sharer3 1) !! b_id block3 = Some block3 ∧ on_majority ids3 shared3 block3.
Proof.
  assert (node_blocks (sharer3 1) !! b_id block3 = Some block3) as Hb by (vm_compute; reflexivity).
  split; [exact Hb|].
  apply (committed_on_majority cfg3 ids3 consistent3 cluster3 shared3 1 (sharer3 1)).
  - apply fresh3.
  - apply acts_steps.
  - apply shared3_node. vm_compute. reflexivity.
  - exact Hb.
  - by apply (bool_decide_eq_true_1 _).
  - vm_compute. reflexivity.
Defined.

(** Twelve requests reach the leader; node 2 acknowledges one block, then five
    more, and hears of the commit; the drivers work through their instructions. *)
Definition machine_acts : list Action := election3 ++
  replicate 12 (Request 1 {| proposal_get := [x2a] |} 0) ++ TickOf 1 :: replicate 4 (RpcOf 1) ++
  [Receive 2 1 4; RpcOf 2; RpcOf 2; Receive 1 2 2; TickOf 1] ++ replicate 4 (RpcOf 1) ++
  [Receive 2 1 7; RpcOf 2; Receive 1 2 3; TickOf 1] ++ replicate 4 (RpcOf 1) ++
  [Receive 2 1 9; RpcOf 2] ++ replicate 18 (DriverOf 1) ++ replicate 6 (DriverOf 2).
Definition machine3 : gmap NodeId ServerNode := foldl (act cfg3) cluster3 machine_acts.
Definition runner3 (x : NodeId) : ServerNode := default demo_node0 (machine3 !! x).

Lemma fresh_with3 : fresh_with cfg3 ids3 [] cluster3.
Proof.
  split; [apply start3|]. intros x n Hx.
  apply elem_of_list_to_map_2, list_elem_of_fmap in Hx as (y & [= -> ->] & Hy).
  exists mem_empty, 0%nat. split; [reflexivity|]. by apply demo_server_new.
Qed.

Lemma machine3_node x : bool_decide (is_Some (machine3 !! x)) = true → machine3 !! x = Some (runner3 x).
Proof. intros [n Hn]%bool_decide_eq_true_1. unfold runner3. by rewrite Hn. Qed.

(** The machine of the leader has run the six committed blocks, that of node 2
    five of them, and these are on a majority. *)
Lemma replicated_state_machine_witness :
  d_fsm (sn_driver (runner3 1)) = replicate 6 [x2a] ∧
  d_fsm (sn_driver (runner3 2)) = replicate 5 [x2a] ∧
  ∃ log k, k = 5%nat ∧ d_fsm (sn_driver (runner3 2)) = fsm_fold [] (take k log) ∧
    ∀ b, b ∈ take k log → on_majority ids3 machine3 b.
Proof.
  do 2 (split; [vm_compute; reflexivity|]).
  destruct (replicated_state_machine cfg3 ids3 consistent3 (FSM := demo_fsm) [] cluster3 machine3 fresh_with3
    (acts_steps cfg3 _ cluster3)) as (log & _ & Hall).
  destruct (Hall 2 (runner3 2)) as [_ Hrun]; [apply machine3_node; vm_compute; reflexivity|].
  destruct Hrun as (k & Hst & Hmaj & Hend); [vm_compute; reflexivity|].
  exists log, k. split; [|split; [exact Hst|exact Hmaj]].
  destruct Hend as (q & Hu & Hq & Hk); [vm_compute; reflexivity|].
  assert (chain_get_commit (chain_of (runner3 2)) = BlockId_new 6) as E by (vm_compute; reflexivity).
  assert (leading (runner3 2) = false) as El by (vm_compute; reflexivity). rewrite E in Hq. rewrite El in Hk.
  apply bid_inj in Hq; [|by split|exact Hu]. unfold handed_over in Hk. lia.
Defined.
