(* ===== verification/Requests.v ===== *)
(** * Where requests go

    The proposals that a node forwards, queues and appends are those of requests
    that it was given: under the id of a request nothing else is ever sent, kept
    or announced to the driver. *)
From S2P Require Import Prelude Bytes Storage Chain Rpc Election Progress Config Raft.
From S2P Require Leader Candidate Follower.
From S2P Require Import Handle Fsm Tcp Server Invariants Cluster Agreement.
Local Open Scope Z_scope.

Definition is_apply (i : Instruction) : Prop := match i with Apply _ => True | Notify _ _ _ => False end.

Section Emits.
Context {SLED : Sled} {BINC : Bincode Block} {ENV : Env} {BUILD : Build}.

Lemma emits_drive_applies P l :
  emits P (λ i _, Forall is_apply i) (drive l (λ block, fsm_send_unwrap (Apply block))).
Proof.
  unfold drive. induction l as [|o l IH]; cbn [for_each]; [by apply emits_ret|].
  eapply (emits_bind _ (λ i _, Forall is_apply i)).
  - apply emits_bind_lift. intros b _. eapply emits_weaken; [apply emits_fsm_send_unwrap|].
    intros i _ ->. by repeat constructor.
  - intros i _ Hi. eapply emits_weaken; [exact IH|]. cbn. intros i' _ Hi'. by apply Forall_app.
Qed.

Lemma emits_drive_skip1_applies P l :
  emits P (λ i _, Forall is_apply i) (drive_skip1 l (λ block, fsm_send_unwrap (Apply block))).
Proof.
  destruct l as [|o l]; [by apply emits_ret|]. cbn. apply emits_bind_lift. intros b _.
  apply emits_drive_applies.
Qed.

Lemma set_election_timeout_role P r :
  emits P (λ i r', i = [] ∧ r_role r' = r_role r) (Follower.set_election_timeout r).
Proof.
  unfold Follower.set_election_timeout, Follower.get_randomized_timeout.
  eapply (emits_bind _ (λ i _, i = [])).
  { apply emits_bind_quiet; [auto with emits|]. intros t. by apply emits_ret. }
  intros i t ->. apply emits_bind_quiet; [auto with emits|]. intros now. by apply emits_ret.
Qed.
End Emits.

Section Node.
Context {SLED : Sled} {BINC : Bincode Block} {ENV : Env} {BUILD : Build}
  {SLAWS : SledLaws} {BLAWS : BincodeLaws Block} {BMIN : BincodeMin Block 24}.

(** [S id p]: a request with this id and this proposal was made. *)
Variable S : ClientRequestId → Proposal → Prop.

Definition made (req : ClientRequest) : Prop := S (req_id req) (req_proposal req).
Definition asks (m : Message) : Prop := ∀ req, msg_command m = ClientRequestCmd req → made req.

Definition queue_of (h : RaftHandle) : list ClientRequest :=
  match h with HFollower r => queued_reqs (r_role r) | HCandidate r => c_queued_reqs (r_role r) | HLeader _ => [] end.
Definition holds (h : RaftHandle) : Prop := Forall made (queue_of h).

(** The block announced for a request holds its proposal. *)
Definition noted (c : Chain) (k : BlockId) (id : ClientRequestId) : Prop :=
  ∃ b p, blocks_in c !! k = Some b ∧ b_data b = proposal_get p ∧ S id p.
Definition notes (c : Chain) (ins : list Instruction) : Prop :=
  ∀ id a k, Notify id a k ∈ ins → noted c k id.

Definition tells (m : M RaftHandle) : Prop :=
  emits asks (λ i h', notes (handle_chain h') i ∧ holds h') m.

Lemma applies_notes c i : Forall is_apply i → notes c i.
Proof. intros Hi id a k Hin. rewrite Forall_forall in Hi. by destruct (Hi _ Hin). Qed.

Lemma tells_ret h' : holds h' → tells (mret h').
Proof. intros Hh. apply emits_ret. split; [by apply applies_notes|done]. Qed.

Ltac tell_send := apply emits_bind_quiet; [by apply emits_rpc_send|]; intros [].

Lemma elect_tells r : tells (Candidate.elect r).
Proof.
  unfold tells, Candidate.elect, Candidate.leader_from_candidate. apply emits_bind_quiet.
  { apply emits_bind_lift. intros p _. apply emits_bind_quiet; [auto with emits|]. intros now.
    intros w. exists [], []. by rewrite !app_nil_r. }
  intros r'. unfold Leader.heartbeat, send_all. tell_send. apply tells_ret, Forall_nil_2.
Qed.

Lemma vote_response_tells r g from : holds (HCandidate r) → tells (Candidate.apply_vote_response r g from).
Proof.
  intros Hr. unfold Candidate.apply_vote_response, Candidate.defeat.
  case_match; [apply elect_tells|apply tells_ret; exact Hr..].
Qed.

Lemma timeout_tells r : holds (HFollower r) → tells (Follower.apply_timeout r).
Proof.
  intros Hr. unfold Follower.apply_timeout. case_match; [by apply tells_ret|].
  eapply emits_bind; [apply set_election_timeout_role|]. intros i r1 [-> _].
  unfold Candidate.seek_election. apply emits_bind_lift. intros t _. apply emits_bind_quiet.
  { apply emits_for_each. intros node _. by apply emits_rpc_send. }
  intros _. by apply vote_response_tells, Forall_nil_2.
Qed.

Lemma raft_term_queue (r r' : Raft Candidate) t :
  raft_term r t = Ret r' → c_queued_reqs (r_role r') = c_queued_reqs (r_role r).
Proof. unfold raft_term. intros (role & [= <-] & [= <-])%bind_Ret. done. Qed.

Lemma candidate_tells r cmd :
  holds (HCandidate r) → (∀ req, cmd = ClientRequestCmd req → made req) → tells (candidate_apply r cmd).
Proof.
  intros Hr Hcmd. destruct cmd; cbn [candidate_apply]; try by apply tells_ret.
  - unfold candidate_apply_tick. apply emits_bind_quiet; [auto with emits|]. intros due.
    destruct due; [|by apply tells_ret]. case_match; first [by apply timeout_tells|by apply emits_panic].
  - unfold Candidate.apply_vote_request. case_match.
    + apply emits_bind_lift. intros r' Hr'%raft_term_queue. apply tells_ret. unfold holds. cbn. by rewrite Hr'.
    + tell_send. by apply tells_ret.
  - by apply vote_response_tells.
  - unfold Candidate.apply_append_entries. case_match; by apply tells_ret.
  - unfold Candidate.apply_heartbeat. apply emits_bind_lift. intros hc _.
    apply emits_bind_lift. intros r' Hr'%raft_term_queue. tell_send. apply tells_ret. unfold holds. cbn. by rewrite Hr'.
  - unfold Candidate.apply_client_request. apply tells_ret. apply Forall_app. split; [done|].
    apply Forall_singleton. by apply Hcmd.
Qed.

(** ** Followers *)
Lemma follower_term_queue (r r' : Raft Follower) t :
  raft_term r t = Ret r' → queued_reqs (r_role r') = queued_reqs (r_role r).
Proof. unfold raft_term. intros (role & [= <-] & [= <-])%bind_Ret. done. Qed.

Lemma flush_queue_asks l r :
  Forall made (queued_reqs (r_role r)) →
  emits asks (λ i r', i = [] ∧ queued_reqs (r_role r') = []) (Follower.flush_queue l r).
Proof.
  intros Hq. unfold Follower.flush_queue. set (r0 := with_role _ r).
  assert (queued_reqs (r_role r0) = []) as H0 by done. clearbody r0.
  revert r0 H0. induction Hq as [|req q Hreq _ IH]; intros r0 H0; cbn [sfold]; [by apply emits_ret|].
  unfold Follower.flush_one, send.
  eapply (emits_bind _ (λ i r1, i = [] ∧ queued_reqs (r_role r1) = [])); [|intros i r1 [-> H1]; by apply IH].
  apply emits_bind_quiet; [|intros []; by apply emits_ret].
  apply emits_rpc_send. by intros req' [= <-].
Qed.

Lemma heartbeat_tells r l t k : holds (HFollower r) → tells (Follower.apply_heartbeat r l t k).
Proof.
  intros Hr. unfold Follower.apply_heartbeat.
  eapply emits_bind; [apply set_election_timeout_role|]. intros i1 r1 [-> H1].
  apply emits_bind_lift. intros r2 H2%follower_term_queue.
  eapply emits_bind; [apply flush_queue_asks; cbn; by rewrite H2, H1|]. intros i3 r3 [-> H3].
  apply emits_bind_lift. intros hc _.
  eapply (emits_bind _ (λ i r4, Forall is_apply i ∧ queued_reqs (r_role r4) = [])).
  { case_match; [|by apply emits_ret]. apply emits_bind_lift. intros [k' c'] _.
    eapply emits_bind; [apply emits_drive_applies|]. intros i [] Hi. apply emits_ret. by rewrite app_nil_r. }
  intros i4 r4 [H4 Hq]. tell_send. apply emits_ret. rewrite app_nil_r. split; [by apply applies_notes|].
  unfold holds. cbn. rewrite Hq. by constructor.
Qed.

Lemma append_entries_tells r bs l t : holds (HFollower r) → tells (Follower.apply_append_entries r bs l t).
Proof.
  intros Hr. unfold Follower.apply_append_entries.
  eapply (emits_bind _ (λ i r1, i = [] ∧ queued_reqs (r_role r1) = queued_reqs (r_role r))).
  { case_match; [by apply emits_ret|]. case_match; [|by apply emits_ret].
    apply emits_bind_lift. intros r1 H1%follower_term_queue.
    apply emits_bind_quiet; [auto with emits|]. intros now. by apply emits_ret. }
  intros i1 r1 [-> H1]. apply emits_bind_quiet.
  { apply emits_quiet. intros w. by repeat case_match. }
  assert (∀ r2, r_role r2 = r_role r1 → holds (HFollower r2)) as Hsame.
  { intros r2 E. unfold holds. cbn. by rewrite E, H1. }
  intros []. case_decide; [by apply tells_ret, Hsame|]. apply emits_bind_lift. intros c _.
  tell_send. by apply tells_ret, Hsame.
Qed.

Lemma follower_request_tells r req : holds (HFollower r) → made req → tells (Follower.apply_client_request r req).
Proof.
  intros Hr Hreq. unfold Follower.apply_client_request. case_match.
  - unfold send. apply emits_bind_quiet; [apply emits_rpc_send; by intros req' [= <-]|]. intros [].
    by apply tells_ret.
  - apply tells_ret, Forall_app. split; [done|]. by apply Forall_singleton.
Qed.

Lemma follower_tells r cmd :
  holds (HFollower r) → (∀ req, cmd = ClientRequestCmd req → made req) → tells (Follower.apply r cmd).
Proof.
  intros Hr Hcmd. destruct cmd; cbn [Follower.apply]; try by apply tells_ret.
  - unfold Follower.apply_tick. apply emits_bind_quiet; [auto with emits|].
    intros []; [by apply timeout_tells|by apply tells_ret].
  - unfold Follower.apply_vote_request. case_match; tell_send; by apply tells_ret.
  - by apply append_entries_tells.
  - by apply heartbeat_tells.
  - by apply timeout_tells.
  - apply follower_request_tells; [done|]. by apply Hcmd.
  - unfold Follower.apply_client_response. tell_send. by apply tells_ret.
Qed.

(** ** The leader *)
Lemma append_data c data id c' :
  store_ok c → chain_append c {| u_data := data |} = Ret (id, c') →
  store_ok c' ∧ ∃ b, blocks_in c' !! id = Some b ∧ b_data b = data.
Proof.
  intros Hc Happ. destruct (append_stores c data id c' Hc Happ) as (Hok & _ & _ & _ & b & Hid & Hb).
  split; [done|]. unfold chain_append in Happ. cbn [IdGenerator_next] in Happ. inv_run.
  match goal with H : insert_block _ ?b = Ret ?d |- _ =>
    destruct (store_ok_insert c b d (IdGenerator_next (id_gen c)).2 Hc (length_u64_to_be_bytes _) H) as [_ Hb'] end.
  eexists. split; [cbn in Hb'; setoid_rewrite Hb'; apply lookup_insert_eq|done].
Qed.

Lemma append_response_applies P r j k :
  store_ok (r_chain r) →
  emits P (λ i h', Forall is_apply i ∧ ∃ r', h' = HLeader r' ∧ blocks_in (r_chain r') = blocks_in (r_chain r))
    (Leader.apply_append_response r j k).
Proof.
  intros Hok. unfold Leader.apply_append_response, Leader.commit. apply emits_bind_lift. intros p _.
  eapply (emits_bind _ (λ i x, Forall is_apply i ∧ blocks_in (r_chain x.2) = blocks_in (r_chain r))).
  { apply emits_bind_lift. intros q _. case_match; [|by apply emits_ret].
    apply emits_bind_lift. intros [k' c'] (_ & Hb & _)%commit_stores; [|done].
    eapply emits_bind; [apply emits_drive_skip1_applies|]. intros i [] Hi. apply emits_ret. by rewrite app_nil_r. }
  intros i [q r'] [Hi Hb]. apply emits_ret. rewrite app_nil_r. eauto.
Qed.

Lemma leader_request_tells r req :
  store_ok (r_chain r) → made req → tells (Leader.apply_client_request r req).
Proof.
  intros Hok Hreq. unfold Leader.apply_client_request. apply emits_bind_lift. intros [id c1] Hap.
  destruct (append_data _ _ _ _ Hok Hap) as (Hok1 & b & Hb & Hdata).
  eapply emits_bind; [apply emits_fsm_send|]. intros i1 [] ->.
  eapply emits_weaken; [by apply append_response_applies|].
  intros i h' (Hi & r' & -> & Hr'). split; [|apply Forall_nil_2].
  intros id' a k [[= -> -> ->]|Hin]%elem_of_cons; [|by eapply applies_notes].
  exists b, (req_proposal req). cbn in Hr' |- *. by rewrite Hr'.
Qed.

Lemma replicate_asks (r : Raft Leader) : emits asks (λ i _, i = []) (Leader.replicate r).
Proof.
  unfold Leader.replicate. apply emits_for_each. intros node _.
  unfold Leader.replicate_node. repeat case_match; try by apply emits_ret.
  all: apply emits_bind_lift; intros bs _; by apply emits_rpc_send.
Qed.

Lemma leader_tells r cmd :
  store_ok (r_chain r) → (∀ req, cmd = ClientRequestCmd req → made req) → tells (Leader.apply r cmd).
Proof.
  intros Hok Hcmd. assert (∀ r', tells (mret (HLeader r'))) as Hself by (intros; apply tells_ret, Forall_nil_2).
  destruct cmd; cbn [Leader.apply]; try by apply Hself.
  - unfold Leader.apply_tick. apply emits_bind_quiet.
    { apply emits_quiet. intros w. unfold Leader.write_state. by case_match. }
    intros []. unfold Leader.needs_heartbeat. apply emits_bind_quiet; [by apply emits_quiet|]. intros due.
    apply emits_bind_quiet.
    { destruct due; [|by apply emits_ret]. unfold Leader.heartbeat, send_all, Leader.reset_heartbeat_timer.
      tell_send. apply emits_bind_quiet; [auto with emits|]. intros now. by apply emits_ret. }
    intros r'. apply emits_bind_quiet; [by apply replicate_asks|]. intros []. apply Hself.
  - unfold Leader.apply_append_entries. case_match; [|by apply Hself]. by apply emits_panic.
  - eapply emits_weaken; [by apply append_response_applies|]. intros i h' (Hi & r' & -> & _).
    split; [by apply applies_notes|apply Forall_nil_2].
  - unfold Leader.apply_heartbeat_response. apply emits_bind_quiet; [|intros []; apply Hself].
    case_match; [by apply replicate_asks|by apply emits_ret].
  - apply leader_request_tells; [done|]. by apply Hcmd.
Qed.

(** Every command, on every role. *)
Lemma handle_tells h cmd :
  store_ok (handle_chain h) → holds h → (∀ req, cmd = ClientRequestCmd req → made req) →
  tells (handle_apply h cmd).
Proof. destruct h; intros; [by apply follower_tells|by apply candidate_tells|by apply leader_tells]. Qed.
End Node.

Section Weaken.
Context {SLED : Sled} {BINC : Bincode Block} {SLAWS : SledLaws}.

Lemma made_weaken (S S' : ClientRequestId → Proposal → Prop) req :
  (∀ id p, S id p → S' id p) → made S req → made S' req.
Proof. intros HS. apply HS. Qed.

Lemma asks_weaken (S S' : ClientRequestId → Proposal → Prop) m :
  (∀ id p, S id p → S' id p) → asks S m → asks S' m.
Proof. intros HS Hm req Hreq. by eapply made_weaken; [|apply Hm]. Qed.

Lemma holds_weaken (S S' : ClientRequestId → Proposal → Prop) h :
  (∀ id p, S id p → S' id p) → holds S h → holds S' h.
Proof. intros HS Hh. eapply Forall_impl; [exact Hh|]. intros req. by apply made_weaken. Qed.

Lemma noted_weaken (S S' : ClientRequestId → Proposal → Prop) c c' k id :
  (∀ id p, S id p → S' id p) → blocks_in c ⊆ blocks_in c' → noted S c k id → noted S' c' k id.
Proof.
  intros HS Hsub (b & p & Hb & Hp & Hid). exists b, p.
  split_and!; [exact (lookup_weaken _ _ _ _ Hb Hsub)|done|auto].
Qed.

End Weaken.

(** ** Events *)
Section Events.
Context {SLED : Sled} {BINC : Bincode Block} {ENV : Env} {BUILD : Build} {SENV : ServerEnv}
  {SLAWS : SledLaws} {BLAWS : BincodeLaws Block} {BMIN : BincodeMin Block 24}.

Lemma event_tells S s e w :
  store_ok (handle_chain (raft s)) → holds S (raft s) →
  (∀ m, e = EvTcp m ∨ e = EvRpc m → asks S m) →
  (∀ p cl, e = EvClient p cl → S (uuid (asked w)) p) →
  ∃ new ins, msgs (event_loop_step s e w).2 = msgs w ++ new ∧ instrs (event_loop_step s e w).2 = instrs w ++ ins ∧
    Forall (asks S) new ∧ ∀ s', (event_loop_step s e w).1 = Ret s' →
      notes S (handle_chain (raft s')) ins ∧ holds S (raft s').
Proof.
  intros Hok Hh Hm Hcl.
  assert (∀ s0 cmd w0, raft s0 = raft s → (∀ req, cmd = ClientRequestCmd req → made S req) →
    ∃ new ins, msgs (loop_apply s0 cmd w0).2 = msgs w0 ++ new ∧ instrs (loop_apply s0 cmd w0).2 = instrs w0 ++ ins ∧
      Forall (asks S) new ∧ ∀ s', (loop_apply s0 cmd w0).1 = Ret s' →
        notes S (handle_chain (raft s')) ins ∧ holds S (raft s')) as Happly.
  { intros s0 cmd w0 Hr Hcmd. destruct (handle_tells S (raft s) cmd Hok Hh Hcmd w0) as (new & ins & H1 & H2 & H3 & H4).
    exists new, ins. unfold loop_apply, mbind, SM_bind. rewrite Hr.
    destruct (handle_apply (raft s) cmd w0) as [[h|er|] w']; cbn in *; (split_and!; [done..|]); try done.
    intros s' [= <-]. by apply H4. }
  assert (∀ o : outcome EventLoop, (∀ s', o = Ret s' → raft s' = raft s) →
    ∃ new ins, msgs w = msgs w ++ new ∧ instrs w = instrs w ++ ins ∧ Forall (asks S) new ∧
      ∀ s', o = Ret s' → notes S (handle_chain (raft s')) ins ∧ holds S (raft s')) as Hsame.
  { intros o Ho. exists [], []. rewrite !app_nil_r. split_and!; [done..|]. intros s' E. rewrite (Ho s' E).
    split; [by apply applies_notes|done]. }
  destruct e as [|m|m|p c]; cbn [event_loop_step].
  - by apply Happly.
  - assert (∀ req, msg_command m = ClientRequestCmd req → made S req) as Hreq by (apply Hm; by left).
    destruct (msg_to m); [|destruct (msg_command m) eqn:E|..]; by apply Happly.
  - assert (∀ req, msg_command m = ClientRequestCmd req → made S req) as Hreq by (apply Hm; by right).
    unfold tcp_tx_send, respond. destruct (msg_to m); [| |by apply Happly|];
      repeat case_match; apply Hsame; try done; by intros s' [= <-].
  - apply (Happly _ _ (ask w)); [done|]. intros req [= <-]. by apply (Hcl p c).
Qed.

(** Requests are registered under the id drawn for them, and forgotten when they
    are answered. *)
Lemma event_requests s e w s' w' id cl :
  event_loop_step s e w = (Ret s', w') → requests s' !! id = Some (ToClient cl) →
  requests s !! id = Some (ToClient cl) ∨ id = uuid (asked w) ∧ ∃ p, e = EvClient p cl.
Proof.
  assert (∀ s0 cmd w1, loop_apply s0 cmd w1 = (Ret s', w') → requests s' = requests s0) as H.
  { intros s0 cmd w1 H. unfold loop_apply in H. apply SM_bind_Ret in H as (h & w2 & _ & H).
    by apply mret_Ret in H as [-> _]. }
  destruct e as [|m|m|p c]; cbn [event_loop_step]; intros Hrun Hid.
  - left. by rewrite (H _ _ _ Hrun) in Hid.
  - left. destruct (msg_to m); [|destruct (msg_command m)|..]; rewrite (H _ _ _ Hrun) in Hid; try done.
    cbn in Hid. rewrite lookup_insert in Hid. by case_decide.
  - left. unfold tcp_tx_send, respond in Hrun.
    destruct (msg_to m); [| |by rewrite (H _ _ _ Hrun) in Hid|]; repeat case_match; try done;
      apply mret_Ret in Hrun as [-> _]; cbn in Hid; [done..|]. by apply lookup_delete_Some in Hid as [_ ?].
  - apply SM_bind_Ret in Hrun as (id0 & w1 & [= <- <-] & Hrun). rewrite (H _ _ _ Hrun) in Hid. cbn in Hid.
    rewrite lookup_insert in Hid. case_decide; [|by left]. right. injection Hid as ->. eauto.
Qed.

(** A client is answered with a response that was sent to it. *)
Lemma event_answers s e w s' w' :
  event_loop_step s e w = (Ret s', w') →
  answers s' = answers s ∨
  ∃ m r cl, e = EvRpc m ∧ msg_command m = ClientResponseCmd r ∧ requests s !! res_id r = Some (ToClient cl) ∧
    requests s' = delete (res_id r) (requests s) ∧ answers s' = answers s ++ [(cl, res_res r)].
Proof.
  assert (∀ s0 cmd w1, answers s0 = answers s → loop_apply s0 cmd w1 = (Ret s', w') → answers s' = answers s) as H.
  { intros s0 cmd w1 Hs H. unfold loop_apply in H. apply SM_bind_Ret in H as (h & w2 & _ & H).
    by apply mret_Ret in H as [-> _]. }
  destruct e as [|m|m|p c]; cbn [event_loop_step]; intros Hrun.
  - left. by eapply H; [|exact Hrun].
  - left. destruct (msg_to m); [|destruct (msg_command m)|..]; by eapply H; [|exact Hrun].
  - unfold tcp_tx_send, respond in Hrun.
    destruct (msg_to m); [| | |]; try (by left; eapply H; [|exact Hrun]);
      try (left; case_match; [|done]; by apply mret_Ret in Hrun as [-> _]).
    destruct (msg_command m) as [| | | | | | | | | | |res] eqn:Em; try done.
    destruct (requests s !! res_id res) as [[|c]|] eqn:Ereq; [done| |done]. destruct (waiting c); [|done].
    apply mret_Ret in Hrun as [-> _]. right. by exists m, res, c.
  - left. apply SM_bind_Ret in Hrun as (id & w1 & _ & Hrun). by eapply H; [|exact Hrun].
Qed.
End Events.

(** ** Runs of a cluster with the requests that were made *)

(** A request taken from a client: the node, the id drawn for it, the client and
    its proposal. *)
Record Taken : Type := {
  tk_node : NodeId;
  tk_id : ClientRequestId;
  tk_client : nat;
  tk_proposal : Proposal;
}.

Definition asked_in (H : list Taken) (id : ClientRequestId) (p : Proposal) : Prop :=
  ∃ t, t ∈ H ∧ tk_id t = id ∧ tk_proposal t = p.

Lemma asked_in_app H H' id p : asked_in H id p → asked_in (H ++ H') id p.
Proof. intros (t & Ht & ?). exists t. split; [|done]. apply elem_of_app. by left. Qed.

Section Cluster.
Context {SLED : Sled} {BINC : Bincode Block} {ENV : Env} {BUILD : Build} {SENV : ServerEnv}
  {FSM : Fsm} {SLAWS : SledLaws} {BLAWS : BincodeLaws Block} {BMIN : BincodeMin Block 24}.
Variable cfg : NodeId → RaftConfig.
Variable ids : list NodeId.
Hypothesis Hcons : consistent cfg ids.

Abbreviation Cluster := (gmap NodeId ServerNode).

(** The events that can occur at a node, and the messages it has read after each. *)
Inductive occurs (In : Message → Prop) (n : ServerNode) : Event → nat → Prop :=
| occurs_tick : occurs In n EvTick (rpc_read n)
| occurs_tcp m : In m → occurs In n (EvTcp m) (rpc_read n)
| occurs_rpc m : msgs (sn_world n) !! rpc_read n = Some m → occurs In n (EvRpc m) (S (rpc_read n))
| occurs_client p cl : occurs In n (EvClient p cl) (rpc_read n).

Definition taken (x : NodeId) (n : ServerNode) (e : Event) : list Taken :=
  match e with
  | EvClient p cl =>
      [{| tk_node := x; tk_id := uuid (asked (sn_world n)); tk_client := cl; tk_proposal := p |}]
  | _ => []
  end.

(** [request_run c0 H c]: the cluster gets from [c0] to [c] taking the requests [H]. *)
Inductive request_run (c0 : Cluster) : list Taken → Cluster → Prop :=
| run_start : request_run c0 [] c0
| run_event H c x n e read :
    request_run c0 H c → c !! x = Some n → alive n = true → occurs (arrives cfg c x) n e read →
    request_run c0 (H ++ taken x n e)
      (<[x := after_event n read (event_loop_step (sn_loop n) e (sn_world n))]> c)
| run_instruction H c x n i :
    request_run c0 H c → c !! x = Some n → alive n = true → instrs (sn_world n) !! fsm_read n = Some i →
    request_run c0 H (<[x := after_instruction n (driver_step (sn_driver n) i (sn_world n))]> c).

(** These are the runs of the cluster. *)
Lemma event_step (c : Cluster) x n e read :
  c !! x = Some n → alive n = true → occurs (arrives cfg c x) n e read →
  cluster_step cfg c (<[x := after_event n read (event_loop_step (sn_loop n) e (sn_world n))]> c).
Proof. intros Hx Hal Ho. apply (cluster_node cfg c x n); [done|]. destruct Ho; by constructor. Qed.

Lemma instruction_step (c : Cluster) x n i :
  c !! x = Some n → alive n = true → instrs (sn_world n) !! fsm_read n = Some i →
  cluster_step cfg c (<[x := after_instruction n (driver_step (sn_driver n) i (sn_world n))]> c).
Proof. intros Hx Hal Hi. apply (cluster_node cfg c x n); [done|]. by constructor. Qed.

Lemma request_run_steps c0 H c : request_run c0 H c → rtc (cluster_step cfg) c0 c.
Proof.
  induction 1 as [|H c x n e read _ IH Hx Hal Ho|H c x n i _ IH Hx Hal Hi]; [done|..];
    (eapply rtc_r; [exact IH|]); [by apply event_step|by apply instruction_step].
Qed.

Lemma steps_request_run c0 c : rtc (cluster_step cfg) c0 c → ∃ H, request_run c0 H c.
Proof.
  revert c. apply rtc_ind_r; [by exists []; constructor|].
  intros c c' _ Hs [H IH]. destruct Hs as [x n n' Hx Hstep].
  destruct Hstep as [Hal|m Hal Hm|m Hal Hm|p cl Hal|i Hal Hi];
    [..|exists H; by eapply run_instruction];
    (eexists; eapply run_event; [exact IH|done|done|by constructor]).
Qed.

(** ** Every proposal belongs to its request *)
Record node_requests (H : list Taken) (x : NodeId) (n : ServerNode) : Prop := {
  nr_asks m : m ∈ msgs (sn_world n) → asks (asked_in H) m;
  nr_holds : holds (asked_in H) (raft (sn_loop n));
  nr_requests id cl : requests (sn_loop n) !! id = Some (ToClient cl) →
    ∃ t, t ∈ H ∧ tk_node t = x ∧ tk_id t = id ∧ tk_client t = cl;
  nr_notes : alive n = true → notes (asked_in H) (handle_chain (raft (sn_loop n))) (instrs (sn_world n));
  nr_noted k a id : alive n = true → notifications (sn_driver n) !! k = Some (a, id) →
    noted (asked_in H) (handle_chain (raft (sn_loop n))) k id;
}.

Definition requests_inv (H : list Taken) (c : Cluster) : Prop :=
  ∀ x n, c !! x = Some n → node_requests H x n.

Lemma node_requests_grow H H' x n : node_requests H x n → node_requests (H ++ H') x n.
Proof.
  intros [Ha Hh Hr Hn Hd]. pose proof (asked_in_app H H') as Hin. split.
  - intros m Hm. by eapply asks_weaken, Ha.
  - by eapply holds_weaken.
  - intros id cl (t & Ht & ?)%Hr. exists t. split; [|done]. apply elem_of_app. by left.
  - intros Hal id a k Hk. by eapply (noted_weaken _ _ _ _ _ _ Hin); [reflexivity|eapply Hn].
  - intros k a id Hal Hk. by eapply (noted_weaken _ _ _ _ _ _ Hin); [reflexivity|eapply Hd].
Qed.

(** A request that an event applies was made. *)
Lemma occurs_asks H c x n e read m :
  cluster_inv cfg ids c → requests_inv H c → c !! x = Some n → occurs (arrives cfg c x) n e read →
  e = EvTcp m ∨ e = EvRpc m → asks (asked_in H) m.
Proof.
  intros [_ Hc] Hr Hx Ho. destruct Ho as [|m' Hm|m' Hm|p cl]; intros [[= ->]|[= ->]].
  - destruct Hm as (y & ny & m0 & Hy & Hm0 & _ & _ & ->). intros req Hreq.
    apply (nr_asks H y ny (Hr y ny Hy) m0); [by apply (Hc y ny Hy)|]. revert Hreq. unfold sign. by case_decide.
  - apply (nr_asks H x n (Hr x n Hx)). by eapply list_elem_of_lookup_2.
Qed.

Lemma event_requests_ok H c x n e read :
  cluster_inv cfg ids c → blocks_inv c → requests_inv H c → c !! x = Some n → alive n = true →
  occurs (arrives cfg c x) n e read →
  node_requests (H ++ taken x n e) x (after_event n read (event_loop_step (sn_loop n) e (sn_world n))).
Proof.
  intros Hc Hb Hr Hx Hal Ho. pose proof (event_step c x n e read Hx Hal Ho) as Hs.
  pose proof (node_requests_grow _ (taken x n e) _ _ (Hr x n Hx)) as [Ha Hh Hq Hn Hd].
  destruct (event_tells (asked_in (H ++ taken x n e)) (sn_loop n) e (sn_world n)) as (new & ins & Hm & Hi & Hnew & Hret);
    [by apply (nb_ok _ _ (Hb x n Hx))|done| | |].
  { intros m Hem. eapply asks_weaken; [apply asked_in_app|]. by eapply occurs_asks. }
  { intros p cl ->. eexists. split; [apply elem_of_app; right; by apply list_elem_of_here|done]. }
  destruct (step_keeps cfg ids Hcons c _ x n Hc Hb Hs Hx) as (n1 & Hn1 & Hsub).
  rewrite lookup_insert_eq in Hn1. injection Hn1 as <-.
  unfold after_event in *. destruct (event_loop_step (sn_loop n) e (sn_world n)) as [o w'] eqn:Hrun.
  cbn [fst snd] in *. rewrite Forall_forall in Hnew.
  assert (∀ m, m ∈ msgs w' → asks (asked_in (H ++ taken x n e)) m) as Ha'.
  { intros m. rewrite Hm. intros [?|?]%elem_of_app; auto. }
  destruct o as [s'|er|]; cbn [sn_loop sn_world sn_driver alive] in *; [|by split..].
  destruct (Hret s' eq_refl) as [Hns Hhs]. split; cbn [sn_loop sn_world sn_driver alive]; try done.
  - intros id cl Hid. destruct (event_requests _ _ _ _ _ _ _ Hrun Hid) as [?|(-> & p & ->)]; [by apply Hq|].
    eexists. split; [apply elem_of_app; right; by apply list_elem_of_here|done].
  - intros _ id a k. rewrite Hi. intros [Hin|Hin]%elem_of_app; [|by eapply Hns].
    by eapply (noted_weaken _ _ _ _ _ _ (λ _ _ h, h) Hsub), Hn.
  - intros k a id _ Hk. by eapply (noted_weaken _ _ _ _ _ _ (λ _ _ h, h) Hsub), Hd.
Qed.

Lemma driver_notifications d i w d' w' k a id :
  driver_step d i w = (Ret d', w') → notifications d' !! k = Some (a, id) →
  notifications d !! k = Some (a, id) ∨ i = Notify id a k.
Proof.
  destruct i as [b|id0 a0 k0]; cbn [driver_step].
  - case_decide; [by intros [-> _]%mret_Ret; left|]. unfold exec.
    destruct (transition (d_fsm d) (b_data b)) as [res fs]. cbn. intros Hrun Hk. left.
    assert (∀ m, (match notifications d !! b_id b with
        | Some (to, id1) => _ ← rpc_send (m to id1); mret {| d_fsm := fs; notifications := delete (b_id b) (notifications d) |}
        | None => mret {| d_fsm := fs; notifications := notifications d |}
        end : M Driver) w = (Ret d', w') → notifications d !! k = Some (a, id)) as Hany.
    { intros m Hm. destruct (notifications d !! b_id b) as [[to id1]|]; [|by apply mret_Ret in Hm as [-> _]].
      apply SM_bind_Ret in Hm as ([] & w1 & _ & Hm). apply mret_Ret in Hm as [-> _].
      cbn in Hk. by apply lookup_delete_Some in Hk as [_ ?]. }
    by destruct res; [eapply Hany; exact Hrun..|].
  - intros [-> _]%mret_Ret. cbn. rewrite lookup_insert. case_decide; [|by left]. subst. intros [= -> ->]. by right.
Qed.

Lemma driver_requests_ok H x n i :
  node_requests H x n → alive n = true → instrs (sn_world n) !! fsm_read n = Some i →
  node_requests H x (after_instruction n (driver_step (sn_driver n) i (sn_world n))).
Proof.
  intros [Ha Hh Hq Hn Hd] Hal Hi.
  destruct (driver_step_does (sn_driver n) i (sn_world n)) as (new & Hnew & Hres & _).
  destruct (driver_blocks_step (sn_driver n) i (sn_world n)) as (_ & ins & _ & Hins & _ & Hret).
  rewrite Forall_forall in Hres. unfold after_instruction.
  destruct (driver_step (sn_driver n) i (sn_world n)) as [o w'] eqn:Hrun. cbn in Hnew, Hins, Hret |- *.
  assert (∀ m, m ∈ msgs w' → asks (asked_in H) m) as Ha'.
  { intros m. rewrite Hnew. intros [?|Hin]%elem_of_app; [auto|]. intros req Hreq.
    destruct (Hres m Hin) as [res Hm]. congruence. }
  destruct o as [d'|er|]; [|by split..]. split; cbn [sn_loop sn_world sn_driver alive]; try done.
  - intros _. rewrite Hins, (Hret d' eq_refl), app_nil_r. by apply Hn.
  - intros k a id _ Hk. destruct (driver_notifications _ _ _ _ _ _ _ _ Hrun Hk) as [?| ->]; [by eapply Hd|].
    eapply (Hn Hal id a). by eapply list_elem_of_lookup_2.
Qed.

Lemma start_requests c : fresh_start cfg ids c → requests_inv [] c.
Proof.
  intros [_ H0] x n Hx. destruct (H0 x n Hx) as (d & f & k & Hd & Hn).
  destruct (server_new_blocks cfg x d f k n Hd Hn) as (_ & _ & _ & Em & Ei & _).
  unfold server_new in Hn. destruct (handle_new (cfg x) d _) as [o w'] eqn:Hnew.
  apply bind_Ret in Hn as (h & -> & [= <-]).
  split; cbn [sn_loop sn_driver sn_world raft requests notifications driver_new] in *.
  - rewrite Em. by intros m ?%elem_of_nil.
  - unfold handle_new in Hnew. destruct (Follower.new _ _ _) as [[r|er|] w1] eqn:Hr; try done.
    injection Hnew as <- <-. unfold Follower.new, Follower.init in Hr.
    apply SM_bind_Ret in Hr as ([] & w2 & _ & Hr). apply SM_bind_Ret in Hr as (ch & w3 & _ & Hr).
    match type of Hr with Follower.set_election_timeout ?r0 ?w0 = _ =>
      destruct (set_election_timeout_role (λ _, True) r0 w0) as (nw & ins & _ & _ & _ & Hq) end.
    rewrite Hr in Hq. destruct (Hq r eq_refl) as [_ E]. unfold holds. cbn. rewrite E. by constructor.
  - by intros id cl ?%lookup_empty_Some.
  - rewrite Ei. by intros _ id a j ?%elem_of_nil.
  - by intros j a id _ ?%lookup_empty_Some.
Qed.

Lemma reachable_requests c0 H c :
  fresh_start cfg ids c0 → request_run c0 H c → requests_inv H c.
Proof.
  intros H0. induction 1 as [|H c x n e read Hr IH Hx Hal Ho|H c x n i Hr IH Hx Hal Hi];
    [by apply start_requests|..]; apply request_run_steps in Hr.
  - destruct (reachable_blocks cfg ids Hcons c0 c H0 Hr) as [Hc Hb].
    intros y ny [[<- <-]|[_ Hy]]%lookup_insert_Some; [by apply (event_requests_ok H c)|].
    by apply node_requests_grow, IH.
  - intros y ny [[<- <-]|[_ Hy]]%lookup_insert_Some; [|by apply IH].
    apply driver_requests_ok; [by apply IH|done|done].
Qed.

(** The requests of a list of actions. *)
Definition act_taken (c : Cluster) (a : Action) : list Taken :=
  match a with
  | Request x p cl =>
      match c !! x with Some n => if alive n then taken x n (EvClient p cl) else [] | None => [] end
  | _ => []
  end.
Fixpoint acts_taken (c : Cluster) (l : list Action) : list Taken :=
  match l with [] => [] | a :: l => act_taken c a ++ acts_taken (act cfg c a) l end.

Lemma act_request_run c0 H c a :
  request_run c0 H c → request_run c0 (H ++ act_taken c a) (act cfg c a).
Proof.
  intros Hr. destruct a as [x|x|x|x p cl|y x k]; unfold act_taken; cbn [act];
    (destruct (c !! _) as [n|] eqn:Hx; [|by rewrite app_nil_r]);
    (destruct (alive n) eqn:Hal; [|by rewrite app_nil_r]).
  - apply (run_event c0 H c x n EvTick); [done..|constructor].
  - cbn. destruct (msgs _ !! _) as [m|] eqn:Hm; cbn; [|by rewrite app_nil_r].
    apply (run_event c0 H c x n (EvRpc m)); [done..|by constructor].
  - cbn. rewrite app_nil_r. destruct (instrs _ !! _) as [i|] eqn:Hi; cbn; [|done]. by apply run_instruction.
  - apply (run_event c0 H c x n (EvClient p cl)); [done..|constructor].
  - cbn. destruct (incoming cfg c y x k) as [m|] eqn:Hm; cbn; [|by rewrite app_nil_r].
    apply (run_event c0 H c y n (EvTcp m)); [done..|]. constructor. by eapply incoming_arrives.
Qed.

Lemma acts_request_run l c : request_run c (acts_taken c l) (foldl (act cfg) c l).
Proof.
  assert (∀ c0 H c, request_run c0 H c → request_run c0 (H ++ acts_taken c l) (foldl (act cfg) c l)) as Hgo.
  { induction l as [|a l IH]; intros c0 H c1 Hr; cbn; [by rewrite app_nil_r|].
    rewrite app_assoc. by apply IH, act_request_run. }
  apply (Hgo c []). constructor.
Qed.
End Cluster.
