(* ===== verification/Answers.v ===== *)
(** * Answers to the clients of a cluster

    An answer that a client gets, at whichever node it asked, is the result of a
    committed block that holds the client's own proposal: that of the state machine
    run over the log up to this block. *)
From S2P Require Import Prelude Bytes Storage Chain Rpc Election Progress Config Raft.
From S2P Require Leader Candidate Follower.
From S2P Require Import Handle Fsm Tcp Server Invariants Demo Cluster Replication StateMachine Agreement.
From S2P Require Import Line Lineage Consensus Replicated Requests.
Local Open Scope Z_scope.

(** ** Who sends responses *)

(** Responses are passed on from [cmd], if any. *)
Definition passes (cmd : Command) (m : Message) : Prop :=
  ∀ res, msg_command m = ClientResponseCmd res → cmd = ClientResponseCmd res.

Section Passing.
Context {SLED : Sled} {BINC : Bincode Block} {ENV : Env} {BUILD : Build}.

Lemma does_then {A B} P (m : M A) (f : A → M B) :
  does P any m → (∀ a, does P any (f a)) → does P any (m ≫= f).
Proof. intros Hm Hf. eapply does_bind; [exact Hm|]. intros n a _. apply Hf. Qed.

Lemma does_send_any P m : P m → does P any (rpc_send m).
Proof. intros Hm. eapply does_any, does_rpc_send, Hm. Qed.

Lemma does_sfold_any {A B} P (f : B → A → M B) l b :
  (∀ b a, does P any (f b a)) → does P any (sfold f b l).
Proof. intros Hf. by apply (does_sfold P (λ _, True)). Qed.

Lemma does_state P (r : Raft Leader) : does P any (Leader.write_state r).
Proof. eapply does_any, does_quiet. intros w. unfold Leader.write_state. by case_match. Qed.
End Passing.

(** Through the structure of a handler. *)
Ltac passing :=
  repeat first
    [ by apply does_ret
    | by apply does_lift
    | apply does_state
    | apply does_send_any; by intros ?
    | apply does_for_each; intros ?
    | apply does_drive; intros ?
    | apply does_drive_skip1; intros ?
    | apply does_sfold_any; intros ? ?
    | solve [eauto with does]
    | apply does_then; [|intros ?]
    | case_match ].

Section Handlers.
Context {SLED : Sled} {BINC : Bincode Block} {ENV : Env} {BUILD : Build}.

(** The handlers, unfolded. *)
Ltac open_handlers :=
  unfold Follower.apply_tick, Follower.apply_timeout, Follower.apply_append_entries,
    Follower.apply_heartbeat, Follower.apply_vote_request, Follower.apply_client_request,
    Follower.flush_queue, Follower.flush_one, Follower.set_election_timeout, Follower.get_randomized_timeout,
    Candidate.seek_election, Candidate.apply_vote_response, Candidate.elect, Candidate.defeat,
    Candidate.leader_from_candidate, Candidate.apply_vote_request, Candidate.apply_append_entries,
    Candidate.apply_heartbeat, Candidate.apply_client_request,
    Leader.apply_tick, Leader.apply_heartbeat_response, Leader.apply_append_response,
    Leader.apply_append_entries, Leader.apply_client_request, Leader.commit, Leader.replicate,
    Leader.replicate_node, Leader.needs_heartbeat, Leader.reset_heartbeat_timer,
    Leader.heartbeat, Follower.apply_self, send, send_all.

Lemma follower_passes r cmd : does (passes cmd) any (Follower.apply r cmd).
Proof.
  unfold Follower.apply. destruct cmd as [| | | | | | | | | |req|res]; open_handlers; passing.
  unfold send. apply does_send_any. intros res' [= <-]. by destruct res.
Qed.

Lemma candidate_passes r cmd : does (passes cmd) any (candidate_apply r cmd).
Proof.
  destruct cmd as [| | | | | | | | | |req|res]; cbn [candidate_apply]; open_handlers; try by passing.
  unfold candidate_apply_tick. apply does_then; [solve [eauto with does]|]. intros []; [|by apply does_ret].
  destruct (election_status (election (r_role r))); try by apply does_lift.
  all: eapply does_weaken; [apply follower_passes|by intros m Hm res Hr; specialize (Hm res Hr)|done].
Qed.

Lemma leader_passes r cmd : does (passes cmd) any (Leader.apply r cmd).
Proof. unfold Leader.apply. destruct cmd; open_handlers; passing. Qed.

Lemma handle_passes h cmd : does (passes cmd) any (handle_apply h cmd).
Proof. destruct h; [apply follower_passes|apply candidate_passes|apply leader_passes]. Qed.
End Handlers.

Section Loop.
Context {SLED : Sled} {BINC : Bincode Block} {ENV : Env} {BUILD : Build} {SENV : ServerEnv}.

Lemma loop_apply_passes s cmd : does (passes cmd) any (loop_apply s cmd).
Proof. apply does_then; [apply handle_passes|]. intros h. by apply does_ret. Qed.

(** A response that an event sends was in the command it applied. *)
Lemma event_passes s e :
  does (λ m, ∀ res, msg_command m = ClientResponseCmd res → applied e = Some (ClientResponseCmd res)) any
    (event_loop_step s e).
Proof.
  assert (∀ s0 cmd, applied e = Some cmd ∨ (∀ res, cmd ≠ ClientResponseCmd res) →
    does (λ m, ∀ res, msg_command m = ClientResponseCmd res → applied e = Some (ClientResponseCmd res)) any
      (loop_apply s0 cmd)) as H.
  { intros s0 cmd Hcmd. eapply does_weaken; [apply loop_apply_passes| |done].
    intros m Hm res Hr. specialize (Hm res Hr). destruct Hcmd as [->|Hne]; [congruence|by destruct (Hne res)]. }
  destruct e as [|m|m|p c]; cbn [event_loop_step].
  - apply H. by right.
  - destruct (msg_to m); [|destruct (msg_command m) eqn:E|..]; apply H; left; cbn; by rewrite ?E.
  - destruct (msg_to m) eqn:Eto; [| | |]; unfold tcp_tx_send, respond.
    all: try (repeat case_match; by (apply does_ret || apply does_lift)).
    apply H. left. cbn. by rewrite Eto.
  - apply does_then; [by eapply does_any, does_quiet|]. intros id. apply H. by right.
Qed.
End Loop.

(** ** Answers and the log *)
Section Cluster.
Context {SLED : Sled} {BINC : Bincode Block} {ENV : Env} {BUILD : Build} {SENV : ServerEnv}
  {FSM : Fsm} {SLAWS : SledLaws} {BLAWS : BincodeLaws Block} {BMIN : BincodeMin Block 24}.
Variable cfg : NodeId → RaftConfig.
Variable ids : list NodeId.
Hypothesis Hcons : consistent cfg ids.
Variable f : fsm.

Abbreviation Cluster := (gmap NodeId ServerNode).

(** The result of the block numbered [i] of a node, which holds the proposal [p],
    after those before it. *)
Definition answer_ok (c : Cluster) (p : Proposal) (res : Response + ResponseError) : Prop :=
  ∃ y n i b, c !! y = Some n ∧ 0 < i ∧ is_u64 i ∧ node_blocks n !! bid i = Some b ∧ on_majority ids c b ∧
    b_data b = proposal_get p ∧
    res = response_of (transition (fsm_fold f (seg (node_blocks n) 1 (i - 1))) (b_data b)).1.

(** Each answer of the node [x] is the result of a request it took, and no request
    is answered twice. *)
Definition given (H : list Taken) (c : Cluster) (x : NodeId) (t : Taken) (a : nat * (Response + ResponseError)) : Prop :=
  t ∈ H ∧ tk_node t = x ∧ tk_client t = a.1 ∧ answer_ok c (tk_proposal t) a.2.

Definition answered (H : list Taken) (c : Cluster) (x : NodeId) (s : EventLoop) : Prop :=
  ∃ T, Forall2 (given H c x) T (answers s) ∧ NoDup (tk_id <$> T) ∧
    ∀ t cl, t ∈ T → requests s !! tk_id t ≠ Some (ToClient cl).

Definition response_ok (H : list Taken) (c : Cluster) (r : ClientResponse) : Prop :=
  ∃ t, t ∈ H ∧ tk_id t = res_id r ∧ answer_ok c (tk_proposal t) (res_res r).

Record answers_inv (H : list Taken) (c : Cluster) : Prop := {
  ai_sent x n m r : c !! x = Some n → m ∈ msgs (sn_world n) → msg_command m = ClientResponseCmd r →
    response_ok H c r;
  ai_given x n : c !! x = Some n → answered H c x (sn_loop n);
}.

Lemma majority_step c c' b :
  cluster_inv cfg ids c → blocks_inv c → cluster_step cfg c c' → on_majority ids c b → on_majority ids c' b.
Proof.
  intros Hc Hb Hs (S & ? & ? & ? & HS). exists S. split_and!; [done..|].
  intros j (n & Hj & Hn)%HS. destruct (step_keeps cfg ids Hcons c c' j n Hc Hb Hs Hj) as (n' & Hj' & Hsub).
  exists n'. split; [done|]. exact (lookup_weaken _ _ _ _ Hn Hsub).
Qed.

Lemma answer_step c c' p res :
  cluster_inv cfg ids c → blocks_inv c → line_inv ids c → cluster_step cfg c c' →
  answer_ok c p res → answer_ok c' p res.
Proof.
  intros Hc Hb Hl Hs (y & n & i & b & Hy & Hi & Hu & Hn & Hmaj & Hp & ->).
  destruct (step_keeps cfg ids Hcons c c' y n Hc Hb Hs Hy) as (n' & Hy' & Hsub).
  destruct (line_inv_lines ids c Hl y n Hy) as [h Hh].
  assert (i ≤ h) as Hle by (apply (line_is_Some _ _ _ Hh); [done|by eexists]).
  exists y, n', i, b. split_and!; [done..|exact (lookup_weaken _ _ _ _ Hn Hsub)|by eapply majority_step|done|].
  rewrite (seg_mono _ _ _ 1 (i - 1) Hh Hsub) by lia. done.
Qed.

(** What the driver answers. *)
Lemma driver_response d i :
  does (λ m, ∀ r, msg_command m = ClientResponseCmd r →
    ∃ b a, i = Apply b ∧ b_id b ≠ bid 0 ∧ notifications d !! b_id b = Some (a, res_id r) ∧
      res_res r = response_of (transition (d_fsm d) (b_data b)).1) any
    (driver_step d i).
Proof.
  destruct i as [b|id a k]; cbn [driver_step]; [|by apply does_ret]. case_decide as Hb; [by apply does_ret|].
  unfold exec. destruct (transition (d_fsm d) (b_data b)) as [res fs] eqn:Ht. cbn.
  destruct res; [| |by apply does_lift];
    (destruct (notifications d !! b_id b) as [[to id]|] eqn:Hn; [|by apply does_ret];
     apply does_bind_send; [|by apply does_ret]; intros r [= <-]; exists b, to; by rewrite Ht, Hn).
Qed.

(** The instruction that the driver of a node takes next, if it is a block. *)
Lemma next_block c x n b :
  cluster_inv cfg ids c → blocks_inv c → line_inv ids c → driver_ok f n → c !! x = Some n → alive n = true →
  instrs (sn_world n) !! fsm_read n = Some (Apply b) → b_id b ≠ bid 0 →
  ∃ i, 0 < i ∧ is_u64 i ∧ node_blocks n !! bid i = Some b ∧ on_majority ids c b ∧
    d_fsm (sn_driver n) = fsm_fold f (seg (node_blocks n) 1 (i - 1)).
Proof.
  intros Hc Hb Hl Hd Hx Hal Hi Hne. destruct (driver_moves ids f c x n Hl Hd Hx Hal) as (h & q & Hcl & Hmv & _).
  destruct (Hd Hal) as [_ ->]. set (read := take (fsm_read n) (instrs (sn_world n))).
  assert (moves (instrs (sn_world n)) = moves read ++ b :: moves (drop (S (fsm_read n)) (instrs (sn_world n)))) as Hsplit.
  { rewrite <-(take_drop_middle _ _ _ Hi) at 1. rewrite moves_app. f_equal.
    change (Apply b :: ?l) with ([Apply b] ++ l). rewrite moves_app. unfold moves at 1.
    cbn [omap list_omap applied_block]. by rewrite filter_cons_True. }
  pose proof Hcl as [Hline _ Hq _ _]. change (blocks_in (chain_of n)) with (node_blocks n) in Hline.
  assert (0 ≤ handed_over (leading n) q ≤ q) as Hle by (unfold handed_over; case_match; lia).
  rewrite Hmv in Hsplit. set (k := length (moves read)) in *.
  assert (seg (node_blocks n) 1 (handed_over (leading n) q) !! k = Some b) as Hk.
  { rewrite Hsplit. by apply list_lookup_middle. }
  pose proof (lookup_lt_Some _ _ _ Hk) as Hlt. rewrite (seg_length _ h) in Hlt by (done || lia).
  destruct (seg_lookup _ h 1 (handed_over (leading n) q) k b Hline ltac:(lia) ltac:(lia) Hk) as [Hst Hnum].
  exists (1 + Z.of_nat k). split_and!; [lia|apply Hnum|done| |].
  - eapply (committed_majority_at cfg ids Hcons c x n _ h q); try done. lia.
  - f_equal. replace (1 + Z.of_nat k - 1) with (Z.of_nat k) by lia.
    assert (moves read `prefix_of` seg (node_blocks n) 1 (handed_over (leading n) q)) as Hpre
      by (rewrite Hsplit; by eexists).
    apply prefix_take_eq in Hpre. rewrite Hpre.
    pose proof (seg_prefix (node_blocks n) 1 (Z.of_nat k) (handed_over (leading n) q) ltac:(lia)) as Hp%prefix_take_eq.
    rewrite (seg_length _ h) in Hp by (done || lia). rewrite Nat2Z.id in Hp. by rewrite Hp.
Qed.

(** ** Steps *)
Lemma answered_grow H H' c c' x s :
  (∀ p res, answer_ok c p res → answer_ok c' p res) → answered H c x s → answered (H ++ H') c' x s.
Proof.
  intros Hgrow (T & HT & Hnd & Hout). exists T. split_and!; [|done|done].
  eapply Forall2_impl; [exact HT|]. intros t a (Ht & ? & ? & ?). split_and!; [|done..|auto].
  apply elem_of_app. by left.
Qed.

Lemma response_grow H H' c c' r :
  (∀ p res, answer_ok c p res → answer_ok c' p res) → response_ok H c r → response_ok (H ++ H') c' r.
Proof.
  intros Hgrow (t & Ht & ? & ?). exists t. split_and!; [|done|auto]. apply elem_of_app. by left.
Qed.

(** A response that a node passes on was sent to it. *)
Lemma event_responses H c x n e read m r :
  cluster_inv cfg ids c → answers_inv H c → c !! x = Some n → occurs (arrives cfg c x) n e read →
  m ∈ msgs (event_loop_step (sn_loop n) e (sn_world n)).2 → msg_command m = ClientResponseCmd r → response_ok H c r.
Proof.
  intros Hc Ha Hx Ho Hin Hm.
  destruct (event_passes (sn_loop n) e (sn_world n)) as (new & Hnew & Hall & _). rewrite Forall_forall in Hall.
  rewrite Hnew in Hin. apply elem_of_app in Hin as [Hin|Hin]; [by eapply (ai_sent H c Ha x n)|].
  destruct (event_cmd_sent cfg ids c x n e (ClientResponseCmd r) Hc Hx) as (y & ny & m0 & Hy & Hm0 & E).
  - intros m' ->. by inversion Ho.
  - intros m' ->. inversion Ho. by eapply list_elem_of_lookup_2.
  - by apply Hall with m.
  - by eapply (ai_sent H c Ha y ny).
Qed.

Lemma unique_request H t t' : NoDup (tk_id <$> H) → t ∈ H → t' ∈ H → tk_id t = tk_id t' → t = t'.
Proof.
  intros Hnd (i & Hi)%list_elem_of_lookup (j & Hj)%list_elem_of_lookup E.
  assert (i = j) as ->; [|congruence]. eapply (NoDup_lookup _ i j (tk_id t) Hnd).
  - by rewrite list_lookup_fmap, Hi.
  - by rewrite list_lookup_fmap, Hj, E.
Qed.

Lemma given_in H c x T l t : Forall2 (given H c x) T l → t ∈ T → t ∈ H.
Proof.
  intros HT (i & Hi)%list_elem_of_lookup. by destruct (Forall2_lookup_l _ _ _ _ _ HT Hi) as (a & _ & ? & _).
Qed.

(** A request that was answered is not registered again. *)
Lemma event_unregistered (H : list Taken) x n e s' w' (T : list Taken) :
  NoDup (tk_id <$> H ++ taken x n e) → event_loop_step (sn_loop n) e (sn_world n) = (Ret s', w') →
  (∀ t, t ∈ T → t ∈ H) → (∀ t cl, t ∈ T → requests (sn_loop n) !! tk_id t ≠ Some (ToClient cl)) →
  ∀ t cl, t ∈ T → requests s' !! tk_id t ≠ Some (ToClient cl).
Proof.
  intros Hnd Hrun HTH Hout t cl Ht Hreq.
  destruct (event_requests _ _ _ _ _ _ _ Hrun Hreq) as [Hold|(E & p & ->)]; [by eapply Hout|].
  rewrite fmap_app in Hnd. apply NoDup_app in Hnd as (_ & Hnot & _).
  apply (Hnot (tk_id t)); [by apply list_elem_of_fmap_2, HTH|]. rewrite E. apply list_elem_of_here.
Qed.

(** An answer is the response to the request that is registered; it is then
    registered no more. *)
Lemma event_answered H c x n e read s' w' :
  requests_inv H c → answers_inv H c → c !! x = Some n → occurs (arrives cfg c x) n e read →
  NoDup (tk_id <$> H ++ taken x n e) → event_loop_step (sn_loop n) e (sn_world n) = (Ret s', w') →
  answered H c x s'.
Proof.
  intros Hr Ha Hx Ho Hnd Hrun. destruct (ai_given H c Ha x n Hx) as (T & HT & HndT & Hout).
  pose proof (event_unregistered H x n e s' w' T Hnd Hrun (λ t, given_in H c x T _ t HT) Hout) as Hout'.
  destruct (event_answers _ _ _ _ _ Hrun) as [E|(m & r & cl & -> & Er & Hreg & Hdel & E)].
  { exists T. by rewrite E. }
  destruct (nr_requests H x n (Hr x n Hx) _ _ Hreg) as (t & Ht & Htx & Hid & Hcl).
  assert (m ∈ msgs (sn_world n)) as Hm by (inversion Ho; by eapply list_elem_of_lookup_2).
  destruct (ai_sent H c Ha x n m r Hx Hm Er) as (t' & Ht' & Hid' & Hans).
  rewrite app_nil_r in Hnd. assert (t' = t) as -> by (apply (unique_request H); [done..|congruence]).
  exists (T ++ [t]). rewrite E. split_and!.
  - apply Forall2_app; [done|]. apply Forall2_cons. split; [|done]. by split_and!.
  - rewrite fmap_app. apply NoDup_app. split_and!; [done| |apply NoDup_singleton].
    intros id (t0 & -> & Ht0)%list_elem_of_fmap Heq%list_elem_of_singleton.
    apply (Hout t0 cl Ht0). by rewrite Heq, Hid.
  - intros t0 cl0 [Ht0| ->%list_elem_of_singleton]%elem_of_app; [by apply Hout'|].
    by rewrite Hdel, Hid, lookup_delete_eq.
Qed.

Lemma answers_event H c x n e read :
  cluster_inv cfg ids c → blocks_inv c → line_inv ids c → requests_inv H c → answers_inv H c →
  c !! x = Some n → alive n = true → occurs (arrives cfg c x) n e read → NoDup (tk_id <$> H ++ taken x n e) →
  answers_inv (H ++ taken x n e) (<[x := after_event n read (event_loop_step (sn_loop n) e (sn_world n))]> c).
Proof.
  intros Hc Hb Hl Hr Ha Hx Hal Ho Hnd. pose proof (event_step cfg c x n e read Hx Hal Ho) as Hs.
  pose proof (λ p res, answer_step _ _ p res Hc Hb Hl Hs) as Hgrow. clear Hs. split.
  - intros y ny m r [[<- <-]|[_ Hy]]%lookup_insert_Some Hin Hm; (eapply response_grow; [exact Hgrow|]).
    + eapply (event_responses H c x n e read m); try done. revert Hin. unfold after_event. by case_match.
    + by eapply (ai_sent H c Ha y ny).
  - intros y ny [[<- <-]|[_ Hy]]%lookup_insert_Some; (eapply answered_grow; [exact Hgrow|]).
    + unfold after_event. destruct (event_loop_step _ _ _) as [[s'|er|] w'] eqn:Hrun; cbn;
        [by eapply event_answered|by apply (ai_given H c Ha)..].
    + by apply (ai_given H c Ha).
Qed.

(** What the driver answers is the result of the block that was announced for the
    request. *)
Lemma driver_responses H c x n i m r :
  cluster_inv cfg ids c → blocks_inv c → line_inv ids c → drivers_ok f c → requests_inv H c → answers_inv H c →
  c !! x = Some n → alive n = true → instrs (sn_world n) !! fsm_read n = Some i →
  m ∈ msgs (driver_step (sn_driver n) i (sn_world n)).2 → msg_command m = ClientResponseCmd r → response_ok H c r.
Proof.
  intros Hc Hb Hl Hd Hr Ha Hx Hal Hi Hin Hm.
  destruct (driver_response (sn_driver n) i (sn_world n)) as (new & Hnew & Hall & _). rewrite Forall_forall in Hall.
  rewrite Hnew in Hin. apply elem_of_app in Hin as [Hin|Hin]; [by eapply (ai_sent H c Ha x n)|].
  destruct (Hall m Hin r Hm) as (b & a & -> & Hne & Hnote & Hres).
  destruct (next_block c x n b Hc Hb Hl (Hd x n Hx) Hx Hal Hi Hne) as (k & Hk & Hu & Hst & Hmaj & E).
  destruct (nr_noted H x n (Hr x n Hx) _ _ _ Hal Hnote) as (b' & p & Hb' & Hp & t & Ht & Hid & <-).
  destruct (store_ok_block _ _ _ (nb_ok _ _ (Hb x n Hx)) Hst) as [_ Hbk].
  unfold node_blocks, handle_blocks in Hst. rewrite Hbk, Hst in Hb'. injection Hb' as <-.
  exists t. split_and!; [done..|]. exists x, n, k, b. split_and!; [done..|]. by rewrite Hres, E.
Qed.

Lemma answers_instruction H c x n i :
  cluster_inv cfg ids c → blocks_inv c → line_inv ids c → drivers_ok f c → requests_inv H c → answers_inv H c →
  c !! x = Some n → alive n = true → instrs (sn_world n) !! fsm_read n = Some i →
  answers_inv H (<[x := after_instruction n (driver_step (sn_driver n) i (sn_world n))]> c).
Proof.
  intros Hc Hb Hl Hd Hr Ha Hx Hal Hi. pose proof (instruction_step cfg c x n i Hx Hal Hi) as Hs.
  pose proof (λ p res, answer_step _ _ p res Hc Hb Hl Hs) as Hgrow. clear Hs.
  rewrite <-(app_nil_r H). split.
  - intros y ny m r [[<- <-]|[_ Hy]]%lookup_insert_Some Hin Hm; (eapply response_grow; [exact Hgrow|]).
    + eapply (driver_responses H c x n i m); try done. revert Hin. unfold after_instruction. by case_match.
    + by eapply (ai_sent H c Ha y ny).
  - intros y ny [[<- <-]|[_ Hy]]%lookup_insert_Some; (eapply answered_grow; [exact Hgrow|]).
    + unfold after_instruction. case_match; exact (ai_given H c Ha x n Hx).
    + by apply (ai_given H c Ha).
Qed.

Lemma start_answers c : fresh_with cfg ids f c → answers_inv [] c.
Proof.
  intros [_ H0]. split.
  - intros x n m r Hx Hm. destruct (H0 x n Hx) as (d & k & Hd & Hn).
    destruct (server_new_blocks cfg x d f k n Hd Hn) as (_ & _ & _ & E & _). rewrite E in Hm. by apply elem_of_nil in Hm.
  - intros x n Hx. destruct (H0 x n Hx) as (d & k & Hd & Hn). unfold server_new in Hn.
    destruct (handle_new _ _ _) as [o w']. apply bind_Ret in Hn as (h & _ & [= <-]). exists [].
    split_and!; [by constructor|by apply NoDup_nil|]. by intros t cl ?%elem_of_nil.
Qed.

Lemma reachable_answers c0 H c :
  fresh_with cfg ids f c0 → request_run cfg c0 H c → NoDup (tk_id <$> H) → answers_inv H c.
Proof.
  intros H0. pose proof (fresh_with_start cfg ids f c0 H0) as Hf.
  induction 1 as [|H c x n e read Hr IH Hx Hal Ho|H c x n i Hr IH Hx Hal Hi]; intros Hnd; [by apply start_answers|..];
    pose proof (reachable_requests cfg ids Hcons c0 H c Hf Hr) as Hq; apply request_run_steps in Hr;
    destruct (reachable_lines cfg ids Hcons c0 c Hf Hr) as (Hc & Hb & Hl);
    pose proof (reachable_drivers cfg ids f c0 c H0 Hr) as Hd.
  - apply answers_event; try done. apply IH. rewrite fmap_app in Hnd. by apply NoDup_app in Hnd as [? _].
  - apply answers_instruction; auto.
Qed.

(** The place of an answered request in the one log. *)
Lemma answer_in_log c log p res :
  line_inv ids c → (∀ x n h, c !! x = Some n → line (node_blocks n) h → seg (node_blocks n) 1 h `prefix_of` log) →
  answer_ok c p res →
  ∃ k b, log !! k = Some b ∧ on_majority ids c b ∧ b_data b = proposal_get p ∧
    res = response_of (transition (fsm_fold f (take k log)) (b_data b)).1.
Proof.
  intros Hl Hlog (y & ny & i & b & Hy & Hi & Hu & Hst & Hmaj & Hp & ->).
  destruct (line_inv_lines ids c Hl y ny Hy) as [h Hh]. pose proof (Hlog y ny h Hy Hh) as Hpre.
  assert (i ≤ h) as Hle by (apply (line_is_Some _ _ _ Hh); [done|by eexists]).
  assert (seg (node_blocks ny) 1 i `prefix_of` log) as Hpi by (etrans; [apply seg_prefix|exact Hpre]; lia).
  replace i with (i - 1 + 1) in Hpi by lia. rewrite seg_app in Hpi by lia.
  replace (1 + (i - 1)) with i in Hpi by lia. unfold seg at 2 in Hpi. change (seqZ i 1) with [i] in Hpi.
  cbn [omap list_omap] in Hpi. rewrite Hst in Hpi. destruct Hpi as [rest ->].
  exists (length (seg (node_blocks ny) 1 (i - 1))), b.
  rewrite <-!app_assoc, take_app_length. cbn [app]. split_and!; [by apply list_lookup_middle|done..].
Qed.

(** C2: a client gets the result of its own request, from the committed log, and at
    most once.  In any run of a cluster that starts with empty databases and whose
    nodes all know the same members, with messages delayed, reordered, repeated and
    lost at will and nodes failing at any point, and in which the ids drawn for the
    requests differ, there is one log, of which every node stores an initial part,
    such that every answer a node gave belongs to a request of its own: it went to
    the client that made the request, and it is the result of a block of the log
    that holds the proposal of this request, executed in the state that the blocks
    before it lead to, and stored by more than half of the members.  No two answers
    belong to the same request. *)
Theorem answers_own_requests c0 H c :
  fresh_with cfg ids f c0 → request_run cfg c0 H c → NoDup (tk_id <$> H) →
  ∃ log : list Block,
    (∀ x n, c !! x = Some n →
       ∃ h, node_blocks n = list_to_map ((λ b, (b_id b, b)) <$> genesis :: take h log)) ∧
    ∀ x n, c !! x = Some n → ∃ T, NoDup T ∧
      Forall2 (λ t a, t ∈ H ∧ tk_node t = x ∧ tk_client t = a.1 ∧
        ∃ k b, log !! k = Some b ∧ on_majority ids c b ∧ b_data b = proposal_get (tk_proposal t) ∧
          a.2 = response_of (transition (fsm_fold f (take k log)) (b_data b)).1) T (answers (sn_loop n)).
Proof.
  intros H0 Hr Hnd. pose proof (reachable_answers c0 H c H0 Hr Hnd) as Ha. apply request_run_steps in Hr.
  destruct (reachable_lines cfg ids Hcons c0 c (fresh_with_start cfg ids f c0 H0) Hr) as (Hc & Hb & Hl).
  destruct (one_log cfg ids Hcons c Hc Hb Hl) as (log & _ & Hlog). exists log. split.
  { intros x n Hx. destruct (line_inv_lines ids c Hl x n Hx) as [h Hh].
    exists (Z.to_nat h). by eapply node_of_log; [..|by eapply Hlog]. }
  intros x n Hx. destruct (ai_given H c Ha x n Hx) as (T & HT & HndT & _). exists T.
  split; [by eapply NoDup_fmap_1|]. eapply Forall2_impl; [exact HT|].
  intros t a (Ht & Htx & Hcl & Hans). split_and!; [done..|]. by eapply answer_in_log.
Qed.
End Cluster.

(** ** Witness: a client of node 2, whose request node 1 carries out *)
Definition forward3 : list Action := election3 ++
  [Request 2 {| proposal_get := [x07] |} 5; RpcOf 2; RpcOf 2; Receive 1 2 2; TickOf 1] ++ replicate 4 (RpcOf 1) ++
  [Receive 2 1 4; RpcOf 2; Receive 1 2 3; DriverOf 1; DriverOf 1; RpcOf 1; Request 1 {| proposal_get := [x2a] |} 0;
   Receive 2 1 6; RpcOf 2].
Definition answered3 : gmap NodeId ServerNode := foldl (act cfg3) cluster3 forward3.
Definition answerer3 : ServerNode := default demo_node0 (answered3 !! 2).
Definition taken3 : list Taken := acts_taken cfg3 cluster3 forward3.

Lemma answers_own_requests_witness :
  answers (sn_loop answerer3) = [(5%nat, inl {| response_get := [x07] |})] ∧ length taken3 = 2%nat ∧
  ∃ log t k b, t ∈ taken3 ∧ tk_node t = 2 ∧ tk_client t = 5%nat ∧ log !! k = Some b ∧ on_majority ids3 answered3 b ∧
    b_data b = proposal_get (tk_proposal t) ∧
    inl {| response_get := [x07] |} = response_of (transition (Fsm := demo_fsm) (fsm_fold [] (take k log)) (b_data b)).1.
Proof.
  assert (answers (sn_loop answerer3) = [(5%nat, inl {| response_get := [x07] |})]) as Ha
    by (vm_compute; reflexivity).
  split; [exact Ha|]. split; [vm_compute; reflexivity|].
  assert (bool_decide (is_Some (answered3 !! 2)) = true) as [n Hn]%bool_decide_eq_true_1 by (vm_compute; reflexivity).
  assert (answered3 !! 2 = Some answerer3) as Hx by (unfold answerer3; by rewrite Hn).
  destruct (answers_own_requests cfg3 ids3 consistent3 (FSM := demo_fsm) [] cluster3 taken3 answered3 fresh_with3
    (acts_request_run cfg3 forward3 cluster3)) as (log & _ & Hall).
  { apply (bool_decide_eq_true_1 _). vm_compute. reflexivity. }
  destruct (Hall 2 answerer3 Hx) as (T & _ & HT). rewrite Ha in HT.
  apply Forall2_cons_inv_r in HT as (t & T' & (H1 & H2 & H3 & k & b & H4) & _ & _).
  exists log, t, k, b. split; [exact H1|]. split; [exact H2|]. split; [exact H3|exact H4].
Defined.
