(* ===== verification/Client.v ===== *)
(** * Clients of a cluster of one ([src/raft/client.rs], [src/raft/server.rs])

    A client puts its proposal and a oneshot channel on the event loop's queue
    and waits for the answer.  The tasks of the node, the event loop and the
    driver, run in any order; whatever the order, the clients are answered as if
    the state machine had been given their proposals one at a time, in the order
    the event loop took them. *)
From S2P Require Import Prelude Bytes Storage Chain Rpc Election Progress Config Raft.
From S2P Require Leader Candidate Follower.
From S2P Require Import Handle Fsm Tcp Server Invariants Demo Cluster Replication FollowerLog SingleNode Agreement.
Local Open Scope Z_scope.

(** ** The tasks of a node without peers *)
Section Ops.
Context {SLED : Sled} {BINC : Bincode Block} {ENV : Env} {BUILD : Build} {SENV : ServerEnv}.
Context {FSM : Fsm}.

Inductive Input : Type :=
| ITick
| IRpc
| IDriver
| IClient (proposal : Proposal) (client : nat).

(** The turn of a task: the event loop on a tick, a message of its own queue or a
    client's request, the driver on an instruction.  A task whose queue is empty
    waits, and nothing happens on a node that stopped. *)
Definition input (n : ServerNode) (i : Input) : ServerNode :=
  let event read e := after_event n read (event_loop_step (sn_loop n) e (sn_world n)) in
  if alive n then
    match i with
    | ITick => event (rpc_read n) EvTick
    | IRpc => match msgs (sn_world n) !! rpc_read n with
              | Some m => event (S (rpc_read n)) (EvRpc m)
              | None => n
              end
    | IDriver => match instrs (sn_world n) !! fsm_read n with
                 | Some i => after_instruction n (driver_step (sn_driver n) i (sn_world n))
                 | None => n
                 end
    | IClient p c => event (rpc_read n) (EvClient p c)
    end
  else n.

Definition inputs (l : list Input) (n : ServerNode) : ServerNode := foldl input n l.

(** What the tasks have left to take from their queues. *)
Definition to_drive (n : ServerNode) : list Instruction := drop (fsm_read n) (instrs (sn_world n)).
Definition to_send (n : ServerNode) : list Message := drop (rpc_read n) (msgs (sn_world n)).

(** The tasks run until their queues are empty. *)
Definition settle (n : ServerNode) : ServerNode :=
  let n := inputs (replicate (length (to_drive n)) IDriver) n in
  inputs (replicate (length (to_send n)) IRpc) n.

(** ** [RaftClient] *)

(** [response_rx.await?.map_err(..)]: pending while the sender is held by a
    running event loop, an error once it was dropped. *)
Definition client_poll (n : ServerNode) (client : nat) : option (outcome Response) :=
  match list_find (λ a, a.1 = client) (answers (sn_loop n)) with
  | Some (_, (_, inl res)) => Some (Ret res)
  | Some (_, (_, inr _)) => Some (Err (ErrMsg "error executing request"))
  | None => if alive n then None else Some (Err (ErrMsg "channel closed"))
  end.

(** [request]: the send fails when the event loop is gone; the tasks of the node
    then take the turns [turns]. *)
Definition client_request (turns : ServerNode → ServerNode) (n : ServerNode) (request : Proposal)
    (client : nat) : option (outcome Response) * ServerNode :=
  if alive n then
    let n := turns (input n (IClient request client)) in (client_poll n client, n)
  else (Some (Err ErrSend), n).

(** [propose]. *)
Definition client_propose (turns : ServerNode → ServerNode) (n : ServerNode) (command : bytes)
    (client : nat) : option (outcome bytes) * ServerNode :=
  let '(res, n) := client_request turns n {| proposal_get := command |} client in
  (fmap (λ o : outcome Response, r ← o; Ret (response_get r)) res, n).

(** ** The machine the clients see *)

(** Every client's proposal in turn, and its answer. *)
Fixpoint machine (f : fsm) (l : list (Proposal * nat)) :
    list (nat * (Response + ResponseError)) * fsm :=
  match l with
  | [] => ([], f)
  | (p, c) :: l =>
      let '(res, f) := transition f (proposal_get p) in
      let '(a, f) := machine f l in ((c, response_of res) :: a, f)
  end.

(** The clients of a list of turns. *)
Definition clients (l : list Input) : list (Proposal * nat) :=
  omap (λ i, match i with IClient p c => Some (p, c) | _ => None end) l.

Lemma clients_cons i l :
  clients (i :: l) = match i with IClient p c => (p, c) :: clients l | _ => clients l end.
Proof. by destruct i. Qed.

Lemma input_step n i : input n i = n ∨ node_step (λ _, False) n (input n i).
Proof.
  unfold input. destruct (alive n) eqn:Ha; [|by left].
  destruct i; [right; by constructor| | |right; by constructor];
    (case_match; [right; by constructor|by left]).
Qed.

Lemma machine_app f l1 l2 :
  machine f (l1 ++ l2) =
    ((machine f l1).1 ++ (machine (machine f l1).2 l2).1, (machine (machine f l1).2 l2).2).
Proof.
  revert f. induction l1 as [|[p c] l1 IH]; intros f; cbn; [by destruct (machine f l2)|].
  destruct (transition f (proposal_get p)) as [res f1]. rewrite IH.
  by destruct (machine f1 l1) as [a f2].
Qed.

Lemma machine_length f l : length (machine f l).1 = length l.
Proof.
  revert f. induction l as [|[p c] l IH]; intros f; cbn; [done|].
  destruct (transition f _) as [res f1]. specialize (IH f1). destruct (machine f1 l). cbn in *. lia.
Qed.

Lemma machine_take f l k : (machine f (take k l)).1 = take k (machine f l).1.
Proof.
  revert f l. induction k as [|k IH]; intros f [|[p c] l]; try done. cbn.
  destruct (transition f (proposal_get p)) as [res f1]. specialize (IH f1 l).
  destruct (machine f1 (take k l)), (machine f1 l). cbn in *. by f_equal.
Qed.
End Ops.

(** [Uuid::new_v4] does not repeat. *)
Class ServerEnvLaws `{!ServerEnv} := { uuid_inj i j : uuid i = uuid j → i = j }.

Lemma drop_head {A} (l : list A) k x r : drop k l = x :: r → l !! k = Some x ∧ drop (S k) l = r ∧ (S k ≤ length l)%nat.
Proof.
  intros H. assert (l !! k = Some x) as Hk.
  { rewrite <-(Nat.add_0_r k), <-lookup_drop, H. done. }
  split_and!; [done| |by apply lookup_lt_Some in Hk].
  rewrite <-Nat.add_1_r, <-drop_drop, H. done.
Qed.

Lemma drop_nil_lookup {A} (l : list A) k : drop k l = [] → l !! k = None.
Proof. intros H. rewrite <-(Nat.add_0_r k), <-lookup_drop, H. done. Qed.

Lemma filter_none {A} (P : A → Prop) `{!∀ x, Decision (P x)} l : Forall (λ x, ¬ P x) l → filter P l = [].
Proof. induction 1 as [|x l Hx _ IH]; [done|]. by rewrite filter_cons_False. Qed.

(** ** What is under way on a node *)
Section Solo.
Context {SLED : Sled} {BINC : Bincode Block} {ENV : Env} {BUILD : Build} {SENV : ServerEnv}
  {FSM : Fsm} {SLAWS : SledLaws} {BLAWS : BincodeLaws Block} {BMIN : BincodeMin Block 24}
  {UUID : ServerEnvLaws}.

(** A request that became a block and waits for the driver, and the answer of one
    that was applied and waits for the event loop. *)
Record Item : Type := { it_client : nat; it_id : ClientRequestId; it_block : Block }.
Record Reply : Type := { rp_client : nat; rp_id : ClientRequestId; rp_res : outcome bytes }.

Definition item_instrs (it : Item) : list Instruction :=
  [Notify (it_id it) Client (b_id (it_block it)); Apply (it_block it)].
Definition item_proposal (it : Item) : Proposal * nat :=
  ({| proposal_get := b_data (it_block it) |}, it_client it).
Definition reply_msg (u : Reply) : Message := response_msg Client (rp_id u) (rp_res u).
Definition reply_answer (u : Reply) : nat * (Response + ResponseError) :=
  (rp_client u, response_of (rp_res u)).

(** The channels held for the clients: those of the replies and of the items. *)
Definition held (unans : list Reply) (rest : list Item) : list (ClientRequestId * nat) :=
  ((λ u, (rp_id u, rp_client u)) <$> unans) ++ ((λ it, (it_id it, it_client it)) <$> rest).

(** The node after the clients [cs]: [rest] waits for the driver, which took the
    first notification already if [half]; the replies [unans] wait for the event
    loop.  [f0], [g0] and [a0] are the machine, the next block number and the
    answers at the start. *)
Record view (f0 : fsm) (g0 : Z) (a0 : list (nat * (Response + ResponseError)))
    (cs : list (Proposal * nat)) (n : ServerNode)
    (unans : list Reply) (rest : list Item) (half : bool) : Prop := {
  sv_alive : alive n = true;
  sv_leader : ∃ r, raft (sn_loop n) = HLeader r ∧ single_ok r ∧ nodes (r_config r) = [] ∧
    gen_id (id_gen (r_chain r)) = g0 + Z.of_nat (length cs);
  sv_rpc : receiver_alive (rpc_tx (sn_world n)) = true;
  sv_fsm : receiver_alive (fsm_tx (sn_world n)) = true;
  sv_tcp : receiver_alive (tcp_tx (sn_loop n)) = true;
  sv_read : (fsm_read n ≤ length (instrs (sn_world n)))%nat ∧
    (rpc_read n ≤ length (msgs (sn_world n)))%nat;
  sv_drive : to_drive n = drop (if half then 1 else 0) (rest ≫= item_instrs);
  sv_half : half = true → ∃ it rest', rest = it :: rest' ∧
    notifications (sn_driver n) !! b_id (it_block it) = Some (Client, it_id it);
  sv_blocks : Forall (λ it, b_id (it_block it) ≠ BlockId_new 0) rest;
  sv_to : Forall (λ m, msg_to m = Client ∨ msg_to m = Peers) (to_send n);
  sv_replies : filter (λ m, msg_to m = Client) (to_send n) = reply_msg <$> unans;
  sv_requests : Forall (λ x, requests (sn_loop n) !! x.1 = Some (ToClient x.2)) (held unans rest);
  sv_nodup : NoDup (held unans rest).*1;
  sv_uuid : Forall (λ x, ∃ a, (a < asked (sn_world n))%nat ∧ x.1 = uuid a) (held unans rest);
  sv_done : ∃ old ds, cs = ds ++ (item_proposal <$> rest) ∧ answers (sn_loop n) = a0 ++ old ∧
    machine f0 ds = (old ++ (reply_answer <$> unans), d_fsm (sn_driver n));
}.

(** ** Ticks *)
Lemma lone_tick r w :
  nodes (r_config r) = [] → receiver_alive (rpc_tx w) = true →
  if state_file_ok (asked w) then
    ∃ r' w' hb, handle_apply (HLeader r) Tick w = (Ret (HLeader r'), w') ∧
      r_id r' = r_id r ∧ r_chain r' = r_chain r ∧ r_config r' = r_config r ∧
      l_progress (r_role r') = l_progress (r_role r) ∧
      rpc_tx w' = rpc_tx (push_msgs hb w) ∧ fsm_tx w' = fsm_tx w ∧ (asked w ≤ asked w')%nat ∧
      Forall (λ m, msg_to m = Peers) hb
  else (handle_apply (HLeader r) Tick w).1 = Panic.
Proof.
  intros Hn Hw. change (handle_apply (HLeader r) Tick) with (Leader.apply_tick r).
  unfold Leader.apply_tick, Leader.write_state, mbind, SM_bind.
  destruct (state_file_ok (asked w)); [|done].
  unfold Leader.needs_heartbeat, elapsed, instant_now, mbind, SM_bind, mret, SM_ret. cbn [asked ask].
  destruct (_ <? _).
  - unfold Leader.heartbeat, send_all, Leader.reset_heartbeat_timer, instant_now, mbind, SM_bind, mret, SM_ret.
    rewrite rpc_send_alive by done. unfold Leader.replicate. cbn. rewrite Hn. cbn.
    eexists _, _, [_]. split_and!; try done; [cbn; lia|by repeat constructor].
  - unfold Leader.replicate. rewrite Hn. cbn.
    eexists _, _, []. split_and!; try done; [|cbn; lia]. cbn. rewrite app_nil_r. by destruct (rpc_tx w).
Qed.

Lemma single_ok_same (r r' : Raft Leader) :
  r_id r' = r_id r → r_chain r' = r_chain r → l_progress (r_role r') = l_progress (r_role r) →
  single_ok r → single_ok r'.
Proof. intros E1 E2 E3 []. split; by rewrite ?E1, ?E2, ?E3. Qed.

Section Steps.
Variables (f0 : fsm) (g0 : Z) (a0 : list (nat * (Response + ResponseError))).

Lemma view_tick cs n unans rest half :
  view f0 g0 a0 cs n unans rest half →
  if state_file_ok (asked (sn_world n)) then view f0 g0 a0 cs (input n ITick) unans rest half
  else alive (input n ITick) = false.
Proof.
  intros []. destruct sv_leader0 as (r & Hr & Hok & Hnodes & Hg).
  unfold input. rewrite sv_alive0. cbn [event_loop_step]. unfold loop_apply. rewrite Hr.
  pose proof (lone_tick r (sn_world n) Hnodes sv_rpc0) as Ht.
  destruct (state_file_ok (asked (sn_world n))).
  - destruct Ht as (r' & w' & hb & Hrun & Hi & Hc & Hcfg & Hp & Hrpc & Hfsm & Hask & Hhb).
    erewrite SM_bind_step by exact Hrun. cbn.
    destruct sv_read0 as [Hfr Hrr].
    assert (instrs w' = instrs (sn_world n)) as Ei by (unfold instrs; by rewrite Hfsm).
    assert (msgs w' = msgs (sn_world n) ++ hb) as Em by (unfold msgs; by rewrite Hrpc).
    split; cbn; try done.
    + exists r'. rewrite Hc, Hcfg. split_and!; try done. by eapply single_ok_same.
    + by rewrite Hrpc.
    + by rewrite Hfsm.
    + rewrite Ei, Em, length_app. lia.
    + unfold to_drive. cbn. by rewrite Ei.
    + unfold to_send. cbn. rewrite Em, drop_app_le by done. apply Forall_app. split; [done|].
      eapply Forall_impl; [exact Hhb|]. by right.
    + unfold to_send. cbn. rewrite Em, drop_app_le by done. rewrite filter_app.
      rewrite (filter_none _ hb), app_nil_r; [done|].
      eapply Forall_impl; [exact Hhb|]. cbn. intros m ->. done.
    + eapply Forall_impl; [exact sv_uuid0|]. cbn. intros x (a & Ha & E). exists a. split; [lia|done].
  - unfold mbind, SM_bind. destruct (handle_apply (HLeader r) Tick (sn_world n)) as [o w']. cbn in Ht.
    by subst o.
Qed.

(** ** A client's request *)
Lemma new_not_zero k : 0 < k < id_limit → BlockId_new k ≠ BlockId_new 0.
Proof.
  intros Hk E. destruct (is_id_new k ltac:(lia)) as [_ Hv]. destruct is_id_zero as [_ Hz].
  rewrite <-E, Hv in Hz. lia.
Qed.

Lemma held_snoc unans rest it : held unans (rest ++ [it]) = held unans rest ++ [(it_id it, it_client it)].
Proof. unfold held. by rewrite fmap_app, app_assoc. Qed.

Lemma view_client cs n unans rest half p c :
  view f0 g0 a0 cs n unans rest half → g0 + Z.of_nat (length cs) < id_limit →
  ∃ it, view f0 g0 a0 (cs ++ [(p, c)]) (input n (IClient p c)) unans (rest ++ [it]) half ∧
    to_send (input n (IClient p c)) = to_send n.
Proof.
  intros [] Hlim. destruct sv_leader0 as (r & Hr & Hok & Hnodes & Hg).
  set (id := uuid (asked (sn_world n))). set (k := gen_id (id_gen (r_chain r))).
  set (it := {| it_client := c; it_id := id; it_block := {| b_id := BlockId_new k;
    b_next := c_head (r_chain r); b_data := proposal_get p |} |}).
  exists it. unfold input. rewrite sv_alive0. cbn [event_loop_step].
  erewrite SM_bind_step by done. fold id. unfold loop_apply. cbn [with_requests raft]. rewrite Hr.
  destruct (single_request r {| req_id := id; req_address := Client; req_proposal := p |}
    (Raft.ask (sn_world n)) Hok ltac:(lia) sv_fsm0) as (r' & Hrun & Hok' & Hg' & Hh' & Hcfg').
  erewrite SM_bind_step by exact Hrun. cbn.
  destruct sv_read0 as [Hfr Hrr].
  assert (Forall (λ x, x.1 ≠ id) (held unans rest)) as Hfresh.
  { eapply Forall_impl; [exact sv_uuid0|]. cbn. intros x (a & Ha & ->) E%uuid_inj. lia. }
  assert (0 < k < id_limit) as Hk.
  { destruct Hok as [(_ & _ & Hgen & _) _]. pose proof (be_val_range (c_head (r_chain r))).
    subst k. lia. }
  split; [|done]. split; cbn; try done.
  - exists r'. rewrite Hcfg', Hg', length_app. split_and!; try done. cbn. subst k. lia.
  - unfold instrs, msgs in *. cbn. rewrite length_app. lia.
  - unfold to_drive, instrs in *. cbn in *. rewrite drop_app_le by done.
    rewrite sv_drive0, bind_app. symmetry. apply drop_app_le. destruct half; [|lia]. destruct (sv_half0 eq_refl) as (x & l & -> & _).
    cbn. lia.
  - intros Hhalf. destruct (sv_half0 Hhalf) as (x & l & -> & Hx). by exists x, (l ++ [it]).
  - apply Forall_app. split; [done|]. repeat constructor. cbn. by apply new_not_zero.
  - rewrite held_snoc. apply Forall_app. split.
    + rewrite !Forall_forall in *. intros x Hx. rewrite lookup_insert_ne; [by apply sv_requests0|].
      intros E. by apply (Hfresh x Hx).
    + repeat constructor. cbn. by rewrite lookup_insert_eq.
  - rewrite held_snoc, fmap_app. apply NoDup_app. split_and!; [done| |apply NoDup_singleton].
    cbn. intros y Hy ->%list_elem_of_singleton. apply list_elem_of_fmap in Hy as (x & E & Hx).
    rewrite Forall_forall in Hfresh. by apply (Hfresh x Hx).
  - rewrite held_snoc. apply Forall_app. split.
    + eapply Forall_impl; [exact sv_uuid0|]. cbn. intros x (a & Ha & E). exists a. split; [lia|done].
    + repeat constructor. exists (asked (sn_world n)). split; [lia|done].
  - destruct sv_done0 as (old & ds & -> & Ha & Hm). exists old, ds. split_and!; try done.
    rewrite fmap_app, app_assoc. cbn. unfold item_proposal. cbn. by destruct p.
Qed.

(** ** The driver's turn *)
Lemma view_notify cs n unans it rest :
  view f0 g0 a0 cs n unans (it :: rest) false →
  view f0 g0 a0 cs (input n IDriver) unans (it :: rest) true.
Proof.
  intros []. destruct (drop_head _ _ _ _ sv_drive0) as (Hl & Hd & Hle).
  unfold input. rewrite sv_alive0, Hl. destruct sv_read0.
  split; cbn; try done.
  intros _. exists it, rest. by rewrite lookup_insert_eq.
Qed.

Lemma view_apply cs n unans it rest :
  view f0 g0 a0 cs n unans (it :: rest) true →
  let res := (transition (d_fsm (sn_driver n)) (b_data (it_block it))).1 in
  let u := {| rp_client := it_client it; rp_id := it_id it; rp_res := res |} in
  if panics res then alive (input n IDriver) = false
  else view f0 g0 a0 cs (input n IDriver) (unans ++ [u]) rest false ∧
    to_send (input n IDriver) = to_send n ++ [reply_msg u].
Proof.
  intros [] res u. subst u. destruct (drop_head _ _ _ _ sv_drive0) as (Hl & Hd & Hle).
  destruct (sv_half0 eq_refl) as (x & l & [= <- <-] & Hx).
  apply Forall_cons in sv_blocks0 as [Hb Hbs].
  unfold input. rewrite sv_alive0, Hl. cbn [driver_step]. rewrite decide_False by done.
  unfold exec. cbn [d_fsm notifications]. unfold res. clear res.
  destruct (transition (d_fsm (sn_driver n)) (b_data (it_block it))) as [res f] eqn:Ht.
  cbn [fst notifications]. rewrite Hx. destruct (panics res) eqn:Hp; [by destruct res|].
  assert (∀ A (x y : A), match res with Panic => x | _ => y end = y) as Hres by (by destruct res).
  rewrite Hres. erewrite SM_bind_step by (by apply rpc_send_alive). clear Hres. cbn.
  destruct sv_read0 as [Hfr Hrr].
  set (u := {| rp_client := it_client it; rp_id := it_id it; rp_res := res |}).
  assert (held (unans ++ [u]) rest = held unans (it :: rest)) as Hh.
  { unfold held. by rewrite fmap_app, <-app_assoc. }
  set (n' := Build_ServerNode _ _ _ _ _ _).
  assert (to_send n' = to_send n ++ [reply_msg u]) as Hts.
  { unfold to_send, msgs, n'. cbn. by rewrite drop_app_le. }
  split; [|done]. split; rewrite ?Hh, ?Hts; unfold n'; cbn; try done.
  - split; [done|]. unfold msgs in *. cbn. rewrite length_app. lia.
  - apply Forall_app. split; [done|]. by repeat constructor.
  - by rewrite filter_app, fmap_app, sv_replies0.
  - destruct sv_done0 as (old & ds & -> & Ha & Hm). exists old, (ds ++ [item_proposal it]).
    split_and!; [by rewrite <-app_assoc|done|].
    rewrite machine_app, Hm, fmap_app, app_assoc. cbn. by rewrite Ht.
Qed.

(** ** The event loop on its own queue *)
Lemma view_rpc cs n unans rest half m :
  view f0 g0 a0 cs n unans rest half → head (to_send n) = Some m →
  match unans with
  | u :: unans' =>
      if decide (msg_to m = Client) then
        if waiting (rp_client u) then
          view f0 g0 a0 cs (input n IRpc) unans' rest half ∧
          to_send (input n IRpc) = tail (to_send n)
        else alive (input n IRpc) = false
      else view f0 g0 a0 cs (input n IRpc) unans rest half ∧
        to_send (input n IRpc) = tail (to_send n)
  | [] => view f0 g0 a0 cs (input n IRpc) unans rest half ∧
      to_send (input n IRpc) = tail (to_send n)
  end.
Proof.
  intros [] Hm. destruct (to_send n) as [|m' q] eqn:Hq; [done|]. injection Hm as ->.
  destruct (drop_head _ _ _ _ Hq) as (Hl & Hd & Hle). apply Forall_cons in sv_to0 as [Hto Htos].
  unfold input. rewrite sv_alive0, Hl. cbn [event_loop_step].
  destruct sv_read0 as [Hfr Hrr]. cbn [tail].
  assert (msg_to m = Peers → view f0 g0 a0 cs
      (after_event n (S (rpc_read n)) (tcp_tx_send (sn_loop n) m (sn_world n))) unans rest half ∧
    to_send (after_event n (S (rpc_read n)) (tcp_tx_send (sn_loop n) m (sn_world n))) = q) as Hpeers.
  { intros E. unfold tcp_tx_send. rewrite sv_tcp0. cbn. split; [|done].
    rewrite filter_cons_False in sv_replies0 by (by rewrite E).
    split; cbn; try done; unfold to_send; cbn; by rewrite Hd. }
  destruct Hto as [E|E].
  2:{ rewrite E. destruct unans; [by apply Hpeers|]. rewrite decide_False by done. by apply Hpeers. }
  clear Hpeers. rewrite filter_cons_True in sv_replies0 by done.
  destruct unans as [|u unans']; [done|]. injection sv_replies0 as -> Hrep.
  rewrite decide_True by done. cbn [reply_msg response_msg msg_to msg_command].
  apply Forall_cons in sv_requests0 as [Hu Hreq]. cbn in Hu. cbn [res_id]. rewrite Hu.
  apply NoDup_cons in sv_nodup0 as [Hnin Hnd]. apply Forall_cons in sv_uuid0 as [_ Huuid].
  cbn [respond]. destruct (waiting (rp_client u)); [|done]. cbn. split; [|done].
  split; cbn; try done; try (unfold to_send; cbn; by rewrite Hd).
  - rewrite Forall_forall in *. intros x Hx. rewrite lookup_delete_ne; [by apply Hreq|].
    intros Ex. apply Hnin. cbn. rewrite Ex. by apply list_elem_of_fmap_2.
  - destruct sv_done0 as (old & ds & -> & Ha & Hma). exists (old ++ [reply_answer u]), ds.
    split_and!; [done|by rewrite Ha, app_assoc|]. rewrite Hma. by rewrite <-app_assoc.
Qed.
End Steps.
End Solo.

(** ** Runs *)
Section Runs.
Context {SLED : Sled} {BINC : Bincode Block} {ENV : Env} {BUILD : Build} {SENV : ServerEnv}
  {FSM : Fsm} {SLAWS : SledLaws} {BLAWS : BincodeLaws Block} {BMIN : BincodeMin Block 24}
  {UUID : ServerEnvLaws}.

(** The number of the next block of the node. *)
Definition next_number (n : ServerNode) : Z := gen_id (id_gen (handle_chain (raft (sn_loop n)))).

(** A node that leads alone and has no work. *)
Record idle (n : ServerNode) : Prop := {
  id_alive : alive n = true;
  id_leader : ∃ r, raft (sn_loop n) = HLeader r ∧ single_ok r ∧ nodes (r_config r) = [];
  id_chans : receiver_alive (rpc_tx (sn_world n)) = true ∧
    receiver_alive (fsm_tx (sn_world n)) = true ∧ receiver_alive (tcp_tx (sn_loop n)) = true;
  id_read : (fsm_read n ≤ length (instrs (sn_world n)))%nat ∧
    (rpc_read n ≤ length (msgs (sn_world n)))%nat;
  id_drive : to_drive n = [];
  id_send : Forall (λ m, msg_to m = Peers) (to_send n);
}.

(** No proposal makes the machine panic. *)
Fixpoint machine_ok (f : fsm) (l : list (Proposal * nat)) : bool :=
  match l with
  | [] => true
  | (p, _) :: l =>
      let '(res, f) := transition f (proposal_get p) in negb (panics res) && machine_ok f l
  end.

Lemma machine_ok_app f l1 l2 :
  machine_ok f (l1 ++ l2) = machine_ok f l1 && machine_ok (machine f l1).2 l2.
Proof.
  revert f. induction l1 as [|[p c] l1 IH]; intros f; cbn; [done|].
  destruct (transition f (proposal_get p)) as [res f1]. rewrite IH.
  destruct (machine f1 l1). cbn. by rewrite andb_assoc.
Qed.

Lemma idle_view n :
  idle n → view (d_fsm (sn_driver n)) (next_number n) (answers (sn_loop n)) [] n [] [] false.
Proof.
  intros [Ha (r & Hr & Hok & Hn) (Hc1 & Hc2 & Hc3) Hread Hd Hs]. split; try done.
  - exists r. unfold next_number. rewrite Hr. cbn. split_and!; try done. lia.
  - eapply Forall_impl; [exact Hs|]. by right.
  - apply filter_none. eapply Forall_impl; [exact Hs|]. cbn. by intros m ->.
  - apply NoDup_nil_2.
  - exists [], []. cbn. by rewrite app_nil_r.
Qed.

Lemma view_idle f0 g0 a0 cs n :
  view f0 g0 a0 cs n [] [] false → idle n ∧ next_number n = g0 + Z.of_nat (length cs) ∧
    answers (sn_loop n) = a0 ++ (machine f0 cs).1 ∧ d_fsm (sn_driver n) = (machine f0 cs).2.
Proof.
  intros []. destruct sv_leader0 as (r & Hr & Hok & Hn & Hg).
  destruct sv_done0 as (old & ds & -> & Ha & Hm). cbn. rewrite !app_nil_r in *.
  rewrite Hm. split_and!; try done; [|unfold next_number; by rewrite Hr].
  split; try done; [by eauto|].
  rewrite Forall_forall in *. intros m Hin. destruct (sv_to0 m Hin) as [E|]; [|done].
  assert (m ∈ filter (λ m, msg_to m = Client) (to_send n)) as Hf by (by apply list_elem_of_filter).
  rewrite sv_replies0 in Hf. by apply elem_of_nil in Hf.
Qed.

Lemma inputs_dead l n : alive n = false → inputs l n = n.
Proof.
  intros Hn. unfold inputs. revert n Hn. induction l as [|i l IH]; intros n Hn; cbn; [done|].
  unfold input at 2. rewrite Hn. by apply IH.
Qed.

(** What a turn of the driver or of the event loop on its queue leaves. *)
Lemma view_driver f0 g0 a0 cs n unans rest half :
  view f0 g0 a0 cs n unans rest half →
  alive (input n IDriver) = false ∨
  ∃ unans' rest' half', view f0 g0 a0 cs (input n IDriver) unans' rest' half' ∧
    length (to_drive (input n IDriver)) = pred (length (to_drive n)).
Proof.
  intros Hv. pose proof (sv_drive _ _ _ _ _ _ _ _ Hv) as Hd.
  destruct rest as [|it rest].
  { right. assert (to_drive n = []) as Hnil by (rewrite Hd; by destruct half).
    exists unans, [], half. unfold input. rewrite (sv_alive _ _ _ _ _ _ _ _ Hv).
    rewrite (drop_nil_lookup _ _ Hnil). split; [done|]. by rewrite Hnil. }
  destruct half.
  - pose proof (view_apply _ _ _ _ _ _ _ _ Hv) as Ha. cbv zeta in Ha.
    destruct (panics _); [by left|]. right. destruct Ha as [Hv' _]. do 3 eexists. split; [exact Hv'|].
    by rewrite (sv_drive _ _ _ _ _ _ _ _ Hv'), Hd.
  - right. pose proof (view_notify _ _ _ _ _ _ _ _ Hv) as Hv'. do 3 eexists. split; [exact Hv'|].
    by rewrite (sv_drive _ _ _ _ _ _ _ _ Hv'), Hd.
Qed.

Lemma view_loop f0 g0 a0 cs n unans rest half :
  view f0 g0 a0 cs n unans rest half →
  alive (input n IRpc) = false ∨
  ∃ unans', view f0 g0 a0 cs (input n IRpc) unans' rest half ∧
    to_send (input n IRpc) = tail (to_send n).
Proof.
  intros Hv. destruct (to_send n) as [|m q] eqn:Hq.
  - right. exists unans. unfold input. rewrite (sv_alive _ _ _ _ _ _ _ _ Hv).
    by rewrite (drop_nil_lookup _ _ Hq).
  - pose proof (view_rpc _ _ _ _ _ _ _ _ m Hv ltac:(by rewrite Hq)) as Hr. rewrite Hq in Hr.
    destruct unans as [|u unans]; [by eauto|].
    case_decide; [|by eauto]. destruct (waiting _); [by eauto|by left].
Qed.

Lemma view_run f0 g0 a0 l : ∀ cs n unans rest half,
  view f0 g0 a0 cs n unans rest half →
  g0 + Z.of_nat (length cs) + Z.of_nat (length (clients l)) ≤ id_limit →
  alive (inputs l n) = true →
  ∃ unans' rest' half', view f0 g0 a0 (cs ++ clients l) (inputs l n) unans' rest' half'.
Proof.
  induction l as [|i l IH]; intros cs n unans rest half Hv Hlim Hal.
  { exists unans, rest, half. cbn. by rewrite app_nil_r. }
  change (inputs (i :: l) n) with (inputs l (input n i)) in *.
  destruct (alive (input n i)) eqn:Hai; [|rewrite inputs_dead in Hal by done; congruence].
  rewrite clients_cons in Hlim |- *. destruct i as [| | |p c].
  - pose proof (view_tick _ _ _ _ _ _ _ _ Hv) as Ht. destruct (state_file_ok _); [by eauto|congruence].
  - destruct (view_loop _ _ _ _ _ _ _ _ Hv) as [?|(u & Hv' & _)]; [congruence|by eauto].
  - destruct (view_driver _ _ _ _ _ _ _ _ Hv) as [?|(u & r & h & Hv' & _)]; [congruence|by eauto].
  - destruct (view_client _ _ _ _ _ _ _ _ p c Hv) as (it & Hv' & _); [cbn in Hlim; lia|].
    rewrite (cons_middle _ cs), app_assoc. eapply IH; [done| |done]. cbn [length] in Hlim. rewrite length_app. cbn. lia.
Qed.

(** C6: clients of a single node see one machine. Let a node that leads alone and
    is idle take turns in any order: ticks, requests of clients, messages of its
    own queue, instructions for the driver. As long as it runs, the answers sent
    are those of the state machine given the proposals one at a time in the order
    the event loop took them, each to its own client and in that order, up to the
    requests still under way. *)
Theorem single_node_linearizable l n0 :
  let n := inputs l n0 in
  let f0 := d_fsm (sn_driver n0) in
  idle n0 → next_number n0 + Z.of_nat (length (clients l)) ≤ id_limit → alive n = true →
  ∃ j k, (j ≤ k ≤ length (clients l))%nat ∧
    answers (sn_loop n) = answers (sn_loop n0) ++ take j (machine f0 (clients l)).1 ∧
    d_fsm (sn_driver n) = (machine f0 (take k (clients l))).2.
Proof.
  intros n f0 H0 Hlim Hal. destruct (view_run f0 (next_number n0) (answers (sn_loop n0)) l [] n0 [] [] false)
    as (unans & rest & half & Hv); [by apply idle_view|cbn; lia|done|].
  destruct (sv_done _ _ _ _ _ _ _ _ Hv) as (old & ds & Hcs & Ha & Hm).
  cbn [app] in Hcs. exists (length old), (length ds). fold n in Ha. rewrite Hcs, take_app_length.
  pose proof (machine_length f0 ds) as Hlen. rewrite Hm in Hlen. cbn in Hlen.
  rewrite length_app in Hlen. rewrite machine_app, Hm. cbn.
  split_and!; [lia|rewrite length_app; lia|rewrite Ha|done].
  by rewrite <-app_assoc, take_app_length.
Qed.

(** ** Completion *)
Lemma machine_clients f cs : (machine f cs).1.*1 = cs.*2.
Proof.
  revert f. induction cs as [|[p c] cs IH]; intros f; cbn; [done|].
  destruct (transition f _) as [res f1]. specialize (IH f1). destruct (machine f1 cs). cbn in *.
  by f_equal.
Qed.

Section Live.
Variables (f0 : fsm) (g0 : Z) (a0 : list (nat * (Response + ResponseError))).

Lemma view_waiting cs n unans rest half :
  view f0 g0 a0 cs n unans rest half → Forall (λ c, waiting c = true) cs.*2 →
  Forall (λ u, waiting (rp_client u) = true) unans.
Proof.
  intros Hv Hw. destruct (sv_done _ _ _ _ _ _ _ _ Hv) as (old & ds & -> & _ & Hma).
  rewrite fmap_app in Hw. apply Forall_app in Hw as [Hw _].
  rewrite <-(machine_clients f0), Hma in Hw. cbn in Hw. rewrite fmap_app in Hw.
  apply Forall_app in Hw as [_ Hw]. by rewrite !Forall_fmap in Hw.
Qed.

Lemma view_loop_ok cs n unans rest half :
  view f0 g0 a0 cs n unans rest half → Forall (λ c, waiting c = true) cs.*2 →
  alive (input n IRpc) = true.
Proof.
  intros Hv Hw. destruct (to_send n) as [|m q] eqn:Hq.
  { unfold input. rewrite (sv_alive _ _ _ _ _ _ _ _ Hv).
    rewrite (drop_nil_lookup _ _ Hq). by eapply sv_alive. }
  pose proof (view_rpc _ _ _ _ _ _ _ _ m Hv ltac:(by rewrite Hq)) as Hr.
  pose proof (view_waiting _ _ _ _ _ Hv Hw) as Hu.
  destruct unans as [|u unans]; [by eapply sv_alive, Hr|].
  apply Forall_cons in Hu as [Hu _]. rewrite Hu in Hr. case_decide; by eapply sv_alive, Hr.
Qed.

Lemma view_driver_ok cs n unans rest half :
  view f0 g0 a0 cs n unans rest half → machine_ok f0 cs = true → alive (input n IDriver) = true.
Proof.
  intros Hv Hok. destruct rest as [|it rest].
  { unfold input. rewrite (sv_alive _ _ _ _ _ _ _ _ Hv).
    rewrite drop_nil_lookup; [by eapply sv_alive|].
    change (to_drive n = []). rewrite (sv_drive _ _ _ _ _ _ _ _ Hv). by destruct half. }
  destruct half; [|by eapply sv_alive, view_notify].
  destruct (sv_done _ _ _ _ _ _ _ _ Hv) as (old & ds & -> & _ & Hm).
  rewrite machine_ok_app, Hm in Hok. cbn in Hok.
  pose proof (view_apply _ _ _ _ _ _ _ _ Hv) as Hap. cbv zeta in Hap.
  destruct (transition (d_fsm (sn_driver n)) (b_data (it_block it))) as [res f]. cbn in Hap, Hok.
  destruct (panics res); [by rewrite andb_false_r in Hok|]. by eapply sv_alive, Hap.
Qed.

Lemma drive_all m : ∀ cs n unans rest half,
  view f0 g0 a0 cs n unans rest half → machine_ok f0 cs = true → length (to_drive n) = m →
  ∃ unans', view f0 g0 a0 cs (inputs (replicate m IDriver) n) unans' [] false.
Proof.
  induction m as [|m IH]; intros cs n unans rest half Hv Hok Hm.
  - rewrite (sv_drive _ _ _ _ _ _ _ _ Hv) in Hm. destruct rest; [|by destruct half].
    destruct half; [|by exists unans]. by destruct (sv_half _ _ _ _ _ _ _ _ Hv eq_refl) as (? & ? & ? & _).
  - cbn. destruct (view_driver _ _ _ _ _ _ _ _ Hv) as [Hd|(u & r & h & Hv' & Hlen)].
    + by rewrite (view_driver_ok _ _ _ _ _ Hv Hok) in Hd.
    + eapply IH; [done..|]. by rewrite Hlen, Hm.
Qed.

Lemma send_all_ok m : ∀ cs n unans,
  view f0 g0 a0 cs n unans [] false → Forall (λ c, waiting c = true) cs.*2 →
  length (to_send n) = m → view f0 g0 a0 cs (inputs (replicate m IRpc) n) [] [] false.
Proof.
  induction m as [|m IH]; intros cs n unans Hv Hw Hm.
  - destruct unans as [|u unans]; [done|]. pose proof (sv_replies _ _ _ _ _ _ _ _ Hv) as Hr.
    apply nil_length_inv in Hm. by rewrite Hm in Hr.
  - cbn. destruct (view_loop _ _ _ _ _ _ _ _ Hv) as [Hd|(u & Hv' & Ht)].
    + by rewrite (view_loop_ok _ _ _ _ _ Hv Hw) in Hd.
    + eapply IH; [done..|]. rewrite Ht. destruct (to_send n); [done|]. by injection Hm.
Qed.

Lemma settle_view cs n unans rest half :
  view f0 g0 a0 cs n unans rest half → machine_ok f0 cs = true →
  Forall (λ c, waiting c = true) cs.*2 → view f0 g0 a0 cs (settle n) [] [] false.
Proof.
  intros Hv Hok Hw. destruct (drive_all _ _ _ _ _ _ Hv Hok eq_refl) as (u & Hv').
  unfold settle. by eapply send_all_ok.
Qed.

Lemma run_alive l : (∀ a, state_file_ok a = true) → ∀ cs n unans rest half,
  view f0 g0 a0 cs n unans rest half →
  g0 + Z.of_nat (length cs) + Z.of_nat (length (clients l)) ≤ id_limit →
  machine_ok f0 (cs ++ clients l) = true →
  Forall (λ c, waiting c = true) (cs ++ clients l).*2 → alive (inputs l n) = true.
Proof.
  intros Hfile. induction l as [|i l IH]; intros cs n unans rest half Hv Hlim Hok Hw.
  { by eapply sv_alive. }
  change (inputs (i :: l) n) with (inputs l (input n i)).
  assert (machine_ok f0 cs = true ∧ Forall (λ c, waiting c = true) cs.*2) as [Hok1 Hw1].
  { rewrite machine_ok_app in Hok. apply andb_true_iff in Hok as [Hok _].
    rewrite fmap_app in Hw. apply Forall_app in Hw as [Hw _]. done. }
  rewrite clients_cons in Hlim, Hok, Hw. destruct i as [| | |p c].
  - pose proof (view_tick _ _ _ _ _ _ _ _ Hv) as Ht. rewrite Hfile in Ht. by eapply IH.
  - destruct (view_loop _ _ _ _ _ _ _ _ Hv) as [Hd|(u & Hv' & _)]; [|by eapply IH].
    by rewrite (view_loop_ok _ _ _ _ _ Hv Hw1) in Hd.
  - destruct (view_driver _ _ _ _ _ _ _ _ Hv) as [Hd|(u & r & h & Hv' & _)]; [|by eapply IH].
    by rewrite (view_driver_ok _ _ _ _ _ Hv Hok1) in Hd.
  - destruct (view_client _ _ _ _ _ _ _ _ p c Hv) as (it & Hv' & _); [cbn in Hlim; lia|].
    rewrite (cons_middle _ cs), app_assoc in Hok, Hw. eapply IH; [done| |done..].
    cbn [length] in Hlim. rewrite length_app. cbn. lia.
Qed.
End Live.

(** C7: every client of a single node is answered. If the state file can be
    written, the clients wait and the state machine does not panic, then the node
    keeps running through any turns of its tasks, and once its tasks have emptied
    their queues every client that asked has its answer, that of the state machine
    given the proposals in order; the node is idle again. *)
Theorem single_node_completes l n0 :
  let f0 := d_fsm (sn_driver n0) in
  idle n0 → next_number n0 + Z.of_nat (length (clients l)) ≤ id_limit →
  (∀ a, state_file_ok a = true) → Forall (λ c, waiting c = true) (clients l).*2 →
  machine_ok f0 (clients l) = true →
  let n := settle (inputs l n0) in
  idle n ∧ answers (sn_loop n) = answers (sn_loop n0) ++ (machine f0 (clients l)).1 ∧
  d_fsm (sn_driver n) = (machine f0 (clients l)).2.
Proof.
  intros f0 H0 Hlim Hfile Hw Hok n. pose proof (idle_view n0 H0) as Hv.
  pose proof (run_alive _ _ _ l Hfile _ _ _ _ _ Hv ltac:(cbn; lia) Hok Hw) as Hal.
  destruct (view_run _ _ _ l _ _ _ _ _ Hv ltac:(cbn; lia) Hal) as (u & r & h & Hv').
  pose proof (settle_view _ _ _ _ _ _ _ _ Hv' Hok Hw) as Hs.
  by destruct (view_idle _ _ _ _ _ Hs) as (? & _ & ? & ?).
Qed.

(** ** A proposal *)
Lemma list_find_last {A} (P : A → Prop) `{!∀ x, Decision (P x)} l x :
  Forall (λ y, ¬ P y) l → P x → list_find P (l ++ [x]) = Some (length l, x).
Proof.
  intros Hl Hx. apply list_find_app_Some. right. split_and!; [done|by apply list_find_None|].
  cbn. by rewrite decide_True, Nat.sub_diag.
Qed.

(** The turns of the tasks that serve one request on an idle node. *)
Lemma propose_ok n command c res f :
  idle n → next_number n < id_limit → waiting c = true → c ∉ (answers (sn_loop n)).*1 →
  transition (d_fsm (sn_driver n)) command = (res, f) → panics res = false →
  ∃ n', client_propose settle n command c =
      (Some (match res with Ret v => Ret v | _ => Err (ErrMsg "error executing request") end), n') ∧
    idle n' ∧ next_number n' = next_number n + 1 ∧ d_fsm (sn_driver n') = f ∧
    answers (sn_loop n') = answers (sn_loop n) ++ [(c, response_of res)].
Proof.
  intros H0 Hlim Hw Hc Ht Hp. set (p := {| proposal_get := command |}).
  pose proof (idle_view n H0) as Hv.
  destruct (view_client _ _ _ _ _ _ _ _ p c Hv) as (it & Hv' & _); [cbn; lia|].
  pose proof (settle_view _ _ _ _ _ _ _ _ Hv') as Hs. cbn in Hs. rewrite Ht, Hp in Hs.
  specialize (Hs eq_refl ltac:(by repeat constructor)).
  destruct (view_idle _ _ _ _ _ Hs) as (Hi & Hn & Ha & Hf). cbn in Ha, Hf, Hn. rewrite Ht in Ha, Hf.
  exists (settle (input n (IClient p c))). split_and!; [|done..].
  unfold client_propose, client_request, client_poll. rewrite (id_alive _ H0). fold p.
  rewrite Ha. cbn [fst]. rewrite list_find_last; [|rewrite Forall_forall; intros y Hy E; apply Hc|done].
  - by destruct res.
  - apply list_elem_of_fmap. exists y. by rewrite E.
Qed.

Lemma input_driver_loop n : sn_loop (input n IDriver) = sn_loop n.
Proof.
  unfold input. destruct (alive n); [|done]. case_match; [|done]. unfold after_instruction.
  by destruct (driver_step _ _ _) as [[]].
Qed.

(** A machine that panics takes the node down with the client's channel. *)
Lemma propose_panic n command c f :
  idle n → next_number n < id_limit → c ∉ (answers (sn_loop n)).*1 →
  transition (d_fsm (sn_driver n)) command = (Panic, f) →
  ∃ n', client_propose settle n command c = (Some (Err (ErrMsg "channel closed")), n') ∧ alive n' = false.
Proof.
  intros H0 Hlim Hc Ht. set (p := {| proposal_get := command |}).
  pose proof (idle_view n H0) as Hv.
  destruct (view_client _ _ _ _ _ _ _ _ p c Hv) as (it & Hv1 & _); [cbn; lia|]. cbn [app] in Hv1.
  pose proof (view_notify _ _ _ _ _ _ _ _ Hv1) as Hv2.
  pose proof (view_apply _ _ _ _ _ _ _ _ Hv2) as Hd. cbv zeta in Hd.
  destruct (sv_done _ _ _ _ _ _ _ _ Hv2) as (old & ds & Hcs & Ha & Hm).
  apply (f_equal length) in Hcs as Hlen. rewrite length_app in Hlen. cbn in Hlen.
  destruct ds; [|cbn in Hlen; lia]. injection Hcs as Hb Hcl. injection Hm as Hold Hf.
  symmetry in Hold. apply app_nil in Hold as [-> _]. rewrite app_nil_r in Ha.
  rewrite <-Hf, <-Hb, Ht in Hd. cbn in Hd.
  set (n2 := input (input n (IClient p c)) IDriver) in *.
  assert (settle (input n (IClient p c)) = input n2 IDriver) as Hset.
  { unfold settle. rewrite (sv_drive _ _ _ _ _ _ _ _ Hv1). cbn. fold n2. by rewrite inputs_dead. }
  exists (input n2 IDriver). split; [|done].
  unfold client_propose, client_request, client_poll. rewrite (id_alive _ H0). fold p.
  rewrite Hset, Hd, input_driver_loop, Ha.
  rewrite (proj2 (list_find_None _ _)); [done|]. rewrite Forall_forall. intros y Hy E. apply Hc.
  apply list_elem_of_fmap. by exists y.
Qed.

(** C31: what a client of a single node is told. On an idle node, [propose] returns
    what the state machine returned; an error of the machine comes back as an error
    with its reason dropped, and a panic of the machine as a closed channel. After
    a result or an error the machine has made that one transition and the node is
    idle again; after a panic it has stopped. *)
Theorem propose_exact n command c :
  idle n → next_number n < id_limit → waiting c = true → c ∉ (answers (sn_loop n)).*1 →
  let '(res, f) := transition (d_fsm (sn_driver n)) command in
  ∃ n', match res with
        | Ret v => client_propose settle n command c = (Some (Ret v), n')
        | Err _ => client_propose settle n command c =
            (Some (Err (ErrMsg "error executing request")), n')
        | Panic => client_propose settle n command c = (Some (Err (ErrMsg "channel closed")), n')
        end ∧
    if panics res then alive n' = false
    else idle n' ∧ next_number n' = next_number n + 1 ∧ d_fsm (sn_driver n') = f.
Proof.
  intros H0 Hlim Hw Hc. destruct (transition _ _) as [res f] eqn:Ht.
  destruct (panics res) eqn:Hp.
  - destruct res; try done. by eapply propose_panic.
  - destruct (propose_ok n command c res f) as (n' & Hrun & Hi & Hn & Hf & _); try done.
    exists n'. split; [by destruct res|done].
Qed.
End Runs.

(** ** The start of a node without peers *)
Section Start.
Context {SLED : Sled} {BINC : Bincode Block} {ENV : Env} {BUILD : Build} {SENV : ServerEnv}
  {FSM : Fsm} {SLAWS : SledLaws} {BLAWS : BincodeLaws Block} {BMIN : BincodeMin Block 24}.

(** A node that waits for its election timeout [to], set at [t0]. *)
Record starting (n : ServerNode) (c : Chain) (t0 to : Z) : Prop := {
  st_alive : alive n = true;
  st_follower : ∃ r, raft (sn_loop n) = HFollower r ∧ lone_follower r ∧ r_chain r = c ∧
    election_time (r_state r) = Some t0 ∧ election_timer (r_state r) = Some to;
  st_chans : receiver_alive (rpc_tx (sn_world n)) = true ∧
    receiver_alive (fsm_tx (sn_world n)) = true ∧ receiver_alive (tcp_tx (sn_loop n)) = true;
  st_empty : msgs (sn_world n) = [] ∧ instrs (sn_world n) = [] ∧ rpc_read n = 0%nat ∧ fsm_read n = 0%nat;
}.

Lemma starting_tick n c t0 to :
  starting n c t0 to →
  let n' := input n ITick in
  sn_driver n' = sn_driver n ∧ answers (sn_loop n') = answers (sn_loop n) ∧
  if to <? Z.max 0 (clock (asked (sn_world n)) - t0) then idle n' ∧ handle_chain (raft (sn_loop n')) = c
  else starting n' c t0 to ∧ asked (sn_world n') = S (asked (sn_world n)).
Proof.
  intros [Hal (r & Hr & Hl & Hc & Ht0 & Hto) (H1 & H2 & H3) (Hm & Hi & Hrr & Hfr)] n'.
  unfold n', input. rewrite Hal. cbn [event_loop_step]. unfold loop_apply. rewrite Hr.
  assert (handle_apply (HFollower r) Tick (sn_world n) =
    (if to <? Z.max 0 (clock (asked (sn_world n)) - t0) then handle_apply (HFollower r) Timeout
     else mret (HFollower r)) (Raft.ask (sn_world n))) as Htick.
  { cbn [handle_apply Follower.apply]. unfold Follower.apply_tick, needs_election.
    rewrite Ht0, Hto. unfold elapsed. erewrite SM_bind_step; [|by repeat (erewrite SM_bind_step by done)].
    by destruct (_ <? _). }
  unfold mbind, SM_bind. rewrite Htick. destruct (_ <? _).
  - destruct (lone_timeout r (Raft.ask (sn_world n)) Hl H1)
      as (r' & w' & Hrun & Hok & Hch & Hcfg & _ & Hrpc & Hfsm).
    rewrite Hrun. cbn. split_and!; [done|done| |by rewrite Hch].
    split; cbn; try done.
    + exists r'. rewrite Hcfg. split_and!; try done. apply Hl.
    + by rewrite Hrpc, Hfsm.
    + rewrite Hrr, Hfr. split; lia.
    + unfold to_drive, instrs in *. cbn in *. by rewrite Hfsm, Hi, drop_nil.
    + unfold to_send, msgs in *. cbn in *. rewrite Hrpc. cbn. rewrite Hm, Hrr. by repeat constructor.
  - cbn. split_and!; [done|done| |done]. split; cbn; try done. by exists r.
Qed.

Lemma starting_leads n c t0 to g :
  starting n c t0 to → (∀ i, (asked (sn_world n) + g ≤ i)%nat → t0 + to < clock i) →
  ∃ m, idle (inputs (replicate m ITick) n) ∧
    handle_chain (raft (sn_loop (inputs (replicate m ITick) n))) = c ∧
    sn_driver (inputs (replicate m ITick) n) = sn_driver n ∧
    answers (sn_loop (inputs (replicate m ITick) n)) = answers (sn_loop n).
Proof.
  revert n. induction g as [|g IH]; intros n Hs Hg;
    destruct (starting_tick n c t0 to Hs) as (Hd & Ha & Ht).
  - exists 1%nat. cbn. rewrite (proj2 (Z.ltb_lt _ _)) in Ht; [by destruct Ht; split_and!|].
    specialize (Hg (asked (sn_world n)) ltac:(lia)). lia.
  - destruct (to <? _); [by destruct Ht; exists 1%nat; cbn; split_and!|]. destruct Ht as [Hs' Hask].
    destruct (IH _ Hs') as (m & H1 & H2 & H3 & H4).
    { intros i Hgi. apply Hg. lia. }
    exists (S m). cbn. fold (inputs (replicate m ITick) (input n ITick)).
    split_and!; [done|done|by rewrite H3|by rewrite H4].
Qed.

Lemma server_new_starting config d f k n :
  nodes config = [] → contents d = ∅ → server_new config d f k = Ret n →
  ∃ c t0 to, starting n c t0 to ∧ gen_id (id_gen c) = 1 ∧
    sn_driver n = driver_new f ∧ answers (sn_loop n) = [].
Proof.
  intros Hn Hd. unfold server_new. set (w := Build_World _ _ _ _).
  destruct (handle_new config d w) as [o w'] eqn:Hnew. intros (h & -> & [= <-])%bind_Ret.
  unfold handle_new in Hnew. destruct (Follower.new config d w) as [[r|er|] w1] eqn:Hr;
    injection Hnew as ? <-; try done. subst h.
  unfold Follower.new in Hr. apply SM_bind_Ret in Hr as ([] & w2 & [_ ->]%lift_Ret & Hr).
  apply SM_bind_Ret in Hr as (ch & w2 & [Hch ->]%lift_Ret & Hr).
  destruct (open_fresh d Hd) as (c' & Hc' & Hwf & Hg & Habs). rewrite Hch in Hc'. injection Hc' as <-.
  assert (t_head (abs ch) = BlockId_new 0 ∧ t_commit (abs ch) = BlockId_new 0) as [Hh Hcm] by (by rewrite Habs).
  destruct is_id_zero as [_ Hz].
  unfold Follower.init, Follower.set_election_timeout, Follower.get_randomized_timeout, gen_range in Hr.
  unfold mbind, SM_bind in Hr. cbn in Hr. injection Hr as <- <-.
  eexists ch, _, _. split; [|by split_and!]. split; cbn; try done; [].
  eexists. split; [done|]. split_and!; try done. split; cbn; try done; [].
  split_and!; [done|by rewrite <-Hcm in Hh| |].
  - change (c_head ch) with (t_head (abs ch)). rewrite Hh, Hz, Hg. lia.
  - intros k'. rewrite Habs. cbn. intros [b [<- _]%lookup_singleton_Some].
    change (c_head ch) with (t_head (abs ch)). by rewrite Hh.
Qed.

Lemma server_new_leads config d f k n :
  nodes config = [] → contents d = ∅ → server_new config d f k = Ret n →
  (∀ t, ∃ i, ∀ j, (i ≤ j)%nat → t < clock j) →
  ∃ m, let n' := inputs (replicate m ITick) n in
    idle n' ∧ next_number n' = 1 ∧ d_fsm (sn_driver n') = f ∧ answers (sn_loop n') = [].
Proof.
  intros Hn Hd Hs Hclock. destruct (server_new_starting config d f k n Hn Hd Hs)
    as (c & t0 & to & Hst & Hg & Hdr & Ha).
  destruct (Hclock (t0 + to)) as (i & Hi).
  destruct (starting_leads n c t0 to i Hst) as (m & H1 & H2 & H3 & H4); [intros; apply Hi; lia|].
  exists m. cbv zeta. unfold next_number. rewrite H2, H3, H4, Hdr, Ha. done.
Qed.

(** C25: A node without peers comes into service. Started on an empty directory
    with any valid configuration that names no peer, it leads after finitely many
    ticks, once the clock has passed its election timeout, and is then ready for
    its first client. *)
Theorem single_node_leads config d f k n :
  nodes config = [] → contents d = ∅ → server_new config d f k = Ret n →
  (∀ t, ∃ i, ∀ j, (i ≤ j)%nat → t < clock j) →
  ∃ m, let n' := inputs (replicate m ITick) n in
    idle n' ∧ next_number n' = 1 ∧ d_fsm (sn_driver n') = f ∧ answers (sn_loop n') = [].
Proof. apply server_new_leads. Qed.
End Start.

(** ** Witnesses *)
#[export] Instance demo_uuid : ServerEnvLaws.
Proof. split. cbn. lia. Qed.

Lemma demo_idle :
  ∃ n : ServerNode, idle n ∧ answers (sn_loop n) = [] ∧ d_fsm (sn_driver n) = [] ∧ next_number n < 10.
Proof.
  destruct (lone_timeout (demo_follower 1 []) demo_world demo_lone eq_refl)
    as (r & w & _ & Hok & Hch & Hcfg & _ & Hrpc & Hfsm).
  assert (receiver_alive (rpc_tx w) = true ∧ receiver_alive (fsm_tx w) = true ∧
    Forall (λ m, msg_to m = Peers) (msgs w) ∧ instrs w = []) as (H1 & H2 & H3 & H4).
  { unfold msgs, instrs. rewrite Hrpc, Hfsm. cbn. split_and!; try done. by repeat constructor. }
  exists {| sn_loop := {| raft := HLeader r; requests := ∅;
                          tcp_tx := {| sent := []; receiver_alive := true |}; answers := [] |};
            sn_driver := @driver_new demo_fsm []; sn_world := w; rpc_read := 0; fsm_read := 0; alive := true |}.
  split_and!; [|done|done|].
  - split; cbn; try done; [|split; lia].
    exists r. by rewrite Hcfg.
  - unfold next_number. cbn [handle_chain raft sn_loop]. rewrite Hch. vm_compute. reflexivity.
Qed.

Definition demo_turns : list Input :=
  [IClient {| proposal_get := [x2a] |} 3; ITick; IDriver; IClient {| proposal_get := [x2b] |} 4; IRpc].

Lemma demo_room n : next_number n < 10 → next_number n + Z.of_nat (length (clients demo_turns)) ≤ id_limit.
Proof. intros. unfold id_limit. cbn. lia. Qed.

Lemma single_node_linearizable_witness :
  ∃ (n0 : ServerNode) j k, idle n0 ∧ alive (inputs demo_turns n0) = true ∧ (j ≤ k ≤ 2)%nat ∧
    answers (sn_loop (inputs demo_turns n0)) =
      take j [(3%nat, inl {| response_get := [x2a] |}); (4%nat, inl {| response_get := [x2b] |})] ∧
    d_fsm (sn_driver (inputs demo_turns n0)) = take k [[x2a]; [x2b]].
Proof.
  destruct demo_idle as (n0 & H0 & Ha & Hf & Hn). pose proof (demo_room n0 Hn) as Hr.
  assert (alive (inputs demo_turns n0) = true) as Hal.
  { eapply run_alive; [done|by apply idle_view|cbn [length]; lia|rewrite Hf; done|by repeat constructor]. }
  destruct (single_node_linearizable demo_turns n0 H0 Hr Hal) as (j & k & Hjk & H1 & H2).
  rewrite Hf in H1, H2. rewrite Ha in H1. exists n0, j, k. split_and!; try done.
  - lia.
  - change (length (clients demo_turns)) with 2%nat in Hjk. lia.
  - rewrite H2. destruct Hjk as [_ Hk]. change (length (clients demo_turns)) with 2%nat in Hk.
    destruct k as [|[|[|k]]]; [done..|lia].
Defined.

Lemma single_node_completes_witness :
  ∃ n0 : ServerNode, idle n0 ∧ idle (settle (inputs demo_turns n0)) ∧
    answers (sn_loop (settle (inputs demo_turns n0))) =
      [(3%nat, inl {| response_get := [x2a] |}); (4%nat, inl {| response_get := [x2b] |})].
Proof.
  destruct demo_idle as (n0 & H0 & Ha & Hf & Hn).
  destruct (single_node_completes demo_turns n0 H0 (demo_room n0 Hn)) as (Hi & H1 & _);
    [done|by repeat constructor|rewrite Hf; done|].
  exists n0. rewrite Hf, Ha in H1. done.
Defined.

Lemma propose_exact_witness :
  ∃ n n' : ServerNode, idle n ∧ client_propose settle n [x2a] 3 = (Some (Ret [x2a]), n') ∧ idle n'.
Proof.
  destruct demo_idle as (n0 & H0 & Ha & Hf & Hn).
  destruct (propose_exact n0 [x2a] 3 H0) as (n' & H1 & H2 & _);
    [unfold id_limit; lia|done|rewrite Ha; by intros ?%elem_of_nil|].
  by exists n0, n'.
Defined.

Lemma single_node_leads_witness :
  ∃ m n, server_new (demo_config 1 []) mem_empty [] 0 = Ret n ∧ idle (inputs (replicate m ITick) n).
Proof.
  assert (is_ret (server_new (demo_config 1 []) mem_empty [] 0) = true) as Hs by (vm_compute; reflexivity).
  apply (is_ret_or demo_node0) in Hs.
  destruct (single_node_leads (FSM := demo_fsm) (SLED := demo_sled) (SLAWS := demo_sled_laws)
    (BINC := demo_bincode) (demo_config 1 []) mem_empty [] 0 _ eq_refl eq_refl Hs) as (m & Hi & _).
  { intros t. exists (Z.to_nat (Z.max 0 t + 1)). intros j Hj. cbn. unfold from_secs. lia. }
  by eexists m, _.
Defined.
