(* ===== verification/Log.v ===== *)
(** * The log of a partition ([src/broker/log/])

    Entries of the index and their encoding ([entry.rs]), the memory-mapped index
    ([index.rs]), segments ([segment.rs]) and the log ([mod.rs]). *)
From S2P Require Import Prelude Bytes.
Local Open Scope Z_scope.

(** ** Entries *)
Record Entry : Type := { offset : Z; position : Z }.

#[global] Instance Entry_eq_dec : EqDecision Entry.
Proof. solve_decision. Defined.

Definition Entry_new (offset position : Z) : Entry := {| offset := offset; position := position |}.

(** [From<Entry> for Vec<u8>] and [From<&[u8]> for Entry]. *)
Definition entry_to_bytes (e : Entry) : bytes :=
  u64_to_be_bytes (offset e) ++ u64_to_be_bytes (position e).
Definition entry_from_bytes (bs : bytes) : outcome Entry :=
  _ ← assert (length bs =? 16)%nat;
  offset ← unwrap (u64_from_be_bytes (take 8 bs));
  position ← unwrap (u64_from_be_bytes (take 16 (drop 8 bs)));
  Ret {| offset := offset; position := position |}.

(** ** The index *)
Definition MAX_BYTES_INDEX : Z := 10 * 1024 * 1024.

Record Index : Type := { base_offset : Z; mmap : bytes }.

(** The file system: what the files of a base offset hold before they are
    opened, whether they can be opened and mapped, and how a write to a log file
    ends: [None] if all of it is written, [Some k] if it fails after [k] bytes. *)
Class Disk := {
  index_file : Z → bytes;
  log_file : Z → bytes;
  open_ok : Z → bool;
  write_failure : bytes → option nat;
}.

(** [file.set_len(n)]: cut, or filled with zeros. *)
Definition set_len (n : nat) (file : bytes) : bytes := take n file ++ replicate (n - length file) x00.

(** Bytes written over what is there, from a position on. *)
Definition overwrite (at_ : nat) (bs file : bytes) : bytes :=
  take at_ file ++ bs ++ drop (at_ + length bs) file.

Section Ops.
Context {DISK : Disk} {BUILD : Build}.

Definition index_new (base_offset : Z) : outcome Index :=
  if open_ok base_offset then
    Ret {| base_offset := base_offset;
           mmap := set_len (Z.to_nat MAX_BYTES_INDEX) (index_file base_offset) |}
  else Panic.

(** [mmap[offset..]] panics if [offset] is past the end; [write_all] writes what
    fits and fails if that is not everything. *)
Definition write_at (bs : bytes) (offset : Z) : SM Index unit := λ i,
  if Z.of_nat (length (mmap i)) <? offset then (Panic, i)
  else
    let at_ := Z.to_nat offset in
    let room := (length (mmap i) - at_)%nat in
    (if (length bs <=? room)%nat then Ret tt else Panic,
     {| base_offset := base_offset i; mmap := overwrite at_ (take room bs) (mmap i) |}).

Definition write_entry (e : Entry) : SM Index unit := λ i,
  match u64_sub (offset e) (base_offset i) with
  | Ret rel =>
      let e := {| offset := rel; position := position e |} in
      write_at (entry_to_bytes e) (offset e) i
  | Err err => (Err err, i)
  | Panic => (Panic, i)
  end.

(** [&mmap[at..at + 16]]. *)
Definition window (i : Index) (at_ : nat) : bytes := take 16 (drop at_ (mmap i)).

Definition read_entry (i : Index) (at_ : nat) : outcome Entry :=
  if (length (mmap i) <? at_ + 16)%nat then Panic
  else
    e ← entry_from_bytes (window i at_);
    abs ← u64_add (offset e) (base_offset i);
    Ret {| offset := abs; position := position e |}.

(** [windows(16).position(..)]: the first window that decodes to the offset, of
    the [k] windows from [at_] on. *)
Fixpoint position_from (i : Index) (target : Z) (at_ k : nat) : outcome (option nat) :=
  match k with
  | O => Ret None
  | S k =>
      e ← entry_from_bytes (window i at_);
      if offset e =? target then Ret (Some at_) else position_from i target (S at_) k
  end.

Definition find_entry (i : Index) (target : Z) : outcome (option Entry) :=
  idx ← position_from i target 0 (length (mmap i) - 15);
  match idx with
  | Some at_ => e ← entry_from_bytes (window i at_); Ret (Some e)
  | None => Ret None
  end.

(** ** Segments *)
Definition MAX_SEGMENT_BYES : Z := 1024 * 1024 * 1024.

(** A file opened for reading and writing, with its cursor. *)
Record File : Type := { contents : bytes; cursor : nat }.

Record Segment : Type := {
  next_offset : Z;
  seg_bytes : Z;
  log : File;
  index : Index;
}.

(** The index is opened first, then the log file. *)
Definition segment_new (base_offset : Z) : outcome Segment :=
  index ← index_new base_offset;
  Ret {| next_offset := 0;
         seg_bytes := 0;
         log := {| contents := log_file base_offset; cursor := 0 |};
         index := index |}.

Definition full (s : Segment) : bool := MAX_SEGMENT_BYES <=? seg_bytes s.

(** [File::write_all]: at the cursor, over what is there. *)
Definition file_write (f : File) (bs : bytes) : File :=
  {| contents := overwrite (cursor f) bs (contents f); cursor := cursor f + length bs |}.

Definition write_log (buf : bytes) : SM Segment unit := λ s,
  let with_log f := {| next_offset := next_offset s; seg_bytes := seg_bytes s;
                       log := f; index := index s |} in
  match write_failure buf with
  | None => (Ret tt, with_log (file_write (log s) buf))
  | Some k => (Err (ErrMsg "io"), with_log (file_write (log s) (take k buf)))
  end.

Definition write_index (e : Entry) : SM Segment unit := λ s,
  let '(o, i) := write_entry e (index s) in
  (o, {| next_offset := next_offset s; seg_bytes := seg_bytes s; log := log s; index := i |}).

(** [self.next_offset += 1] and [self.bytes += n]. *)
Definition bump_offset : SM Segment unit := λ s,
  match u64_add (next_offset s) 1 with
  | Ret next => (Ret tt, {| next_offset := next; seg_bytes := seg_bytes s; log := log s; index := index s |})
  | Err e => (Err e, s)
  | Panic => (Panic, s)
  end.
Definition bump_bytes (n : nat) : SM Segment unit := λ s,
  match u64_add (seg_bytes s) (Z.of_nat n) with
  | Ret total => (Ret tt, {| next_offset := next_offset s; seg_bytes := total; log := log s; index := index s |})
  | Err e => (Err e, s)
  | Panic => (Panic, s)
  end.

Definition segment_write (buf : bytes) : SM Segment nat := λ s,
  (_ ← write_log buf;
   _ ← write_index (Entry_new (next_offset s) (seg_bytes s));
   _ ← bump_offset;
   _ ← bump_bytes (length buf);
   mret (length buf)) s.

(** The default [write_all]: [write] takes the whole buffer, and is not called
    on an empty one. *)
Definition segment_write_all (buf : bytes) : SM Segment unit :=
  if decide (buf = []) then mret tt else _ ← segment_write buf; mret tt.

(** [File::read] into a buffer of [n] bytes: from the cursor, which writing
    moves too. *)
Definition segment_read (n : nat) : SM Segment bytes := λ s,
  let out := take n (drop (cursor (log s)) (contents (log s))) in
  (Ret out, {| next_offset := next_offset s; seg_bytes := seg_bytes s;
               log := {| contents := contents (log s); cursor := cursor (log s) + length out |};
               index := index s |}).

(** ** The log *)
Record Log : Type := {
  segments : list Segment;
  active_segment : nat;
  poisoned : bool;  (** [rwlock], after a panic of a writer *)
}.

Definition log_new : outcome Log :=
  segment ← segment_new 0;
  Ret {| segments := [segment]; active_segment := 0; poisoned := false |}.

(** [self.segments[self.active_segment]]. *)
Definition on_active {A} (m : SM Segment A) : SM Log A := λ l,
  match segments l !! active_segment l with
  | Some s =>
      let '(o, s) := m s in
      (o, {| segments := <[active_segment l := s]> (segments l);
             active_segment := active_segment l; poisoned := poisoned l |})
  | None => (Panic, l)
  end.

Definition newest_offset : SM Log Z := on_active (λ s, (Ret (next_offset s), s)).

Definition push_segment (s : Segment) : SM Log unit := λ l,
  (Ret tt, {| segments := segments l ++ [s]; active_segment := length (segments l);
              poisoned := poisoned l |}).

(** [write], under the write lock. *)
Definition write_locked (buf : bytes) : SM Log nat :=
  is_full ← on_active (λ s, (Ret (full s), s));
  _ ← (if is_full : bool then
         o ← newest_offset;
         segment ← lift (segment_new o);
         push_segment segment
       else mret tt);
  _ ← on_active (segment_write_all buf);
  mret (length buf).

(** A panic while the lock is held for writing poisons it, and then neither
    [write()] nor [read()] can be obtained. *)
Definition log_write (buf : bytes) : SM Log nat := λ l,
  if poisoned l then (Panic, l)
  else
    match write_locked buf l with
    | (Panic, l) => (Panic, {| segments := segments l; active_segment := active_segment l; poisoned := true |})
    | r => r
    end.

Definition log_read (n : nat) : SM Log bytes := λ l,
  if poisoned l then (Panic, l) else on_active (segment_read n) l.

(** A sequence of writes. *)
Definition log_writes (bufs : list bytes) : SM Log unit :=
  for_each bufs (λ buf, _ ← log_write buf; mret tt).
End Ops.

(** ** Entries and their encoding *)
Lemma length_entry_to_bytes e : length (entry_to_bytes e) = 16%nat.
Proof. unfold entry_to_bytes. by rewrite length_app, !length_u64_to_be_bytes. Qed.

Lemma entry_from_to_bytes e :
  is_u64 (offset e) → is_u64 (position e) → entry_from_bytes (entry_to_bytes e) = Ret e.
Proof.
  intros Ho Hp. unfold entry_from_bytes. rewrite length_entry_to_bytes.
  cbn [Nat.eqb assert mbind outcome_bind]. unfold entry_to_bytes.
  rewrite take_app_length' by (rewrite length_u64_to_be_bytes; done).
  rewrite drop_app_length' by (rewrite length_u64_to_be_bytes; done).
  rewrite (take_ge (u64_to_be_bytes (position e))) by (rewrite length_u64_to_be_bytes; lia).
  rewrite !u64_from_to_be_bytes by done. by destruct e.
Qed.

Lemma entry_from_bytes_total bs :
  length bs = 16%nat →
  ∃ e, entry_from_bytes bs = Ret e ∧ is_u64 (offset e) ∧ is_u64 (position e) ∧
       entry_to_bytes e = bs.
Proof.
  intros Hl. unfold entry_from_bytes. rewrite Hl.
  cbn [Nat.eqb assert mbind outcome_bind]. rewrite (take_ge (drop 8 bs)) by (rewrite length_drop; lia).
  assert (length (take 8 bs) = 8%nat) as H1 by (rewrite length_take; lia).
  assert (length (drop 8 bs) = 8%nat) as H2 by (rewrite length_drop; lia).
  unfold u64_from_be_bytes. rewrite !decide_True by done.
  cbn [unwrap mbind outcome_bind].
  eexists. split; [done|]. simpl. split; [by apply be_val_is_u64|].
  split; [by apply be_val_is_u64|]. unfold entry_to_bytes. cbn [offset position].
  rewrite !u64_to_be_bytes_val by done. apply take_drop.
Qed.

(** An index entry survives its encoding: decoding the 16 bytes of an entry
    gives the entry back, and every string of 16 bytes decodes to an entry that
    encodes to it.  A string of any other length panics. *)
Theorem entry_roundtrip e bs :
  is_u64 (offset e) → is_u64 (position e) →
  entry_from_bytes (entry_to_bytes e) = Ret e ∧
  (length bs = 16%nat → ∃ e', entry_from_bytes bs = Ret e' ∧ entry_to_bytes e' = bs) ∧
  (length bs ≠ 16%nat → entry_from_bytes bs = Panic).
Proof.
  intros Ho Hp. split; [by apply entry_from_to_bytes|]. split.
  - intros (e' & ? & _ & _ & ?)%entry_from_bytes_total. eauto.
  - intros Hl. unfold entry_from_bytes. by rewrite (proj2 (Nat.eqb_neq _ _)).
Qed.

Lemma entry_roundtrip_witness :
  entry_from_bytes (entry_to_bytes (Entry_new 7 111)) = Ret (Entry_new 7 111) ∧
  entry_from_bytes (replicate 17 x00) = Panic.
Proof.
  destruct (entry_roundtrip (Entry_new 7 111) (replicate 17 x00)) as (H1 & _ & H2);
    [done|done|]. split; [exact H1|]. by apply H2.
Defined.

#[local] Arguments entry_to_bytes _ : simpl never.
#[local] Arguments entry_from_bytes _ : simpl never.

(** ** Overwriting *)
Lemma length_overwrite k bs (file : bytes) :
  (k + length bs ≤ length file)%nat → length (overwrite k bs file) = length file.
Proof. intros. unfold overwrite. rewrite !length_app, length_take, length_drop. lia. Qed.

Lemma overwrite_window k bs (file : bytes) :
  (k ≤ length file)%nat → take (length bs) (drop k (overwrite k bs file)) = bs.
Proof.
  intros. unfold overwrite. rewrite drop_app_length' by (rewrite length_take; lia).
  by rewrite take_app_length.
Qed.

Lemma length_set_len n (file : bytes) : length (set_len n file) = n.
Proof. unfold set_len. rewrite length_app, length_take, length_replicate. lia. Qed.

(** ** The index *)
Section IndexFacts.
Context {BUILD : Build}.

(** An entry at or above the base offset, with room for it. *)
Definition fits (i : Index) (e : Entry) : Prop :=
  base_offset i ≤ offset e ∧
  offset e - base_offset i + 16 ≤ Z.of_nat (length (mmap i)).

Definition relative (i : Index) (e : Entry) : Entry :=
  {| offset := offset e - base_offset i; position := position e |}.

Lemma write_entry_fits i e :
  fits i e →
  write_entry e i = (Ret tt, {| base_offset := base_offset i;
    mmap := overwrite (Z.to_nat (offset e - base_offset i))
              (entry_to_bytes (relative i e)) (mmap i) |}).
Proof.
  intros [Hb Hr]. unfold write_entry, write_at, relative.
  rewrite u64_sub_small by done. cbn [offset position].
  rewrite (proj2 (Z.ltb_ge _ _)) by lia. rewrite length_entry_to_bytes.
  rewrite (proj2 (Nat.leb_le _ _)) by lia.
  by rewrite take_ge by (rewrite length_entry_to_bytes; lia).
Qed.

Lemma write_entry_no_room i e :
  0 ≤ offset e → base_offset i + Z.of_nat (length (mmap i)) < u64_limit →
  ¬ fits i e → (write_entry e i).1 = Panic.
Proof.
  unfold fits, write_entry, write_at, u64_sub. intros Ho Hl Hf.
  assert (∀ rel, rel = (offset e - base_offset i) `mod` u64_limit →
    offset e < base_offset i → Z.of_nat (length (mmap i)) < rel) as Hwrap.
  { intros rel -> Hlt. rewrite <-(Z.mod_add _ 1), Z.mod_small by lia. lia. }
  destruct (Z.leb_spec (base_offset i) (offset e)) as [Hb|Hb]; cbn [offset].
  - destruct (Z.ltb_spec (Z.of_nat (length (mmap i))) (offset e - base_offset i)); [done|].
    cbn [fst]. rewrite length_entry_to_bytes. by rewrite (proj2 (Nat.leb_gt _ _)) by lia.
  - destruct overflow_checks; [done|].
    cbn [offset]. by rewrite (proj2 (Z.ltb_lt _ _)) by (by apply Hwrap).
Qed.

(** The index takes an entry exactly when its offset is not below the base
    offset and the 16 bytes at the relative offset are within the map; it is
    then read back from there.  Otherwise the write panics, with and without
    overflow checks. *)
Theorem index_write_exact i e :
  is_u64 (offset e) → is_u64 (position e) → 0 ≤ base_offset i →
  base_offset i + Z.of_nat (length (mmap i)) < u64_limit →
  (fits i e → ∃ i', write_entry e i = (Ret tt, i') ∧
     length (mmap i') = length (mmap i) ∧ base_offset i' = base_offset i ∧
     read_entry i' (Z.to_nat (offset e - base_offset i)) = Ret e) ∧
  (¬ fits i e → (write_entry e i).1 = Panic).
Proof.
  intros Ho Hp Hb Hl. split; [|intros; apply write_entry_no_room; auto; apply Ho].
  intros Hf. rewrite write_entry_fits by done. destruct Hf as [Hbo Hr]. eexists. split; [done|].
  simpl. assert (length (entry_to_bytes (relative i e)) = 16%nat) as H16
    by apply length_entry_to_bytes.
  rewrite length_overwrite by lia. split; [done|]. split; [done|].
  unfold read_entry, window. simpl. rewrite length_overwrite by lia.
  rewrite (proj2 (Nat.ltb_ge _ _)) by lia. rewrite <-H16, overwrite_window by lia.
  rewrite entry_from_to_bytes; [|split; simpl; destruct Ho; lia|done]. simpl.
  rewrite u64_add_small by (destruct Ho; lia). simpl.
  rewrite Z.sub_add. by destruct e.
Qed.
End IndexFacts.

Lemma index_write_exact_witness :
  let B := {| overflow_checks := false |} in
  let i := {| base_offset := 100; mmap := replicate 40 x00 |} in
  (∃ i', @write_entry B (Entry_new 115 20) i = (Ret tt, i') ∧
     @read_entry B i' 15 = Ret (Entry_new 115 20)) ∧
  (@write_entry B (Entry_new 125 20) i).1 = Panic ∧
  (@write_entry B (Entry_new 0 20) i).1 = Panic.
Proof.
  intros B i. split; [|split].
  - destruct (@index_write_exact B i (Entry_new 115 20)) as [H _]; [done..|].
    destruct H as (i' & H1 & _ & _ & H2); [by vm_compute|]. by exists i'.
  - apply (@index_write_exact B i (Entry_new 125 20)); [done..|].
    intros [_ H]. by vm_compute in H.
  - apply (@index_write_exact B i (Entry_new 0 20)); [done..|].
    intros [H _]. by vm_compute in H.
Defined.

(** ** Writing to a segment *)
Definition total (bufs : list bytes) : nat := length (concat bufs).

Lemma total_snoc bufs buf : total (bufs ++ [buf]) = (total bufs + length buf)%nat.
Proof. unfold total. by rewrite concat_app, length_app, concat_cons, app_nil_r. Qed.

(** Entries are 16 bytes wide but written one byte apart: of all that came before,
    the [n]-th entry leaves only the first byte, which is zero. *)
Definition index_image (pre : list bytes) (mm : bytes) : bytes :=
  replicate (length pre) x00 ++
  entry_to_bytes (Entry_new (Z.of_nat (length pre)) (Z.of_nat (total pre))) ++
  drop (length pre + 16) mm.

(** A segment with base offset 0 after the writes [bufs]: [old] is what the log
    file held when it was opened, [mm] what the index did. *)
Record seg_state (old mm : bytes) (bufs : list bytes) (s : Segment) : Prop := {
  ss_contents : contents (log s) = concat bufs ++ drop (total bufs) old;
  ss_cursor : cursor (log s) = total bufs;
  ss_next : next_offset s = Z.of_nat (length bufs);
  ss_bytes : seg_bytes s = Z.of_nat (total bufs);
  ss_base : base_offset (index s) = 0;
  ss_fresh : bufs = [] → mmap (index s) = mm;
  ss_index pre buf : bufs = pre ++ [buf] → mmap (index s) = index_image pre mm;
}.

Lemma entry_first_byte n p : 0 ≤ n < 2 ^ 56 → take 1 (entry_to_bytes (Entry_new n p)) = [x00].
Proof.
  intros Hn. unfold entry_to_bytes, u64_to_be_bytes. simpl.
  by rewrite Z.div_small by (simpl; lia).
Qed.

Lemma take_image pre mm :
  Z.of_nat (length pre) < 2 ^ 56 →
  take (S (length pre)) (index_image pre mm) = replicate (S (length pre)) x00.
Proof.
  intros Hn. unfold index_image.
  rewrite take_app_ge, length_replicate by (rewrite length_replicate; lia).
  replace (S (length pre) - length pre)%nat with 1%nat by lia.
  rewrite take_app_le by (rewrite length_entry_to_bytes; lia).
  rewrite entry_first_byte by lia. by rewrite replicate_S_end.
Qed.

Lemma drop_image pre mm k :
  (16 ≤ k)%nat → drop (length pre + k) (index_image pre mm) = drop (length pre + k) mm.
Proof.
  intros Hk. unfold index_image.
  rewrite drop_app_ge, length_replicate by (rewrite length_replicate; lia).
  rewrite drop_app_ge, length_entry_to_bytes by (rewrite length_entry_to_bytes; lia).
  rewrite drop_drop. f_equal. lia.
Qed.

Lemma length_image pre mm :
  (length pre + 16 ≤ length mm)%nat → length (index_image pre mm) = length mm.
Proof.
  intros. unfold index_image.
  rewrite !length_app, length_replicate, length_entry_to_bytes, length_drop. lia.
Qed.

Section LogFacts.
Context {DISK : Disk} {BUILD : Build}.
Context (old mm : bytes).
Hypothesis Hmm : Z.of_nat (length mm) < 2 ^ 56.

(** The next entry overwrites the image with the next image. *)
Lemma seg_state_index bufs s :
  seg_state old mm bufs s → (length bufs + 16 ≤ length mm)%nat →
  length (mmap (index s)) = length mm ∧
  overwrite (length bufs) (entry_to_bytes (Entry_new (next_offset s) (seg_bytes s)))
    (mmap (index s)) = index_image bufs mm.
Proof.
  intros [_ _ -> -> _ Hf Hi] Hroom. unfold overwrite. rewrite length_entry_to_bytes.
  destruct bufs as [|buf pre _] using rev_ind; [rewrite Hf by done; done|].
  rewrite (Hi pre buf) by done. rewrite length_app in *. simpl in *.
  split; [apply length_image; lia|]. unfold index_image at 3. rewrite length_app. simpl.
  replace (length pre + 1)%nat with (S (length pre)) by lia.
  rewrite take_image by lia.
  replace (S (length pre) + 16)%nat with (length pre + 17)%nat by lia.
  by rewrite drop_image by lia.
Qed.

Lemma file_write_end bufs buf :
  overwrite (total bufs) buf (concat bufs ++ drop (total bufs) old) =
  concat (bufs ++ [buf]) ++ drop (total (bufs ++ [buf])) old.
Proof.
  unfold overwrite. rewrite total_snoc, concat_app, concat_cons, app_nil_r.
  rewrite take_app_length' by done. rewrite drop_app_add' by done.
  by rewrite drop_drop, <-(assoc (++)).
Qed.

Lemma segment_write_run bufs buf s :
  seg_state old mm bufs s → write_failure buf = None →
  (length bufs + 16 ≤ length mm)%nat → Z.of_nat (total (bufs ++ [buf])) < u64_limit →
  ∃ s', segment_write buf s = (Ret (length buf), s') ∧ seg_state old mm (bufs ++ [buf]) s'.
Proof.
  intros Hs Hw Hroom Ht. destruct (seg_state_index _ _ Hs Hroom) as [Hlen Himg].
  pose proof Hs as [Hc Hcu Hn Hb Hba _ _]. rewrite total_snoc in Ht.
  unfold segment_write, mbind, SM_bind, write_log. rewrite Hw.
  unfold write_index. simpl. rewrite write_entry_fits.
  2: { split; simpl; rewrite Hba, Hn; [lia|]. rewrite Hlen. lia. }
  unfold relative. rewrite Hba, Z.sub_0_r. simpl.
  unfold bump_offset. simpl. rewrite u64_add_small.
  2: { rewrite Hn. unfold u64_limit. lia. }
  unfold bump_bytes. simpl. rewrite u64_add_small by lia.
  eexists. split; [reflexivity|]. constructor; simpl.
  - unfold file_write. simpl. by rewrite Hcu, Hc, file_write_end.
  - by rewrite Hcu, total_snoc.
  - rewrite Hn, length_app. simpl. lia.
  - rewrite Hb, total_snoc. lia.
  - done.
  - by destruct bufs.
  - intros pre b [<- _]%app_inj_tail. rewrite <-Himg, Hn, Nat2Z.id. done.
Qed.

(** ** Writing to a log of one segment *)
Definition log_state (bufs : list bytes) (l : Log) : Prop :=
  ∃ s, l = {| segments := [s]; active_segment := 0; poisoned := false |} ∧ seg_state old mm bufs s.

Lemma log_write_run bufs buf l :
  log_state bufs l → buf ≠ [] → write_failure buf = None →
  (length bufs + 16 ≤ length mm)%nat →
  Z.of_nat (total bufs) < MAX_SEGMENT_BYES → Z.of_nat (total (bufs ++ [buf])) < u64_limit →
  ∃ l', log_write buf l = (Ret (length buf), l') ∧ log_state (bufs ++ [buf]) l'.
Proof.
  intros (s & -> & Hs) Hne Hw Hroom Hfull Ht.
  destruct (segment_write_run bufs buf s) as (s' & Hrun & Hs'); [done..|].
  exists {| segments := [s']; active_segment := 0; poisoned := false |}.
  split; [|by exists s'].
  assert (full s = false) as Hf.
  { unfold full. rewrite (ss_bytes _ _ _ _ Hs). apply Z.leb_gt. lia. }
  unfold log_write, write_locked, on_active, mbind, SM_bind. simpl. rewrite Hf. simpl.
  unfold segment_write_all. rewrite decide_False by done.
  unfold mbind, SM_bind. by rewrite Hrun.
Qed.

Lemma log_writes_run bufs rest l :
  log_state bufs l → Forall (λ b, b ≠ [] ∧ write_failure b = None) rest →
  (length (bufs ++ rest) + 15 ≤ length mm)%nat →
  Z.of_nat (total (bufs ++ rest)) ≤ MAX_SEGMENT_BYES →
  ∃ l', log_writes rest l = (Ret tt, l') ∧ log_state (bufs ++ rest) l'.
Proof.
  intros Hl Hr. revert bufs l Hl. induction Hr as [|b rest [Hb Hw] Hr IH]; intros bufs l Hl Hn Ht.
  { exists l. rewrite app_nil_r. done. }
  replace (bufs ++ b :: rest) with ((bufs ++ [b]) ++ rest) in * by by rewrite <-(assoc (++)).
  assert (total ((bufs ++ [b]) ++ rest) = total (bufs ++ [b]) + total rest)%nat as E.
  { unfold total. by rewrite concat_app, length_app. }
  rewrite !length_app in Hn. simpl in Hn.
  assert (0 < length b)%nat by (destruct b; [done|simpl; lia]).
  pose proof (total_snoc bufs b) as E'. unfold MAX_SEGMENT_BYES in Ht.
  destruct (log_write_run bufs b l) as (l1 & H1 & Hl1); [done..|lia| | |].
  { unfold MAX_SEGMENT_BYES. lia. }
  { unfold u64_limit. lia. }
  destruct (IH _ _ Hl1) as (l2 & H2 & Hl2); [rewrite !length_app; simpl; lia|done|].
  exists l2. split; [|done]. unfold log_writes. cbn [for_each].
  unfold mbind, SM_bind. rewrite H1. exact H2.
Qed.
End LogFacts.

Section LogTheorems.
Context {DISK : Disk} {BUILD : Build}.

Definition mapped : bytes := set_len (Z.to_nat MAX_BYTES_INDEX) (index_file 0).

Lemma length_mapped : Z.of_nat (length mapped) = MAX_BYTES_INDEX.
Proof. unfold mapped. rewrite length_set_len. by rewrite Z2Nat.id. Qed.

Lemma log_new_state :
  open_ok 0 = true → ∃ l, log_new = Ret l ∧ log_state (log_file 0) mapped [] l.
Proof.
  intros Ho. unfold log_new, segment_new, index_new, mapped. rewrite Ho.
  generalize (set_len (Z.to_nat MAX_BYTES_INDEX) (index_file 0)) as mm. intros mm.
  eexists. split; [reflexivity|]. eexists. split; [reflexivity|].
  constructor; try done. intros pre buf H. by destruct pre.
Qed.

(** A log is opened and written to: the writes are not empty, the file system
    takes them, and they stay within one segment and one index. *)
Definition admissible (bufs : list bytes) : Prop :=
  open_ok 0 = true ∧ Forall (λ b, b ≠ [] ∧ write_failure b = None) bufs ∧
  Z.of_nat (length bufs) + 15 ≤ MAX_BYTES_INDEX ∧ Z.of_nat (total bufs) ≤ MAX_SEGMENT_BYES.

Lemma log_new_writes bufs :
  admissible bufs →
  ∃ l0 s, log_new = Ret l0 ∧ seg_state (log_file 0) mapped bufs s ∧
    log_writes bufs l0 = (Ret tt, {| segments := [s]; active_segment := 0; poisoned := false |}).
Proof.
  intros (Ho & Hb & Hn & Ht). destruct (log_new_state Ho) as (l0 & Hnew & Hl0).
  pose proof length_mapped as Hlen.
  destruct (log_writes_run (log_file 0) mapped) with (bufs := @nil bytes) (rest := bufs) (l := l0)
    as (l & Hw & (s & -> & Hs)); [|done|done| |done|].
  - rewrite Hlen. done.
  - simpl. lia.
  - by exists l0, s.
Qed.

(** C18: within one segment, writes to a new log succeed.  When the files can be
    opened and written, no message is empty, the messages have at most the size of a
    segment in total and their number is one that the map of the index has room for,
    writing them to a newly opened log succeeds (beyond one segment a write panics:
    [rollover_panics]); the file
    holds their concatenation, over the start of what it held before (a log that
    is opened again is overwritten from its beginning), the next offset is their
    number, and a read returns nothing of what was written: it starts where the
    last write ended. *)
Theorem log_writes_append bufs n :
  admissible bufs →
  ∃ l0 l s, log_new = Ret l0 ∧ log_writes bufs l0 = (Ret tt, l) ∧
    segments l !! active_segment l = Some s ∧
    contents (log s) = concat bufs ++ drop (total bufs) (log_file 0) ∧
    seg_bytes s = Z.of_nat (total bufs) ∧
    (newest_offset l).1 = Ret (Z.of_nat (length bufs)) ∧
    (log_read n l).1 = Ret (take n (drop (total bufs) (log_file 0))).
Proof.
  intros Ha. destruct (log_new_writes bufs Ha) as (l0 & s & Hnew & Hs & Hw).
  destruct Hs as [Hc Hcu Hn Hb _ _ _].
  do 3 eexists. split; [exact Hnew|]. split; [exact Hw|]. split; [reflexivity|].
  split; [done|]. split; [done|]. unfold newest_offset, log_read, on_active. simpl.
  split; [by rewrite Hn|]. rewrite Hc, Hcu.
  by rewrite drop_app_length' by done.
Qed.

Lemma window_image pre mm i :
  (i + 16 ≤ length pre)%nat →
  take 16 (drop i (index_image pre mm)) = entry_to_bytes (Entry_new 0 0).
Proof.
  intros Hi. unfold index_image.
  rewrite drop_app_le by (rewrite length_replicate; lia).
  rewrite drop_replicate, take_app_le by (rewrite length_replicate; lia).
  rewrite take_replicate. by replace (16 `min` (length pre - i))%nat with 16%nat by lia.
Qed.

(** The index keeps the last entry only.  Entries are 16 bytes wide but
    entry [k] is written at byte [k], so each write destroys the entry before it:
    the entry of the last message reads back, the entry of every message at least
    16 before it reads back as offset 0 and position 0. *)
Theorem index_keeps_last pre buf i :
  admissible (pre ++ [buf]) → (i + 16 ≤ length pre)%nat →
  ∃ l0 l s, log_new = Ret l0 ∧ log_writes (pre ++ [buf]) l0 = (Ret tt, l) ∧
    segments l !! active_segment l = Some s ∧
    read_entry (index s) (length pre) =
      Ret (Entry_new (Z.of_nat (length pre)) (Z.of_nat (total pre))) ∧
    read_entry (index s) i = Ret (Entry_new 0 0).
Proof.
  intros Ha Hi. destruct (log_new_writes _ Ha) as (l0 & s & Hnew & Hs & Hw).
  do 3 eexists. split; [exact Hnew|]. split; [exact Hw|]. split; [reflexivity|].
  destruct Ha as (_ & _ & Hn & Ht). rewrite length_app in Hn. rewrite total_snoc in Ht. simpl in Hn.
  pose proof length_mapped as Hlen. unfold MAX_BYTES_INDEX, MAX_SEGMENT_BYES in *.
  unfold read_entry, window. rewrite (ss_base _ _ _ _ Hs), (ss_index _ _ _ _ Hs pre buf eq_refl).
  rewrite length_image by lia. rewrite !(proj2 (Nat.ltb_ge _ _)) by lia.
  rewrite (window_image pre mapped i) by done. split; [|reflexivity].
  unfold index_image. rewrite drop_app_length' by (rewrite length_replicate; done).
  rewrite take_app_length' by (by rewrite length_entry_to_bytes).
  rewrite entry_from_to_bytes by (split; simpl; unfold u64_limit; lia). simpl.
  rewrite u64_add_small by (unfold u64_limit; lia). simpl. by rewrite Z.add_0_r.
Qed.

(** The first message of a segment with a positive base offset. *)
Lemma segment_new_write o buf s :
  segment_new o = Ret s → 0 < o < 2 ^ 63 → buf ≠ [] → write_failure buf = None →
  (segment_write_all buf s).1 = Panic.
Proof.
  unfold segment_new, index_new. intros H Ho Hne Hw. destruct (open_ok o); [|done].
  simpl in H. injection H as <-.
  unfold segment_write_all. rewrite decide_False by done.
  unfold segment_write, mbind, SM_bind, write_log. rewrite Hw. unfold write_index. simpl.
  set (i := {| base_offset := o; mmap := _ |}).
  pose proof (write_entry_no_room i (Entry_new 0 0)) as Hp.
  destruct (write_entry (Entry_new 0 0) i) as [out i']. simpl in *.
  rewrite Hp; [done|done| |].
  - rewrite length_set_len. unfold MAX_BYTES_INDEX, u64_limit. rewrite Z2Nat.id; lia.
  - intros [Hb _]. simpl in Hb. lia.
Qed.

(** A log cannot outgrow its first segment.  When the active segment is full
    the next message opens a segment whose index starts at the newest offset but
    whose own offsets start at zero, so the index write panics, with and without
    overflow checks; the lock is then poisoned and no later write or read
    succeeds. *)
Theorem rollover_panics l s buf :
  poisoned l = false → segments l !! active_segment l = Some s → full s = true →
  0 < next_offset s < 2 ^ 63 → open_ok (next_offset s) = true →
  buf ≠ [] → write_failure buf = None →
  ∃ l', log_write buf l = (Panic, l') ∧
    (∀ buf', (log_write buf' l').1 = Panic) ∧ (∀ n, (log_read n l').1 = Panic).
Proof.
  intros Hp Hs Hfull Hn Ho Hne Hw.
  destruct (segment_new (next_offset s)) as [s1|e|] eqn:Hnew;
    [|unfold segment_new, index_new in Hnew; by rewrite Ho in Hnew..].
  pose proof (segment_new_write _ _ _ Hnew Hn Hne Hw) as Hpanic.
  assert ((write_locked buf l).1 = Panic) as Hr.
  { unfold write_locked, newest_offset, push_segment, on_active, mbind, SM_bind.
    rewrite Hs, Hfull. cbn [segments active_segment poisoned].
    rewrite list_lookup_insert_eq by (by eapply lookup_lt_Some).
    unfold lift. rewrite Hnew. cbn [segments active_segment poisoned].
    rewrite lookup_app_r, Nat.sub_diag by lia. simpl.
    by destruct (segment_write_all buf s1) as [[] ?]. }
  unfold log_write at 1. rewrite Hp. destruct (write_locked buf l) as [o l1].
  simpl in Hr. subst o. eexists. split; [done|]. done.
Qed.
End LogTheorems.

(** *** Witnesses *)
Definition demo_disk : Disk := {|
  index_file _ := []; log_file _ := [x6f; x6c; x64]; open_ok _ := true; write_failure _ := None;
|}.
Definition demo_profile : Build := {| overflow_checks := false |}.

Lemma demo_admissible bufs :
  bool_decide (Forall (λ b : bytes, b ≠ []) bufs) = true →
  Z.of_nat (length bufs) ≤ 100 → Z.of_nat (total bufs) ≤ 1000 →
  admissible (DISK := demo_disk) bufs.
Proof.
  intros Hb%bool_decide_eq_true Hn Ht. split; [done|]. split; [by eapply Forall_impl|].
  unfold MAX_BYTES_INDEX, MAX_SEGMENT_BYES. lia.
Qed.

Lemma log_writes_append_witness :
  let D := demo_disk in let B := demo_profile in
  let bufs := [[x01; x02]; [x03; x04; x05]] in
  ∃ l0 l s, log_new = Ret l0 ∧ log_writes bufs l0 = (Ret tt, l) ∧
    segments l !! active_segment l = Some s ∧
    contents (log s) = [x01; x02; x03; x04; x05] ∧ (log_read 3 l).1 = Ret [].
Proof.
  intros D B bufs.
  destruct (log_writes_append bufs 3) as (l0 & l & s & H0 & H1 & H2 & H3 & _ & _ & H4).
  - by apply demo_admissible.
  - by exists l0, l, s.
Defined.

Lemma index_keeps_last_witness :
  let D := demo_disk in let B := demo_profile in
  let pre := replicate 20 [x01; x02] in
  ∃ l0 l s, log_new = Ret l0 ∧ log_writes (pre ++ [[x03]]) l0 = (Ret tt, l) ∧
    segments l !! active_segment l = Some s ∧
    read_entry (index s) 20 = Ret (Entry_new 20 40) ∧
    read_entry (index s) 4 = Ret (Entry_new 0 0).
Proof.
  intros D B pre. apply (index_keeps_last pre [x03] 4); [by apply demo_admissible|].
  simpl. lia.
Defined.

Lemma rollover_panics_witness :
  let D := demo_disk in let B := demo_profile in
  ∃ l l', (log_write [x01] l = (Panic, l')) ∧ (∀ n, (log_read n l').1 = Panic).
Proof.
  intros D B.
  pose (s := {| next_offset := 1; seg_bytes := MAX_SEGMENT_BYES;
                log := {| contents := []; cursor := 0 |};
                index := {| base_offset := 0; mmap := [] |} |}).
  pose (l := {| segments := [s]; active_segment := 0; poisoned := false |}).
  destruct (rollover_panics l s [x01]) as (l' & H1 & _ & H2); [done..|].
  exists l, l'. split; [exact H1|exact H2].
Defined.
