(* ===== verification/Store.v ===== *)
(** * The broker's metadata ([src/broker/state/], [src/broker/fsm.rs])

    Topics, partitions, groups and brokers in the key-value store, and
    [JosefineFsm], the state machine that the Raft log replicates: an instance of
    [Fsm.Fsm].  The store refines [BrokerState], three maps. *)
From stdpp Require Import pretty.
From S2P Require Import Prelude Bytes Storage Config Chain Rpc Raft Fsm Replication StateMachine Demo.
Local Open Scope Z_scope.

(** ** Data *)
Abbreviation Uuid := Z.
Abbreviation BrokerId := Z.      (** [BrokerId(i32)] *)
Abbreviation PartitionIdx := Z.  (** [PartitionIdx(i32)] *)

Record Topic : Type := {
  topic_id : Uuid;
  topic_name : string;
  topic_partitions : gmap PartitionIdx (list BrokerId);
  topic_internal : bool;
}.
Record Partition : Type := {
  partition_id : Uuid;
  partition_idx : PartitionIdx;
  partition_topic : string;
  isr : list Z;
  assigned_replicas : list Z;
  partition_leader : BrokerId;
}.
Record Group : Type := { group_id : string }.
Record Peer : Type := { peer_id : BrokerId; peer_ip : IpAddr; peer_port : Z }.

Inductive Transition : Type :=
| EnsureTopic (t : Topic)
| EnsurePartition (p : Partition)
| EnsureBroker (b : Peer).

(** What bincode (de)serializes in the store and in the log of Raft. *)
Class StoreCodec := {
  codec_topics :: Bincode (gmap string Topic);
  codec_groups :: Bincode (gmap string Group);
  codec_topic :: Bincode Topic;
  codec_partition :: Bincode Partition;
  codec_peer :: Bincode Peer;
  codec_transition :: Bincode Transition;
}.
Class StoreCodecLaws `{!StoreCodec} := {
  codec_topics_laws :: BincodeLaws (gmap string Topic);
  codec_groups_laws :: BincodeLaws (gmap string Group);
  codec_topic_laws :: BincodeLaws Topic;
  codec_partition_laws :: BincodeLaws Partition;
  codec_peer_laws :: BincodeLaws Peer;
  codec_transition_laws :: BincodeLaws Transition;
}.

(** [s.as_ref()]: the bytes of a string. *)
Definition as_bytes (s : string) : bytes := String.list_byte_of_string s.

Section Ops.
Context {SLED : Sled} {CODEC : StoreCodec}.

(** ** The store ([state/mod.rs]): a handle on the database *)
Definition tree_get (key : bytes) : SM db (option bytes) := λ d, (db_get d key, d).
Definition tree_insert (key value : bytes) : SM db unit := λ d,
  match db_insert d key value with
  | Ret d => (Ret tt, d)
  | Err e => (Err e, d)
  | Panic => (Panic, d)
  end.

Definition store_get {A} `{!Bincode A} (key : string) : SM db (option A) :=
  x ← tree_get (as_bytes key);
  match x with
  | Some v =>
      match deserialize v with
      | Some a => mret (Some a)
      | None => lift (Err (ErrMsg "could not deserialize"))
      end
  | None => mret None
  end.

Definition store_insert {A} `{!Bincode A} (key : string) (value : A) : SM db unit :=
  v ← lift (serialize value); tree_insert (as_bytes key) v.

Definition get_topics : SM db (gmap string Topic) :=
  o ← store_get "topics"; mret (default ∅ o).

Definition create_topic (topic : Topic) : SM db Topic :=
  topics ← get_topics;
  let topics := match topics !! topic_name topic with
                | Some _ => topics
                | None => <[topic_name topic := topic]> topics
                end in
  _ ← store_insert "topics" topics;
  mret topic.

Definition topic_exists (name : string) : SM db bool :=
  topics ← get_topics; mret (bool_decide (is_Some (topics !! name))).

Definition get_topic (name : string) : SM db (option Topic) :=
  topics ← get_topics; mret (topics !! name).

Definition get_groups : SM db (gmap string Group) :=
  o ← store_get "groups"; mret (default ∅ o).

Definition partition_key (topic : string) (idx : PartitionIdx) : string :=
  topic +:+ ":partition:" +:+ pretty idx.
Definition broker_key (id : BrokerId) : string := "broker:" +:+ pretty id.

Definition create_partition (partition : Partition) : SM db Partition :=
  _ ← store_insert (partition_key (partition_topic partition) (partition_idx partition)) partition;
  mret partition.

Definition create_broker (broker : Peer) : SM db Peer :=
  _ ← store_insert (broker_key (peer_id broker)) broker;
  mret broker.

Definition get_partition (topic : string) (idx : PartitionIdx) : SM db (option Partition) :=
  store_get (partition_key topic idx).

(** ** The state machine ([fsm.rs]) *)
Definition ensure_topic (topic : Topic) : SM db bytes :=
  topic ← create_topic topic; lift (serialize topic).
Definition ensure_partition (partition : Partition) : SM db bytes :=
  partition ← create_partition partition; lift (serialize partition).
Definition ensure_broker (broker : Peer) : SM db bytes :=
  broker ← create_broker broker; lift (serialize broker).

Definition transition_serialize (t : Transition) : outcome bytes := serialize t.
Definition transition_deserialize (buf : bytes) : outcome Transition :=
  match deserialize buf with Some t => Ret t | None => Err (ErrMsg "bincode") end.

Definition josefine_transition (input : bytes) : SM db bytes :=
  t ← lift (transition_deserialize input);
  match t with
  | EnsureTopic topic => ensure_topic topic
  | EnsurePartition partition => ensure_partition partition
  | EnsureBroker broker => ensure_broker broker
  end.

(** [impl Fsm for JosefineFsm]. *)
#[export] Instance JosefineFsm : Fsm := {|
  fsm := db;
  transition d input := josefine_transition input d;
|}.
End Ops.

(** ** Keys *)
Lemma as_bytes_app s1 s2 : as_bytes (s1 +:+ s2) = as_bytes s1 ++ as_bytes s2.
Proof.
  unfold as_bytes, String.list_byte_of_string. induction s1 as [|c s1 IH]; [done|].
  simpl. by rewrite IH.
Qed.

Lemma as_bytes_inj s1 s2 : as_bytes s1 = as_bytes s2 → s1 = s2.
Proof.
  unfold as_bytes. intros H. apply (f_equal String.string_of_list_byte) in H.
  by rewrite !String.string_of_list_byte_of_string in H.
Qed.

Ltac no_colon := refine (bool_decide_unpack (_ ∉ _) _); vm_compute; exact I.

Lemma pretty_N_go_no_colon x s : x3a ∉ as_bytes s → x3a ∉ as_bytes (pretty_N_go x s).
Proof.
  revert s. induction (N.lt_wf_0 x) as [x _ IH]. intros s Hs.
  destruct (decide (0 < x)%N) as [Hx|Hx].
  - rewrite pretty_N_go_step by done. apply IH; [by apply N.div_lt|].
    unfold as_bytes, String.list_byte_of_string in *. simpl.
    rewrite not_elem_of_cons. split; [|done].
    unfold pretty_N_char. by repeat case_match.
  - assert (x = 0%N) as -> by lia. by rewrite pretty_N_go_0.
Qed.

Lemma pretty_no_colon (z : Z) : x3a ∉ as_bytes (pretty z).
Proof.
  assert (∀ n : N, x3a ∉ as_bytes (pretty n)) as Hn.
  { intros n. unfold pretty, pretty_N. case_decide; [no_colon|].
    apply pretty_N_go_no_colon. no_colon. }
  destruct z as [|p|p]; [no_colon|apply (Hn (Npos p))|].
  change (pretty (Z.neg p)) with ("-" +:+ pretty (Npos p)).
  rewrite as_bytes_app, elem_of_app. intros [H|H%Hn]; [|done].
  revert H. no_colon.
Qed.

(** Two strings split at their last colon. *)
Lemma last_colon (a1 b1 a2 b2 : bytes) :
  x3a ∉ b1 → x3a ∉ b2 → a1 ++ x3a :: b1 = a2 ++ x3a :: b2 → a1 = a2 ∧ b1 = b2.
Proof.
  intros H1 H2 (l & [[-> Hl]|[-> Hl]])%app_eq_app;
    (destruct l as [|c l]; [injection Hl as ->; by rewrite app_nil_r|]);
    injection Hl as <- ->; exfalso;
    [apply H2|apply H1]; apply elem_of_app; right; by constructor.
Qed.

Lemma partition_key_split t i :
  as_bytes (partition_key t i) =
  (as_bytes t ++ as_bytes ":partition") ++ x3a :: as_bytes (pretty i).
Proof. unfold partition_key. rewrite !as_bytes_app. by rewrite <-(assoc (++)). Qed.

Lemma broker_key_split i :
  as_bytes (broker_key i) = as_bytes "broker" ++ x3a :: as_bytes (pretty i).
Proof. unfold broker_key. by rewrite as_bytes_app. Qed.

Lemma partition_key_inj t1 i1 t2 i2 :
  as_bytes (partition_key t1 i1) = as_bytes (partition_key t2 i2) → t1 = t2 ∧ i1 = i2.
Proof.
  rewrite !partition_key_split. intros [Ht Hi]%last_colon; [|apply pretty_no_colon..].
  apply app_inv_tail in Ht. by split; [apply as_bytes_inj|apply (inj pretty), as_bytes_inj].
Qed.

Lemma broker_key_inj i1 i2 : as_bytes (broker_key i1) = as_bytes (broker_key i2) → i1 = i2.
Proof.
  rewrite !broker_key_split. intros [_ Hi]%last_colon; [|apply pretty_no_colon..].
  by apply (inj pretty), as_bytes_inj.
Qed.

Lemma partition_broker_key t i j : as_bytes (partition_key t i) ≠ as_bytes (broker_key j).
Proof.
  rewrite partition_key_split, broker_key_split.
  intros [H _]%last_colon; [|apply pretty_no_colon..].
  apply (f_equal length) in H. rewrite length_app in H. simpl in H. lia.
Qed.

Lemma partition_key_colon t i : x3a ∈ as_bytes (partition_key t i).
Proof. rewrite partition_key_split, !elem_of_app, elem_of_cons. auto. Qed.
Lemma broker_key_colon i : x3a ∈ as_bytes (broker_key i).
Proof. rewrite broker_key_split, !elem_of_app, elem_of_cons. auto. Qed.
Lemma topics_no_colon : x3a ∉ as_bytes "topics".
Proof. no_colon. Qed.

(** ** What the store promises: three maps *)
Record BrokerState : Type := {
  bs_topics : gmap string Topic;
  bs_partitions : gmap (string * PartitionIdx) Partition;
  bs_brokers : gmap BrokerId Peer;
}.

Definition broker_empty : BrokerState := {| bs_topics := ∅; bs_partitions := ∅; bs_brokers := ∅ |}.

(** The first topic of a name stays; the last partition and the last broker of a
    key win. *)
Definition broker_step (st : BrokerState) (t : Transition) : BrokerState :=
  match t with
  | EnsureTopic t =>
      {| bs_topics := match bs_topics st !! topic_name t with
                      | Some _ => bs_topics st
                      | None => <[topic_name t := t]> (bs_topics st)
                      end;
         bs_partitions := bs_partitions st; bs_brokers := bs_brokers st |}
  | EnsurePartition p =>
      {| bs_topics := bs_topics st;
         bs_partitions := <[(partition_topic p, partition_idx p) := p]> (bs_partitions st);
         bs_brokers := bs_brokers st |}
  | EnsureBroker b =>
      {| bs_topics := bs_topics st; bs_partitions := bs_partitions st;
         bs_brokers := <[peer_id b := b]> (bs_brokers st) |}
  end.

(** The answer to a transition is an encoding of its argument. *)
Definition answers_with `{!StoreCodec} (t : Transition) (out : bytes) : Prop :=
  match t with
  | EnsureTopic t => deserialize out = Some t
  | EnsurePartition p => deserialize out = Some p
  | EnsureBroker b => deserialize out = Some b
  end.

Section Refinement.
Context {SLED : Sled} {CODEC : StoreCodec} {SLAWS : SledLaws} {CLAWS : StoreCodecLaws}.

(** What a key holds. *)
Definition holds {A} `{!Bincode A} (d : db) (key : string) (o : option A) : Prop :=
  match contents d !! as_bytes key with
  | Some v => ∃ a, deserialize v = Some a ∧ o = Some a
  | None => o = None
  end.

Record represents (d : db) (st : BrokerState) : Prop := {
  rep_topics : ∃ o, holds d "topics" o ∧ default ∅ o = bs_topics st;
  rep_partition t i : holds d (partition_key t i) (bs_partitions st !! (t, i));
  rep_broker i : holds d (broker_key i) (bs_brokers st !! i);
}.

Lemma represents_empty d : contents d = ∅ → represents d broker_empty.
Proof.
  intros Hd. split; unfold holds; rewrite Hd.
  - by exists None.
  - by intros t i; rewrite lookup_empty.
  - by intros i; rewrite lookup_empty.
Qed.

Lemma store_get_holds {A} `{!Bincode A} d key (o : option A) :
  holds d key o → store_get key d = (Ret o, d).
Proof.
  unfold holds, store_get, tree_get, mbind, SM_bind. rewrite db_get_spec.
  destruct (contents d !! as_bytes key) as [v|]; [|by intros ->].
  by intros (a & -> & ->).
Qed.

Lemma store_insert_holds {A} `{!Bincode A, !BincodeLaws A} d key (a : A) :
  ∃ d', store_insert key a d = (Ret tt, d') ∧ holds d' key (Some a) ∧
    ∀ B (HB : Bincode B) key' (o : option B),
      as_bytes key' ≠ as_bytes key → holds d key' o → holds d' key' o.
Proof.
  destruct (bincode_roundtrip a) as (v & Hv & Hd).
  destruct (db_insert_spec d (as_bytes key) v) as (d' & Hi & Hc).
  exists d'. split.
  { unfold store_insert, mbind, SM_bind, lift, tree_insert. by rewrite Hv, Hi. }
  unfold holds. rewrite Hc. split.
  - rewrite lookup_insert_eq. eauto.
  - intros B HB key' o Hk. by rewrite lookup_insert_ne by done.
Qed.

Lemma topics_key_partition t i : as_bytes "topics" ≠ as_bytes (partition_key t i).
Proof. intros H. apply topics_no_colon. rewrite H. apply partition_key_colon. Qed.
Lemma topics_key_broker i : as_bytes "topics" ≠ as_bytes (broker_key i).
Proof. intros H. apply topics_no_colon. rewrite H. apply broker_key_colon. Qed.

Lemma get_topics_rep d st : represents d st → get_topics d = (Ret (bs_topics st), d).
Proof.
  intros [(o & Ho & <-) _ _]. unfold get_topics, mbind, SM_bind.
  by rewrite (store_get_holds _ _ _ Ho).
Qed.

Lemma ensure_topic_refines d st t :
  represents d st →
  ∃ d' out, ensure_topic t d = (Ret out, d') ∧
    represents d' (broker_step st (EnsureTopic t)) ∧ answers_with (EnsureTopic t) out.
Proof.
  intros Hr. destruct (bincode_roundtrip t) as (out & Ho & Hd).
  set (ts := bs_topics (broker_step st (EnsureTopic t))).
  destruct (store_insert_holds d "topics" ts) as (d' & Hi & Hh & Hk).
  exists d', out. split.
  - unfold ensure_topic, create_topic, mbind, SM_bind.
    rewrite (get_topics_rep _ _ Hr). cbn in ts. fold ts. rewrite Hi. cbn. unfold lift. by rewrite Ho.
  - split; [|done]. destruct Hr as [_ Hp Hb]. split.
    + by exists (Some ts).
    + intros t' i. apply Hk; [apply not_eq_sym, topics_key_partition|apply Hp].
    + intros i. apply Hk; [apply not_eq_sym, topics_key_broker|apply Hb].
Qed.

Lemma ensure_partition_refines d st p :
  represents d st →
  ∃ d' out, ensure_partition p d = (Ret out, d') ∧
    represents d' (broker_step st (EnsurePartition p)) ∧ answers_with (EnsurePartition p) out.
Proof.
  intros [(o & Ht & Ho) Hp Hb]. destruct (bincode_roundtrip p) as (out & Hs & Hd).
  destruct (store_insert_holds d (partition_key (partition_topic p) (partition_idx p)) p)
    as (d' & Hi & Hh & Hk).
  exists d', out. split.
  - unfold ensure_partition, create_partition, mbind, SM_bind. rewrite Hi. cbn. unfold lift.
    by rewrite Hs.
  - split; [|done]. split; cbn.
    + exists o. split; [|done]. apply Hk; [apply topics_key_partition|done].
    + intros t i. rewrite lookup_insert. case_decide as E; [by simplify_eq|].
      apply Hk; [|done]. intros [-> ->]%partition_key_inj. done.
    + intros i. apply Hk; [|done]. apply not_eq_sym, partition_broker_key.
Qed.

Lemma ensure_broker_refines d st b :
  represents d st →
  ∃ d' out, ensure_broker b d = (Ret out, d') ∧
    represents d' (broker_step st (EnsureBroker b)) ∧ answers_with (EnsureBroker b) out.
Proof.
  intros [(o & Ht & Ho) Hp Hb]. destruct (bincode_roundtrip b) as (out & Hs & Hd).
  destruct (store_insert_holds d (broker_key (peer_id b)) b) as (d' & Hi & Hh & Hk).
  exists d', out. split.
  - unfold ensure_broker, create_broker, mbind, SM_bind. rewrite Hi. cbn. unfold lift.
    by rewrite Hs.
  - split; [|done]. split; cbn.
    + exists o. split; [|done]. apply Hk; [apply topics_key_broker|done].
    + intros t i. apply Hk; [|done]. apply partition_broker_key.
    + intros i. rewrite lookup_insert. case_decide as E; [by subst|].
      apply Hk; [|done]. intros ->%broker_key_inj. done.
Qed.

Lemma transition_run d st input :
  represents d st →
  match deserialize (A := Transition) input with
  | Some t => ∃ d' out, josefine_transition input d = (Ret out, d') ∧
                represents d' (broker_step st t) ∧ answers_with t out
  | None => ∃ e, josefine_transition input d = (Err e, d)
  end.
Proof.
  intros Hr. unfold josefine_transition, mbind, SM_bind, lift, transition_deserialize.
  destruct (deserialize input) as [[t|p|b]|]; cbn.
  - by apply ensure_topic_refines.
  - by apply ensure_partition_refines.
  - by apply ensure_broker_refines.
  - eauto.
Qed.

(** C16: The broker's state machine implements three maps.  On a store that
    represents them, a transition succeeds, leaves a store that represents the
    maps after the transition (a topic is added unless its name is taken, a
    partition and a broker replace the one with their key) and answers with its
    argument; input that is not a transition is an error and changes nothing. *)
Theorem transition_refines d st input :
  represents d st →
  match deserialize (A := Transition) input with
  | Some t => ∃ d' out, josefine_transition input d = (Ret out, d') ∧
                represents d' (broker_step st t) ∧ answers_with t out
  | None => ∃ e, josefine_transition input d = (Err e, d)
  end.
Proof. apply transition_run. Qed.

(** ** The driver of a broker *)
(** The transitions the blocks of a list of instructions carry. *)
Definition transitions (l : list Instruction) : list Transition :=
  omap (λ b, deserialize (b_data b)) (moves l).

Lemma fsm_fold_represents d st bs :
  represents d st →
  represents (fsm_fold (FSM := JosefineFsm) d bs)
    (foldl broker_step st (omap (λ b, deserialize (b_data b)) bs)).
Proof.
  revert d st. induction bs as [|b bs IH]; intros d st Hr; [done|].
  pose proof (transition_run d st (b_data b) Hr) as Ht. cbn.
  destruct (deserialize (b_data b)) as [t|]; cbn.
  - destruct Ht as (d' & out & -> & Hr' & _). by apply IH.
  - destruct Ht as (e & ->). by apply IH.
Qed.

(** The driver of a broker does not stop as long as the event loop listens. *)
Lemma broker_driver_step (dr : Driver (FSM := JosefineFsm)) i w st :
  represents (d_fsm dr) st → receiver_alive (rpc_tx w) = true →
  ∃ dr' w', driver_step dr i w = (Ret dr', w') ∧ receiver_alive (rpc_tx w') = true.
Proof.
  intros Hr Hw. destruct i as [b|id a k]; cbn [driver_step]; [|by eexists _, _].
  case_decide; [by eexists _, _|]. unfold exec. cbn [transition JosefineFsm].
  pose proof (transition_run (d_fsm dr) st (b_data b) Hr) as Ht.
  destruct (josefine_transition (b_data b) (d_fsm dr)) as [o f] eqn:E.
  assert (o ≠ Panic) as Ho.
  { destruct (deserialize (b_data b)); [destruct Ht as (? & ? & Ht & _)|destruct Ht as (? & Ht)];
      congruence. }
  destruct o; [| |done]; cbn [notifications];
    (destruct (notifications dr !! b_id b) as [[to id]|];
     [erewrite SM_bind_step by (by apply rpc_send_alive)|]; by eexists _, _).
Qed.

Lemma broker_driver_run l (dr : Driver (FSM := JosefineFsm)) w st :
  represents (d_fsm dr) st → receiver_alive (rpc_tx w) = true →
  ∃ dr' w', driver_run dr l w = (Ret dr', w').
Proof.
  revert dr w st. induction l as [|i l IH]; intros dr w st Hr Hw; [by eexists _, _|].
  destruct (broker_driver_step dr i w st Hr Hw) as (dr1 & w1 & H1 & Hw1).
  pose proof (driver_step_state _ _ _ _ _ H1) as Hs.
  destruct (IH dr1 w1 (foldl broker_step st (transitions [i]))) as (dr' & w' & H'); [|done|].
  - rewrite Hs. by apply fsm_fold_represents.
  - exists dr', w'. unfold driver_run in *. cbn [sfold]. by rewrite (SM_bind_step _ _ _ _ _ H1).
Qed.

(** C17: The metadata of a broker follows the replicated log.  From an empty store,
    while the event loop listens, the driver works through every list of
    instructions without failing; the store then answers for topics and
    partitions what the transitions of the applied blocks lead to, in their
    order, whatever notifications came in between: brokers that applied the same
    blocks give the same answers. *)
Theorem broker_follows_log d l w name idx :
  contents d = ∅ → receiver_alive (rpc_tx w) = true →
  let st := foldl broker_step broker_empty (transitions l) in
  ∃ dr w', driver_run (FSM := JosefineFsm) (driver_new (FSM := JosefineFsm) d) l w = (Ret dr, w') ∧
    get_topics (d_fsm dr) = (Ret (bs_topics st), d_fsm dr) ∧
    get_topic name (d_fsm dr) = (Ret (bs_topics st !! name), d_fsm dr) ∧
    topic_exists name (d_fsm dr) = (Ret (bool_decide (is_Some (bs_topics st !! name))), d_fsm dr) ∧
    get_partition name idx (d_fsm dr) = (Ret (bs_partitions st !! (name, idx)), d_fsm dr).
Proof.
  intros Hd Hw st. pose proof (represents_empty d Hd) as H0.
  destruct (broker_driver_run l (driver_new (FSM := JosefineFsm) d) w _ H0 Hw) as (dr & w' & Hrun).
  exists dr, w'. split; [done|].
  assert (represents (d_fsm dr) st) as Hr.
  { apply driver_run_state in Hrun as ->. by apply fsm_fold_represents. }
  unfold get_topic, topic_exists, get_partition, mbind, SM_bind.
  rewrite (get_topics_rep _ _ Hr). split_and!; [done..|].
  apply store_get_holds, Hr.
Qed.

(** Creating a topic a second time leaves the store at odds with itself: the
    topic keeps its first assignment of partitions while the partitions take the
    second one, and the answer to the second request is the topic that was not
    stored. *)
Theorem recreate_disagrees d st t1 t2 p2 i1 i2 :
  represents d st → bs_topics st !! topic_name t2 = Some t1 →
  partition_topic p2 = topic_name t2 →
  deserialize i1 = Some (EnsureTopic t2) → deserialize i2 = Some (EnsurePartition p2) →
  ∃ d1 d2 out1 out2,
    josefine_transition i1 d = (Ret out1, d1) ∧ josefine_transition i2 d1 = (Ret out2, d2) ∧
    deserialize out1 = Some t2 ∧
    get_topic (topic_name t2) d2 = (Ret (Some t1), d2) ∧
    get_partition (topic_name t2) (partition_idx p2) d2 = (Ret (Some p2), d2).
Proof.
  intros Hr Ht Hp H1 H2.
  pose proof (transition_run d st i1 Hr) as T1. rewrite H1 in T1.
  destruct T1 as (d1 & out1 & T1 & Hr1 & Ha1).
  pose proof (transition_run d1 _ i2 Hr1) as T2. rewrite H2 in T2.
  destruct T2 as (d2 & out2 & T2 & Hr2 & _).
  exists d1, d2, out1, out2. split_and!; [done..| |].
  - unfold get_topic, mbind, SM_bind. rewrite (get_topics_rep _ _ Hr2). cbn.
    by rewrite Ht, Ht.
  - unfold get_partition. apply store_get_holds.
    pose proof (rep_partition _ _ Hr2 (topic_name t2) (partition_idx p2)) as Hh.
    cbn in Hh. by rewrite Hp, lookup_insert_eq in Hh.
Qed.
End Refinement.

(** ** Witnesses: an encoding of countable types *)
Fixpoint pos_bytes (p : positive) : bytes :=
  match p with xH => [] | xO p => x00 :: pos_bytes p | xI p => x01 :: pos_bytes p end.
Fixpoint bytes_pos (v : bytes) : positive :=
  match v with [] => xH | x00 :: v => xO (bytes_pos v) | _ :: v => xI (bytes_pos v) end.

Lemma bytes_pos_bytes p : bytes_pos (pos_bytes p) = p.
Proof. induction p; simpl; congruence. Qed.

Definition countable_bincode {A} `{Countable A} : Bincode A :=
  {| serialize a := Ret (pos_bytes (encode a)); deserialize v := decode (bytes_pos v) |}.
Lemma countable_bincode_laws {A} `{Countable A} : @BincodeLaws A countable_bincode.
Proof. split. intros a. eexists. split; [done|]. cbn. by rewrite bytes_pos_bytes, decode_encode. Qed.

#[export] Instance IpAddr_eq_dec : EqDecision IpAddr.
Proof. solve_decision. Defined.
#[export] Instance Topic_eq_dec : EqDecision Topic.
Proof. solve_decision. Defined.
#[export] Instance Partition_eq_dec : EqDecision Partition.
Proof. solve_decision. Defined.
#[export] Instance Group_eq_dec : EqDecision Group.
Proof. solve_decision. Defined.
#[export] Instance Peer_eq_dec : EqDecision Peer.
Proof. solve_decision. Defined.
#[export] Instance Transition_eq_dec : EqDecision Transition.
Proof. solve_decision. Defined.

#[export] Program Instance IpAddr_countable : Countable IpAddr :=
  inj_countable' (λ a, match a with V4 b => inl b | V6 b => inr b end)
    (λ s : Z + Z, match s with inl b => V4 b | inr b => V6 b end) _.
Next Obligation. by intros []. Qed.
#[export] Program Instance Topic_countable : Countable Topic :=
  inj_countable' (λ t, (topic_id t, topic_name t, topic_partitions t, topic_internal t))
    (λ '(a, b, c, d), Build_Topic a b c d) _.
Next Obligation. by intros []. Qed.
#[export] Program Instance Partition_countable : Countable Partition :=
  inj_countable' (λ p, (partition_id p, partition_idx p, partition_topic p, isr p,
                        assigned_replicas p, partition_leader p))
    (λ '(a, b, c, d, e, f), Build_Partition a b c d e f) _.
Next Obligation. by intros []. Qed.
#[export] Program Instance Group_countable : Countable Group :=
  inj_countable' group_id Build_Group _.
Next Obligation. by intros []. Qed.
#[export] Program Instance Peer_countable : Countable Peer :=
  inj_countable' (λ p, (peer_id p, peer_ip p, peer_port p)) (λ '(a, b, c), Build_Peer a b c) _.
Next Obligation. by intros []. Qed.
#[export] Program Instance Transition_countable : Countable Transition :=
  inj_countable' (λ t, match t with EnsureTopic t => inl (inl t) | EnsurePartition p => inl (inr p)
                       | EnsureBroker b => inr b end)
    (λ s, match s with inl (inl t) => EnsureTopic t | inl (inr p) => EnsurePartition p
          | inr b => EnsureBroker b end) _.
Next Obligation. by intros []. Qed.

#[export] Instance demo_codec : StoreCodec := {|
  codec_topics := countable_bincode; codec_groups := countable_bincode;
  codec_topic := countable_bincode; codec_partition := countable_bincode;
  codec_peer := countable_bincode; codec_transition := countable_bincode;
|}.
#[export] Instance demo_codec_laws : StoreCodecLaws.
Proof. split; apply countable_bincode_laws. Qed.

Definition demo_input (t : Transition) : bytes := pos_bytes (encode t).
Lemma demo_input_decodes t : deserialize (demo_input t) = Some t.
Proof. cbn. unfold demo_input. by rewrite bytes_pos_bytes, decode_encode. Qed.

Definition demo_partition (uuid : Uuid) (replicas : list Z) : Partition := {|
  partition_id := uuid; partition_idx := 0; partition_topic := "events";
  isr := replicas; assigned_replicas := replicas; partition_leader := 1;
|}.
Definition demo_topic (uuid : Uuid) (replicas : list Z) : Topic := {|
  topic_id := uuid; topic_name := "events"; topic_partitions := {[ 0 := replicas ]};
  topic_internal := false;
|}.

(** The empty in-memory store. *)
Definition demo_db : db (Sled := demo_sled) := (∅ : gmap bytes bytes).
Lemma demo_db_empty : contents demo_db = ∅.
Proof. done. Qed.

Lemma transition_refines_witness :
  ∃ d out, josefine_transition (demo_input (EnsureTopic (demo_topic 7 [1; 2]))) demo_db = (Ret out, d) ∧
    represents d {| bs_topics := {[ "events" := demo_topic 7 [1; 2] ]};
                    bs_partitions := ∅; bs_brokers := ∅ |}.
Proof.
  pose proof (transition_refines demo_db broker_empty
    (demo_input (EnsureTopic (demo_topic 7 [1; 2]))) (represents_empty demo_db demo_db_empty)) as H.
  rewrite demo_input_decodes in H. destruct H as (d & out & H1 & H2 & _).
  exists d, out. split; [exact H1|exact H2].
Defined.

(** Two blocks: a topic and its partition. *)
Definition demo_blocks : list Block :=
  [{| b_id := BlockId_new 1; b_next := BlockId_new 0;
      b_data := demo_input (EnsureTopic (demo_topic 7 [1; 2])) |};
   {| b_id := BlockId_new 2; b_next := BlockId_new 1;
      b_data := demo_input (EnsurePartition (demo_partition 8 [1; 2])) |}].

Lemma demo_transitions :
  transitions (Apply <$> demo_blocks) =
  [EnsureTopic (demo_topic 7 [1; 2]); EnsurePartition (demo_partition 8 [1; 2])].
Proof.
  unfold transitions, moves, demo_blocks. cbn [fmap list_fmap omap list_omap applied_block].
  rewrite !filter_cons_True by (intros E; by vm_compute in E).
  cbn [filter list_filter omap list_omap b_data]. by rewrite !demo_input_decodes.
Qed.

Lemma broker_follows_log_witness :
  ∃ dr w', driver_run (FSM := JosefineFsm) (driver_new (FSM := JosefineFsm) demo_db)
      (Apply <$> demo_blocks) demo_world = (Ret dr, w') ∧
    get_partition "events" 0 (d_fsm dr) = (Ret (Some (demo_partition 8 [1; 2])), d_fsm dr).
Proof.
  destruct (broker_follows_log demo_db (Apply <$> demo_blocks) demo_world "events" 0)
    as (dr & w' & H1 & _ & _ & _ & H2); [done|done|].
  exists dr, w'. split; [exact H1|]. rewrite demo_transitions in H2. exact H2.
Defined.

Lemma demo_stored :
  ∃ d, represents d {| bs_topics := {[ "events" := demo_topic 7 [1; 2] ]};
                       bs_partitions := ∅; bs_brokers := ∅ |}.
Proof.
  pose proof (ensure_topic_refines demo_db broker_empty (demo_topic 7 [1; 2])
    (represents_empty demo_db demo_db_empty)) as (d & out & _ & H & _).
  exists d. exact H.
Qed.

Lemma recreate_disagrees_witness :
  ∃ d i1 i2 d1 d2 out1 out2,
    josefine_transition i1 d = (Ret out1, d1) ∧ josefine_transition i2 d1 = (Ret out2, d2) ∧
    deserialize out1 = Some (demo_topic 9 [2; 1]) ∧
    get_topic "events" d2 = (Ret (Some (demo_topic 7 [1; 2])), d2) ∧
    get_partition "events" 0 d2 = (Ret (Some (demo_partition 10 [2; 1])), d2).
Proof.
  destruct demo_stored as (d & Hr).
  exists d, (demo_input (EnsureTopic (demo_topic 9 [2; 1]))),
    (demo_input (EnsurePartition (demo_partition 10 [2; 1]))).
  exact (recreate_disagrees d _ (demo_topic 7 [1; 2]) (demo_topic 9 [2; 1]) (demo_partition 10 [2; 1])
    _ _ Hr eq_refl eq_refl (demo_input_decodes _) (demo_input_decodes _)).
Defined.
