(* ===== verification/Framing.v ===== *)
(** * Framed streams

    The connections of the program, between nodes ([src/raft/tcp.rs]) and with
    Kafka clients ([src/kafka/codec.rs], [src/broker/tcp.rs]), carry messages in
    frames: the length-delimited codec of tokio cuts the byte stream into frames
    and each frame is decoded to a message.  The codec is a parameter; this file
    has what the program relies on, the loop [while let Some(..) =
    stream.try_next().await?] over such a stream, and an executable instance. *)
From S2P Require Import Prelude Bytes.
Local Open Scope Z_scope.

(** ** [LengthDelimitedCodec] *)

(** [frame_encode payload] is the frame; [frame_decode src] the first frame of the
    buffer and what follows it, or nothing if the frame is not complete. *)
Class LengthCodec := {
  frame_encode : bytes → outcome bytes;
  frame_decode : bytes → outcome (option (bytes * bytes));
}.

(** What is promised: a frame decodes to its payload whatever follows, an
    incomplete frame waits, and bytes that arrive later change nothing that was
    decided before them. *)
Class LengthCodecLaws `{!LengthCodec} := {
  frame_roundtrip p b rest : frame_encode p = Ret b → frame_decode (b ++ rest) = Ret (Some (p, rest));
  frame_partial p b k : frame_encode p = Ret b → (k < length b)%nat → frame_decode (take k b) = Ret None;
  frame_nil : frame_decode [] = Ret None;
  frame_shorter src p rest : frame_decode src = Ret (Some (p, rest)) → (length rest < length src)%nat;
  frame_more src p rest more :
    frame_decode src = Ret (Some (p, rest)) → frame_decode (src ++ more) = Ret (Some (p, rest ++ more));
  frame_refused src e more : frame_decode src = Err e → frame_decode (src ++ more) = Err e;
  frame_no_panic src : frame_decode src ≠ Panic;
}.

(** ** Reading a stream *)
Section Read.
Context {A : Type}.

(** A decoder of messages: the frames, then [f] on each payload. *)
Definition framed `{!LengthCodec} (f : bytes → outcome A) (src : bytes) : outcome (option (A * bytes)) :=
  o ← frame_decode src;
  match o with
  | Some (p, rest) => a ← f p; Ret (Some (a, rest))
  | None => Ret None
  end.

(** The messages a buffer yields, and the bytes left over or the failure that
    ended the loop. *)
Fixpoint read_loop (dec : bytes → outcome (option (A * bytes))) (fuel : nat) (src : bytes) :
    list A * outcome bytes :=
  match fuel with
  | O => ([], Ret src)
  | S fuel =>
      match dec src with
      | Ret (Some (a, rest)) => let '(l, o) := read_loop dec fuel rest in (a :: l, o)
      | Ret None => ([], Ret src)
      | Err e => ([], Err e)
      | Panic => ([], Panic)
      end
  end.

(** Every message takes a byte at least, so the length of the buffer bounds them. *)
Definition read_all (dec : bytes → outcome (option (A * bytes))) (src : bytes) : list A * outcome bytes :=
  read_loop dec (S (length src)) src.

(** The end of the stream: what is left over must be nothing. *)
Definition at_eof (o : outcome bytes) : outcome unit :=
  rest ← o;
  match rest with [] => Ret tt | _ => Err (ErrMsg "bytes remaining on stream") end.

(** The stream as it arrives, piece by piece. *)
Definition feed (dec : bytes → outcome (option (A * bytes))) (st : list A * outcome bytes) (piece : bytes) :
    list A * outcome bytes :=
  match st.2 with
  | Ret buf => let '(l, o) := read_all dec (buf ++ piece) in (st.1 ++ l, o)
  | _ => st
  end.

(** The reference: one payload after the other, up to the first that does not
    decode. *)
Fixpoint decode_each (f : bytes → outcome A) (ps : list bytes) : list A * outcome unit :=
  match ps with
  | [] => ([], Ret tt)
  | p :: ps =>
      match f p with
      | Ret a => let '(l, o) := decode_each f ps in (a :: l, o)
      | Err e => ([], Err e)
      | Panic => ([], Panic)
      end
  end.
End Read.

(** ** Decoders *)
Section Decoders.
Context {A : Type} {FRAMES : LengthCodec} {FLAWS : LengthCodecLaws}.
Implicit Types f : bytes → outcome A.

Lemma framed_shorter f src a rest :
  framed f src = Ret (Some (a, rest)) → (length rest < length src)%nat.
Proof.
  unfold framed. intros ([[p r]|] & H & Hp)%bind_Ret; [|done].
  apply bind_Ret in Hp as (a' & _ & [= -> ->]). by eapply frame_shorter.
Qed.

Lemma framed_more f src more :
  match framed f src with
  | Ret (Some (a, rest)) => framed f (src ++ more) = Ret (Some (a, rest ++ more))
  | Ret None => True
  | o => framed f (src ++ more) = o
  end.
Proof.
  unfold framed. destruct (frame_decode src) as [[[p r]|]|e|] eqn:H; cbn.
  - rewrite (frame_more _ _ _ more H). cbn. by destruct (f p).
  - done.
  - by rewrite (frame_refused _ _ more H).
  - by apply frame_no_panic in H.
Qed.

(** More fuel than bytes changes nothing. *)
Lemma read_loop_fuel f k1 k2 src :
  (length src < k1)%nat → (length src < k2)%nat → read_loop (framed f) k1 src = read_loop (framed f) k2 src.
Proof.
  revert k2 src. induction k1 as [|k1 IH]; intros k2 src H1 H2; [lia|]. destruct k2 as [|k2]; [lia|].
  cbn. destruct (framed f src) as [[[a rest]|]| |] eqn:H; [|done..].
  apply framed_shorter in H. rewrite (IH k2) by lia. done.
Qed.

(** Bytes that arrive later are read where the loop stopped. *)
Lemma read_app f src more :
  read_all (framed f) (src ++ more) = feed (framed f) (read_all (framed f) src) more.
Proof.
  unfold read_all. remember (S (length src)) as k eqn:Hk. assert (length src < k)%nat as Hlt by lia.
  clear Hk. revert src Hlt. induction k as [|k IH]; intros src Hlt; [lia|].
  pose proof (framed_more f src more) as Hm. cbn [read_loop].
  destruct (framed f src) as [[[a rest]|]|e|] eqn:H.
  - rewrite Hm. pose proof (framed_shorter _ _ _ _ H).
    rewrite (read_loop_fuel f _ (S (length (rest ++ more)))) by (rewrite !length_app; lia).
    rewrite IH by lia. unfold feed. destruct (read_loop (framed f) k rest) as [l [buf| |]]; cbn [snd fst];
      [|done..]. by destruct (read_all (framed f) (buf ++ more)).
  - change (read_all (framed f) (src ++ more) = feed (framed f) ([], Ret src) more).
    unfold feed. cbn [snd fst]. by destruct (read_all (framed f) (src ++ more)).
  - by rewrite Hm.
  - by rewrite Hm.
Qed.

(** How a stream is cut into pieces does not matter. Feeding the pieces of a
    stream to the reading loop as they arrive gives the messages, and the bytes
    left over or the failure, of reading the whole stream at once. *)
Theorem pieces_irrelevant f pieces :
  foldl (feed (framed f)) ([], Ret []) pieces = read_all (framed f) (concat pieces).
Proof.
  induction pieces as [|piece pieces IH] using rev_ind.
  - cbn. unfold read_all. cbn. unfold framed. by rewrite frame_nil.
  - rewrite foldl_app, concat_app. cbn [foldl concat]. rewrite app_nil_r, read_app. by rewrite IH.
Qed.

(** Frames one after the other, with at most a part of one more. *)
Lemma read_frames f ps bs tail :
  Forall2 (λ p b, frame_encode p = Ret b) ps bs → frame_decode tail = Ret None →
  let '(l, o) := decode_each f ps in
  read_all (framed f) (concat bs ++ tail) = (l, _ ← o; Ret tail).
Proof.
  intros H Ht. induction H as [|p b ps bs Hb _ IH]; cbn [decode_each concat].
  - cbn. unfold read_all. cbn. unfold framed. by rewrite Ht.
  - rewrite <-app_assoc. unfold read_all. cbn [read_loop]. unfold framed at 1.
    rewrite (frame_roundtrip _ _ _ Hb). cbn.
    destruct (f p) as [a|e|]; cbn; [|done..]. pose proof (frame_shorter _ _ _ (frame_roundtrip _ _ (concat bs ++ tail) Hb)).
    rewrite (read_loop_fuel f _ (S (length (concat bs ++ tail)))) by lia.
    destruct (decode_each f ps) as [l o]. unfold read_all in IH. by rewrite IH.
Qed.
End Decoders.

(** ** Frames taken one at a time *)
Section Unframe.
Context {FRAMES : LengthCodec} {FLAWS : LengthCodecLaws}.

(** The payloads [ps] have been taken from the front of [src], and [rest] is left. *)
Fixpoint unframe (src : bytes) (ps : list bytes) (rest : bytes) : Prop :=
  match ps with
  | [] => src = rest
  | p :: ps => ∃ src', frame_decode src = Ret (Some (p, src')) ∧ unframe src' ps rest
  end.

Lemma unframe_more src ps rest more : unframe src ps rest → unframe (src ++ more) ps (rest ++ more).
Proof.
  revert src. induction ps as [|p ps IH]; intros src; cbn; [by intros ->|].
  intros (src' & Hp & H). exists (src' ++ more). split; [by apply frame_more|by apply IH].
Qed.

Lemma unframe_snoc src ps rest p rest' :
  unframe src ps rest → frame_decode rest = Ret (Some (p, rest')) → unframe src (ps ++ [p]) rest'.
Proof.
  revert src. induction ps as [|q ps IH]; intros src; cbn; [intros -> ?; eauto|].
  intros (src' & Hq & H) Hp. exists src'. split; [done|]. by apply IH.
Qed.

(** The start of a list of frames is some of them and a part of the next. *)
Lemma frames_prefix ps bs src :
  Forall2 (λ p b, frame_encode p = Ret b) ps bs → src `prefix_of` concat bs →
  ∃ m tail, src = concat (take m bs) ++ tail ∧ frame_decode tail = Ret None.
Proof.
  intros H. revert src. induction H as [|p b ps bs Hb _ IH]; intros src Hsrc; cbn in Hsrc.
  { apply prefix_nil_inv in Hsrc as ->. exists 0%nat, []. split; [done|apply frame_nil]. }
  destruct (decide (length src < length b)%nat) as [Hlt|Hge].
  - exists 0%nat, src. split; [done|]. destruct Hsrc as [k Hk].
    replace src with (take (length src) b); [by eapply frame_partial|].
    apply (f_equal (take (length src))) in Hk. rewrite take_app_length in Hk. by rewrite take_app_le in Hk by lia.
  - destruct Hsrc as [k Hk]. assert (src = b ++ drop (length b) src) as Hsplit.
    { rewrite <-(take_drop (length b) src) at 1. f_equal. apply (f_equal (take (length b))) in Hk.
      by rewrite take_app_length, take_app_le in Hk by lia. }
    destruct (IH (drop (length b) src)) as (m & tail & Hd & Ht).
    { exists k. apply (f_equal (drop (length b))) in Hk. by rewrite drop_app_length, drop_app_le in Hk by lia. }
    exists (S m), tail. cbn. split; [|done]. by rewrite <-app_assoc, <-Hd.
Qed.

(** What is taken from the start of a list of frames are their payloads. *)
Lemma unframe_prefix ps bs src qs rest :
  Forall2 (λ p b, frame_encode p = Ret b) ps bs → src `prefix_of` concat bs →
  unframe src qs rest → qs `prefix_of` ps.
Proof.
  intros H Hsrc. destruct (frames_prefix ps bs src H Hsrc) as (m & tail & -> & Ht). clear Hsrc.
  revert qs m. induction H as [|p b ps bs Hb _ IH]; intros [|q qs] m Hq; try apply prefix_nil.
  - rewrite take_nil in Hq. cbn in Hq. destruct Hq as (src' & Hd & _). congruence.
  - destruct m as [|m]; cbn in Hq; destruct Hq as (src' & Hd & Hq); [congruence|].
    rewrite <-app_assoc, (frame_roundtrip _ _ _ Hb) in Hd. injection Hd as <- <-.
    apply prefix_cons. by eapply IH.
Qed.
End Unframe.

(** ** An instance: four bytes of length, big-endian *)
Section Instance4.
Variable max : Z.
Hypothesis Hmax : 0 ≤ max < 2 ^ 32.

Definition be4_encode (p : bytes) : outcome bytes :=
  if max <? Z.of_nat (length p) then Err (ErrMsg "frame size too big")
  else Ret (be_bytes 4 (Z.of_nat (length p)) ++ p).
Definition be4_decode (src : bytes) : outcome (option (bytes * bytes)) :=
  if (length src <? 4)%nat then Ret None
  else
    let n := be_val (take 4 src) in
    if max <? n then Err (ErrMsg "frame size too big")
    else if (length src <? 4 + Z.to_nat n)%nat then Ret None
    else Ret (Some (take (Z.to_nat n) (drop 4 src), drop (4 + Z.to_nat n) src)).
Definition be4_frames : LengthCodec := {| frame_encode := be4_encode; frame_decode := be4_decode |}.

Lemma be4_laws : @LengthCodecLaws be4_frames.
Proof.
  assert (∀ src more : bytes, (4 ≤ length src)%nat → take 4 (src ++ more) = take 4 src) as Htake.
  { intros src more H. by rewrite take_app_le. }
  assert (∀ p : bytes, Z.of_nat (length p) ≤ max →
    be_val (be_bytes 4 (Z.of_nat (length p))) = Z.of_nat (length p)) as Hval.
  { intros p Hp. rewrite be_val_bytes. apply Z.mod_small. change (256 ^ Z.of_nat 4) with (2 ^ 32). lia. }
  assert (∀ p b, be4_encode p = Ret b → Z.of_nat (length p) ≤ max ∧ b = be_bytes 4 (Z.of_nat (length p)) ++ p) as Henc.
  { intros p b. unfold be4_encode. destruct (Z.ltb_spec max (Z.of_nat (length p))); [done|].
    intros [= <-]. by split; [lia|]. }
  split; cbn; unfold be4_decode.
  - intros p b rest (Hp & ->)%Henc. rewrite <-app_assoc.
    assert (length (be_bytes 4 (Z.of_nat (length p))) = 4%nat) as H4 by apply length_be_bytes.
    rewrite !length_app, H4. rewrite (proj2 (Nat.ltb_ge _ _)) by lia.
    rewrite take_app_le, take_ge, Hval by lia. rewrite (proj2 (Z.ltb_ge _ _)) by lia.
    rewrite Nat2Z.id, (proj2 (Nat.ltb_ge _ _)) by lia.
    rewrite drop_app_length' by done. rewrite take_app_length.
    rewrite app_assoc, drop_app_length' by (rewrite length_app; lia). done.
  - intros p b k (Hp & ->)%Henc.
    assert (length (be_bytes 4 (Z.of_nat (length p))) = 4%nat) as H4 by apply length_be_bytes.
    rewrite length_app, H4. intros Hk. rewrite length_take, length_app, H4.
    destruct (Nat.ltb_spec (k `min` (4 + length p)) 4); [done|].
    rewrite take_take, Nat.min_l by lia. rewrite take_app_le, take_ge, Hval by lia.
    rewrite (proj2 (Z.ltb_ge _ _)) by lia. rewrite Nat2Z.id, (proj2 (Nat.ltb_lt _ _)) by lia. done.
  - done.
  - intros src p rest. destruct (Nat.ltb_spec (length src) 4); [done|].
    destruct (_ <? _); [done|]. destruct (Nat.ltb_spec (length src) (4 + Z.to_nat (be_val (take 4 src)))); [done|].
    intros [= _ <-]. rewrite length_drop. lia.
  - intros src p rest more. destruct (Nat.ltb_spec (length src) 4); [done|].
    rewrite length_app, Htake by lia.
    rewrite (proj2 (Nat.ltb_ge (length src + length more) 4)) by lia.
    destruct (_ <? _); [done|].
    destruct (Nat.ltb_spec (length src) (4 + Z.to_nat (be_val (take 4 src)))) as [|Hn]; [done|].
    intros [= <- <-].
    rewrite (proj2 (Nat.ltb_ge (length src + length more) (4 + Z.to_nat (be_val (take 4 src))))) by lia.
    rewrite !drop_app_le by lia. rewrite take_app_le by (rewrite length_drop; lia). done.
  - intros src e more. destruct (Nat.ltb_spec (length src) 4); [done|].
    rewrite length_app, Htake by lia.
    rewrite (proj2 (Nat.ltb_ge (length src + length more) 4)) by lia.
    destruct (_ <? _); [done|]. by destruct (_ <? _)%nat.
  - intros src. by repeat case_match.
Qed.
End Instance4.

#[export] Instance demo_frames : LengthCodec := be4_frames (2 ^ 31 - 1).
#[export] Instance demo_frames_laws : LengthCodecLaws.
Proof. apply be4_laws. lia. Qed.

(** ** Witness: a stream of two frames in three pieces *)
Definition demo_pieces : list bytes :=
  [[x00; x00; x00]; [x02; x2a; x2b; x00; x00; x00; x01]; [x2c]].

Lemma pieces_irrelevant_witness :
  foldl (feed (framed (Ret (A := bytes)))) ([], Ret []) demo_pieces = ([[x2a; x2b]; [x2c]], Ret []).
Proof. rewrite (pieces_irrelevant Ret demo_pieces). vm_compute. reflexivity. Defined.
