(* ===== verification/Kafka.v ===== *)
(** * The Kafka protocol's codecs and client ([src/kafka/])

    Requests and responses are frames that hold a header and a message.  The
    server's codec decodes requests and encodes responses; the client's codec
    numbers its requests and keeps their headers to decode the responses; the
    client's connection matches responses with the callers that wait for them.
    The encodings of headers and messages are those of the crate
    [kafka_protocol], a parameter; messages are records of the fields the
    handlers touch. *)
From S2P Require Import Prelude Bytes Log Storage Config Chain Rpc Raft Fsm Demo Store Framing.
Local Open Scope Z_scope.

(** ** Errors ([error.rs]) *)
Inductive ErrorKind : Type :=
| DecodeError
| EncodeError
| UnsupportedOperation
| IoError (err : string).

Definition newline : string := String (Ascii.ascii_of_nat 10) EmptyString.
(** [Display for ErrorKind]. *)
Definition error_display (k : ErrorKind) : string :=
  match k with
  | DecodeError => "Error decoding message"
  | EncodeError => "Error encoding message"
  | UnsupportedOperation => "Unsupported API"
  | IoError err => "IoError: " +:+ err
  end +:+ newline.
(** The kind as the error of a result. *)
Definition error_kind (k : ErrorKind) : error := ErrMsg (error_display k).
(** [From<DecodeError>], [From<NotEnoughBytesError>], [From<()>] and
    [From<EncodeError>]: the reason is dropped. *)
Definition as_decode_error {A} (o : outcome A) : outcome A :=
  match o with Err _ => Err (error_kind DecodeError) | _ => o end.
Definition as_encode_error {A} (o : outcome A) : outcome A :=
  match o with Err _ => Err (error_kind EncodeError) | _ => o end.

(** ** Messages *)
Record CreatableTopic : Type := { num_partitions : Z; replication_factor : Z }.
#[global] Instance CreatableTopic_eq_dec : EqDecision CreatableTopic.
Proof. solve_decision. Defined.
Record CreatableTopicResult : Type := {
  ctr_topic_id : Uuid; ctr_num_partitions : Z; ctr_replication_factor : Z;
}.
#[global] Instance CreatableTopicResult_eq_dec : EqDecision CreatableTopicResult.
Proof. solve_decision. Defined.
Record LeaderAndIsrPartition : Type := { lp_topic_name : string; lp_index : Z; lp_leader : BrokerId }.
Record PartitionData : Type := { pd_index : Z; pd_records : option bytes }.
Record MetadataPartition : Type := {
  mp_error_code : Z;
  mp_index : Z;
  mp_leader_id : Z;
  mp_leader_epoch : Z;
  mp_replica_nodes : list Z;
  mp_isr_nodes : list Z;
}.
Record MetadataTopic : Type := {
  mt_error_code : Z; mt_topic_id : Uuid; mt_partitions : list MetadataPartition;
}.
Record MetadataBroker : Type := { mb_host : string; mb_port : Z }.
Record MetadataResponse : Type := {
  mr_brokers : list (BrokerId * MetadataBroker);
  mr_cluster_id : option string;
  mr_controller_id : BrokerId;
  mr_throttle_time_ms : Z;
  mr_topics : list (string * MetadataTopic);
}.
Record Coordinator : Type := { co_node_id : Z; co_host : string; co_port : Z }.

Inductive ApiKey : Type :=
| ProduceKey | FetchKey | ListOffsetsKey | MetadataKey | LeaderAndIsrKey | StopReplicaKey
| FindCoordinatorKey | JoinGroupKey | HeartbeatKey | ListGroupsKey | SyncGroupKey
| CreateTopicsKey | DeleteGroupsKey | ApiVersionsKey | DeleteTopicsKey | OtherKey (code : Z).

Inductive RequestKind : Type :=
| ApiVersionsRequest
| MetadataRequest (topics : option (list (option string)))
| CreateTopicsRequest (topics : list (string * CreatableTopic))
| ListGroupsRequest
| FindCoordinatorRequest
| LeaderAndIsrRequest (topic_states : list (list LeaderAndIsrPartition))
| ProduceRequest (topic_data : list (string * list PartitionData))
| OtherRequest (api_key : ApiKey).

Inductive ResponseKind : Type :=
| ApiVersionsResponse (api_keys : list (Z * (Z * Z)))
| MetadataResponseKind (res : MetadataResponse)
| CreateTopicsResponse (topics : list (string * CreatableTopicResult))
| ListGroupsResponse
| FindCoordinatorResponse (coordinators : list Coordinator)
| LeaderAndIsrResponse
| OtherResponse (api_key : ApiKey).

(** The decoders of the protocol's messages, by version. *)
Class KafkaDecoders := {
  decode_api_versions : bytes → Z → outcome unit;
  decode_metadata : bytes → Z → outcome (option (list (option string)));
  decode_create_topics : bytes → Z → outcome (list (string * CreatableTopic));
  decode_list_groups : bytes → Z → outcome unit;
  decode_find_coordinator : bytes → Z → outcome unit;
}.

(** [decode] of [kafka/codec.rs]. *)
Definition decode `{!KafkaDecoders} (bs : bytes) (api_key : ApiKey) (version : Z) : outcome RequestKind :=
  match api_key with
  | ApiVersionsKey => _ ← as_decode_error (decode_api_versions bs version); Ret ApiVersionsRequest
  | MetadataKey => req ← as_decode_error (decode_metadata bs version); Ret (MetadataRequest req)
  | CreateTopicsKey => req ← as_decode_error (decode_create_topics bs version); Ret (CreateTopicsRequest req)
  | ListGroupsKey => _ ← as_decode_error (decode_list_groups bs version); Ret ListGroupsRequest
  | FindCoordinatorKey => _ ← as_decode_error (decode_find_coordinator bs version); Ret FindCoordinatorRequest
  | _ => Err (error_kind UnsupportedOperation)
  end.

Record RequestHeader : Type := {
  request_api_key : Z;
  request_api_version : Z;
  correlation_id : Z;
  client_id : option string;
}.
Record ResponseHeader : Type := { rh_correlation_id : Z }.

(** The headers and messages of the crate: [Encodable], [Decodable] and
    [HeaderVersion], and [ByteBuf::peek_bytes], [try_get_i16]. *)
Class KafkaProtocol := {
  api_key_try_from : Z → outcome ApiKey;
  request_header_version : ApiKey → Z → Z;
  response_header_version : ApiKey → Z → Z;
  request_header_encode : RequestHeader → Z → outcome bytes;
  request_header_decode : bytes → Z → outcome (RequestHeader * bytes);
  response_header_encode : ResponseHeader → Z → outcome bytes;
  response_header_decode : bytes → Z → outcome (ResponseHeader * bytes);
  request_encode : RequestKind → Z → outcome bytes;
  response_encode : ResponseKind → Z → outcome bytes;
  api_versions_response_decode : bytes → Z → outcome (list (Z * (Z * Z)));
  leader_and_isr_response_decode : bytes → Z → outcome unit;
  create_topics_response_decode : bytes → Z → outcome (list (string * CreatableTopicResult));
  peek_bytes : bytes → nat → nat → outcome bytes;
  try_get_i16 : bytes → outcome Z;
}.

Section Codec.
Context {KD : KafkaDecoders} {KP : KafkaProtocol} {FRAMES : LengthCodec}.

(** [z as i16]. *)
Definition as_i16 (z : Z) : Z := (z + 2 ^ 15) `mod` 2 ^ 16 - 2 ^ 15.

(** ** The server's codec *)

(** [KafkaServerCodec::read_version]. *)
Definition read_version (src : bytes) : outcome Z :=
  bs ← peek_bytes src 2 4;
  as_decode_error (try_get_i16 bs).

(** [KafkaServerCodec::decode] on the payload of a frame.  The header is decoded
    with the version of the message. *)
Definition server_decode (bs : bytes) : outcome (RequestHeader * RequestKind) :=
  version ← read_version bs;
  '(header, bs) ← as_decode_error (request_header_decode bs version);
  api_key ← as_decode_error (api_key_try_from (request_api_key header));
  request ← decode bs api_key version;
  Ret (header, request).

(** [encode]: header and message. *)
Definition encode_with (key : ApiKey) (header : ResponseHeader) (res : ResponseKind) (version : Z) :
    outcome bytes :=
  h ← as_encode_error (response_header_encode header (response_header_version key version));
  b ← as_encode_error (response_encode res version);
  Ret (h ++ b).
Definition encode (header : ResponseHeader) (response : ResponseKind) (version : Z) : outcome bytes :=
  match response with
  | ApiVersionsResponse _ => encode_with ApiVersionsKey header response version
  | MetadataResponseKind _ => encode_with MetadataKey header response version
  | CreateTopicsResponse _ => encode_with CreateTopicsKey header response version
  | ListGroupsResponse => encode_with ListGroupsKey header response version
  | FindCoordinatorResponse _ => encode_with FindCoordinatorKey header response version
  | _ => Err (error_kind UnsupportedOperation)
  end.

(** [KafkaServerCodec::encode]. *)
Definition server_encode (version : Z) (header : ResponseHeader) (response : ResponseKind) : outcome bytes :=
  bs ← encode header response version;
  frame_encode bs.

(** ** The client's codec *)

(** The state of the two [KafkaClientCodec]s of a connection, which share the map
    of requests. *)
Record ClientCodec : Type := {
  cc_correlation_id : Z;                   (** [AtomicI32] *)
  cc_requests : gmap Z RequestHeader;
}.
Definition client_codec_new : ClientCodec := {| cc_correlation_id := 0; cc_requests := ∅ |}.

(** [fetch_add(1)] on [i32]. *)
Definition i32_next (z : Z) : Z := (z + 1 + 2 ^ 31) `mod` 2 ^ 32 - 2 ^ 31.

Definition with_correlation (id : Z) (h : RequestHeader) : RequestHeader :=
  {| request_api_key := request_api_key h; request_api_version := request_api_version h;
     correlation_id := id; client_id := client_id h |}.

(** [encode_request]: an ApiVersions request is given the header version of a
    LeaderAndIsr request. *)
Definition encode_request_with (key : ApiKey) (header : RequestHeader) (req : RequestKind) (version : Z) :
    outcome bytes :=
  h ← as_encode_error (request_header_encode header (request_header_version key version));
  b ← as_encode_error (request_encode req version);
  Ret (h ++ b).
Definition encode_request (header : RequestHeader) (request : RequestKind) (version : Z) : outcome bytes :=
  match request with
  | ApiVersionsRequest => encode_request_with LeaderAndIsrKey header request version
  | LeaderAndIsrRequest _ => encode_request_with LeaderAndIsrKey header request version
  | CreateTopicsRequest _ => encode_request_with CreateTopicsKey header request version
  | _ => Err (error_kind EncodeError)
  end.

(** [KafkaClientCodec::encode]. *)
Definition client_encode (c : ClientCodec) (header : RequestHeader) (request : RequestKind) :
    outcome bytes * ClientCodec :=
  let header := with_correlation (cc_correlation_id c) header in
  ((bs ← encode_request header request (request_api_version header); frame_encode bs),
   {| cc_correlation_id := i32_next (cc_correlation_id c);
      cc_requests := <[correlation_id header := header]> (cc_requests c) |}).

(** [decode_response]: messages are decoded with a header version as their
    version, that of CreateTopics for ApiVersions. *)
Definition decode_response (bs : bytes) (api_key : ApiKey) (version : Z) : outcome ResponseKind :=
  match api_key with
  | ApiVersionsKey =>
      res ← as_decode_error (api_versions_response_decode bs (response_header_version CreateTopicsKey version));
      Ret (ApiVersionsResponse res)
  | LeaderAndIsrKey =>
      _ ← as_decode_error (leader_and_isr_response_decode bs (response_header_version LeaderAndIsrKey version));
      Ret LeaderAndIsrResponse
  | CreateTopicsKey =>
      res ← as_decode_error (create_topics_response_decode bs (response_header_version CreateTopicsKey version));
      Ret (CreateTopicsResponse res)
  | _ => Err (error_kind UnsupportedOperation)
  end.

(** [KafkaClientCodec::decode] on the payload of a frame. *)
Definition client_decode (c : ClientCodec) (bs : bytes) :
    outcome (ResponseHeader * ResponseKind) * ClientCodec :=
  match as_decode_error (response_header_decode bs 1) with
  | Ret (header, bs) =>
      ((request_header ← ok_or (cc_requests c !! rh_correlation_id header) (error_kind DecodeError);
        api_key ← as_decode_error (api_key_try_from (request_api_key request_header));
        response ← decode_response bs api_key (request_api_version request_header);
        Ret (header, response)),
       {| cc_correlation_id := cc_correlation_id c;
          cc_requests := delete (rh_correlation_id header) (cc_requests c) |})
  | Err e => (Err e, c)
  | Panic => (Panic, c)
  end.

(** ** The client's connection ([tcp.rs], [mod.rs]) *)

(** [cl_queue]: the channel of [ConnectedKafkaClient::send]; [cl_callbacks]: the
    callers by the correlation id of the header they gave; [cl_writing]: the
    caller whose request is on the wire and not yet in that map; [cl_wire]: the
    bytes written; [cl_answers]: what the callers were given. *)
Record KafkaConn : Type := {
  cl_codec : ClientCodec;
  cl_queue : list (RequestHeader * RequestKind * nat);
  cl_callbacks : gmap Z nat;
  cl_writing : option (Z * nat);
  cl_wire : bytes;
  cl_answers : list (nat * ResponseKind);
}.
(** [KafkaClient::connect]. *)
Definition kafka_connect : KafkaConn :=
  {| cl_codec := client_codec_new; cl_queue := []; cl_callbacks := ∅; cl_writing := None;
     cl_wire := []; cl_answers := [] |}.

(** A caller sends a request ([ConnectedKafkaClient::send]); the writer of
    [send_messages] takes it from the channel and writes it, then records the
    caller; the reader takes a response, for a caller that [waits] or not. *)
Inductive KafkaEvent : Type :=
| KCall (header : RequestHeader) (request : RequestKind) (caller : nat)
| KSend
| KRegister
| KReceive (payload : bytes) (waits : bool).

Definition kafka_step (c : KafkaConn) (e : KafkaEvent) : outcome KafkaConn :=
  match e with
  | KCall header request caller =>
      Ret {| cl_codec := cl_codec c; cl_queue := cl_queue c ++ [(header, request, caller)];
             cl_callbacks := cl_callbacks c; cl_writing := cl_writing c;
             cl_wire := cl_wire c; cl_answers := cl_answers c |}
  | KSend =>
      match cl_writing c, cl_queue c with
      | None, (header, request, caller) :: queue =>
          let '(o, codec) := client_encode (cl_codec c) header request in
          bs ← o;
          Ret {| cl_codec := codec; cl_queue := queue; cl_callbacks := cl_callbacks c;
                 cl_writing := Some (correlation_id header, caller);
                 cl_wire := cl_wire c ++ bs; cl_answers := cl_answers c |}
      | _, _ => Ret c
      end
  | KRegister =>
      match cl_writing c with
      | Some (id, caller) =>
          Ret {| cl_codec := cl_codec c; cl_queue := cl_queue c;
                 cl_callbacks := <[id := caller]> (cl_callbacks c);
                 cl_writing := None; cl_wire := cl_wire c; cl_answers := cl_answers c |}
      | None => Ret c
      end
  | KReceive payload waits =>
      let '(o, codec) := client_decode (cl_codec c) payload in
      '(header, res) ← o;
      caller ← unwrap (cl_callbacks c !! rh_correlation_id header);
      _ ← assert waits;
      Ret {| cl_codec := codec; cl_queue := cl_queue c;
             cl_callbacks := delete (rh_correlation_id header) (cl_callbacks c);
             cl_writing := cl_writing c; cl_wire := cl_wire c;
             cl_answers := cl_answers c ++ [(caller, res)] |}
  end.

(** The requests of the callers, in order. *)
Definition calls (l : list KafkaEvent) : list (RequestHeader * RequestKind * nat) :=
  omap (λ e, match e with KCall h r k => Some (h, r, k) | _ => None end) l.
End Codec.

(** ** What is relied on *)

(** The crate decodes what it encoded at the same version; a request header
    begins with the api key and the api version, two bytes each. *)
Class KafkaLaws `{!KafkaDecoders, !KafkaProtocol} := {
  request_header_roundtrip h v b rest :
    request_header_encode h v = Ret b → request_header_decode (b ++ rest) v = Ret (h, rest);
  request_header_layout h v b : request_header_encode h v = Ret b →
    ∃ tl, b = be_bytes 2 (request_api_key h) ++ be_bytes 2 (request_api_version h) ++ tl;
  request_header_key h v b rest v' h' rest' :
    request_header_encode h v = Ret b → request_header_decode (b ++ rest) v' = Ret (h', rest') →
    request_api_key h' = request_api_key h;
  response_header_roundtrip h v b rest :
    response_header_encode h v = Ret b → response_header_decode (b ++ rest) v = Ret (h, rest);
  api_versions_request_roundtrip v b :
    request_encode ApiVersionsRequest v = Ret b → decode_api_versions b v = Ret tt;
  create_topics_request_roundtrip t v b :
    request_encode (CreateTopicsRequest t) v = Ret b → decode_create_topics b v = Ret t;
  peek_in_range bs i j : (i ≤ j ≤ length bs)%nat → peek_bytes bs i j = Ret (take (j - i) (drop i bs));
  get_i16 bs : length bs = 2%nat → try_get_i16 bs = Ret (as_i16 (be_val bs));
}.

Section Facts.
Context {KD : KafkaDecoders} {KP : KafkaProtocol} {FRAMES : LengthCodec}
  {KLAWS : KafkaLaws} {FLAWS : LengthCodecLaws}.

Definition is_i16 (z : Z) : Prop := - 2 ^ 15 ≤ z < 2 ^ 15.

Lemma as_i16_bytes z : is_i16 z → as_i16 (be_val (be_bytes 2 z)) = z.
Proof.
  unfold is_i16, as_i16. intros Hz. rewrite be_val_bytes. change (256 ^ Z.of_nat 2) with (2 ^ 16).
  rewrite Z.add_mod_idemp_l by lia. rewrite Z.mod_small by lia. lia.
Qed.

Lemma read_version_header h v b rest :
  request_header_encode h v = Ret b → is_i16 (request_api_version h) →
  read_version (b ++ rest) = Ret (request_api_version h).
Proof.
  intros Hb Hv. destruct (request_header_layout h v b Hb) as (tl & ->). unfold read_version.
  assert (∀ z, length (be_bytes 2 z) = 2%nat) as H2 by (intros; apply length_be_bytes).
  rewrite peek_in_range by (rewrite !length_app, !H2; lia). cbn [mbind outcome_bind].
  rewrite <-!app_assoc, (drop_app_length' (be_bytes 2 (request_api_key h))) by (by rewrite H2).
  rewrite (take_app_length' (be_bytes 2 _)) by (by rewrite H2).
  rewrite get_i16 by apply H2. cbn. by rewrite as_i16_bytes.
Qed.

(** The key whose header version a request is encoded with. *)
Definition header_key (req : RequestKind) : ApiKey :=
  match req with CreateTopicsRequest _ => CreateTopicsKey | _ => LeaderAndIsrKey end.
(** The key of a request, for those that client and server both know. *)
Definition shared_key (req : RequestKind) : option ApiKey :=
  match req with
  | ApiVersionsRequest => Some ApiVersionsKey
  | CreateTopicsRequest _ => Some CreateTopicsKey
  | _ => None
  end.

Lemma encode_request_inv h req v bs :
  encode_request h req v = Ret bs →
  ∃ hb b, request_header_encode h (request_header_version (header_key req) v) = Ret hb ∧
    request_encode req v = Ret b ∧ bs = hb ++ b.
Proof.
  assert (∀ key, encode_request_with key h req v = Ret bs →
    ∃ hb b, request_header_encode h (request_header_version key v) = Ret hb ∧
      request_encode req v = Ret b ∧ bs = hb ++ b) as H.
  { intros key. unfold encode_request_with. intros (hb & Hh & Hb)%bind_Ret.
    apply bind_Ret in Hb as (b & Hb & [= <-]). exists hb, b.
    unfold as_encode_error in *. by repeat case_match; simplify_eq. }
  destruct req; try done; apply H.
Qed.

Lemma client_encode_inv c h req fr c' :
  client_encode c h req = (Ret fr, c') →
  ∃ hb b, let h' := with_correlation (cc_correlation_id c) h in
    request_header_encode h' (request_header_version (header_key req) (request_api_version h)) = Ret hb ∧
    request_encode req (request_api_version h) = Ret b ∧ frame_encode (hb ++ b) = Ret fr.
Proof.
  unfold client_encode. intros [= Hfr _]. apply bind_Ret in Hfr as (bs & Hbs & Hfr).
  apply encode_request_inv in Hbs as (hb & b & Hh & Hb & ->). by exists hb, b.
Qed.

(** A request that client and server both know, whose header reads the same at the
    version of the message as at the version it is encoded with. *)
Definition readable (h : RequestHeader) (req : RequestKind) : Prop :=
  ∃ key, shared_key req = Some key ∧ api_key_try_from (request_api_key h) = Ret key ∧
    is_i16 (request_api_version h) ∧
    ∀ bs, request_header_decode bs (request_api_version h) =
      request_header_decode bs (request_header_version (header_key req) (request_api_version h)).

Lemma request_decodes h req id hb b :
  readable h req →
  request_header_encode (with_correlation id h) (request_header_version (header_key req) (request_api_version h)) = Ret hb →
  request_encode req (request_api_version h) = Ret b →
  server_decode (hb ++ b) = Ret (with_correlation id h, req).
Proof.
  intros (key & Hkey & Htry & Hv & Hread) Hh Hb.
  unfold server_decode. rewrite (read_version_header _ _ _ b Hh) by done. cbn [mbind outcome_bind].
  cbn [request_api_version with_correlation]. rewrite Hread, (request_header_roundtrip _ _ _ b Hh).
  cbn. rewrite Htry. cbn. destruct req; try done; cbn in Hkey; injection Hkey as <-; cbn.
  - by rewrite (api_versions_request_roundtrip _ _ Hb).
  - by rewrite (create_topics_request_roundtrip _ _ _ Hb).
Qed.

(** C26: a request gets through. What the client's codec writes for an ApiVersions
    or CreateTopics request, followed by anything, the server's codec reads back
    as that request, with the correlation id the client's codec gave it, provided
    a header reads the same at the version of the message, with which the server
    decodes it, as at its own. *)
Theorem request_roundtrip c h req fr c' rest :
  client_encode c h req = (Ret fr, c') → readable h req →
  framed server_decode (fr ++ rest) =
    Ret (Some ((with_correlation (cc_correlation_id c) h, req), rest)).
Proof.
  intros Henc Hread. apply client_encode_inv in Henc as (hb & b & Hh & Hb & Hfr).
  unfold framed. rewrite (frame_roundtrip _ _ rest Hfr). cbn [mbind outcome_bind].
  by rewrite (request_decodes _ _ _ _ _ Hread Hh Hb).
Qed.

Lemma isr_refused h k v hb body :
  request_header_encode (with_correlation k h) v = Ret hb →
  api_key_try_from (request_api_key h) = Ret LeaderAndIsrKey → is_ret (server_decode (hb ++ body)) = false.
Proof.
  intros Hh Htry. apply not_true_iff_false. intros Hret.
  destruct (server_decode (hb ++ body)) as [[h' req]| |] eqn:Hs; [|done..]. clear Hret.
  unfold server_decode in Hs. apply bind_Ret in Hs as (v' & _ & Hs).
  apply bind_Ret in Hs as ([h1 bs] & Hd & Hs).
  assert (request_header_decode (hb ++ body) v' = Ret (h1, bs)) as Hd1.
  { unfold as_decode_error in Hd. by case_match; simplify_eq. }
  rewrite (request_header_key _ _ _ _ _ _ _ Hh Hd1) in Hs. cbn in Hs. rewrite Htry in Hs. done.
Qed.

(** A broker's request to another is refused. The server's codec rejects every
    LeaderAndIsr request that the client's codec writes, whatever its version: the
    connection ends without a response, and the broker that creates a topic waits
    for one. *)
Theorem peer_request_refused c h states fr c' rest :
  client_encode c h (LeaderAndIsrRequest states) = (Ret fr, c') →
  api_key_try_from (request_api_key h) = Ret LeaderAndIsrKey →
  is_ret (framed server_decode (fr ++ rest)) = false.
Proof.
  intros Henc Htry. apply client_encode_inv in Henc as (hb & b & Hh & Hb & Hfr).
  unfold framed. rewrite (frame_roundtrip _ _ rest Hfr). cbn [mbind outcome_bind].
  pose proof (isr_refused _ _ _ _ b Hh Htry) as Hbad. by destruct (server_decode (hb ++ b)) as [[? ?]| |].
Qed.

(** ** Matching responses with callers *)

(** The callers number their requests as the codec does. *)
Definition numbered (cs : list (RequestHeader * RequestKind * nat)) : Prop :=
  ∀ k h req caller, cs !! k = Some (h, req, caller) → correlation_id h = Z.of_nat k.

(** [res] answers call [k]: it was decoded, for the key and version of that call,
    from a response with the number of the call. *)
Definition answers_call (l : list KafkaEvent) (h : RequestHeader) (k : nat) (res : ResponseKind) : Prop :=
  ∃ payload waits body key, KReceive payload waits ∈ l ∧
    response_header_decode payload 1 = Ret ({| rh_correlation_id := Z.of_nat k |}, body) ∧
    api_key_try_from (request_api_key h) = Ret key ∧
    decode_response body key (request_api_version h) = Ret res.

(** The calls made so far are those sent, then those queued. *)
Record conn_inv (l : list KafkaEvent) (c : KafkaConn) : Prop := {
  ki_calls : ∃ sent, calls l = sent ++ cl_queue c ∧
    cc_correlation_id (cl_codec c) = Z.of_nat (length sent) ∧
    (∀ id h, cc_requests (cl_codec c) !! id = Some h → ∃ k h0 req caller,
      id = Z.of_nat k ∧ sent !! k = Some (h0, req, caller) ∧ h = with_correlation id h0) ∧
    (∀ id caller, cl_callbacks c !! id = Some caller ∨ cl_writing c = Some (id, caller) →
      ∃ k h0 req, id = Z.of_nat k ∧ sent !! k = Some (h0, req, caller));
  ki_answers caller res : (caller, res) ∈ cl_answers c →
    ∃ k h req, calls l !! k = Some (h, req, caller) ∧ answers_call l h k res;
}.

Lemma calls_snoc l e : calls (l ++ [e]) = calls l ++ calls [e].
Proof. unfold calls. by rewrite omap_app. Qed.

Lemma i32_next_small n : 0 ≤ n < 2 ^ 31 - 1 → i32_next n = n + 1.
Proof. intros. unfold i32_next. rewrite Z.mod_small by lia. lia. Qed.

Lemma answers_call_mono l e h k res : answers_call l h k res → answers_call (l ++ [e]) h k res.
Proof.
  intros (p & w & body & key & Hin & ?). exists p, w, body, key. split; [|done].
  apply elem_of_app. by left.
Qed.

Lemma conn_inv_answers l e c caller res :
  conn_inv l c → (caller, res) ∈ cl_answers c →
  ∃ k h req, calls (l ++ [e]) !! k = Some (h, req, caller) ∧ answers_call (l ++ [e]) h k res.
Proof.
  intros Hc Hin. destruct (ki_answers l c Hc caller res Hin) as (k & h & req & Hk & Ha).
  exists k, h, req. split; [|by apply answers_call_mono].
  rewrite calls_snoc. by apply lookup_app_l_Some.
Qed.

Lemma client_decode_Ret c p hdr res c' :
  client_decode c p = (Ret (hdr, res), c') →
  ∃ body h key, response_header_decode p 1 = Ret (hdr, body) ∧
    cc_requests c !! rh_correlation_id hdr = Some h ∧ api_key_try_from (request_api_key h) = Ret key ∧
    decode_response body key (request_api_version h) = Ret res ∧
    c' = {| cc_correlation_id := cc_correlation_id c; cc_requests := delete (rh_correlation_id hdr) (cc_requests c) |}.
Proof.
  unfold client_decode. destruct (response_header_decode p 1) as [[hd body]| |]; cbn; [|done..].
  intros [= Hr <-]. apply bind_Ret in Hr as (h & Hh & Hr). apply bind_Ret in Hr as (key & Hk & Hr).
  apply bind_Ret in Hr as (res' & Hres & [= <- <-]). exists body, h, key.
  destruct (cc_requests c !! rh_correlation_id hd); [|done]. injection Hh as ->.
  unfold as_decode_error in Hk. by case_match; simplify_eq.
Qed.

(** Reading a response. *)
Lemma kafka_receive_inv l c p w c' :
  conn_inv l c → kafka_step c (KReceive p w) = Ret c' → conn_inv (l ++ [KReceive p w]) c'.
Proof.
  intros Hc Hs. destruct (ki_calls l c Hc) as (sent & Hcalls & Hid & Hreq & Hcb). cbn in Hs.
  destruct (client_decode (cl_codec c) p) as [o codec] eqn:Hd.
  apply bind_Ret in Hs as ([hdr res] & -> & Hs). apply bind_Ret in Hs as (caller & Hcl & Hs).
  apply bind_Ret in Hs as ([] & _ & [= <-]). apply unwrap_Ret in Hcl.
  destruct (client_decode_Ret _ _ _ _ _ Hd) as (body & h & key & Hhd & Hh & Hkey & Hres & ->).
  split.
  - exists sent. cbn. rewrite calls_snoc, app_nil_r. split_and!; [done..| |].
    + intros id h'. rewrite lookup_delete_Some. intros [_ ?]. by apply Hreq.
    + intros id cl [Hc'|Hc']; [|by apply Hcb; right]. apply lookup_delete_Some in Hc' as [_ ?].
      apply Hcb. by left.
  - cbn. intros cl r [Hin|Hin]%elem_of_app; [by apply (conn_inv_answers l _ c)|].
    apply list_elem_of_singleton in Hin as [= -> ->].
    destruct (Hcb _ _ (or_introl Hcl)) as (k & h0 & r0 & Ek & Hk).
    destruct (Hreq _ _ Hh) as (k' & h1 & r1 & c1 & Ek' & Hk' & ->).
    assert (k' = k) as -> by lia. rewrite Hk in Hk'. injection Hk' as <- <- <-.
    exists k, h0, r0. rewrite calls_snoc, app_nil_r, Hcalls. split; [by apply lookup_app_l_Some|].
    exists p, w, body, key. split_and!; [apply elem_of_app; right; by apply list_elem_of_singleton| |done|done].
    rewrite <-Ek. by destruct hdr.
Qed.

Lemma kafka_step_inv l c e c' :
  conn_inv l c → numbered (calls (l ++ [e])) → Z.of_nat (length (calls (l ++ [e]))) < 2 ^ 31 →
  kafka_step c e = Ret c' → conn_inv (l ++ [e]) c'.
Proof.
  intros Hc Hnum Hlen Hs. destruct (ki_calls l c Hc) as (sent & Hcalls & Hid & Hreq & Hcb).
  destruct e as [h req caller| | |p w]; cbn in Hs.
  - injection Hs as <-. split; [|intros ? ?; by apply (conn_inv_answers l _ c)].
    exists sent. cbn. rewrite calls_snoc, Hcalls, <-app_assoc. done.
  - destruct (cl_writing c) eqn:Hw.
    { injection Hs as <-. split; [|intros ? ?; by apply (conn_inv_answers l _ c)].
      exists sent. rewrite calls_snoc, app_nil_r, Hw. done. }
    destruct (cl_queue c) as [|[[h req] caller] q] eqn:Hq.
    { injection Hs as <-. split; [|intros ? ?; by apply (conn_inv_answers l _ c)].
      exists sent. rewrite calls_snoc, app_nil_r, Hw, Hq. done. }
    apply bind_Ret in Hs as (fr & _ & [= <-]). split; [|intros ? ?; by apply (conn_inv_answers l _ c)].
    assert (calls (l ++ [KSend]) !! length sent = Some (h, req, caller)) as Hk.
    { by rewrite calls_snoc, app_nil_r, Hcalls, lookup_app_r, Nat.sub_diag. }
    exists (sent ++ [(h, req, caller)]). cbn. rewrite length_app. cbn.
    rewrite calls_snoc, app_nil_r, Hcalls in Hlen |- *. rewrite <-app_assoc. rewrite length_app in Hlen. cbn in Hlen.
    split_and!; [done|rewrite i32_next_small; lia| |].
    + intros id h'. rewrite Hid, lookup_insert. case_decide as E.
      * intros [= <-]. subst id. exists (length sent), h, req, caller.
        by rewrite lookup_app_r, Nat.sub_diag.
      * intros Hh. destruct (Hreq id h' Hh) as (k & h0 & r0 & c0 & ? & ? & ?).
        exists k, h0, r0, c0. split_and!; [done|by apply lookup_app_l_Some|done].
    + intros id cl [Hcl|[= <- <-]].
      * destruct (Hcb id cl (or_introl Hcl)) as (k & h0 & r0 & ? & ?).
        exists k, h0, r0. split; [done|by apply lookup_app_l_Some].
      * exists (length sent), h, req. rewrite lookup_app_r, Nat.sub_diag by done.
        split; [|done]. by eapply Hnum.
  - destruct (cl_writing c) as [[id0 cl0]|] eqn:Hw; injection Hs as <-;
      (split; [|intros ? ?; by apply (conn_inv_answers l _ c)]); exists sent; cbn;
      rewrite calls_snoc, app_nil_r; rewrite ?Hw; split_and!; try done.
    intros id cl [Hcl|?]; [|done]. rewrite lookup_insert in Hcl. case_decide as E.
    + injection Hcl as <-. subst. apply Hcb. by right.
    + apply Hcb. by left.
  - by apply (kafka_receive_inv l c).
Qed.

Lemma kafka_run_inv l c :
  ofold kafka_step kafka_connect l = Ret c → numbered (calls l) →
  Z.of_nat (length (calls l)) < 2 ^ 31 → conn_inv l c.
Proof.
  assert (∀ l' h c0, conn_inv h c0 → ofold kafka_step c0 l' = Ret c → numbered (calls (h ++ l')) →
    Z.of_nat (length (calls (h ++ l'))) < 2 ^ 31 → conn_inv (h ++ l') c) as Hgen.
  { induction l' as [|e l' IH]; intros h c0 Hc Hr Hn Hl; cbn in Hr.
    - injection Hr as <-. by rewrite app_nil_r.
    - apply bind_Ret in Hr as (c1 & H1 & Hr). rewrite cons_middle, app_assoc in Hn, Hl |- *.
      apply (IH _ c1); [|done..]. eapply kafka_step_inv; [done| | |done].
      + intros k hd req cl Hk. apply (Hn k hd req cl). unfold calls in *. rewrite omap_app.
        by apply lookup_app_l_Some.
      + unfold calls in *. rewrite omap_app, length_app in Hl. lia. }
  intros Hr. apply (Hgen l [] kafka_connect); [|done]. split; cbn.
  - exists []. cbn. split_and!; [done|done|by intros ? ? ?|by intros ? ? [?|?]].
  - by intros ? ? ?%elem_of_nil.
Qed.

(** A response reaches the caller whose request it answers. If the callers
    number their requests as the connection's codec does, then over any
    interleaving of the writing and the reading task every answer a caller was
    given was decoded, with the key and version of that caller's request, from a
    response that carries its number. *)
Theorem responses_matched l c caller res :
  ofold kafka_step kafka_connect l = Ret c → numbered (calls l) →
  Z.of_nat (length (calls l)) < 2 ^ 31 → (caller, res) ∈ cl_answers c →
  ∃ k h req, calls l !! k = Some (h, req, caller) ∧ answers_call l h k res.
Proof. intros Hr Hn Hl. apply (ki_answers l c). by apply kafka_run_inv. Qed.

(** Callers that leave the number of their requests at 0. *)
Definition zero_inv (c : KafkaConn) : Prop :=
  (∀ x, x ∈ cl_queue c → correlation_id x.1.1 = 0) ∧
  (∀ id caller, cl_callbacks c !! id = Some caller ∨ cl_writing c = Some (id, caller) → id = 0).

Lemma zero_step c e c' :
  zero_inv c → (∀ h req caller, e = KCall h req caller → correlation_id h = 0) →
  kafka_step c e = Ret c' → zero_inv c'.
Proof.
  intros [Hq Hc] He Hs. destruct e as [h req caller| | |p w]; cbn in Hs.
  - injection Hs as <-. split; [|done]. cbn. intros x [?|Hx]%elem_of_app; [auto|].
    apply list_elem_of_singleton in Hx as ->. by eapply He.
  - destruct (cl_writing c) eqn:Hw; [by injection Hs as <-; split; rewrite ?Hw|].
    destruct (cl_queue c) as [|[[h req] caller] q] eqn:Hqu; [by injection Hs as <-; split; rewrite ?Hw, ?Hqu|].
    apply bind_Ret in Hs as (fr & _ & [= <-]). split; cbn.
    + intros x Hx. apply Hq. by apply elem_of_cons; right.
    + intros id cl [?|[= <- <-]]; [eauto|]. apply (Hq (h, req, caller)). by apply elem_of_cons; left.
  - destruct (cl_writing c) as [[id0 cl0]|] eqn:Hw; injection Hs as <-; split; cbn; rewrite ?Hw; try done.
    intros id cl [Hcl|?]; [|done]. rewrite lookup_insert in Hcl. case_decide; subst; eauto.
  - destruct (client_decode (cl_codec c) p) as [o codec].
    apply bind_Ret in Hs as ([hdr res] & _ & Hs). apply bind_Ret in Hs as (caller & _ & Hs).
    apply bind_Ret in Hs as ([] & _ & [= <-]). split; cbn; [done|].
    intros id cl [Hcl|?]; [|eauto]. apply lookup_delete_Some in Hcl as [_ ?]. eauto.
Qed.

Lemma zero_run l c c' :
  zero_inv c → ofold kafka_step c l = Ret c' →
  (∀ h req caller, (h, req, caller) ∈ calls l → correlation_id h = 0) → zero_inv c'.
Proof.
  revert c. induction l as [|e l IH]; intros c Hc Hr Hz; cbn in Hr; [by injection Hr as <-|].
  apply bind_Ret in Hr as (c1 & H1 & Hr). apply (IH c1); [|done|].
  - eapply zero_step; [done| |done]. intros h req caller ->. apply (Hz h req caller). cbn. by left.
  - intros h req caller Hin. apply (Hz h req caller). destruct e; cbn; try done. by right.
Qed.

(** Callers that do not number their requests break the connection. The codec
    puts its own number in the header it sends while the caller is recorded under
    the number it gave, which is 0 unless set: every response after the first
    makes the reading task panic or fail. *)
Theorem unnumbered_response_fails l c p w hdr body :
  ofold kafka_step kafka_connect l = Ret c →
  (∀ h req caller, (h, req, caller) ∈ calls l → correlation_id h = 0) →
  response_header_decode p 1 = Ret (hdr, body) → rh_correlation_id hdr ≠ 0 →
  is_ret (kafka_step c (KReceive p w)) = false.
Proof.
  intros Hr Hzero Hp Hne.
  assert (zero_inv c) as [_ Hcb] by (eapply zero_run; [|done..]; by split; [intros ? ?%elem_of_nil|intros ? ? [?|?]]).
  cbn. destruct (client_decode (cl_codec c) p) as [o codec] eqn:Hd.
  destruct o as [[hdr' res]| |]; [|done..]. cbn.
  destruct (client_decode_Ret _ _ _ _ _ Hd) as (b' & h & key & Hhd & _). rewrite Hp in Hhd.
  injection Hhd as <- <-. destruct (cl_callbacks c !! rh_correlation_id hdr) eqn:E; [|done].
  apply (λ H, Hcb _ _ (or_introl H)) in E. done.
Qed.
End Facts.

(** ** Witnesses: a protocol with one layout for all versions, empty messages and
    a few that are not *)
Definition demo_topics (factor : Z) : list (string * CreatableTopic) :=
  [("test", {| num_partitions := 2; replication_factor := factor |})].
Definition demo_result (id : Uuid) (factor : Z) : list (string * CreatableTopicResult) :=
  [("test", {| ctr_topic_id := id; ctr_num_partitions := 2; ctr_replication_factor := factor |})].
Definition demo_keys : list (Z * (Z * Z)) := [(0, (0, 0)); (4, (0, 0)); (19, (0, 0)); (18, (0, 0))].
Definition demo_header_ok (h : RequestHeader) : bool :=
  (0 <=? request_api_key h) && (request_api_key h <? 2 ^ 15) &&
  (- 2 ^ 15 <=? request_api_version h) && (request_api_version h <? 2 ^ 15) &&
  (0 <=? correlation_id h) && (correlation_id h <? 2 ^ 32) && bool_decide (client_id h = None).
Definition demo_header_bytes (h : RequestHeader) : bytes :=
  be_bytes 2 (request_api_key h) ++ be_bytes 2 (request_api_version h) ++ be_bytes 4 (correlation_id h).
Definition demo_header_decode (bs : bytes) : outcome (RequestHeader * bytes) :=
  if (length bs <? 8)%nat then Err (ErrMsg "short")
  else Ret ({| request_api_key := be_val (take 2 bs);
               request_api_version := as_i16 (be_val (take 2 (drop 2 bs)));
               correlation_id := be_val (take 4 (drop 4 bs)); client_id := None |}, drop 8 bs).
Definition demo_empty {A} (bs : bytes) (a : A) : outcome A :=
  match bs with [] => Ret a | _ => Err (ErrMsg "not empty") end.

#[export] Instance demo_decoders : KafkaDecoders := {|
  decode_api_versions bs _ := demo_empty bs tt;
  decode_metadata bs _ := demo_empty bs None;
  decode_create_topics bs _ := match bs with [b] => Ret (demo_topics (byte_val b)) | _ => demo_empty bs [] end;
  decode_list_groups bs _ := demo_empty bs tt;
  decode_find_coordinator bs _ := demo_empty bs tt;
|}.
#[export] Instance demo_protocol : KafkaProtocol := {|
  api_key_try_from z :=
    if z =? 19 then Ret CreateTopicsKey else if z =? 18 then Ret ApiVersionsKey
    else if z =? 4 then Ret LeaderAndIsrKey else Err (ErrMsg "api key");
  request_header_version _ v := v;
  response_header_version _ _ := 1;
  request_header_encode h _ :=
    if demo_header_ok h then Ret (demo_header_bytes h) else Err (ErrMsg "header");
  request_header_decode bs _ := demo_header_decode bs;
  response_header_encode h _ :=
    if (0 <=? rh_correlation_id h) && (rh_correlation_id h <? 2 ^ 32)
    then Ret (be_bytes 4 (rh_correlation_id h)) else Err (ErrMsg "header");
  response_header_decode bs _ :=
    if (length bs <? 4)%nat then Err (ErrMsg "short")
    else Ret ({| rh_correlation_id := be_val (take 4 bs) |}, drop 4 bs);
  request_encode req _ :=
    match req with
    | ApiVersionsRequest | CreateTopicsRequest [] | LeaderAndIsrRequest [] => Ret []
    | CreateTopicsRequest t => if bool_decide (t = demo_topics 1) then Ret [x01]
                               else if bool_decide (t = demo_topics 2) then Ret [x02] else Err (ErrMsg "message")
    | _ => Err (ErrMsg "message")
    end;
  response_encode res _ :=
    match res with
    | ApiVersionsResponse [] | CreateTopicsResponse [] | LeaderAndIsrResponse => Ret []
    | ApiVersionsResponse keys => if bool_decide (keys = demo_keys) then Ret [x01] else Err (ErrMsg "message")
    | CreateTopicsResponse [(name, r)] =>
        if bool_decide ([(name, r)] = demo_result (ctr_topic_id r) (ctr_replication_factor r)) &&
           ((0 <=? ctr_replication_factor r) && (ctr_replication_factor r <? 256)) &&
           ((0 <=? ctr_topic_id r) && (ctr_topic_id r <? 2 ^ 128))
        then Ret (byte_of (ctr_replication_factor r) :: be_bytes 16 (ctr_topic_id r)) else Err (ErrMsg "message")
    | _ => Err (ErrMsg "message")
    end;
  api_versions_response_decode bs _ := match bs with [x01] => Ret demo_keys | _ => demo_empty bs [] end;
  leader_and_isr_response_decode bs _ := demo_empty bs tt;
  create_topics_response_decode bs _ := match bs with [] => Ret [] | b :: bs => Ret (demo_result (be_val bs) (byte_val b)) end;
  peek_bytes bs i j := if (i <=? j)%nat && (j <=? length bs)%nat then Ret (take (j - i) (drop i bs)) else Panic;
  try_get_i16 bs := if (length bs =? 2)%nat then Ret (as_i16 (be_val bs)) else Err (ErrMsg "short");
|}.

Lemma demo_header_roundtrip h rest :
  demo_header_ok h = true → demo_header_decode (demo_header_bytes h ++ rest) = Ret (h, rest).
Proof.
  unfold demo_header_ok, demo_header_decode, demo_header_bytes.
  rewrite !andb_true_iff, !Z.leb_le, !Z.ltb_lt, bool_decide_eq_true.
  intros ((((((H1 & H2) & H3) & H4) & H5) & H6) & H7).
  assert (∀ n z, length (be_bytes n z) = n) as Hl by (intros; apply length_be_bytes).
  rewrite !length_app, !Hl. cbn [Nat.ltb Nat.leb Nat.add]. rewrite <-!app_assoc.
  rewrite (take_app_length' (be_bytes 2 _)) by (by rewrite Hl).
  rewrite (drop_app_length' (be_bytes 2 (request_api_key h))) by (by rewrite Hl).
  rewrite (take_app_length' (be_bytes 2 _)) by (by rewrite Hl).
  rewrite (app_assoc (be_bytes 2 _) (be_bytes 2 _)).
  rewrite (drop_app_length' (be_bytes 2 _ ++ be_bytes 2 _)) by (by rewrite length_app, !Hl).
  rewrite (take_app_length' (be_bytes 4 _)) by (by rewrite Hl).
  rewrite (app_assoc (be_bytes 2 _ ++ be_bytes 2 _)).
  rewrite drop_app_length' by (by rewrite !length_app, !Hl).
  rewrite as_i16_bytes by done. rewrite !be_val_bytes.
  rewrite !Z.mod_small by (change (256 ^ Z.of_nat 2) with (2 ^ 16) || change (256 ^ Z.of_nat 4) with (2 ^ 32); lia).
  destruct h. cbn in *. by rewrite H7.
Qed.

#[export] Instance demo_kafka_laws : KafkaLaws.
Proof.
  split; cbn.
  - intros h v b rest. destruct (demo_header_ok h) eqn:H; [|done]. intros [= <-].
    by apply demo_header_roundtrip.
  - intros h v b. destruct (demo_header_ok h); [|done]. intros [= <-]. by eexists.
  - intros h v b rest v' h' rest'. destruct (demo_header_ok h) eqn:H; [|done]. intros [= <-].
    rewrite demo_header_roundtrip by done. by intros [= <- _].
  - intros h v b rest. destruct (_ && _) eqn:H; [|done]. intros [= <-].
    apply andb_true_iff in H as [H1%Z.leb_le H2%Z.ltb_lt].
    rewrite length_app, length_be_bytes. cbn [Nat.ltb Nat.leb Nat.add].
    rewrite take_app_length', drop_app_length' by (by rewrite length_be_bytes).
    rewrite be_val_bytes, Z.mod_small by (change (256 ^ Z.of_nat 4) with (2 ^ 32); lia). by destruct h.
  - intros v b [= <-]. done.
  - intros [|] v b; [by intros [= <-]|].
    case_bool_decide as E; [rewrite E; by intros [= <-]|].
    by case_bool_decide as E'; [rewrite E'; intros [= <-]|].
  - intros bs i j [H1 H2]. by rewrite (proj2 (Nat.leb_le _ _) H1), (proj2 (Nat.leb_le _ _) H2).
  - intros bs ->. done.
Qed.

Definition demo_request_header (key id : Z) : RequestHeader :=
  {| request_api_key := key; request_api_version := 1; correlation_id := id; client_id := None |}.
Definition demo_frame (key : Z) (req : RequestKind) : bytes :=
  ret_or [] (client_encode client_codec_new (demo_request_header key 0) req).1.

Lemma request_roundtrip_witness :
  framed server_decode (demo_frame 19 (CreateTopicsRequest []) ++ [x00]) =
    Ret (Some ((demo_request_header 19 0, CreateTopicsRequest []), [x00])).
Proof.
  apply (request_roundtrip client_codec_new (demo_request_header 19 0) (CreateTopicsRequest [])
    (demo_frame 19 (CreateTopicsRequest []))
    (client_encode client_codec_new (demo_request_header 19 0) (CreateTopicsRequest [])).2 [x00]);
    [vm_compute; reflexivity|].
  exists CreateTopicsKey. split; [reflexivity|]. split; [reflexivity|]. split; [split; cbn; lia|reflexivity].
Defined.

Lemma peer_request_refused_witness :
  is_ret (framed server_decode (demo_frame 4 (LeaderAndIsrRequest []) ++ [])) = false.
Proof.
  apply (peer_request_refused client_codec_new (demo_request_header 4 0) []
    (demo_frame 4 (LeaderAndIsrRequest []))
    (client_encode client_codec_new (demo_request_header 4 0) (LeaderAndIsrRequest [])).2 []);
    [vm_compute; reflexivity|reflexivity].
Defined.

(** Two calls, answered out of order. *)
Definition demo_payload (id : Z) : bytes := be_bytes 4 id.
Definition demo_calls (id1 id2 : Z) : list KafkaEvent :=
  [KCall (demo_request_header 19 id1) (CreateTopicsRequest []) 10; KSend; KRegister;
   KCall (demo_request_header 4 id2) (LeaderAndIsrRequest []) 11; KSend; KRegister].
Definition demo_exchange : list KafkaEvent :=
  demo_calls 0 1 ++ [KReceive (demo_payload 1) true; KReceive (demo_payload 0) true].
Definition demo_conn (l : list KafkaEvent) : KafkaConn := ret_or kafka_connect (ofold kafka_step kafka_connect l).

Lemma responses_matched_witness :
  (11%nat, LeaderAndIsrResponse) ∈ cl_answers (demo_conn demo_exchange) ∧
  ∃ k h req, calls demo_exchange !! k = Some (h, req, 11%nat) ∧
    answers_call demo_exchange h k LeaderAndIsrResponse.
Proof.
  assert ((11%nat, LeaderAndIsrResponse) ∈ cl_answers (demo_conn demo_exchange)) as Hin.
  { apply (list_elem_of_lookup_2 _ 0). vm_compute. reflexivity. }
  split; [exact Hin|].
  apply (responses_matched demo_exchange (demo_conn demo_exchange)); [|intros [|[|k]] h req cl; cbn|cbn; lia|exact Hin].
  - unfold demo_conn. apply is_ret_or. vm_compute. reflexivity.
  - intros [= <- _ _]. reflexivity.
  - intros [= <- _ _]. reflexivity.
  - done.
Defined.

Lemma unnumbered_response_fails_witness :
  is_ret (kafka_step (demo_conn (demo_calls 0 0)) (KReceive (demo_payload 1) true)) = false.
Proof.
  apply (unnumbered_response_fails (demo_calls 0 0) _ _ _ {| rh_correlation_id := 1 |} []).
  - unfold demo_conn. apply is_ret_or. vm_compute. reflexivity.
  - intros h req cl. cbn. rewrite !elem_of_cons. intros [[= -> _ _]|[[= -> _ _]|H]]; [done|done|].
    by apply elem_of_nil in H.
  - vm_compute. reflexivity.
  - done.
Defined.
