(* ===== verification/Broker.v ===== *)
(** * The broker's request handlers ([src/broker/mod.rs], [src/broker/handler/])

    The broker answers requests of Kafka clients.  It reads the metadata store,
    changes it by proposing transitions to Raft, and keeps the logs of the
    replicas it hosts.  Messages are records of the fields the handlers touch. *)
From S2P Require Import Prelude Bytes Log Storage Config Chain Rpc Raft Fsm Demo Store Framing Kafka.
Local Open Scope Z_scope.

(** ** Configuration *)
Record BrokerConfig : Type := {
  bc_id : BrokerId;
  bc_ip : IpAddr;
  bc_port : Z;
  data_dir : string;
  broker_state_file : string;
  peers : list Peer;
}.

(** [BrokerConfig::default] ([config.rs]): [resolved] is what the resolver answers
    for localhost, [dir] and [file] the temporary paths. *)
Definition broker_config_default (resolved : option IpAddr) (dir file : string) : outcome BrokerConfig :=
  ip ← unwrap resolved;
  Ret {| bc_id := 1; bc_ip := ip; bc_port := 8844; data_dir := dir; broker_state_file := file; peers := [] |}.

Definition get_broker_ids (c : BrokerConfig) : list BrokerId := (peer_id <$> peers c) ++ [bc_id c].
Definition get_brokers (c : BrokerConfig) : list Peer :=
  peers c ++ [{| peer_id := bc_id c; peer_ip := bc_ip c; peer_port := bc_port c |}].

(** [IndexMap::insert]: in place if the key is there, else at the end. *)
Fixpoint index_insert {K V} `{!EqDecision K} (k : K) (v : V) (l : list (K * V)) : list (K * V) :=
  match l with
  | [] => [(k, v)]
  | (k', v') :: l => if decide (k' = k) then (k', v) :: l else (k', v') :: index_insert k v l
  end.

(** ** Parameters: randomness, the protocol's defaults and codes, the file
    system of each replica, and what the connections to the other brokers carry

    [peer_turns b]: whether connecting to [b] succeeds, then the turns of the tasks
    of the client and the payloads that arrive.  [never]: what stands for the value
    of a call that does not return, of which it is only assumed that it is no result. *)
Class BrokerEnv := {
  shuffle : nat → list BrokerId → list BrokerId;
  new_v4 : nat → Uuid;
  disk : Uuid → Disk;
  ip_to_string : IpAddr → string;
  partition_default : MetadataPartition;
  topic_default : MetadataTopic;
  unknown_topic_or_partition : Z;
  api_key_code : ApiKey → Z;
  api_versions : ApiKey → Z * Z;
  request_header_default : RequestHeader;
  peer_turns : Peer → outcome (list KafkaEvent);
  never : ∀ A, outcome A;
}.

(** The broker's side of Raft: the state behind the client, the database of the
    [Store] that the broker reads and the state machine writes, and
    [RaftClient::propose]. *)
Class RaftClient {SLED : Sled} := {
  rc_state : Type;
  rc_store : rc_state → db;
  propose : bytes → SM rc_state bytes;
}.

(** The state of a broker: its client and the store behind it, the logs of its
    replicas, and how often it asked for randomness. *)
Record BrokerWorld {SLED : Sled} {CLIENT : RaftClient} : Type := {
  bw_client : rc_state;
  replicas : gmap Uuid Log;
  bw_asked : nat;
}.

Definition bw_store {SLED : Sled} {CLIENT : RaftClient} (w : BrokerWorld) : db := rc_store (bw_client w).

Section Ops.
Context {SLED : Sled} {CODEC : StoreCodec} {ENV : BrokerEnv} {CLIENT : RaftClient} {BUILD : Build}
  {KD : KafkaDecoders} {KP : KafkaProtocol} {FRAMES : LengthCodec}.
Context (config : BrokerConfig).

Abbreviation B := (SM BrokerWorld).

(** A read of the store, and a call of the client. *)
Definition on_store {A} (m : SM db A) : B A := λ w, ((m (bw_store w)).1, w).
Definition on_client {A} (m : SM rc_state A) : B A := λ w,
  let '(o, s) := m (bw_client w) in
  (o, {| bw_client := s; replicas := replicas w; bw_asked := bw_asked w |}).

Definition ask : B nat := λ w,
  (Ret (bw_asked w), {| bw_client := bw_client w; replicas := replicas w; bw_asked := S (bw_asked w) |}).

(** ** Replicas ([mod.rs], [replica.rs]) *)
(** The files of a log that was open before hold what was written to it. *)
Definition reopened (D : Disk) (old : option Log) : Disk :=
  let segment base := old ≫= λ l, find (λ s, base_offset (index s) =? base) (segments l) in
  {| index_file base := match segment base with Some s => mmap (index s) | None => index_file base end;
     log_file base := match segment base with Some s => Log.contents (log s) | None => log_file base end;
     open_ok := open_ok; write_failure := write_failure |}.

Definition Replica_new (pid : Uuid) (old : option Log) : outcome Log :=
  log_new (DISK := reopened (disk pid) old).

Definition replicas_add (id : Uuid) (replica : Log) : B unit := λ w,
  (Ret tt, {| bw_client := bw_client w; replicas := <[id := replica]> (replicas w); bw_asked := bw_asked w |}).

Definition replicas_get (id : Uuid) : B (option Log) := λ w, (Ret (replicas w !! id), w).

(** [replica.log.write_all(bytes)]: [write] takes everything at once, and is not
    called for an empty buffer. *)
Definition replica_write_all (id : Uuid) (bs : bytes) : B unit := λ w,
  match replicas w !! id with
  | Some l =>
      let '(o, l) := (if decide (bs = []) then mret tt
                      else _ ← log_write (DISK := disk id) bs; mret tt) l in
      (o, {| bw_client := bw_client w; replicas := <[id := l]> (replicas w); bw_asked := bw_asked w |})
  | None => (Panic, w)
  end.

(** ** [LeaderAndIsrRequest] *)
Definition leader_and_isr_one (ps : LeaderAndIsrPartition) : B unit :=
  o ← on_store (get_partition (lp_topic_name ps) (lp_index ps));
  partition ← lift (ok_or o (ErrMsg "could not find partition"));
  old ← replicas_get (partition_id partition);
  replica ← lift (Replica_new (partition_id partition) old);
  replicas_add (partition_id partition) replica.

Definition handle_leader_and_isr (topic_states : list (list LeaderAndIsrPartition)) : B unit :=
  for_each topic_states (λ ts, for_each ts leader_and_isr_one).

(** ** [ProduceRequest] *)
Definition produce_one (t : string) (pd : PartitionData) : B unit :=
  match pd_records pd with
  | Some bs =>
      o ← on_store (get_partition t (pd_index pd));
      p ← lift (unwrap o);
      r ← replicas_get (partition_id p);
      _ ← lift (unwrap r);
      replica_write_all (partition_id p) bs
  | None => mret tt
  end.

Definition handle_produce (topic_data : list (string * list PartitionData)) : B unit :=
  for_each topic_data (λ '(t, td),
    o ← on_store (get_topic t);
    _ ← lift (unwrap o);
    for_each td (produce_one t)).

(** ** [CreateTopicsRequest] *)
Definition make_partition (name : string) (topic : CreatableTopic) (acc : list BrokerId * list Partition)
    (i : Z) : B (list BrokerId * list Partition) :=
  n ← ask;
  let brokers := shuffle n acc.1 in
  leader ← lift (unwrap (head brokers));
  (** A negative factor cast to [usize] is larger than any list. *)
  let rs := if 0 <=? replication_factor topic
            then take (Z.to_nat (replication_factor topic)) brokers else brokers in
  k ← ask;
  mret (brokers, acc.2 ++ [{|
    partition_id := new_v4 k; partition_idx := i; partition_topic := name;
    isr := rs; assigned_replicas := rs; partition_leader := leader |}]).

Definition make_partitions (name : string) (topic : CreatableTopic) : B (list Partition) :=
  let brokers := get_broker_ids config in
  if as_i16 (Z.of_nat (length brokers)) <? replication_factor topic then lift Panic
  else
    r ← sfold (make_partition name topic) (brokers, []) (seqZ 0 (num_partitions topic));
    mret r.2.

(** The topic the partitions make up. *)
Definition topic_of (id : Uuid) (name : string) (ps : list Partition) : Topic := {|
  topic_id := id; topic_name := name;
  topic_partitions := foldl (λ m p, <[partition_idx p := assigned_replicas p]> m) ∅ ps;
  topic_internal := false;
|}.

Definition propose_transition (t : Transition) : B unit :=
  input ← lift (transition_serialize t);
  _ ← on_client (propose input);
  mret tt.

(** The call of the client to another broker: whether the answer is a
    [LeaderAndIsrResponse].  Without an answer it does not return, as the writing
    task keeps the channel of the answer. *)
Definition leader_and_isr_header : RequestHeader := {|
  request_api_key := api_key_code LeaderAndIsrKey; request_api_version := 5;
  correlation_id := correlation_id request_header_default; client_id := client_id request_header_default |}.
Definition send_leader_and_isr (b : Peer) : outcome bool :=
  turns ← peer_turns b;
  match ofold kafka_step kafka_connect (KCall leader_and_isr_header (LeaderAndIsrRequest []) 0 :: turns) with
  | Ret c => match head (cl_answers c) with
             | Some (_, LeaderAndIsrResponse) => Ret true
             | Some _ => Ret false
             | None => never bool
             end
  | _ => never bool
  end.

(** Every broker is told about the new partitions, with a request that names
    none. *)
Definition start_isr (b : Peer) : B unit :=
  if decide (peer_id b = bc_id config) then handle_leader_and_isr []
  else
    is_response ← lift (send_leader_and_isr b);
    lift (assert is_response).

Definition broker_create_topic (name : string) (t : CreatableTopic) : B CreatableTopicResult :=
  ps ← make_partitions name t;
  k ← ask;
  let topic := topic_of (new_v4 k) name ps in
  _ ← propose_transition (EnsureTopic topic);
  _ ← for_each ps (λ p, propose_transition (EnsurePartition p));
  _ ← for_each (get_brokers config) start_isr;
  mret {| ctr_topic_id := topic_id topic; ctr_num_partitions := num_partitions t;
          ctr_replication_factor := replication_factor t |}.

Definition handle_create_topics (topics : list (string * CreatableTopic)) :
    B (list (string * CreatableTopicResult)) :=
  sfold (λ res '(name, topic),
    _ ← on_store (topic_exists name);
    t ← broker_create_topic name topic;
    mret (index_insert name t res)) [] topics.

(** ** [MetadataRequest] *)
Definition partition_metadata (topic : Topic) (k : PartitionIdx) : B MetadataPartition :=
  o ← on_store (get_partition (topic_name topic) k);
  mret match o with
       | Some p => {| mp_error_code := mp_error_code partition_default;
                      mp_index := partition_idx p;
                      mp_leader_id := partition_leader p;
                      mp_leader_epoch := 3;
                      mp_replica_nodes := assigned_replicas p;
                      mp_isr_nodes := isr p |}
       | None => {| mp_error_code := 0;
                    mp_index := mp_index partition_default;
                    mp_leader_id := mp_leader_id partition_default;
                    mp_leader_epoch := mp_leader_epoch partition_default;
                    mp_replica_nodes := mp_replica_nodes partition_default;
                    mp_isr_nodes := mp_isr_nodes partition_default |}
       end.

Definition build_topic_metadata (topic : Topic) : B MetadataTopic :=
  ps ← sfold (λ ps '(k, _), p ← partition_metadata topic k; mret (ps ++ [p])) []
         (map_to_list (topic_partitions topic));
  mret {| mt_error_code := mt_error_code topic_default; mt_topic_id := topic_id topic;
          mt_partitions := ps |}.

Definition get_topic_metadata (res : list (string * MetadataTopic)) (req : list (option string)) :
    B (list (string * MetadataTopic)) :=
  sfold (λ res name,
    name ← lift (unwrap name);
    o ← on_store (get_topic name);
    t ← match o with
        | Some topic => build_topic_metadata topic
        | None => mret {| mt_error_code := unknown_topic_or_partition;
                          mt_topic_id := mt_topic_id topic_default;
                          mt_partitions := mt_partitions topic_default |}
        end;
    mret (index_insert name t res)) res req.

Definition get_all_topic_metadata (res : list (string * MetadataTopic)) :
    B (list (string * MetadataTopic)) :=
  topics ← on_store get_topics;
  sfold (λ res '(_, topic),
    t ← build_topic_metadata topic;
    mret (index_insert (topic_name topic) t res)) res (map_to_list topics).

Definition handle_metadata (req : option (list (option string))) : B MetadataResponse :=
  let brokers := foldl (λ l b, index_insert (peer_id b)
      {| mb_host := ip_to_string (peer_ip b); mb_port := peer_port b |} l) [] (get_brokers config) in
  topics ← match req with
           | Some names => get_topic_metadata [] names
           | None => get_all_topic_metadata []
           end;
  mret {| mr_brokers := brokers; mr_cluster_id := Some "josefine"; mr_controller_id := 1;
          mr_throttle_time_ms := 1000; mr_topics := topics |}.

(** ** [FindCoordinatorRequest] and the dispatch *)
Definition handle_find_coordinator (res : list Coordinator) : list Coordinator :=
  res ++ [{| co_node_id := bc_id config; co_host := ip_to_string (bc_ip config); co_port := bc_port config |}].

(** [ListGroupsRequest]: the response it is given. *)
Definition handle_list_groups (res : ResponseKind) : ResponseKind := res.

(** [ApiVersionsRequest]: the supported range of versions per key. *)
Definition handle_api_versions : list (Z * (Z * Z)) :=
  foldl (λ l k, index_insert (api_key_code k) (api_versions k) l) []
    [ProduceKey; FetchKey; ListOffsetsKey; MetadataKey; LeaderAndIsrKey; StopReplicaKey;
     FindCoordinatorKey; JoinGroupKey; HeartbeatKey; ListGroupsKey; SyncGroupKey; CreateTopicsKey;
     DeleteGroupsKey; ListGroupsKey; ApiVersionsKey; DeleteTopicsKey].

Definition handle_request (req : RequestKind) : B ResponseKind :=
  match req with
  | ApiVersionsRequest => mret (ApiVersionsResponse handle_api_versions)
  | MetadataRequest topics => res ← handle_metadata topics; mret (MetadataResponseKind res)
  | CreateTopicsRequest topics => res ← handle_create_topics topics; mret (CreateTopicsResponse res)
  | ListGroupsRequest => mret (handle_list_groups ListGroupsResponse)
  | FindCoordinatorRequest => mret (FindCoordinatorResponse (handle_find_coordinator []))
  | _ => lift Panic
  end.

(** The loop of [server.rs] over requests, each with whether its connection still
    waits for the answer. *)
Definition handle_messages (l : list (RequestKind * bool)) : B (list ResponseKind) :=
  sfold (λ out '(msg, waiting),
    res ← handle_request msg;
    _ ← lift (assert waiting);
    mret (out ++ [res])) [] l.
End Ops.

(** ** What the handlers rely on *)
Class BrokerEnvLaws `{!BrokerEnv} := {
  shuffle_perm n l : shuffle n l ≡ₚ l;
  never_ret A : is_ret (never A) = false;
}.
(** What the broker relies on: a proposal whose transition succeeds is applied,
    once, to the store, and its result returned.  [rc_room s k]: the client can
    serve [k] more proposals.  [Service] shows it of the client of a cluster of
    one node. *)
Class RaftClientLaws `{!Sled, !StoreCodec, !RaftClient} := {
  rc_room : rc_state → nat → Prop;
  propose_spec input s k v d : rc_room s (S k) →
    josefine_transition input (rc_store s) = (Ret v, d) →
    ∃ s', propose input s = (Ret v, s') ∧ rc_store s' = d ∧ rc_room s' k;
}.

(** ** Index maps *)
Section IndexMap.
Context {K V : Type} `{!EqDecision K}.
Implicit Types (k : K) (v : V) (l : list (K * V)).

Lemma index_insert_here k v l : (k, v) ∈ index_insert k v l.
Proof.
  induction l as [|[k' v'] l IH]; cbn; [set_solver|].
  case_decide; subst; set_solver.
Qed.

Lemma index_insert_keep k v k' v' l :
  (k', v') ∈ l → (k' = k → v' = v) → (k', v') ∈ index_insert k v l.
Proof.
  induction l as [|[k1 v1] l IH]; cbn; [set_solver|]. intros [[= -> ->]|H]%elem_of_cons Hv.
  - case_decide as E; [rewrite Hv by done; set_solver|set_solver].
  - case_decide; apply elem_of_cons; right; auto.
Qed.

Lemma index_insert_keys k v l k' : k' ∈ (index_insert k v l).*1 ↔ k' = k ∨ k' ∈ l.*1.
Proof.
  induction l as [|[k1 v1] l IH]; cbn; [set_solver|]. case_decide; cbn; set_solver.
Qed.

Lemma index_fold_in (f : K → V) names l k :
  k ∈ names ∨ (k, f k) ∈ l → (k, f k) ∈ foldl (λ l k, index_insert k (f k) l) l names.
Proof.
  revert l. induction names as [|k' names IH]; cbn; intros l H; [set_solver|].
  apply IH. destruct H as [[->|H]%elem_of_cons|H].
  - right. apply index_insert_here.
  - by left.
  - right. apply index_insert_keep; [done|congruence].
Qed.

Lemma index_fold_keys {A} (key : A → K) (f : A → V) xs l k :
  k ∈ key <$> xs ∨ k ∈ l.*1 → k ∈ (foldl (λ l x, index_insert (key x) (f x) l) l xs).*1.
Proof.
  revert l. induction xs as [|x xs IH]; cbn; intros l H; [set_solver|].
  apply IH. rewrite index_insert_keys. set_solver.
Qed.
End IndexMap.

Section Facts.
Context {SLED : Sled} {CODEC : StoreCodec} {ENV : BrokerEnv} {CLIENT : RaftClient} {BUILD : Build}
  {KD : KafkaDecoders} {KP : KafkaProtocol} {FRAMES : LengthCodec}
  {SLAWS : SledLaws} {CLAWS : StoreCodecLaws} {ELAWS : BrokerEnvLaws} {RLAWS : RaftClientLaws}.
Context (config : BrokerConfig).

(** Reading the store leaves the world as it is. *)
Lemma on_store_read {A} (m : SM db A) a w :
  m (bw_store w) = (Ret a, bw_store w) → on_store m w = (Ret a, w).
Proof. unfold on_store. by intros ->. Qed.

Lemma read_partition w st t i :
  represents (bw_store w) st →
  on_store (get_partition t i) w = (Ret (bs_partitions st !! (t, i)), w).
Proof. intros Hr. apply on_store_read. unfold get_partition. apply store_get_holds, Hr. Qed.

Lemma read_topics w st :
  represents (bw_store w) st → on_store get_topics w = (Ret (bs_topics st), w).
Proof. intros Hr. by apply on_store_read, get_topics_rep. Qed.

Lemma get_topic_rep d st name : represents d st → get_topic name d = (Ret (bs_topics st !! name), d).
Proof.
  intros Hr. unfold get_topic. by rewrite (SM_bind_step _ _ _ _ _ (get_topics_rep _ _ Hr)).
Qed.

Lemma read_topic w st name :
  represents (bw_store w) st → on_store (get_topic name) w = (Ret (bs_topics st !! name), w).
Proof. intros Hr. by apply on_store_read, get_topic_rep. Qed.

(** A fold whose steps only read computes a fold over its values. *)
Lemma sfold_reads {S A C} (f : C → A → SM S C) (g : C → A → C) w :
  (∀ c a, f c a w = (Ret (g c a), w)) → ∀ l c, sfold f c l w = (Ret (foldl g c l), w).
Proof.
  intros Hf l. induction l as [|a l IH]; intros c; [done|]. cbn [sfold].
  by rewrite (SM_bind_step _ _ _ _ _ (Hf c a)).
Qed.

(** ** Metadata *)
Definition partition_answer (st : BrokerState) (topic : Topic) (k : PartitionIdx) : MetadataPartition :=
  match bs_partitions st !! (topic_name topic, k) with
  | Some p => {| mp_error_code := mp_error_code partition_default; mp_index := partition_idx p;
                 mp_leader_id := partition_leader p; mp_leader_epoch := 3;
                 mp_replica_nodes := assigned_replicas p; mp_isr_nodes := isr p |}
  | None => {| mp_error_code := 0; mp_index := mp_index partition_default;
               mp_leader_id := mp_leader_id partition_default;
               mp_leader_epoch := mp_leader_epoch partition_default;
               mp_replica_nodes := mp_replica_nodes partition_default;
               mp_isr_nodes := mp_isr_nodes partition_default |}
  end.

Definition topic_metadata (st : BrokerState) (topic : Topic) : MetadataTopic :=
  {| mt_error_code := mt_error_code topic_default; mt_topic_id := topic_id topic;
     mt_partitions := (partition_answer st topic) <$> (map_to_list (topic_partitions topic)).*1 |}.

Definition topic_answer (st : BrokerState) (name : string) : MetadataTopic :=
  match bs_topics st !! name with
  | Some topic => topic_metadata st topic
  | None => {| mt_error_code := unknown_topic_or_partition; mt_topic_id := mt_topic_id topic_default;
               mt_partitions := mt_partitions topic_default |}
  end.

Lemma foldl_snoc_map {A C} (f : A → C) l acc : foldl (λ r a, r ++ [f a]) acc l = acc ++ (f <$> l).
Proof.
  revert acc. induction l as [|a l IH]; intros acc; cbn; [by rewrite app_nil_r|].
  by rewrite IH, <-(assoc (++)).
Qed.

Lemma build_topic_metadata_run w st topic :
  represents (bw_store w) st →
  build_topic_metadata topic w = (Ret (topic_metadata st topic), w).
Proof.
  intros Hr. unfold build_topic_metadata, topic_metadata.
  erewrite SM_bind_step.
  2: { apply (sfold_reads _ (λ ps a, ps ++ [partition_answer st topic a.1])).
       intros ps [k v]. unfold partition_metadata. cbn beta iota.
       erewrite SM_bind_step; [reflexivity|].
       erewrite SM_bind_step by (by apply read_partition). done. }
  rewrite foldl_snoc_map. cbn. by rewrite <-list_fmap_compose.
Qed.

Lemma get_topic_metadata_run w st names l :
  represents (bw_store w) st →
  get_topic_metadata l (Some <$> names) w =
    (Ret (foldl (λ l name, index_insert name (topic_answer st name) l) l names), w).
Proof.
  intros Hr. revert l. unfold get_topic_metadata.
  induction names as [|name names IH]; intros l; [done|]. cbn [fmap list_fmap sfold foldl].
  erewrite SM_bind_step; [apply IH|].
  erewrite SM_bind_step by reflexivity. erewrite SM_bind_step by (by apply read_topic).
  unfold topic_answer. destruct (bs_topics st !! name) as [topic|]; [|done].
  by erewrite SM_bind_step by (by apply build_topic_metadata_run).
Qed.

Lemma get_topic_metadata_panics w st names l :
  represents (bw_store w) st → None ∈ names → get_topic_metadata l names w = (Panic, w).
Proof.
  intros Hr. revert l. unfold get_topic_metadata. induction names as [|[name|] names IH]; intros l Hin.
  - by apply elem_of_nil in Hin.
  - cbn [sfold]. assert (None ∈ names) as Hin' by set_solver.
    rewrite (SM_bind_step _ _ w (index_insert name (topic_answer st name) l) w); [by apply IH|].
    erewrite SM_bind_step by reflexivity. erewrite SM_bind_step by (by apply read_topic). unfold topic_answer.
    destruct (bs_topics st !! name) as [topic|]; [|reflexivity].
    erewrite SM_bind_step by (by apply build_topic_metadata_run). reflexivity.
  - cbn [sfold]. done.
Qed.

Lemma get_all_topic_metadata_run w st l :
  represents (bw_store w) st →
  get_all_topic_metadata l w =
    (Ret (foldl (λ l x, index_insert (topic_name x.2) (topic_metadata st x.2) l) l (map_to_list (bs_topics st))), w).
Proof.
  intros Hr. unfold get_all_topic_metadata.
  erewrite SM_bind_step by (apply on_store_read; by apply get_topics_rep).
  apply (sfold_reads _ (λ l x, index_insert (topic_name x.2) (topic_metadata st x.2) l)). intros c [k topic]. cbn beta iota.
  by erewrite SM_bind_step by (by apply build_topic_metadata_run).
Qed.

(** The topics of a response: those named, or all; a request with an entry that has
    no name has none. *)
Definition metadata_topics (st : BrokerState) (req : option (list (option string))) :
    option (list (string * MetadataTopic)) :=
  match req with
  | None => Some (foldl (λ l x, index_insert (topic_name x.2) (topic_metadata st x.2) l) []
                    (map_to_list (bs_topics st)))
  | Some names =>
      if decide (None ∈ names) then None
      else Some (foldl (λ l name, index_insert name (topic_answer st name) l) [] (omap id names))
  end.

(** C28: a metadata request, on every branch, is answered from the topics and
    partitions of the store and the brokers of the configuration, without changing
    anything: each named topic, or all of them when none is named, with its id and,
    for each of its partitions, leader, replicas and in-sync replicas; a name that is
    not there with an error code.  The answer lists every configured broker.  A
    request with an entry that has no name panics. *)
Theorem metadata_answers w st req :
  represents (bw_store w) st →
  match metadata_topics st req with
  | None => handle_metadata config req w = (Panic, w)
  | Some topics =>
      ∃ res, handle_metadata config req w = (Ret res, w) ∧ mr_topics res = topics ∧
        (∀ names name, req = Some names → Some name ∈ names → (name, topic_answer st name) ∈ topics) ∧
        (∀ name topic, req = None → bs_topics st !! name = Some topic → topic_name topic ∈ topics.*1) ∧
        (∀ b, b ∈ get_broker_ids config → b ∈ (mr_brokers res).*1)
  end.
Proof.
  intros Hr. unfold handle_metadata.
  assert (∀ b, b ∈ get_broker_ids config → b ∈ (foldl (λ l b, index_insert (peer_id b)
    {| mb_host := ip_to_string (peer_ip b); mb_port := peer_port b |} l) [] (get_brokers config)).*1) as Hb.
  { intros b Hb. apply (index_fold_keys peer_id). left. unfold get_brokers, get_broker_ids in *. by rewrite fmap_app. }
  destruct req as [names|]; cbn [metadata_topics]; [case_decide as Hn|].
  - unfold mbind at 1, SM_bind at 1. by rewrite (get_topic_metadata_panics w st names [] Hr Hn).
  - assert (names = Some <$> omap id names) as Hnames.
    { clear Hr. induction names as [|[name|] names IH]; cbn; [done| |set_solver]. f_equal. apply IH. set_solver. }
    pose proof (get_topic_metadata_run w st (omap id names) [] Hr) as Hg. rewrite <-Hnames in Hg.
    rewrite (SM_bind_step _ _ _ _ _ Hg).
    eexists. split; [done|]. cbn [mr_topics mr_brokers]. split_and!; [done| |done|done].
    intros ? name [= <-] Hin. apply (index_fold_in (topic_answer st)). left.
    apply list_elem_of_omap. by exists (Some name).
  - erewrite SM_bind_step by (by apply get_all_topic_metadata_run).
    eexists. split; [done|]. cbn [mr_topics mr_brokers]. split_and!; [done|done| |done].
    intros name topic _ Ht. apply (index_fold_keys (λ x, topic_name x.2)). left.
    apply list_elem_of_fmap. exists (name, topic). split; [done|]. by apply elem_of_map_to_list.
Qed.

(** ** Creating topics *)
(** Only the count of random draws changed. *)
Definition same_data (w w' : BrokerWorld) : Prop :=
  bw_client w' = bw_client w ∧ replicas w' = replicas w.

(** Partition [i] of a topic: the factor's number of distinct brokers (all of
    them for a negative factor), the first of which leads. *)
Record assigned (name : string) (t : CreatableTopic) (i : Z) (p : Partition) : Prop := {
  as_idx : partition_idx p = i;
  as_topic : partition_topic p = name;
  as_isr : isr p = assigned_replicas p;
  as_brokers : assigned_replicas p ⊆+ get_broker_ids config;
  as_count : 0 ≤ replication_factor t →
    Z.of_nat (length (assigned_replicas p)) =
      Z.min (replication_factor t) (Z.of_nat (length (get_broker_ids config)));
  as_leader : partition_leader p ∈ get_broker_ids config;
  as_first : replication_factor t ≠ 0 → head (assigned_replicas p) = Some (partition_leader p);
}.

Lemma ask_run w : ∃ w', ask w = (Ret (bw_asked w), w') ∧ same_data w w'.
Proof. by eexists. Qed.

Lemma make_partition_run name t acc i w :
  acc.1 ≡ₚ get_broker_ids config →
  ∃ p bs w', make_partition name t acc i w = (Ret (bs, acc.2 ++ [p]), w') ∧ same_data w w' ∧
    bs ≡ₚ get_broker_ids config ∧ assigned name t i p.
Proof.
  intros Hacc. destruct (ask_run w) as (w1 & Hask & Hd1). destruct (ask_run w1) as (w2 & Hask2 & Hd2).
  set (bs := shuffle (bw_asked w) acc.1).
  assert (bs ≡ₚ get_broker_ids config) as Hbs by (unfold bs; by rewrite shuffle_perm).
  unfold make_partition. erewrite SM_bind_step by exact Hask. fold bs.
  clearbody bs. destruct bs as [|b bs'].
  { apply Permutation_nil in Hbs. unfold get_broker_ids in Hbs. by destruct (peer_id <$> peers config). }
  erewrite SM_bind_step by reflexivity. erewrite SM_bind_step by exact Hask2.
  eexists _, (b :: bs'), w2. split; [reflexivity|]. split; [|split; [done|]].
  { split; etransitivity; [apply Hd2|apply Hd1|apply Hd2|apply Hd1]. }
  assert (b ∈ get_broker_ids config) as Hb by (rewrite <-Hbs; set_solver).
  set (bl := b :: bs') in *. apply Permutation_length in Hbs as Hlen.
  constructor; cbn [partition_idx partition_topic isr assigned_replicas partition_leader]; try done.
  - rewrite <-Hbs. case_match; [|done]. by rewrite <-(take_drop (Z.to_nat (replication_factor t)) bl) at 2; apply submseteq_inserts_r.
  - intros H0. rewrite (proj2 (Z.leb_le _ _)), length_take, Hlen by done. lia.
  - intros Hne. destruct (Z.leb_spec 0 (replication_factor t)); [|done].
    destruct (Z.to_nat (replication_factor t)) eqn:En; [lia|done].
Qed.

Lemma make_partitions_fold name t l : ∀ acc w,
  acc.1 ≡ₚ get_broker_ids config →
  ∃ bs ps w', sfold (make_partition name t) acc l w = (Ret (bs, acc.2 ++ ps), w') ∧
    same_data w w' ∧ Forall2 (assigned name t) l ps.
Proof.
  induction l as [|i l IH]; intros acc w Hacc.
  { exists acc.1, [], w. rewrite app_nil_r. by destruct acc. }
  destruct (make_partition_run name t acc i w Hacc) as (p & bs & w1 & H1 & [Hd1 Hd1'] & Hbs & Hp).
  destruct (IH (bs, acc.2 ++ [p]) w1 Hbs) as (bs' & ps & w2 & H2 & [Hd2 Hd2'] & Hps).
  exists bs', (p :: ps), w2. cbn [sfold]. rewrite (SM_bind_step _ _ _ _ _ H1), H2. cbn.
  rewrite <-(assoc (++)). split; [done|]. split; [|by constructor].
  split; congruence.
Qed.

Lemma make_partitions_run name t w :
  replication_factor t ≤ Z.of_nat (length (get_broker_ids config)) < 2 ^ 15 →
  ∃ ps w', make_partitions config name t w = (Ret ps, w') ∧ same_data w w' ∧
    Forall2 (assigned name t) (seqZ 0 (num_partitions t)) ps.
Proof.
  intros Hf. destruct (make_partitions_fold name t (seqZ 0 (num_partitions t)) (get_broker_ids config, []) w)
    as (bs & ps & w' & H & Hd & Hps); [done|].
  exists ps, w'. split; [|done]. unfold make_partitions.
  assert (as_i16 (Z.of_nat (length (get_broker_ids config))) = Z.of_nat (length (get_broker_ids config))) as ->.
  { unfold as_i16. rewrite Z.mod_small by lia. lia. }
  rewrite (proj2 (Z.ltb_ge _ _)) by lia. by rewrite (SM_bind_step _ _ _ _ _ H).
Qed.

(** C29: The assignment of a new topic.  When the replication factor is at most
    the number of brokers, partition [k] of the result has index [k], its
    replicas are distinct configured brokers, as many as the factor says, all of
    them in sync, and its leader is the first of them; a larger factor panics. *)
Theorem partitions_assigned name t w :
  NoDup (get_broker_ids config) → Z.of_nat (length (get_broker_ids config)) < 2 ^ 15 →
  (0 < replication_factor t ≤ Z.of_nat (length (get_broker_ids config)) →
   ∃ ps w', make_partitions config name t w = (Ret ps, w') ∧
     length ps = Z.to_nat (num_partitions t) ∧
     ∀ k p, ps !! k = Some p →
       partition_idx p = Z.of_nat k ∧ partition_topic p = name ∧
       NoDup (assigned_replicas p) ∧ (∀ b, b ∈ assigned_replicas p → b ∈ get_broker_ids config) ∧
       Z.of_nat (length (assigned_replicas p)) = replication_factor t ∧
       isr p = assigned_replicas p ∧ head (assigned_replicas p) = Some (partition_leader p)) ∧
  (Z.of_nat (length (get_broker_ids config)) < replication_factor t →
   make_partitions config name t w = (Panic, w)).
Proof.
  intros Hnd Hlen. split.
  - intros Hf. destruct (make_partitions_run name t w) as (ps & w' & H & _ & Hps); [lia|].
    exists ps, w'. split; [done|]. split; [by rewrite <-(Forall2_length _ _ _ Hps), length_seqZ|].
    intros k p Hp. apply (Forall2_lookup_r _ _ _ _ _ Hps) in Hp as (i & Hi & [? ? ? Hb Hc ? Hl]).
    apply lookup_seqZ in Hi as [-> Hi].
    split_and!; [lia|done| | |lia|done|apply Hl; lia].
    + apply submseteq_Permutation in Hb as [r Hr]. rewrite Hr in Hnd. by apply NoDup_app in Hnd as [? _].
    + intros b Hbin. by eapply elem_of_submseteq.
  - intros Hf. unfold make_partitions, as_i16. rewrite Z.mod_small, Z.add_simpl_r by lia.
    by rewrite (proj2 (Z.ltb_lt _ _)) by lia.
Qed.

Lemma propose_run t w st k :
  rc_room (bw_client w) (S k) → represents (bw_store w) st →
  ∃ w', propose_transition t w = (Ret tt, w') ∧ represents (bw_store w') (broker_step st t) ∧
    replicas w' = replicas w ∧ rc_room (bw_client w') k.
Proof.
  intros Hk Hr. destruct (bincode_roundtrip t) as (input & Hs & Hd).
  pose proof (transition_run (bw_store w) st input Hr) as Ht. rewrite Hd in Ht.
  destruct Ht as (d' & out & Ht & Hr' & _).
  destruct (propose_spec input (bw_client w) k out d' Hk Ht) as (s' & Hp & Hs' & Hk').
  eexists. split.
  - unfold propose_transition, transition_serialize. rewrite Hs.
    erewrite SM_bind_step by reflexivity. unfold mbind at 1, SM_bind at 1, on_client.
    rewrite Hp. reflexivity.
  - unfold bw_store. cbn. by rewrite Hs'.
Qed.

Lemma propose_all_run ps k : ∀ w st,
  rc_room (bw_client w) (length ps + k) → represents (bw_store w) st →
  ∃ w', for_each ps (λ p, propose_transition (EnsurePartition p)) w = (Ret tt, w') ∧
    represents (bw_store w') (foldl broker_step st (EnsurePartition <$> ps)) ∧
    replicas w' = replicas w ∧ rc_room (bw_client w') k.
Proof.
  induction ps as [|p ps IH]; intros w st Hk Hr; [by exists w|].
  destruct (propose_run (EnsurePartition p) w st _ Hk Hr) as (w1 & H1 & Hr1 & Hl1 & Hk1).
  destruct (IH w1 _ Hk1 Hr1) as (w2 & H2 & Hr2 & Hl2 & Hk2).
  exists w2. cbn [for_each]. rewrite (SM_bind_step _ _ _ _ _ H1), H2.
  split_and!; [done|done|congruence|done].
Qed.

(** The other brokers confirm that they were told. *)
Definition confirmed (b : Peer) : Prop := peer_id b = bc_id config ∨ send_leader_and_isr b = Ret true.
Definition all_confirm : Prop := ∀ b, b ∈ peers config → confirmed b.

(** Telling the brokers changes nothing and succeeds exactly if they all confirm. *)
Lemma start_isr_run :
  ∃ o, (∀ w, for_each (get_brokers config) (start_isr config) w = (o, w)) ∧ (is_ret o = true ↔ all_confirm).
Proof.
  clear SLAWS CLAWS RLAWS.
  assert (∀ l, ∃ o, (∀ w, for_each l (start_isr config) w = (o, w)) ∧ (is_ret o = true ↔ ∀ b, b ∈ l → confirmed b)) as H.
  { induction l as [|b l (o & Ho & Hc)]; [by exists (Ret tt); split; [|set_solver]|].
    assert (∃ o1, (∀ w, start_isr config b w = (o1, w)) ∧ (is_ret o1 = true ↔ confirmed b)) as (o1 & Ho1 & Hc1).
    { unfold start_isr, confirmed. case_decide as E.
      - exists (Ret tt). by split; [|split; [by left|]].
      - exists (x ← send_leader_and_isr b; assert x). split.
        { intros w. unfold mbind, SM_bind, lift. by destruct (send_leader_and_isr b) as [[]| |]. }
        destruct (send_leader_and_isr b) as [[]| |]; cbn; split; try done; try (by right); by intros [?|?]. }
    exists (_ ← o1; o). cbn [for_each]. split.
    - intros w. unfold mbind, SM_bind. rewrite Ho1. by destruct o1.
    - destruct o1 as [u| |]; cbn in *.
      + rewrite Hc. split; [|set_solver]. intros Hl b' [->|Hb]%elem_of_cons; [by apply Hc1|by apply Hl].
      + split; [done|]. intros Hl. apply Hc1, Hl. set_solver.
      + split; [done|]. intros Hl. apply Hc1, Hl. set_solver. }
  destruct (H (get_brokers config)) as (o & Ho & Hc). exists o. split; [done|]. rewrite Hc. unfold all_confirm, get_brokers.
  split; [set_solver|]. intros Hall b [Hb| ->%list_elem_of_singleton]%elem_of_app; [by apply Hall|by left].
Qed.

(** No topic is created before all of them have. *)
Lemma create_returns_confirmed name t rest w :
  is_ret (handle_create_topics config ((name, t) :: rest) w).1 = true → all_confirm.
Proof.
  intros Hret. destruct start_isr_run as (o & Ho & Hc). apply Hc.
  destruct (handle_create_topics config ((name, t) :: rest) w) as [[l| |] w'] eqn:Hr; [|done..].
  unfold handle_create_topics in Hr. cbn [sfold] in Hr.
  apply SM_bind_Ret in Hr as (l1 & w1 & Hr & _). apply SM_bind_Ret in Hr as (e & w2 & _ & Hr).
  apply SM_bind_Ret in Hr as (res & w3 & Hr & _). unfold broker_create_topic in Hr.
  do 4 (apply SM_bind_Ret in Hr as (? & ? & _ & Hr)). apply SM_bind_Ret in Hr as (? & ? & Hr & _).
  rewrite Ho in Hr. by injection Hr as -> _.
Qed.

(** Partitions stay those of the last step that had their key. *)
Lemma fold_partitions ps st name k :
  bs_topics (foldl broker_step st (EnsurePartition <$> ps)) = bs_topics st ∧
  (∀ p, p ∈ ps → partition_topic p = name → partition_idx p = k →
     (∀ p', p' ∈ ps → partition_topic p' = name → partition_idx p' = k → p' = p) →
     bs_partitions (foldl broker_step st (EnsurePartition <$> ps)) !! (name, k) = Some p).
Proof.
  induction ps as [|q ps [IHt IHp]] using rev_ind; cbn; [set_solver|].
  rewrite fmap_app, foldl_app. cbn. split; [done|].
  intros p Hp Ht Hk Huniq. rewrite lookup_insert. case_decide as E.
  - injection E as Eq1 Eq2. f_equal. apply Huniq; [set_solver|done|done].
  - apply elem_of_app in Hp as [Hp| ->%list_elem_of_singleton]; [|by rewrite Ht, Hk in E].
    apply IHp; [done..|]. intros p' Hp'. apply Huniq. set_solver.
Qed.

Lemma topic_of_partitions id name ps k p :
  p ∈ ps → partition_idx p = k → (∀ p', p' ∈ ps → partition_idx p' = k → p' = p) →
  topic_partitions (topic_of id name ps) !! k = Some (assigned_replicas p).
Proof.
  unfold topic_of. cbn. induction ps as [|q ps IH] using rev_ind; [set_solver|].
  intros Hp Hk Huniq. rewrite foldl_app. cbn. rewrite lookup_insert. case_decide as E.
  - f_equal. f_equal. apply Huniq; [set_solver|done].
  - apply elem_of_app in Hp as [Hp| ->%list_elem_of_singleton]; [|done].
    apply IH; [done..|]. intros p' Hp'. apply Huniq. set_solver.
Qed.

Lemma create_topic_run w st name t left :
  rc_room (bw_client w) (S (Z.to_nat (num_partitions t) + left)) →
  represents (bw_store w) st → bs_topics st !! name = None →
  replication_factor t ≤ Z.of_nat (length (get_broker_ids config)) < 2 ^ 15 →
  ∃ o w' st' topic u, handle_create_topics config [(name, t)] w = (o, w') ∧
    represents (bw_store w') st' ∧ replicas w' = replicas w ∧ rc_room (bw_client w') left ∧
    topic_id topic = new_v4 u ∧ bs_topics st' = <[name := topic]> (bs_topics st) ∧
    (∀ k, 0 ≤ k < num_partitions t →
      ∃ p, bs_partitions st' !! (name, k) = Some p ∧ assigned name t k p ∧
           topic_partitions topic !! k = Some (assigned_replicas p)) ∧
    (is_ret o = true ↔ all_confirm) ∧
    (∀ l, o = Ret l → l = [(name, {| ctr_topic_id := topic_id topic; ctr_num_partitions := num_partitions t;
                                     ctr_replication_factor := replication_factor t |})]).
Proof.
  intros Hroom Hr Hnew Hf. destruct start_isr_run as (oi & Hisr & Hoi).
  destruct (make_partitions_run name t w Hf) as (ps & w1 & H1 & [Hs1 Hl1] & Hps).
  destruct (ask_run w1) as (w2 & H2 & [Hs2 Hl2]).
  set (topic := topic_of (new_v4 (bw_asked w1)) name ps).
  assert (length ps = Z.to_nat (num_partitions t)) as Hlen
    by (by rewrite <-(Forall2_length _ _ _ Hps), length_seqZ).
  rewrite <-Hlen, <-Hs1, <-Hs2 in Hroom.
  assert (represents (bw_store w2) st) as Hr2 by (unfold bw_store; by rewrite Hs2, Hs1).
  destruct (propose_run (EnsureTopic topic) w2 st _ Hroom Hr2) as (w3 & H3 & Hr3 & Hl3 & Hk3).
  destruct (propose_all_run ps left w3 _ Hk3 Hr3) as (w4 & H4 & Hr4 & Hl4 & Hk4).
  set (res := {| ctr_topic_id := topic_id topic; ctr_num_partitions := num_partitions t;
                 ctr_replication_factor := replication_factor t |}).
  exists (_ ← oi; Ret [(name, res)]), w4. eexists _, topic, (bw_asked w1). split.
  { unfold handle_create_topics. cbn [sfold]. unfold mbind at 1, SM_bind at 1. cbn beta iota. erewrite SM_bind_step.
    2: { apply on_store_read. unfold topic_exists.
         by rewrite (SM_bind_step _ _ _ _ _ (get_topics_rep _ _ Hr)). }
    unfold mbind at 1, SM_bind at 1. unfold broker_create_topic.
    rewrite (SM_bind_step _ _ _ _ _ H1), (SM_bind_step _ _ _ _ _ H2).
    fold topic. rewrite (SM_bind_step _ _ _ _ _ H3), (SM_bind_step _ _ _ _ _ H4).
    unfold mbind at 1, SM_bind at 1. rewrite Hisr. by destruct oi. }
  split; [exact Hr4|]. split; [congruence|]. split; [exact Hk4|]. split; [done|]. split.
  { rewrite (proj1 (fold_partitions ps _ name 0)). cbn. by rewrite Hnew. }
  split; [|split; [rewrite <-Hoi; by destruct oi|intros l; destruct oi; [|done..]; by intros [= <-]]].
  intros k Hk.
  assert (∀ p', p' ∈ ps → ∃ i, seqZ 0 (num_partitions t) !! Z.to_nat i = Some i ∧
    ps !! Z.to_nat i = Some p' ∧ assigned name t i p') as Hat.
  { intros p' (j & Hj)%list_elem_of_lookup_1.
    destruct (Forall2_lookup_r _ _ _ _ _ Hps Hj) as (i & Hi & Ha).
    exists i. pose proof Hi as [-> _]%lookup_seqZ.
    replace (Z.to_nat (0 + Z.of_nat j)) with j by lia. done. }
  destruct (Forall2_lookup_l _ _ _ (Z.to_nat k) k Hps) as (p & Hp & Ha).
  { apply lookup_seqZ. lia. }
  assert (∀ p', p' ∈ ps → partition_idx p' = k → p' = p) as Huniq.
  { intros p' (i & _ & Hi & Ha')%Hat Hk'. rewrite (as_idx _ _ _ _ Ha') in Hk'. congruence. }
  apply list_elem_of_lookup_2 in Hp as Hin.
  exists p. split_and!; [|done|].
  - apply fold_partitions; [done|apply Ha|apply Ha|]. intros p' ? _. by apply Huniq.
  - apply topic_of_partitions; [done|apply Ha|done].
Qed.

(** C19: a request for a new topic whose replication factor is at most the number of
    brokers.  Whatever the other brokers do, the store then has the topic and every one
    of its partitions, and the assignment recorded in the topic is that of the
    partitions; no replica is opened for them.  The handler returns exactly if every
    other configured broker answers its LeaderAndIsr request with the response to it,
    and then returns the identifier that the topic has in the store; a broker without
    peers always does. *)
Theorem create_topic_stores w st name t :
  rc_room (bw_client w) (S (Z.to_nat (num_partitions t))) →
  represents (bw_store w) st → bs_topics st !! name = None →
  replication_factor t ≤ Z.of_nat (length (get_broker_ids config)) < 2 ^ 15 →
  ∃ o w' st' topic, handle_create_topics config [(name, t)] w = (o, w') ∧
    represents (bw_store w') st' ∧ replicas w' = replicas w ∧
    bs_topics st' = <[name := topic]> (bs_topics st) ∧
    (∀ k, 0 ≤ k < num_partitions t →
      ∃ p, bs_partitions st' !! (name, k) = Some p ∧ assigned name t k p ∧
           topic_partitions topic !! k = Some (assigned_replicas p)) ∧
    (is_ret o = true ↔ ∀ b, b ∈ peers config → peer_id b = bc_id config ∨ send_leader_and_isr b = Ret true) ∧
    (∀ l, o = Ret l → l = [(name, {| ctr_topic_id := topic_id topic; ctr_num_partitions := num_partitions t;
                                     ctr_replication_factor := replication_factor t |})]).
Proof.
  intros Hroom Hr Hnew Hf.
  destruct (create_topic_run w st name t 0 ltac:(by rewrite Nat.add_0_r) Hr Hnew Hf)
    as (o & w' & st' & topic & u & ? & ? & ? & _ & _ & ? & ? & ? & ?). by exists o, w', st', topic.
Qed.

(** ** Producing *)
Definition batch (k : PartitionIdx) (bs : bytes) : PartitionData := {| pd_index := k; pd_records := Some bs |}.

Definition with_replica (w : BrokerWorld) (id : Uuid) (l : Log) : BrokerWorld :=
  {| bw_client := bw_client w; replicas := <[id := l]> (replicas w); bw_asked := bw_asked w |}.

Lemma produce_one_run w st t k p l bs u l' :
  represents (bw_store w) st → bs_partitions st !! (t, k) = Some p →
  replicas w !! partition_id p = Some l → bs ≠ [] →
  log_write (DISK := disk (partition_id p)) bs l = (Ret u, l') →
  produce_one t (batch k bs) w = (Ret tt, with_replica w (partition_id p) l').
Proof.
  intros Hr Hp Hl Hne Hw. unfold produce_one, batch. cbn [pd_records pd_index].
  erewrite SM_bind_step by (by apply read_partition). rewrite Hp.
  erewrite SM_bind_step by reflexivity.
  erewrite SM_bind_step by reflexivity. rewrite Hl.
  erewrite SM_bind_step by reflexivity. unfold replica_write_all. rewrite Hl.
  rewrite decide_False by done. unfold mbind, SM_bind. by rewrite Hw.
Qed.

Lemma produce_batches_run old mm t k p batches : ∀ w st bufs l,
  Z.of_nat (length mm) < 2 ^ 56 →
  represents (bw_store w) st → bs_partitions st !! (t, k) = Some p →
  replicas w !! partition_id p = Some l → log_state old mm bufs l →
  Forall (λ b, b ≠ [] ∧ write_failure (Disk := disk (partition_id p)) b = None) batches →
  (length (bufs ++ batches) + 15 ≤ length mm)%nat →
  Z.of_nat (total (bufs ++ batches)) ≤ MAX_SEGMENT_BYES →
  ∃ l', for_each (batch k <$> batches) (produce_one t) w =
          (Ret tt, with_replica w (partition_id p) l') ∧ log_state old mm (bufs ++ batches) l'.
Proof.
  induction batches as [|b batches IH]; intros w st bufs l Hmm Hr Hp Hl Hls Hb Hn Ht.
  { exists l. rewrite app_nil_r. split; [|done]. unfold with_replica.
    rewrite insert_id by done. by destruct w. }
  apply Forall_cons in Hb as [[Hb Hw] Hbs].
  replace (bufs ++ b :: batches) with ((bufs ++ [b]) ++ batches) in * by by rewrite <-(assoc (++)).
  assert (total ((bufs ++ [b]) ++ batches) = total (bufs ++ [b]) + total batches)%nat as E.
  { unfold total. by rewrite concat_app, length_app. }
  rewrite !length_app in Hn. simpl in Hn.
  assert (0 < length b)%nat by (destruct b; [done|simpl; lia]).
  pose proof (total_snoc bufs b) as E'. unfold MAX_SEGMENT_BYES in Ht.
  destruct (log_write_run (DISK := disk (partition_id p)) old mm Hmm bufs b l) as (l1 & H1 & Hl1);
    [done..|lia|unfold MAX_SEGMENT_BYES; lia|unfold u64_limit; lia|].
  pose proof (produce_one_run w st t k p l b _ l1 Hr Hp Hl Hb H1) as H2.
  destruct (IH (with_replica w (partition_id p) l1) st (bufs ++ [b]) l1)
    as (l2 & H3 & Hl2); [done|done|done|by apply lookup_insert_eq|done|done|..].
  - rewrite !length_app. simpl. lia.
  - unfold MAX_SEGMENT_BYES. lia.
  - exists l2. split; [|done]. cbn [fmap list_fmap for_each].
    rewrite (SM_bind_step _ _ _ _ _ H2). rewrite H3. unfold with_replica. cbn.
    by rewrite insert_insert_eq.
Qed.

(** C20: A produce request appends its batches, in order, to the log of the
    partition they are for, when the broker hosts it and the segment has room;
    the store and the other replicas do not change. *)
Theorem produce_appends old mm w st t topic k p l bufs batches :
  Z.of_nat (length mm) < 2 ^ 56 →
  represents (bw_store w) st → bs_topics st !! t = Some topic →
  bs_partitions st !! (t, k) = Some p →
  replicas w !! partition_id p = Some l → log_state old mm bufs l →
  Forall (λ b, b ≠ [] ∧ write_failure (Disk := disk (partition_id p)) b = None) batches →
  (length (bufs ++ batches) + 15 ≤ length mm)%nat →
  Z.of_nat (total (bufs ++ batches)) ≤ MAX_SEGMENT_BYES →
  ∃ w' l' s, handle_produce [(t, batch k <$> batches)] w = (Ret tt, w') ∧
    bw_store w' = bw_store w ∧ replicas w' = <[partition_id p := l']> (replicas w) ∧
    log_state old mm (bufs ++ batches) l' ∧
    segments l' = [s] ∧ Log.contents (log s) = concat (bufs ++ batches) ++ drop (total (bufs ++ batches)) old.
Proof.
  intros Hmm Hr Ht Hp Hl Hls Hb Hn Htot.
  destruct (produce_batches_run old mm t k p batches w st bufs l) as (l' & Hrun & Hl'); [done..|].
  pose proof Hl' as (s & El & Hs). exists (with_replica w (partition_id p) l'), l', s.
  split; [|split_and!; [done|done|done|by rewrite El|apply Hs]].
  unfold handle_produce. cbn [for_each]. erewrite SM_bind_step; [reflexivity|]. cbn beta iota.
  erewrite SM_bind_step by (by apply read_topic). rewrite Ht.
  erewrite SM_bind_step by reflexivity. exact Hrun.
Qed.

(** A topic that was just created cannot be produced to.  The broker tells
    itself about the new partitions with a request that names none, so no replica
    is opened and a produce request for any of the partitions panics. *)
Theorem created_not_hosted w st name t :
  rc_room (bw_client w) (S (Z.to_nat (num_partitions t))) →
  represents (bw_store w) st → bs_topics st !! name = None → replicas w = ∅ → all_confirm →
  replication_factor t ≤ Z.of_nat (length (get_broker_ids config)) < 2 ^ 15 →
  ∃ res w', handle_create_topics config [(name, t)] w = (Ret res, w') ∧
    ∀ k bs, 0 ≤ k < num_partitions t → (handle_produce [(name, [batch k bs])] w').1 = Panic.
Proof.
  intros Hroom Hr Hnew He Hpeers Hf.
  destruct (create_topic_run w st name t 0 ltac:(by rewrite Nat.add_0_r) Hr Hnew Hf)
    as (o & w' & st' & topic & u & H & Hr' & Hl & _ & _ & Htop & Hps & Ho & _).
  apply Ho in Hpeers. destruct o as [res| |]; [|done..]. eexists _, w'. split; [exact H|]. intros k bs Hk. destruct (Hps k Hk) as (p & Hp & _).
  unfold handle_produce, batch. cbn [for_each].
  unfold mbind at 1, SM_bind at 1. erewrite (SM_bind_step _ _ w') by (by apply read_topic).
  rewrite Htop, lookup_insert_eq. erewrite SM_bind_step by reflexivity.
  unfold produce_one, mbind at 1, SM_bind at 1. cbn [pd_records pd_index].
  erewrite SM_bind_step by (by apply read_partition). rewrite Hp.
  erewrite SM_bind_step by reflexivity. erewrite SM_bind_step by reflexivity.
  by rewrite Hl, He, lookup_empty.
Qed.
End Facts.

(** ** Dispatch *)
(** The requests [handle_request] has a handler for. *)
Definition routed (req : RequestKind) : bool :=
  match req with
  | ApiVersionsRequest | MetadataRequest _ | CreateTopicsRequest _ | ListGroupsRequest
  | FindCoordinatorRequest => true
  | _ => false
  end.

(** What the codec decodes has a handler, so the catch-all panic of the dispatch
    cannot be reached from the network. *)
Theorem decoded_routed `{!KafkaDecoders} bs key version req :
  decode bs key version = Ret req → routed req = true.
Proof. destruct key; cbn; intros Hd; try done; by apply bind_Ret in Hd as (? & _ & [= <-]). Qed.

(** The broker advertises keys that its codec refuses: among them the produce
    requests of clients and the requests that brokers send each other when a
    topic is created. *)
Theorem advertised_refused `{!KafkaDecoders, !BrokerEnv} key bs version :
  key = ProduceKey ∨ key = FetchKey ∨ key = LeaderAndIsrKey →
  api_key_code key ∈ handle_api_versions.*1 ∧ is_ret (decode bs key version) = false.
Proof.
  intros Hkey. split; [|by destruct Hkey as [->|[->| ->]]].
  unfold handle_api_versions. apply (index_fold_keys api_key_code). left.
  apply list_elem_of_fmap_2. destruct Hkey as [->|[->| ->]]; set_solver.
Qed.

(** ** Witnesses *)
#[export] Instance demo_broker_env : BrokerEnv := {|
  shuffle _ l := reverse l;
  new_v4 n := Z.of_nat n `mod` 2 ^ 128;
  disk _ := demo_disk;
  ip_to_string _ := "127.0.0.1";
  partition_default := {| mp_error_code := 0; mp_index := 0; mp_leader_id := 0; mp_leader_epoch := -1;
                          mp_replica_nodes := []; mp_isr_nodes := [] |};
  topic_default := {| mt_error_code := 0; mt_topic_id := 0; mt_partitions := [] |};
  unknown_topic_or_partition := 3;
  api_key_code k := match k with LeaderAndIsrKey => 4 | ApiVersionsKey => 18 | CreateTopicsKey => 19 | _ => 0 end;
  api_versions _ := (0, 0);
  request_header_default := {| request_api_key := 0; request_api_version := 0; correlation_id := 0; client_id := None |};
  peer_turns _ := Ret [KSend; KRegister];
  never _ := Err (ErrMsg "no answer");
|}.
#[export] Instance demo_broker_env_laws : BrokerEnvLaws.
Proof. split; [intros n l; apply reverse_Permutation|done]. Qed.
#[export] Instance demo_client : RaftClient :=
  {| rc_state := db; rc_store := id; propose := josefine_transition |}.
#[export] Instance demo_client_laws : RaftClientLaws.
Proof. refine {| rc_room _ _ := True |}. intros input s k v d _ H. by exists d. Defined.

Definition demo_peer (id : BrokerId) : Peer := {| peer_id := id; peer_ip := V4 2130706433; peer_port := 8844 |}.
Definition demo_broker : BrokerConfig := {|
  bc_id := 1; bc_ip := V4 2130706433; bc_port := 8844; data_dir := "/tmp"; broker_state_file := "/tmp";
  peers := [demo_peer 2; demo_peer 3];
|}.
Definition demo_alone : BrokerConfig := {|
  bc_id := 1; bc_ip := V4 2130706433; bc_port := 8844; data_dir := "/tmp"; broker_state_file := "/tmp"; peers := [];
|}.
Definition demo_at (d : db) (ls : gmap Uuid Log) : @BrokerWorld _ demo_client :=
  @Build_BrokerWorld _ demo_client d ls 0.
Definition demo_new : BrokerWorld := demo_at demo_db ∅.
Definition demo_creatable : CreatableTopic := {| num_partitions := 2; replication_factor := 2 |}.
Definition demo_single : CreatableTopic := {| num_partitions := 2; replication_factor := 1 |}.

Lemma metadata_answers_witness :
  ∃ w res, handle_metadata demo_broker (Some [Some "events"; Some "none"]) w = (Ret res, w) ∧
    mr_topics res =
      [("events", {| mt_error_code := 0; mt_topic_id := 7; mt_partitions := [
          {| mp_error_code := 0; mp_index := 0; mp_leader_id := 0; mp_leader_epoch := -1;
             mp_replica_nodes := []; mp_isr_nodes := [] |}] |});
       ("none", {| mt_error_code := 3; mt_topic_id := 0; mt_partitions := [] |})] ∧
    handle_metadata demo_broker (Some [None]) w = (Panic, w).
Proof.
  destruct demo_stored as (d & Hr). exists (demo_at d ∅).
  destruct (metadata_answers demo_broker (demo_at d ∅) _ (Some [Some "events"; Some "none"]) Hr) as (res & H1 & H2 & _).
  exists res. split; [exact H1|]. split; [rewrite H2; vm_compute; reflexivity|].
  exact (metadata_answers demo_broker (demo_at d ∅) _ (Some [None]) Hr).
Defined.

Lemma partitions_assigned_witness :
  ∃ ps w', make_partitions demo_broker "events" demo_creatable demo_new = (Ret ps, w') ∧
    length ps = 2%nat ∧ ∀ k p, ps !! k = Some p → length (assigned_replicas p) = 2%nat.
Proof.
  destruct (partitions_assigned demo_broker "events" demo_creatable demo_new) as [H _].
  - apply (bool_decide_unpack _). vm_compute. exact I.
  - done.
  - destruct H as (ps & w' & H1 & H2 & H3); [done|]. exists ps, w'. split; [done|]. split; [done|].
    intros k p Hp. destruct (H3 k p Hp) as (_ & _ & _ & _ & Hc & _). cbn in Hc. lia.
Defined.

(** Alone the broker returns; with peers it cannot reach it does not, but the
    partitions are stored. *)
Lemma create_topic_stores_witness :
  (∃ res w' st', handle_create_topics demo_alone [("events", demo_single)] demo_new = (Ret [("events", res)], w') ∧
    represents (bw_store w') st' ∧ is_Some (bs_partitions st' !! ("events", 1))) ∧
  (∃ o w' st', handle_create_topics demo_broker [("events", demo_creatable)] demo_new = (o, w') ∧ is_ret o = false ∧
    represents (bw_store w') st' ∧ is_Some (bs_partitions st' !! ("events", 1))).
Proof.
  split.
  - destruct (create_topic_stores demo_alone demo_new broker_empty "events" demo_single)
      as (o & w' & st' & topic & H1 & H2 & _ & _ & H3 & H4 & H5);
      [exact I|exact (represents_empty demo_db demo_db_empty)|done|done|].
    assert (is_ret o = true) as Ho. { apply H4. intros b Hb. by apply elem_of_nil in Hb. }
    destruct o as [l| |]; [|done..]. rewrite (H5 l eq_refl) in H1. eexists _, w', st'. split; [exact H1|].
    split; [exact H2|]. destruct (H3 1) as (p & Hp & _); [cbn; lia|]. exists p. exact Hp.
  - destruct (create_topic_stores demo_broker demo_new broker_empty "events" demo_creatable)
      as (o & w' & st' & topic & H1 & H2 & _ & _ & H3 & H4 & _);
      [exact I|exact (represents_empty demo_db demo_db_empty)|done|done|].
    exists o, w', st'. split; [exact H1|]. split; [|split; [exact H2|]].
    + apply not_true_iff_false. rewrite H4. intros H. destruct (H (demo_peer 2)) as [Hp|Hp]; [apply list_elem_of_here|done|].
      by vm_compute in Hp.
    + destruct (H3 1) as (p & Hp & _); [cbn; lia|]. exists p. exact Hp.
Defined.

Lemma created_not_hosted_witness :
  ∃ res w', handle_create_topics demo_alone [("events", demo_single)] demo_new = (Ret res, w') ∧
    (handle_produce [("events", [batch 0 [x01]])] w').1 = Panic.
Proof.
  destruct (created_not_hosted demo_alone demo_new broker_empty "events" demo_single)
    as (res & w' & H1 & H2);
    [exact I|exact (represents_empty demo_db demo_db_empty)|done|done|intros b Hb; by apply elem_of_nil in Hb|done|].
  exists res, w'. split; [exact H1|]. apply H2. cbn. lia.
Defined.

(** A broker that hosts the partition of a stored topic. *)
Lemma demo_hosting :
  ∃ w st topic l, represents (bw_store w) st ∧ bs_topics st !! "events" = Some topic ∧
    bs_partitions st !! ("events", 0) = Some (demo_partition 8 [1; 2]) ∧
    replicas w !! 8 = Some l ∧ log_state [x6f; x6c; x64] (mapped (DISK := demo_disk)) [] l.
Proof.
  destruct demo_stored as (d & Hr).
  destruct (ensure_partition_refines d _ (demo_partition 8 [1; 2]) Hr) as (d' & out & _ & Hr' & _).
  destruct (log_new_state (DISK := demo_disk)) as (l & _ & Hl); [done|].
  eexists (demo_at d' {[ 8 := l ]}), _, _, l.
  split; [exact Hr'|]. split; [reflexivity|]. split; [reflexivity|]. split; [|exact Hl].
  apply lookup_singleton_eq.
Qed.

Lemma produce_appends_witness :
  ∃ w w' l' s, handle_produce [("events", [batch 0 [x01; x02]; batch 0 [x03; x04]])] w = (Ret tt, w') ∧
    replicas w' !! 8 = Some l' ∧ segments l' = [s] ∧ Log.contents (log s) = [x01; x02; x03; x04].
Proof.
  destruct demo_hosting as (w & st & topic & l & Hr & Ht & Hp & Hl & Hls).
  destruct (produce_appends [x6f; x6c; x64] (mapped (DISK := demo_disk)) w st "events" topic 0
    (demo_partition 8 [1; 2]) l [] [[x01; x02]; [x03; x04]])
    as (w' & l' & s & H1 & _ & H2 & _ & H3 & H4);
    [rewrite length_mapped; done|exact Hr|exact Ht|exact Hp|exact Hl|exact Hls|by repeat constructor| |done|].
  - pose proof (length_mapped (DISK := demo_disk)). unfold MAX_BYTES_INDEX in *. cbn [length app]. lia.
  - exists w, w', l', s. split; [exact H1|]. split; [|by split].
    rewrite H2. apply lookup_insert_eq.
Defined.
