(* ===== verification/Service.v ===== *)
(** * The broker over Raft ([src/lib.rs], [src/raft/client.rs])

    [run] gives the broker a client of the Raft server and the two sides one
    [Store]: the broker reads it, the state machine behind the driver writes it.
    Here the broker's handlers run over the client of a cluster of one node, and
    the interface they rely on ([Broker.RaftClientLaws]) is proved of it. *)
From S2P Require Import Prelude Bytes Storage Chain Rpc Election Progress Config Raft.
From S2P Require Import Handle Fsm Tcp Server Invariants Demo Cluster Replication SingleNode Agreement Client.
From S2P Require Import Log Store Framing Kafka Broker.
Local Open Scope Z_scope.

Section Service.
Context {SLED : Sled} {BINC : Bincode Block} {ENV : Env} {BUILD : Build} {SENV : ServerEnv}
  {CODEC : StoreCodec} {BENV : BrokerEnv}.
#[local] Existing Instance JosefineFsm | 0.

(** The client of a node: the node, whose state machine holds the store, and the
    number of the next oneshot channel.  A proposal returns once the tasks of the
    node have emptied their queues; one that has no answer then waits for ever. *)
#[export] Instance node_client : RaftClient := {|
  rc_state := ServerNode * nat;
  rc_store s := d_fsm (sn_driver s.1);
  propose command s :=
    let '(res, n) := client_propose settle s.1 command s.2 in (default (never bytes) res, (n, S s.2));
|}.

(** [Broker::new] on the client of the node: no replica is open. *)
Definition broker_start (n : ServerNode) : @BrokerWorld _ node_client :=
  @Build_BrokerWorld _ node_client (n, 0%nat) ∅ 0.

Context {SLAWS : SledLaws} {BLAWS : BincodeLaws Block} {BMIN : BincodeMin Block 24}
  {UUID : ServerEnvLaws} {CLAWS : StoreCodecLaws} {BELAWS : BrokerEnvLaws}
  {KD : KafkaDecoders} {KP : KafkaProtocol} {FRAMES : LengthCodec}.
(** A client awaits the answer to its proposal. *)
Context (Hwait : ∀ c, waiting c = true).

(** The node is idle, has block numbers for [k] more proposals, and none of its
    answers is for a channel not yet made. *)
Definition node_room (s : ServerNode * nat) (k : nat) : Prop :=
  idle s.1 ∧ next_number s.1 + Z.of_nat k ≤ id_limit ∧
  Forall (λ a, (a.1 < s.2)%nat) (answers (sn_loop s.1)).

Lemma node_propose input s k v d :
  node_room s (S k) → josefine_transition input (rc_store s) = (Ret v, d) →
  ∃ s', propose input s = (Ret v, s') ∧ rc_store s' = d ∧ node_room s' k.
Proof.
  destruct s as [n c]. intros (Hi & Hlim & Ha) Ht. cbn in *.
  destruct (propose_ok n input c (Ret v) d) as (n' & Hrun & Hi' & Hn' & Hf & Ha').
  - done.
  - lia.
  - done.
  - intros Hc. apply list_elem_of_fmap in Hc as (a & -> & Hin). rewrite Forall_forall in Ha.
    specialize (Ha a Hin). lia.
  - done.
  - done.
  - exists (n', S c). rewrite Hrun. split_and!; [done|done|]. split_and!; [done|cbn; lia|].
    cbn. rewrite Ha'. apply Forall_app. split; [|repeat constructor; cbn; lia].
    eapply Forall_impl; [exact Ha|]. cbn. lia.
Qed.

Definition node_client_laws : RaftClientLaws :=
  {| rc_room := node_room; propose_spec := node_propose |}.

Variable config : BrokerConfig.

(** A topic created on a single node, by the handler of the request.  A server
    without peers started on empty directories leads after finitely many ticks;
    a [CreateTopics] request handled by its broker then succeeds: each proposal
    becomes a block, is committed, applied by the driver to the shared store and
    answered, so the store ends up with the topic and all of its partitions, and
    the node is idle again. *)
Theorem topic_created_through_raft rconfig d f a n0 name t :
  nodes rconfig = [] → Storage.contents d = ∅ → Storage.contents f = ∅ → server_new rconfig d f a = Ret n0 →
  (∀ T, ∃ i, ∀ j, (i ≤ j)%nat → T < clock j) →
  all_confirm config →
  replication_factor t ≤ Z.of_nat (length (get_broker_ids config)) < 2 ^ 15 →
  num_partitions t < id_limit - 2 →
  ∃ ticks, let n := inputs (replicate ticks ITick) n0 in
  ∃ n' c w' st topic u,
    handle_create_topics config [(name, t)] (broker_start n) =
      (Ret [(name, {| ctr_topic_id := topic_id topic; ctr_num_partitions := num_partitions t;
                      ctr_replication_factor := replication_factor t |})], w') ∧
    bw_client w' = (n', c) ∧ idle n' ∧ represents (d_fsm (sn_driver n')) st ∧
    topic_id topic = new_v4 u ∧ bs_topics st = {[name := topic]} ∧
    ∀ k, 0 ≤ k < num_partitions t →
      ∃ p, bs_partitions st !! (name, k) = Some p ∧ assigned config name t k p.
Proof.
  intros Hn Hd Hf Hs Hclock Hpeers Hrep Hnum.
  destruct (server_new_leads (FSM := JosefineFsm) rconfig d f a n0 Hn Hd Hs Hclock) as (ticks & Hi & Hnext & Hfsm & Ha).
  exists ticks. cbv zeta in *. set (n := inputs (replicate ticks ITick) n0) in *.
  destruct (create_topic_run (RLAWS := node_client_laws) config (broker_start n) broker_empty name t 0)
    as (o & w' & st & topic & u & Hrun & Hrep' & _ & Hroom & Hid & Htop & Hps & Ho & Hres); try done.
  - change (node_room (n, 0%nat) (S (Z.to_nat (num_partitions t) + 0))).
    unfold node_room. cbn [fst snd]. rewrite Ha, Hnext. split_and!; [done|unfold id_limit in *; lia|done].
  - unfold bw_store. cbn. rewrite Hfsm. by apply represents_empty.
  - apply Ho in Hpeers. destruct o as [l| |]; [|done..]. rewrite (Hres l eq_refl) in Hrun.
    unfold bw_store in Hrep'. destruct (bw_client w') as [n' c] eqn:Hc.
    exists n', c, w', st, topic, u. destruct Hroom as (Hi' & _).
    split_and!; try done.
    intros k Hk. destruct (Hps k Hk) as (p & ? & ? & _). by exists p.
Qed.
End Service.

(** ** A node for the witnesses *)
#[local] Existing Instance JosefineFsm | 0.
Definition demo_josefine0 : ServerNode := {|
  sn_loop := sn_loop demo_node0; sn_driver := @driver_new JosefineFsm demo_db;
  sn_world := demo_world; rpc_read := 0; fsm_read := 0; alive := true;
|}.
Definition demo_josefine : ServerNode :=
  ret_or demo_josefine0 (server_new (FSM := JosefineFsm) (demo_config 1 []) mem_empty demo_db 0).
