(* ===== verification/Gateway.v ===== *)
(** * Connections of Kafka clients ([src/broker/tcp.rs], [src/broker/server.rs])

    A connection reads requests, hands each to the broker over a channel, waits
    for the answer and writes it back, with the correlation id of the request,
    before it reads the next one. *)
From S2P Require Import Prelude Bytes Log Storage Config Chain Rpc Raft Fsm Demo Store Framing Kafka Broker.
Local Open Scope Z_scope.

Section Ops.
Context {SLED : Sled} {CODEC : StoreCodec} {ENV : BrokerEnv} {CLIENT : RaftClient} {BUILD : Build}
  {KD : KafkaDecoders} {KP : KafkaProtocol} {FRAMES : LengthCodec}.
Context (config : BrokerConfig).

(** The requests a connection has carried, and how it stands. *)
Definition requests_of (src : bytes) : list (RequestHeader * RequestKind) * outcome bytes :=
  read_all (framed server_decode) src.

(** The response to a request. *)
Definition respond_to (header : RequestHeader) (res : ResponseKind) : outcome bytes :=
  server_encode (request_api_version header) {| rh_correlation_id := correlation_id header |} res.

(** The body of the loop of [stream_messages]: the request goes through
    [handle_messages] of the server, whose failure drops the channel of the
    answer. *)
Definition connection_step (out : bytes) (item : RequestHeader * RequestKind) : SM BrokerWorld bytes :=
  res ← handle_request config item.2;
  bs ← lift (respond_to item.1 res);
  mret (out ++ bs).

(** [stream_messages] on what arrived: the bytes written back. *)
Definition serve_connection (src : bytes) : SM BrokerWorld bytes :=
  out ← sfold connection_step [] (requests_of src).1;
  _ ← lift ((requests_of src).2);
  mret out.
End Ops.

Section Facts.
Context {SLED : Sled} {CODEC : StoreCodec} {ENV : BrokerEnv} {CLIENT : RaftClient} {BUILD : Build}
  {KD : KafkaDecoders} {KP : KafkaProtocol} {FRAMES : LengthCodec}
  {KLAWS : KafkaLaws} {FLAWS : LengthCodecLaws}.
Context (config : BrokerConfig).

(** The pass of the broker over the requests of a connection. *)
Lemma handle_messages_snoc l msg w rs w1 res w2 :
  handle_messages config l w = (Ret rs, w1) → handle_request config msg w1 = (Ret res, w2) →
  handle_messages config (l ++ [(msg, true)]) w = (Ret (rs ++ [res]), w2).
Proof.
  unfold handle_messages. intros H1 H2.
  assert (∀ A (f : A → RequestKind * bool → SM BrokerWorld A) l1 l2 a w a1 w1,
    sfold f a l1 w = (Ret a1, w1) → sfold f a (l1 ++ l2) w = sfold f a1 l2 w1) as Happ.
  { intros A f l1 l2. induction l1 as [|x l1 IH]; intros a w0 a1 w1' H; cbn in *.
    - by injection H as <- <-.
    - apply SM_bind_Ret in H as (a2 & w3 & Hx & H). rewrite (SM_bind_step _ _ _ _ _ Hx). by apply IH. }
  rewrite (Happ _ _ _ _ _ _ _ _ H1). cbn [sfold].
  erewrite SM_bind_step; [reflexivity|]. rewrite (SM_bind_step _ _ _ _ _ H2). reflexivity.
Qed.

Lemma connection_run items : ∀ out w out' w',
  sfold (connection_step config) out items w = (Ret out', w') →
  ∃ rs fs, out' = out ++ concat fs ∧
    (∀ l0 w0 rs0, handle_messages config l0 w0 = (Ret rs0, w) →
      handle_messages config (l0 ++ ((λ i, (i.2, true)) <$> items)) w0 = (Ret (rs0 ++ rs), w')) ∧
    Forall2 (λ i x, respond_to i.1 x.1 = Ret x.2) items (zip rs fs) ∧ length rs = length fs.
Proof.
  induction items as [|i items IH]; intros out w out' w' H; cbn [sfold] in H.
  - apply mret_Ret in H as [<- <-]. exists [], []. rewrite app_nil_r. split_and!; try done.
    intros l0 w0 rs0 H0. by rewrite !app_nil_r.
  - apply SM_bind_Ret in H as (out1 & w1 & H1 & H). unfold connection_step in H1.
    apply SM_bind_Ret in H1 as (res & w2 & Hres & H1). apply SM_bind_Ret in H1 as (bs & w3 & Hbs & H1).
    apply lift_Ret in Hbs as [Hbs ->]. apply mret_Ret in H1 as [-> ->].
    destruct (IH _ _ _ _ H) as (rs & fs & -> & Hm & Hz & Hlen).
    exists (res :: rs), (bs :: fs). cbn. split_and!; [by rewrite <-app_assoc| | |lia].
    + intros l0 w0 rs0 H0. rewrite (cons_middle _ l0), app_assoc, (cons_middle _ rs0), (app_assoc rs0).
      apply Hm. by eapply handle_messages_snoc.
    + by constructor.
Qed.

(** The number of a response. *)
Definition response_id (v : Z) (bs : bytes) : outcome Z :=
  '(h, _) ← response_header_decode bs v; Ret (rh_correlation_id h).

(** The key of a response that can be encoded. *)
Definition response_key (res : ResponseKind) : ApiKey :=
  match res with
  | ApiVersionsResponse _ => ApiVersionsKey
  | MetadataResponseKind _ => MetadataKey
  | CreateTopicsResponse _ => CreateTopicsKey
  | ListGroupsResponse => ListGroupsKey
  | _ => FindCoordinatorKey
  end.

Lemma respond_to_id header res f :
  respond_to header res = Ret f →
  ∃ p, frame_encode p = Ret f ∧
    encode {| rh_correlation_id := correlation_id header |} res (request_api_version header) = Ret p ∧
    response_id (response_header_version (response_key res) (request_api_version header)) p =
      Ret (correlation_id header).
Proof.
  unfold respond_to, server_encode. intros (p & Hp & Hf)%bind_Ret. exists p. split_and!; [done..|].
  assert (encode_with (response_key res) {| rh_correlation_id := correlation_id header |} res
    (request_api_version header) = Ret p) as He by (by destruct res).
  unfold encode_with in He. apply bind_Ret in He as (hb & Hh & He). apply bind_Ret in He as (b & _ & [= <-]).
  unfold response_id. rewrite (response_header_roundtrip {| rh_correlation_id := correlation_id header |} _ hb b).
  - done.
  - unfold as_encode_error in Hh. by case_match; simplify_eq.
Qed.

(** What was written back for the request [i] whose answer is [x.1]. *)
Definition written (i : RequestHeader * RequestKind) (x : ResponseKind * bytes) : Prop :=
  let version := request_api_version i.1 in
  encode {| rh_correlation_id := correlation_id i.1 |} x.1 version = Ret x.2 ∧
  response_id (response_header_version (response_key x.1) version) x.2 = Ret (correlation_id i.1).

Lemma payloads_of items rs : ∀ fs,
  Forall2 (λ i x, respond_to i.1 x.1 = Ret x.2) items (zip rs fs) → length rs = length fs →
  ∃ ps, Forall2 (λ p f, frame_encode p = Ret f) ps fs ∧ Forall2 written items (zip rs ps).
Proof.
  revert items. induction rs as [|r rs IH]; intros items [|f fs] Hz Hlen; try done.
  { inversion_clear Hz. by exists []. }
  cbn in Hz. inversion Hz as [|i ? items' ? Hr Hz']; subst.
  destruct (IH items' fs Hz' ltac:(by injection Hlen)) as (ps & Hps & Hids).
  destruct (respond_to_id _ _ _ Hr) as (p & Hp & He & Hid). exists (p :: ps). by repeat constructor.
Qed.

(** A connection answers in order. When a connection has been served, the
    broker has handled its requests one after the other and nothing else; what
    was written back can be read as one frame per request, in order, and each is
    the encoding of the broker's response to that request at the version of the
    request, with the request's correlation id in its header. *)
Theorem connection_in_order src w out w' :
  serve_connection config src w = (Ret out, w') →
  let items := (requests_of src).1 in
  ∃ rs ps, handle_messages config ((λ i, (i.2, true)) <$> items) w = (Ret rs, w') ∧
    read_all (framed Ret) out = (ps, Ret []) ∧
    length rs = length items ∧ length ps = length items ∧ Forall2 written items (zip rs ps).
Proof.
  intros H items. unfold serve_connection in H. apply SM_bind_Ret in H as (out1 & w1 & H & Hend).
  apply SM_bind_Ret in Hend as (rest & w2 & [_ ->]%lift_Ret & [<- <-]%mret_Ret). fold items in H.
  destruct (connection_run items [] w _ _ H) as (rs & fs & -> & Hm & Hz & Hlen).
  destruct (payloads_of items rs fs Hz Hlen) as (ps & Hps & Hids).
  pose proof (Forall2_length _ _ _ Hps) as Hlp. pose proof (Forall2_length _ _ _ Hids) as Hli.
  rewrite length_zip in Hli. exists rs, ps. split_and!; [by apply (Hm [] w [])| |lia..|done].
  pose proof (read_frames Ret ps fs [] Hps frame_nil) as Hread.
  assert (∀ l : list bytes, decode_each Ret l = (l, Ret tt)) as Hid.
  { induction l as [|x l IH]; [done|]. cbn. by rewrite IH. }
  by rewrite Hid, app_nil_r in Hread.
Qed.
End Facts.

(** ** Witness: a connection that carries one request *)
Definition demo_replies : outcome bytes * BrokerWorld :=
  serve_connection demo_broker (demo_frame 19 (CreateTopicsRequest [])) demo_new.

Lemma connection_in_order_witness :
  ∃ rs ps, handle_messages demo_broker [(CreateTopicsRequest [], true)] demo_new = (Ret rs, demo_replies.2) ∧
    read_all (framed Ret) (ret_or [] demo_replies.1) = (ps, Ret []) ∧ length rs = 1%nat.
Proof.
  assert (is_ret demo_replies.1 = true) as Hr by (vm_compute; reflexivity).
  apply (run_ret []) in Hr.
  destruct (connection_in_order demo_broker (demo_frame 19 (CreateTopicsRequest [])) demo_new
    (ret_or [] demo_replies.1) demo_replies.2 Hr) as (rs & ps & H1 & H2 & H3 & _).
  exists rs, ps. split; [|split; [exact H2|rewrite H3; vm_compute; reflexivity]].
  rewrite <-H1. f_equal.
Defined.
