(* ===== verification/Frontend.v ===== *)
(** * The front of the broker ([src/broker/server.rs], [src/broker/tcp.rs])

    All connections of a broker together: [receive_task] accepts them, the loop of
    each ([stream_messages]) puts one request at a time on a channel and waits for
    its answer, and [handle_messages] serves the channel.  The steps of the tasks
    are interleaved at will. *)
From S2P Require Import Prelude Bytes Log Storage Config Chain Rpc Raft Fsm Demo Store Framing Kafka Broker Gateway.
Local Open Scope Z_scope.

Section Ops.
Context {SLED : Sled} {CODEC : StoreCodec} {ENV : BrokerEnv} {CLIENT : RaftClient} {BUILD : Build}
  {KD : KafkaDecoders} {KP : KafkaProtocol} {FRAMES : LengthCodec}.
Context (config : BrokerConfig).

Abbreviation Item := (RequestHeader * RequestKind)%type.

(** The loop of a connection: what was read, how many requests it put on the
    channel, the request whose answer it waits for, the answer in its one-shot
    channel, what it wrote, and whether it is still running. *)
Record Connection : Type := {
  k_in : list Item * outcome bytes;
  k_taken : nat;
  k_waiting : option RequestHeader;
  k_answer : option ResponseKind;
  k_out : bytes;
  k_open : bool;
}.
Definition connection_new : Connection := {|
  k_in := ([], Ret []); k_taken := 0; k_waiting := None; k_answer := None; k_out := []; k_open := true |}.

(** [f_end]: how [handle_messages] ended, if it has. *)
Record Frontend : Type := {
  f_conns : list Connection;
  f_chan : list (nat * RequestKind);
  f_world : BrokerWorld;
  f_end : option (outcome unit);
}.
Definition frontend_new (w : BrokerWorld) : Frontend :=
  {| f_conns := []; f_chan := []; f_world := w; f_end := None |}.

Definition closed (c : Connection) : Connection :=
  {| k_in := k_in c; k_taken := k_taken c; k_waiting := None; k_answer := None;
     k_out := k_out c; k_open := false |}.

Definition with_conn (s : Frontend) (i : nat) (c : Connection) : Frontend :=
  {| f_conns := <[i := c]> (f_conns s); f_chan := f_chan s; f_world := f_world s; f_end := f_end s |}.

(** [receive_task]: a connection gets a task of its own, whose end is ignored. *)
Definition accept (s : Frontend) : Frontend :=
  {| f_conns := f_conns s ++ [connection_new]; f_chan := f_chan s; f_world := f_world s; f_end := f_end s |}.

(** [stream_in.try_next().await?] and [in_tx.send(..)?] of [stream_messages]: the
    next request goes to the server, which must still be there; an undecodable
    one ends the connection. *)
Definition take_request (s : Frontend) (i : nat) (c : Connection) : Frontend :=
  match (k_in c).1 !! k_taken c with
  | Some (header, message) =>
      match f_end s with
      | None =>
          {| f_conns := <[i := {| k_in := k_in c; k_taken := S (k_taken c); k_waiting := Some header;
                                  k_answer := None; k_out := k_out c; k_open := true |}]> (f_conns s);
             f_chan := f_chan s ++ [(i, message)]; f_world := f_world s; f_end := None |}
      | Some _ => with_conn s i (closed c)
      end
  | None => match (k_in c).2 with Ret _ => s | _ => with_conn s i (closed c) end
  end.

(** [cb_rx.await?] and [stream_out.send(..).await?]; [sent]: the socket takes it. *)
Definition write_answer (s : Frontend) (i : nat) (c : Connection) (header : RequestHeader) (sent : bool) : Frontend :=
  match k_answer c with
  | Some res =>
      match respond_to header res, sent with
      | Ret bs, true =>
          with_conn s i {| k_in := k_in c; k_taken := k_taken c; k_waiting := None; k_answer := None;
                           k_out := k_out c ++ bs; k_open := true |}
      | _, _ => with_conn s i (closed c)
      end
  | None => match f_end s with Some _ => with_conn s i (closed c) | None => s end
  end.

(** One turn of the loop of [handle_messages]: an error ends the task, and so
    does an answer nobody waits for, with a panic.  A handler that does not return
    ([never]) also keeps the loop from all later requests, and the loop counts as
    ended with that outcome, although the connections that wait for it are not closed
    then. *)
Definition serve (s : Frontend) : Frontend :=
  match f_end s, f_chan s with
  | None, (i, msg) :: chan =>
      let '(o, w) := handle_request config msg (f_world s) in
      match o with
      | Ret res =>
          match f_conns s !! i with
          | Some c =>
              if k_open c && bool_decide (is_Some (k_waiting c)) then
                {| f_conns := <[i := {| k_in := k_in c; k_taken := k_taken c; k_waiting := k_waiting c;
                                        k_answer := Some res; k_out := k_out c; k_open := true |}]> (f_conns s);
                   f_chan := chan; f_world := w; f_end := None |}
              else {| f_conns := f_conns s; f_chan := chan; f_world := w; f_end := Some Panic |}
          | None => {| f_conns := f_conns s; f_chan := chan; f_world := w; f_end := Some Panic |}
          end
      | Err e => {| f_conns := f_conns s; f_chan := chan; f_world := w; f_end := Some (Err e) |}
      | Panic => {| f_conns := f_conns s; f_chan := chan; f_world := w; f_end := Some Panic |}
      end
  | _, _ => s
  end.

Inductive FrontEvent : Type :=
| Accepted
| Arrived (i : nat) (piece : bytes)
| Step (i : nat) (sent : bool)
| Serve
| Stop.

Definition front_step (s : Frontend) (e : FrontEvent) : Frontend :=
  match e with
  | Accepted => accept s
  | Arrived i piece =>
      match f_conns s !! i with
      | Some c => with_conn s i {| k_in := feed (framed server_decode) (k_in c) piece; k_taken := k_taken c;
                                   k_waiting := k_waiting c; k_answer := k_answer c; k_out := k_out c;
                                   k_open := k_open c |}
      | None => s
      end
  | Step i sent =>
      match f_conns s !! i with
      | Some c =>
          if k_open c then
            match k_waiting c with
            | Some header => write_answer s i c header sent
            | None => take_request s i c
            end
          else s
      | None => s
      end
  | Serve => serve s
  | Stop => match f_end s with
            | None => {| f_conns := f_conns s; f_chan := []; f_world := f_world s; f_end := Some (Ret tt) |}
            | Some _ => s
            end
  end.

Definition front_run (w : BrokerWorld) (l : list FrontEvent) : Frontend :=
  foldl front_step (frontend_new w) l.
End Ops.

(** ** Order *)
Section Facts.
Context {SLED : Sled} {CODEC : StoreCodec} {ENV : BrokerEnv} {CLIENT : RaftClient} {BUILD : Build}
  {KD : KafkaDecoders} {KP : KafkaProtocol} {FRAMES : LengthCodec}.
Context (config : BrokerConfig).

(** What concerns connection [i], in order. *)
Definition of_conn {A} (i : nat) (l : list (nat * A)) : list A := (filter (λ x, x.1 = i) l).*2.
#[local] Arguments of_conn : simpl never.

Lemma of_conn_app {A} i (l l' : list (nat * A)) : of_conn i (l ++ l') = of_conn i l ++ of_conn i l'.
Proof. unfold of_conn. by rewrite filter_app, fmap_app. Qed.
Lemma of_conn_one {A} i j (x : A) : of_conn i [(j, x)] = if decide (j = i) then [x] else [].
Proof.
  unfold of_conn. destruct (decide (j = i)); [by rewrite filter_cons_True|by rewrite filter_cons_False].
Qed.
Lemma of_conn_none {A} i (l : list (nat * A)) : (∀ x, x ∈ l → x.1 ≠ i) → of_conn i l = [].
Proof.
  intros H. unfold of_conn. induction l as [|x l IH]; [done|]. rewrite filter_cons_False by (apply H; set_solver).
  apply IH. set_solver.
Qed.

(** The requests handled so far with their answers, each with its connection. *)
Abbreviation History := (list (nat * ((RequestHeader * RequestKind) * ResponseKind))).

Definition answered (x : (RequestHeader * RequestKind) * ResponseKind) (f : bytes) : Prop :=
  respond_to x.1.1 x.2 = Ret f.

(** A connection whose requests [mine] were handled and whose requests [q] are on
    the channel ([live]: the server runs). *)
Record conn_ok (live : bool) (mine : list ((RequestHeader * RequestKind) * ResponseKind))
    (q : list RequestKind) (c : Connection) : Prop := {
  co_items : mine.*1 `prefix_of` (k_in c).1;
  co_closed : k_open c = false → live = true → q = [];
  co_out : ∃ written fs rest, mine = written ++ rest ∧ k_out c = concat fs ∧ Forall2 answered written fs ∧
    (k_open c = true →
     match k_waiting c, k_answer c with
     | None, None => rest = [] ∧ k_taken c = length mine ∧ (live = true → q = [])
     | Some h, None => rest = [] ∧ k_taken c = S (length mine) ∧
         ∃ msg, (k_in c).1 !! length mine = Some (h, msg) ∧ (live = true → q = [msg])
     | Some h, Some res => k_taken c = length mine ∧ (live = true → q = []) ∧
         ∃ msg, rest = [((h, msg), res)]
     | None, Some _ => False
     end);
}.

Definition live (s : Frontend) : bool := match f_end s with None => true | Some _ => false end.

(** The handling of the next request of some connection ended so, after [H]. *)
Definition blamed (s : Frontend) (H : History) (w1 : BrokerWorld) (o : outcome ResponseKind) : Prop :=
  ∃ i c h msg, f_conns s !! i = Some c ∧ (k_in c).1 !! length (of_conn i H) = Some (h, msg) ∧
    handle_request config msg w1 = (o, f_world s).

(** How the server ended, if it has. *)
Definition ending (s : Frontend) (H : History) (w1 : BrokerWorld) : Prop :=
  match f_end s with
  | None | Some (Ret _) => f_world s = w1
  | Some (Err e) => blamed s H w1 (Err e)
  | Some Panic => blamed s H w1 Panic
  end.

Record front_ok (w0 : BrokerWorld) (s : Frontend) (H : History) : Prop := {
  fo_conns i c : f_conns s !! i = Some c → conn_ok (live s) (of_conn i H) (of_conn i (f_chan s)) c;
  fo_known i : (∃ x, (i, x) ∈ H) ∨ (∃ x, (i, x) ∈ f_chan s) → (i < length (f_conns s))%nat;
  fo_handled : ∃ w1,
    handle_messages config ((λ x, (x.2.1.2, true)) <$> H) w0 = (Ret ((λ x, x.2.2) <$> H), w1) ∧ ending s H w1;
}.

(** What the connections have read only grows. *)
Lemma ending_grows s s' H w1 :
  f_end s' = f_end s → f_world s' = f_world s →
  (∀ i c, f_conns s !! i = Some c → ∃ c', f_conns s' !! i = Some c' ∧ (k_in c).1 `prefix_of` (k_in c').1) →
  ending s H w1 → ending s' H w1.
Proof.
  intros He Hw Hg. unfold ending, blamed. rewrite He, Hw. destruct (f_end s) as [[| |]|]; try done;
    intros (i & c & h & msg & Hi & Hl & Hr); destruct (Hg i c Hi) as (c' & Hi' & Hpre); exists i, c', h, msg;
    (split_and!; [done|by eapply prefix_lookup_Some|done]).
Qed.

(** A connection that has not been heard of. *)
Lemma of_conn_unknown {A} i n (l : list (nat * A)) :
  (∀ j, (∃ x, (j, x) ∈ l) → (j < n)%nat) → (n ≤ i)%nat → of_conn i l = [].
Proof. intros Hk Hi. apply of_conn_none. intros [j x] Hx E. cbn in E. subst j.
  specialize (Hk i ltac:(by exists x)). lia. Qed.

(** One connection changes, and with it at most its part of the channel. *)
Lemma with_conn_ok w0 s H i c' :
  front_ok w0 s H → (∀ c, f_conns s !! i = Some c → (k_in c).1 `prefix_of` (k_in c').1) → conn_ok (live s) (of_conn i H) (of_conn i (f_chan s)) c' →
  front_ok w0 (with_conn s i c') H.
Proof.
  intros [Hc Hk (w1 & Hm & He)] Hin Hc'. split; cbn; [|by rewrite length_insert|].
  - intros j c [(-> & -> & _)|[_ Hj]]%list_lookup_insert_Some; [done|by apply Hc].
  - exists w1. split; [done|]. eapply ending_grows; [..|exact He]; [done|done|]. intros j c Hj. cbn.
    destruct (decide (j = i)) as [->|]; [|exists c; by rewrite list_lookup_insert_ne].
    exists c'. rewrite list_lookup_insert_eq by (by eapply lookup_lt_Some). by split; [|apply Hin].
Qed.

Lemma closed_ok l mine q c :
  conn_ok l mine q c → (l = true → q = []) → conn_ok l mine q (closed c).
Proof.
  intros [Hi _ (wr & fs & rest & Hm & Ho & Hf & _)] Hq. split; cbn; [done|done|]. exists wr, fs, rest. done.
Qed.

Lemma accept_ok w0 s H : front_ok w0 s H → front_ok w0 (accept s) H.
Proof.
  intros [Hc Hk (w1 & Hm & He)]. split; cbn; [|rewrite length_app; intros i Hi%Hk; lia|].
  2: { exists w1. split; [done|]. eapply ending_grows; [..|exact He]; [done|done|]. intros j c Hj. exists c. cbn.
       by rewrite (lookup_app_l_Some _ _ _ _ Hj). }
  intros i c [Hi|[Hi Hl]]%lookup_app_Some; [by apply Hc|].
  apply list_lookup_singleton_Some in Hl as [Hi0 <-].
  rewrite !(of_conn_unknown i (length (f_conns s))) by (lia || eauto).
  split; cbn; [apply prefix_nil|done|]. exists [], [], []. split_and!; [done..|by constructor|done].
Qed.

Lemma feed_prefix {A} (dec : bytes → outcome (option (A * bytes))) st piece : st.1 `prefix_of` (feed dec st piece).1.
Proof. unfold feed. destruct st as [l [rest| |]]; cbn [fst snd]; [|done..]. destruct (read_all dec (rest ++ piece)) as [l' o]. cbn. by exists l'. Qed.

Lemma arrived_ok w0 s H i c piece :
  front_ok w0 s H → f_conns s !! i = Some c → 
  front_ok w0 (front_step config s (Arrived i piece)) H.
Proof.
  intros Hs Hi. cbn. rewrite Hi. pose proof (feed_prefix (framed server_decode) (k_in c) piece) as Hpre.
  apply with_conn_ok; [done|by intros ? [= <-]%(eq_trans (eq_sym Hi))|].
  destruct (fo_conns _ _ _ Hs i c Hi) as [Hit Hcl (wr & fs & rest & Hm & Ho & Hf & Hst)].
  split; cbn; [by etrans|done|]. exists wr, fs, rest. split_and!; [done..|]. intros Hop. specialize (Hst Hop).
  destruct (k_waiting c) as [h|], (k_answer c); try done.
  destruct Hst as (? & ? & msg & Hl & ?). split_and!; [done..|]. exists msg. split; [|done].
  by eapply prefix_lookup_Some.
Qed.

Lemma take_request_ok w0 s H i c :
  front_ok w0 s H → f_conns s !! i = Some c → k_open c = true → k_waiting c = None →
  front_ok w0 (take_request s i c) H.
Proof.
  intros Hs Hi Hop Hw. pose proof (fo_conns _ _ _ Hs i c Hi) as Hc.
  pose proof Hc as [Hit _ (wr & fs & rest & Hm & Ho & Hf & Hst)]. specialize (Hst Hop). rewrite Hw in Hst.
  destruct (k_answer c); [done|]. destruct Hst as (-> & Ht & Hq).
  assert (front_ok w0 (with_conn s i (closed c)) H) as Hclosed by (apply with_conn_ok; [done|by intros ? [= <-]%(eq_trans (eq_sym Hi))|by apply closed_ok]).
  unfold take_request. destruct ((k_in c).1 !! k_taken c) as [[h msg]|] eqn:Hl; [|by destruct (k_in c).2].
  destruct (f_end s) eqn:He; [done|]. assert (live s = true) as Hlive by (unfold live; by rewrite He).
  destruct Hs as [Hcs Hk Hh]. rewrite Hlive in *. split; cbn.
  - intros j cj. rewrite of_conn_app, of_conn_one.
    intros [(<- & <- & _)|[Hne Hj]]%list_lookup_insert_Some.
    + rewrite decide_True by done. split; cbn; [done|done|]. exists wr, fs, [].
      rewrite (Hq eq_refl), <-Ht. split_and!; [done..|]. intros _. split_and!; [done..|]. by exists msg.
    + rewrite decide_False, app_nil_r by done. by apply Hcs.
  - rewrite length_insert. intros j [Hj|[x [Hj|Hj]%elem_of_app]]; [apply Hk; by left|apply Hk; eauto|].
    apply list_elem_of_singleton in Hj as [= -> _]. by apply lookup_lt_Some in Hi.
  - destruct Hh as (w1 & Hmsg & Hend). exists w1. split; [done|]. unfold ending in *. by rewrite He in Hend.
Qed.

Lemma write_answer_ok w0 s H i c h sent :
  front_ok w0 s H → f_conns s !! i = Some c → k_open c = true → k_waiting c = Some h →
  front_ok w0 (write_answer s i c h sent) H.
Proof.
  intros Hs Hi Hop Hw. pose proof (fo_conns _ _ _ Hs i c Hi) as Hc.
  pose proof Hc as [Hit _ (wr & fs & rest & Hm & Ho & Hf & Hst)]. specialize (Hst Hop). rewrite Hw in Hst.
  unfold write_answer. destruct (k_answer c) as [res|].
  - destruct Hst as (Ht & Hq & msg & ->).
    assert (front_ok w0 (with_conn s i (closed c)) H) as Hclosed by (apply with_conn_ok; [done|by intros ? [= <-]%(eq_trans (eq_sym Hi))|by apply closed_ok]).
    destruct (respond_to h res) as [bs| |] eqn:Hr; [|done..]. destruct sent; [|done].
    apply with_conn_ok; [done|by intros ? [= <-]%(eq_trans (eq_sym Hi))|]. split; cbn; [done|done|]. exists (wr ++ [((h, msg), res)]), (fs ++ [bs]), [].
    rewrite app_nil_r, concat_app, Ho. cbn. rewrite app_nil_r. split_and!; [done..| |done].
    apply Forall2_app; [done|]. by repeat constructor.
  - destruct (f_end s) eqn:He; [|done]. apply with_conn_ok; [done|by intros ? [= <-]%(eq_trans (eq_sym Hi))|]. apply closed_ok; [done|]. unfold live. by rewrite He.
Qed.

Lemma handle_messages_known (H : History) w0 w1 w2 x :
  handle_messages config ((λ x, (x.2.1.2, true)) <$> H) w0 = (Ret ((λ x, x.2.2) <$> H), w1) →
  handle_request config x.2.1.2 w1 = (Ret x.2.2, w2) →
  handle_messages config ((λ x, (x.2.1.2, true)) <$> H ++ [x]) w0 = (Ret ((λ x, x.2.2) <$> H ++ [x]), w2).
Proof. intros H1 H2. rewrite !fmap_app. by apply handle_messages_snoc with w1. Qed.

(** The front item of the channel belongs to a connection that waits for it. *)
Lemma chan_head w0 s H i msg chan :
  front_ok w0 s H → live s = true → f_chan s = (i, msg) :: chan →
  ∃ c h, f_conns s !! i = Some c ∧ k_open c = true ∧ k_waiting c = Some h ∧ k_answer c = None ∧
    (k_in c).1 !! length (of_conn i H) = Some (h, msg) ∧ of_conn i chan = [].
Proof.
  intros Hs Hlive Hch. destruct (lookup_lt_is_Some_2 (f_conns s) i) as [c Hi].
  { apply (fo_known _ _ _ Hs). right. exists msg. rewrite Hch. set_solver. }
  destruct (fo_conns _ _ _ Hs i c Hi) as [_ Hcl (wr & fs & rest & _ & _ & _ & Hst)].
  rewrite Hlive, Hch in *. change ((i, msg) :: chan) with ([(i, msg)] ++ chan) in *.
  rewrite of_conn_app, of_conn_one, decide_True in * by done.
  destruct (k_open c) eqn:Hop; [|by specialize (Hcl eq_refl eq_refl)]. specialize (Hst eq_refl).
  exists c. destruct (k_waiting c) as [h|], (k_answer c) as [res|]; [| | |].
  - destruct Hst as (_ & Hq & _). by specialize (Hq eq_refl).
  - exists h. destruct Hst as (_ & _ & m & Hl & Hq). specialize (Hq eq_refl). injection Hq as <- Hq. done.
  - done.
  - destruct Hst as (_ & _ & Hq). by specialize (Hq eq_refl).
Qed.

Lemma serve_ok w0 s H : front_ok w0 s H → ∃ H', front_ok w0 (serve config s) H' ∧ H `prefix_of` H'.
Proof.
  intros Hs. unfold serve. destruct (f_end s) as [o|] eqn:He; [by exists H|].
  destruct (f_chan s) as [|[i msg] chan] eqn:Hch; [by exists H|].
  assert (live s = true) as Hlive by (unfold live; by rewrite He).
  destruct (chan_head w0 s H i msg chan Hs Hlive Hch) as (c & h & Hi & Hop & Hw & Ha & Hl & Hnone).
  destruct Hs as [Hcs Hk (w1 & Hm & Hfw)]. unfold ending in Hfw. rewrite He in Hfw. rewrite Hfw. rewrite Hlive, Hch in *.
  assert (∀ j, (∃ x, (j, x) ∈ chan) → (j < length (f_conns s))%nat) as Hk'.
  { intros j [x Hx]. apply Hk. right. exists x. set_solver. }
  assert (∀ j cj, f_conns s !! j = Some cj → conn_ok false (of_conn j H) (of_conn j chan) cj) as Hdead.
  { intros j cj Hj. destruct (Hcs j cj Hj) as [? ? (wr & fs & rest & ? & ? & ? & Hst)]. split; [done..|].
    exists wr, fs, rest. split_and!; [done..|]. intros Hopj. specialize (Hst Hopj).
    destruct (k_waiting cj), (k_answer cj); naive_solver. }
  destruct (handle_request config msg w1) as [[res|e|] w2] eqn:Hreq.
  2-3: exists H; split; [|done]; split; cbn; [done|naive_solver|]; exists w1; (split; [done|]); by exists i, c, h, msg.
  rewrite Hi, Hop, Hw. cbn. exists (H ++ [(i, ((h, msg), res))]). split; [|by eexists]. split; cbn.
  - intros j cj. rewrite of_conn_app, of_conn_one. change (live _) with true.
    intros [(<- & <- & _)|[Hne Hj]]%list_lookup_insert_Some.
    + rewrite decide_True by done.
      destruct (Hcs i c Hi) as [Hit _ (wr & fs & rest & Hm' & Ho & Hf & Hst)].
      specialize (Hst Hop). rewrite Hw, Ha in Hst. destruct Hst as (-> & Ht & _).
      split; cbn; [|done|].
      * rewrite fmap_app. cbn. destruct Hit as [k Hit]. rewrite Hit in Hl |- *.
        rewrite lookup_app_r, length_fmap, Nat.sub_diag in Hl by (by rewrite length_fmap).
        destruct k as [|y k]; [done|]. injection Hl as ->. apply prefix_app. by exists k.
      * exists wr, fs, [((h, msg), res)]. rewrite app_nil_r in Hm'. rewrite Hm', length_app.
        split_and!; [done..|]. intros _. rewrite Hm' in Ht. split; [cbn; lia|]. split; [done|by exists msg].
    + rewrite decide_False, app_nil_r by done. pose proof (Hcs j cj Hj) as Hcj.
      change ((i, msg) :: chan) with ([(i, msg)] ++ chan) in Hcj.
      by rewrite of_conn_app, of_conn_one, decide_False in Hcj by done.
  - rewrite length_insert. intros j [[x [Hj|Hj]%elem_of_app]|Hj]; [apply Hk; eauto| |by apply Hk'].
    apply list_elem_of_singleton in Hj as [= -> _]. by apply lookup_lt_Some in Hi.
  - exists w2. split; [|done]. by apply (handle_messages_known H w0 w1 w2 (i, ((h, msg), res))).
Qed.

Lemma front_step_ok w0 s H e : front_ok w0 s H → ∃ H', front_ok w0 (front_step config s e) H' ∧ H `prefix_of` H'.
Proof.
  intros Hs. destruct e as [|i piece|i sent| |]; cbn [front_step].
  - exists H. split; [by apply accept_ok|done].
  - exists H. split; [|done]. destruct (f_conns s !! i) as [c|] eqn:Hi; [|done].
    pose proof (arrived_ok w0 s H i c piece Hs Hi) as Ha. cbn in Ha. by rewrite Hi in Ha.
  - exists H. split; [|done]. destruct (f_conns s !! i) as [c|] eqn:Hi; [|done]. destruct (k_open c) eqn:Hop; [|done].
    destruct (k_waiting c) eqn:Hw; [by apply write_answer_ok|by apply take_request_ok].
  - by eapply serve_ok.
  - exists H. split; [|done]. destruct (f_end s) eqn:He; [done|]. destruct Hs as [Hc Hk (w1 & Hm & Hh)]. unfold ending in Hh. rewrite He in Hh.
    split; cbn; [|by intros i [?|[x []%elem_of_nil]]; apply Hk; left|by exists w1]. intros i c Hi. destruct (Hc i c Hi) as [? _ (wr & fs & rest & ? & ? & ? & Hst)].
    split; [done..|]. exists wr, fs, rest. split_and!; [done..|]. intros Hop. specialize (Hst Hop).
    change (live _) with false. destruct (k_waiting c), (k_answer c); naive_solver.
Qed.

Lemma front_run_ok w0 l : ∃ H, front_ok w0 (front_run config w0 l) H.
Proof.
  unfold front_run. assert (∃ H, front_ok w0 (frontend_new w0) H) as Hs.
  { exists []. split; [done|by intros i [[x Hx]|[x Hx]]; apply elem_of_nil in Hx|]. by exists w0. }
  revert Hs. generalize (frontend_new w0). induction l as [|e l IH]; intros s [H Hs]; [by exists H|].
  cbn [foldl]. apply IH. destruct (front_step_ok w0 s H e Hs) as (H' & ? & _). by exists H'.
Qed.

(** C10: the broker serves its connections one request at a time and keeps them
    apart.  However the tasks of the connections and of the server are interleaved,
    there is one order of all requests handled, such that the broker is where
    handling them in that order left it, with those answers; the requests of each
    connection are handled in the order they came; and what a connection has
    written back is the answers to the first of its own requests, in order and
    none left out, all but at most the last while it is open.  The server only
    fails if the handling of the next request of some connection does ([ending]):
    there is always a connection waiting for its answer. *)
Theorem connections_in_order w0 l :
  let s := front_run config w0 l in
  ∃ (H : History) w1,
    handle_messages config ((λ x, (x.2.1.2, true)) <$> H) w0 = (Ret ((λ x, x.2.2) <$> H), w1) ∧
    ending s H w1 ∧
    ∀ i c, f_conns s !! i = Some c →
      let mine := of_conn i H in
      mine.*1 `prefix_of` (k_in c).1 ∧
      ∃ n fs, k_out c = concat fs ∧ Forall2 answered (take n mine) fs ∧
        (k_open c = true → (length mine ≤ S n)%nat).
Proof.
  intros s. destruct (front_run_ok w0 l) as [H [Hc _ (w1 & Hm & Hw)]]. exists H, w1.
  split_and!; [done..|]. intros i c Hi mine.
  destruct (Hc i c Hi) as [Hit _ (wr & fs & rest & Hmine & Ho & Hf & Hst)]. split; [done|].
  exists (length wr), fs. unfold mine. rewrite Hmine, take_app_length, length_app. split_and!; [done..|].
  intros Hop. specialize (Hst Hop). destruct (k_waiting c), (k_answer c); [|naive_solver (cbn; lia)..].
  destruct Hst as (_ & _ & msg & ->). cbn. lia.
Qed.
End Facts.

(** Two connections, served in the order of their requests and written to in the
    other. *)
Definition front_demo : Frontend :=
  front_run demo_broker demo_new
    [Accepted; Accepted; Arrived 0 (demo_frame 19 (CreateTopicsRequest []));
     Arrived 1 (demo_frame 19 (CreateTopicsRequest [])); Step 0 true; Step 1 true; Serve; Serve;
     Step 1 true; Step 0 true].

Example front_demo_answers :
  (λ c, (k_taken c, bool_decide (k_out c = []), k_open c)) <$> f_conns front_demo =
    [(1%nat, false, true); (1%nat, false, true)] ∧ f_end front_demo = None.
Proof. vm_compute. split; reflexivity. Qed.
