(* ===== verification/Settling.v ===== *)
(** * Every request is answered ([src/broker/server.rs], [src/broker/tcp.rs])

    The tasks of [Frontend] do not get stuck: each turn that does something brings
    the broker closer to the state in which all requests that have arrived are
    answered, and while one is not there is a task that can take such a turn. *)
From S2P Require Import Prelude Bytes Log Storage Config Chain Rpc Raft Fsm Demo Store Framing Kafka Broker Gateway.
From S2P Require Import Frontend.
Local Open Scope Z_scope.


Section Settling.
Context {SLED : Sled} {CODEC : StoreCodec} {ENV : BrokerEnv} {CLIENT : RaftClient} {BUILD : Build}
  {KD : KafkaDecoders} {KP : KafkaProtocol} {FRAMES : LengthCodec}.
Context (config : BrokerConfig).

(** The turns a connection still needs for what has arrived: three for each request
    it has not taken, two while one is with the server, one to write an answer. *)
Definition conn_work (c : Connection) : nat :=
  if k_open c then
    3 * (length (k_in c).1 - k_taken c) +
    match k_waiting c, k_answer c with None, _ => 0 | Some _, None => 2 | Some _, Some _ => 1 end
  else 0.

(** Those of all connections, and one more for the server to end. *)
Definition work (s : Frontend) : nat :=
  sum_list_with conn_work (f_conns s) + if live s then 1 else 0.


(** All requests of the connection that have arrived are answered. *)
Definition settled (c : Connection) : Prop := k_waiting c = None ∧ (length (k_in c).1 ≤ k_taken c)%nat.

#[global] Instance settled_dec c : Decision (settled c).
Proof. apply _. Defined.

(** The requests handled so far with their answers, each with its connection. *)
Abbreviation History := (list (nat * ((RequestHeader * RequestKind) * ResponseKind))).
















End Settling.

(** Two connections whose requests have arrived: four requests, twelve turns. *)
Definition busy_demo : Frontend :=
  front_run demo_broker demo_new
    [Accepted; Accepted; Arrived 0 (demo_frame 19 (CreateTopicsRequest []) ++ demo_frame 18 ApiVersionsRequest);
     Arrived 1 (demo_frame 18 ApiVersionsRequest ++ demo_frame 19 (CreateTopicsRequest []))].

Example busy_demo_work : work busy_demo = 13%nat ∧ f_end busy_demo = None.
Proof. vm_compute. split; reflexivity. Qed.
