(* ===== verification/Session.v ===== *)
(** * A client and its broker ([src/kafka/], [src/broker/tcp.rs], [src/broker/server.rs])

    A [KafkaClient] that is connected to a broker: the two tasks of the client, the
    connection between the two sides, which delivers the bytes written on either
    side in order and in any pieces, and the tasks of the broker, which serves other
    connections too. *)
From S2P Require Import Prelude Bytes Log Storage Config Chain Rpc Raft Fsm Demo Store Framing Kafka Broker Gateway.
From S2P Require Import Frontend.
Local Open Scope Z_scope.

Section Ops.
Context {SLED : Sled} {CODEC : StoreCodec} {ENV : BrokerEnv} {CLIENT : RaftClient} {BUILD : Build}
  {KD : KafkaDecoders} {KP : KafkaProtocol} {FRAMES : LengthCodec}.
Context (config : BrokerConfig).

(** The client, the broker, how many bytes each side has got of what the other
    wrote, and the bytes the client has not read yet. *)
Record Session : Type := {
  ss_client : KafkaConn;
  ss_front : Frontend;
  ss_up : nat;
  ss_down : nat;
  ss_buf : bytes;
}.

Inductive SessionEvent : Type :=
| SCall (header : RequestHeader) (request : RequestKind) (caller : nat)
| SWrite
| SRegister
| SUp (n : nat)
| SDown (n : nat)
| SRead (waits : bool)
| SServer (e : FrontEvent).

(** The client's connection is number [i] of the broker. *)
Variable i : nat.

Definition reaches (e : FrontEvent) : bool :=
  match e with Arrived j _ => bool_decide (j = i) | _ => false end.

Definition on_client (s : Session) (e : KafkaEvent) : outcome Session :=
  c ← kafka_step (ss_client s) e;
  Ret {| ss_client := c; ss_front := ss_front s; ss_up := ss_up s; ss_down := ss_down s; ss_buf := ss_buf s |}.

(** A step.  It fails if it makes one of the client's tasks fail. *)
Definition session_step (s : Session) (e : SessionEvent) : outcome Session :=
  match e with
  | SCall header request caller => on_client s (KCall header request caller)
  | SWrite => on_client s KSend
  | SRegister => on_client s KRegister
  | SUp n =>
      let piece := take n (drop (ss_up s) (cl_wire (ss_client s))) in
      Ret {| ss_client := ss_client s; ss_front := front_step config (ss_front s) (Arrived i piece);
             ss_up := ss_up s + length piece; ss_down := ss_down s; ss_buf := ss_buf s |}
  | SDown n =>
      let piece := take n (drop (ss_down s) (from_option k_out [] (f_conns (ss_front s) !! i))) in
      Ret {| ss_client := ss_client s; ss_front := ss_front s; ss_up := ss_up s;
             ss_down := ss_down s + length piece; ss_buf := ss_buf s ++ piece |}
  | SRead waits =>
      o ← frame_decode (ss_buf s);
      match o with
      | Some (p, rest) =>
          c ← kafka_step (ss_client s) (KReceive p waits);
          Ret {| ss_client := c; ss_front := ss_front s; ss_up := ss_up s; ss_down := ss_down s; ss_buf := rest |}
      | None => Ret s
      end
  | SServer e =>
      if reaches e then Ret s
      else Ret {| ss_client := ss_client s; ss_front := front_step config (ss_front s) e; ss_up := ss_up s;
                  ss_down := ss_down s; ss_buf := ss_buf s |}
  end.
End Ops.

Section Start.
Context {SLED : Sled} {CODEC : StoreCodec} {ENV : BrokerEnv} {CLIENT : RaftClient} {BUILD : Build}
  {KD : KafkaDecoders} {KP : KafkaProtocol} {FRAMES : LengthCodec}.
Context (config : BrokerConfig).

(** [KafkaClient::new] and [connect], to a broker that [before] happened to. *)
Definition session_start (w : BrokerWorld) (before : list FrontEvent) : Session :=
  {| ss_client := kafka_connect; ss_front := front_step config (front_run config w before) Accepted;
     ss_up := 0; ss_down := 0; ss_buf := [] |}.

Definition session_run (w : BrokerWorld) (before : list FrontEvent) (l : list SessionEvent) : outcome Session :=
  ofold (session_step config (length (f_conns (front_run config w before)))) (session_start w before) l.

(** The calls of the client. *)
Definition session_calls (l : list SessionEvent) : list (RequestHeader * RequestKind * nat) :=
  omap (λ e, match e with SCall h r k => Some (h, r, k) | _ => None end) l.
End Start.

Section Facts.
Context {SLED : Sled} {CODEC : StoreCodec} {ENV : BrokerEnv} {CLIENT : RaftClient} {BUILD : Build}
  {KD : KafkaDecoders} {KP : KafkaProtocol} {FRAMES : LengthCodec}
  {KLAWS : KafkaLaws} {FLAWS : LengthCodecLaws}.
Context (config : BrokerConfig).

(** ** What the client wrote *)

(** The payload and the frame of call number [k]. *)
Definition call_frame (k : nat) (call : RequestHeader * RequestKind * nat) (p f : bytes) : Prop :=
  ∃ hb b, let '(h, req, _) := call in
    request_header_encode (with_correlation (Z.of_nat k) h)
      (request_header_version (header_key req) (request_api_version h)) = Ret hb ∧
    request_encode req (request_api_version h) = Ret b ∧ p = hb ++ b ∧ frame_encode p = Ret f.

(** The first calls are on the wire, one frame each, and the others queued. *)
Definition wired (l : list KafkaEvent) (c : KafkaConn) : Prop :=
  ∃ sent ps fs, calls l = sent ++ cl_queue c ∧ cl_wire c = concat fs ∧
    cc_correlation_id (cl_codec c) = Z.of_nat (length sent) ∧
    length ps = length sent ∧ length fs = length sent ∧
    ∀ k call, sent !! k = Some call → ∃ p f, ps !! k = Some p ∧ fs !! k = Some f ∧ call_frame k call p f.

Lemma wired_same l e c c' :
  calls [e] = [] → cl_queue c' = cl_queue c → cl_wire c' = cl_wire c →
  cc_correlation_id (cl_codec c') = cc_correlation_id (cl_codec c) → wired l c → wired (l ++ [e]) c'.
Proof.
  intros He Hq Hw Hid (sent & ps & fs & ? & ? & ?). exists sent, ps, fs.
  by rewrite calls_snoc, He, app_nil_r, Hq, Hw, Hid.
Qed.

Lemma wired_send l c h req caller q fr c' :
  wired l c → cl_queue c = (h, req, caller) :: q → Z.of_nat (length (calls l)) < 2 ^ 31 →
  client_encode (cl_codec c) h req = (Ret fr, cl_codec c') → cl_queue c' = q → cl_wire c' = cl_wire c ++ fr →
  wired (l ++ [KSend]) c'.
Proof.
  intros (sent & ps & fs & Hl & Hw & Hid & Hps & Hfs & Hk) Hq Hlen Henc Hq' Hw'.
  destruct (client_encode_inv _ _ _ _ _ Henc) as (hb & b & Hh & Hb & Hf). rewrite Hid in Hh.
  rewrite Hl, Hq, length_app in Hlen. cbn in Hlen.
  exists (sent ++ [(h, req, caller)]), (ps ++ [hb ++ b]), (fs ++ [fr]).
  rewrite calls_snoc, app_nil_r, Hl, Hq, Hq', Hw', Hw, <-app_assoc, concat_app, !length_app, Hps, Hfs. cbn.
  rewrite app_nil_r. split_and!; [done..| |done|done|].
  - unfold client_encode in Henc. injection Henc as _ <-. cbn. rewrite Hid, i32_next_small; lia.
  - intros k call [Hk'|[Hge Hk']]%lookup_app_Some.
    + destruct (Hk k call Hk') as (p & f & ? & ? & ?). exists p, f.
      split_and!; [by apply lookup_app_l_Some..|done].
    + apply list_lookup_singleton_Some in Hk' as [Hz <-]. assert (k = length sent) as -> by lia.
      exists (hb ++ b), fr. rewrite !lookup_app_r, Hps, Hfs, Nat.sub_diag by lia. split_and!; [done..|].
      exists hb, b. done.
Qed.

Lemma wired_step l c e c' :
  wired l c → Z.of_nat (length (calls (l ++ [e]))) < 2 ^ 31 → kafka_step c e = Ret c' → wired (l ++ [e]) c'.
Proof.
  intros Hc Hlen Hs. destruct e as [h req caller| | |p w]; cbn [kafka_step] in Hs.
  - injection Hs as <-. destruct Hc as (sent & ps & fs & Hl & ?). exists sent, ps, fs. cbn.
    by rewrite calls_snoc, Hl, <-app_assoc.
  - destruct (cl_writing c) eqn:Hw; [injection Hs as <-; by apply (wired_same l _ c)|].
    destruct (cl_queue c) as [|[[h req] caller] q] eqn:Hq; [injection Hs as <-; by apply (wired_same l _ c)|].
    destruct (client_encode (cl_codec c) h req) as [o codec] eqn:Henc.
    apply bind_Ret in Hs as (fr & -> & [= <-]). rewrite calls_snoc, app_nil_r in Hlen. by eapply wired_send.
  - destruct (cl_writing c) as [[]|]; injection Hs as <-; by apply (wired_same l _ c).
  - destruct (client_decode (cl_codec c) p) as [o codec] eqn:Hd.
    apply bind_Ret in Hs as ([hdr res] & -> & Hs). apply bind_Ret in Hs as (caller & _ & Hs).
    apply bind_Ret in Hs as ([] & _ & [= <-]).
    apply client_decode_Ret in Hd as (? & ? & ? & _ & _ & _ & _ & ->). by apply (wired_same l _ c).
Qed.

Lemma wired_run l c :
  ofold kafka_step kafka_connect l = Ret c → Z.of_nat (length (calls l)) < 2 ^ 31 → wired l c.
Proof.
  revert c. induction l as [|e l IH] using rev_ind; intros c Hr Hlen.
  - injection Hr as <-. exists [], [], []. by split_and!.
  - rewrite ofold_snoc in Hr. apply bind_Ret in Hr as (c1 & H1 & Hr). eapply wired_step; [apply IH; [done|]|done|done].
    rewrite calls_snoc, length_app in Hlen. lia.
Qed.

(** ** The connection *)
Lemma front_step_conn s i c e :
  f_conns s !! i = Some c → (∀ piece, e ≠ Arrived i piece) →
  ∃ c', f_conns (front_step config s e) !! i = Some c' ∧ k_in c' = k_in c ∧ k_out c `prefix_of` k_out c'.
Proof.
  intros Hi He.
  assert (∀ s' j c2, f_conns s' = <[j := c2]> (f_conns s) → (j = i → k_in c2 = k_in c ∧ k_out c `prefix_of` k_out c2) →
    ∃ c', f_conns s' !! i = Some c' ∧ k_in c' = k_in c ∧ k_out c `prefix_of` k_out c') as Hins.
  { intros s' j c2 -> Hj. destruct (decide (j = i)) as [->|Hne].
    - exists c2. rewrite list_lookup_insert_eq by (by eapply lookup_lt_Some). by split; [|apply Hj].
    - exists c. by rewrite list_lookup_insert_ne. }
  assert (∃ c', f_conns s !! i = Some c' ∧ k_in c' = k_in c ∧ k_out c `prefix_of` k_out c') as Hsame by eauto.
  destruct e as [|j piece|j sent| |]; cbn [front_step].
  - exists c. cbn. by rewrite (lookup_app_l_Some _ _ _ _ Hi).
  - destruct (f_conns s !! j) as [cj|]; [|done]. eapply Hins; [done|]. intros ->. by destruct (He piece).
  - destruct (f_conns s !! j) as [cj|] eqn:Hj; [|done]. destruct (k_open cj); [|done].
    unfold write_answer, take_request, closed, with_conn.
    repeat case_match; try done; (eapply Hins; [done|]); intros ->; rewrite Hi in Hj; injection Hj as <-; cbn;
      (split; [done|]); try done; by apply prefix_app_r.
  - unfold serve. repeat case_match; try done. eapply Hins; [done|]. intros ->. simplify_eq. done.
  - by case_match.
Qed.

Lemma read_nil {A} (f : bytes → outcome A) : read_all (framed f) [] = ([], Ret []).
Proof. unfold read_all. cbn. unfold framed. by rewrite frame_nil. Qed.

(** ** The whole session *)
Definition received (l : list KafkaEvent) : list bytes :=
  omap (λ e, match e with KReceive p _ => Some p | _ => None end) l.

Lemma received_snoc l e : received (l ++ [e]) = received l ++ received [e].
Proof. unfold received. by rewrite omap_app. Qed.

Definition session_inv (w0 : BrokerWorld) (i : nat) (cs : list (RequestHeader * RequestKind * nat)) (s : Session) : Prop :=
  ∃ l fl c, ofold kafka_step kafka_connect l = Ret (ss_client s) ∧ calls l = cs ∧
    ss_front s = front_run config w0 fl ∧ f_conns (ss_front s) !! i = Some c ∧
    ((ss_up s ≤ length (cl_wire (ss_client s)))%nat ∧
     k_in c = read_all (framed server_decode) (take (ss_up s) (cl_wire (ss_client s)))) ∧
    (ss_down s ≤ length (k_out c))%nat ∧ unframe (take (ss_down s) (k_out c)) (received l) (ss_buf s).

(** Nothing of the wire is taken back. *)
Lemma kafka_wire c e c' : kafka_step c e = Ret c' → cl_wire c `prefix_of` cl_wire c'.
Proof.
  intros Hs. destruct e; cbn [kafka_step] in Hs; repeat case_match; inv_run; repeat case_match; inv_run; cbn; try done;
    by apply prefix_app_r.
Qed.

Lemma take_prefix {A} (l l' : list A) n : l `prefix_of` l' → (n ≤ length l)%nat → take n l' = take n l.
Proof. intros [k ->] Hn. by rewrite take_app_le. Qed.

Lemma take_more {A} (l : list A) n m :
  take (n + length (take m (drop n l))) l = take n l ++ take m (drop n l).
Proof.
  rewrite <-take_take_drop. f_equal. rewrite length_take.
  destruct (decide (m ≤ length (drop n l))%nat); [by rewrite Nat.min_l|].
  rewrite Nat.min_r by lia. by rewrite !take_ge by lia.
Qed.

(** A step of the client, which may have read a payload. *)
Lemma client_step_inv w0 i cs s e c' ps buf' :
  session_inv w0 i cs s → kafka_step (ss_client s) e = Ret c' →
  received [e] = ps → (∀ src qs, unframe src qs (ss_buf s) → unframe src (qs ++ ps) buf') →
  session_inv w0 i (cs ++ calls [e])
    {| ss_client := c'; ss_front := ss_front s; ss_up := ss_up s; ss_down := ss_down s; ss_buf := buf' |}.
Proof.
  intros (l & fl & c & Hl & Hcs & Hf & Hi & [Hup Hin] & Hdn & Hun) Hs Hps Hbuf.
  pose proof (kafka_wire _ _ _ Hs) as Hw. exists (l ++ [e]), fl, c. cbn.
  rewrite ofold_snoc, Hl, calls_snoc, Hcs, received_snoc, Hps. cbn.
  split_and!; [done..|by apply prefix_length in Hw; lia| |done|by apply Hbuf].
  by rewrite (take_prefix _ _ _ Hw Hup).
Qed.

(** A step of the broker that brings the client's connection nothing. *)
Lemma server_step_inv w0 i cs s e :
  session_inv w0 i cs s → (∀ piece, e ≠ Arrived i piece) →
  session_inv w0 i cs {| ss_client := ss_client s; ss_front := front_step config (ss_front s) e; ss_up := ss_up s;
    ss_down := ss_down s; ss_buf := ss_buf s |}.
Proof.
  intros (l & fl & c & Hl & Hcs & Hf & Hi & [Hup Hin] & Hdn & Hun) He.
  destruct (front_step_conn _ i c e Hi He) as (c' & Hi' & Hin' & Hout). exists l, (fl ++ [e]), c'. cbn.
  unfold front_run. rewrite foldl_app. cbn. fold (front_run config w0 fl). rewrite <-Hf, Hin'.
  split_and!; [done..|by apply prefix_length in Hout; lia|]. by rewrite (take_prefix _ _ _ Hout Hdn).
Qed.

Lemma up_step_inv w0 i cs s n :
  session_inv w0 i cs s → ∃ s', session_step config i s (SUp n) = Ret s' ∧ session_inv w0 i cs s'.
Proof.
  intros (l & fl & c & Hl & Hcs & Hf & Hi & [Hup Hin] & Hdn & Hun). eexists. split; [done|].
  set (piece := take n (drop (ss_up s) (cl_wire (ss_client s)))).
  exists l, (fl ++ [Arrived i piece]). eexists. cbn [ss_client ss_front ss_up ss_down ss_buf].
  unfold front_run. rewrite foldl_app. cbn [foldl]. fold (front_run config w0 fl). rewrite <-Hf.
  split_and!; [done..| | | | |].
  - cbn [front_step]. rewrite Hi. cbn. rewrite list_lookup_insert_eq by (by eapply lookup_lt_Some). done.
  - unfold piece. rewrite length_take, length_drop. lia.
  - cbn [k_in]. unfold piece. by rewrite take_more, read_app, <-Hin.
  - done.
  - done.
Qed.

Lemma session_step_inv w0 i cs s e s' :
  session_inv w0 i cs s → session_step config i s e = Ret s' →
  session_inv w0 i (cs ++ session_calls [e]) s'.
Proof.
  intros Hs Hstep. destruct e as [h req caller| | |n|n|waits|e]; cbn [session_step session_calls omap list_omap] in *.
  - apply bind_Ret in Hstep as (c' & Hc & [= <-]). eapply (client_step_inv _ _ _ _ (KCall h req caller)); [done..|].
    intros. by rewrite app_nil_r.
  - apply bind_Ret in Hstep as (c' & Hc & [= <-]). eapply (client_step_inv _ _ _ _ KSend); [done..|].
    intros. by rewrite app_nil_r.
  - apply bind_Ret in Hstep as (c' & Hc & [= <-]). eapply (client_step_inv _ _ _ _ KRegister); [done..|].
    intros. by rewrite app_nil_r.
  - rewrite app_nil_r. destruct (up_step_inv w0 i cs s n Hs) as (s1 & [= <-] & H1). by injection Hstep as <-.
  - injection Hstep as <-. rewrite app_nil_r. destruct Hs as (l & fl & c & Hl & Hcs & Hf & Hi & Hin & Hdn & Hun).
    exists l, fl, c. cbn [ss_client ss_front ss_up ss_down ss_buf]. rewrite Hi. cbn [from_option].
    split_and!; try done; [by apply Hin..|rewrite length_take, length_drop; lia|].
    rewrite take_more. by apply unframe_more.
  - apply bind_Ret in Hstep as (o & Ho & Hstep). destruct o as [[p rest]|]; [|injection Hstep as <-; by rewrite app_nil_r].
    apply bind_Ret in Hstep as (c' & Hc & [= <-]). eapply (client_step_inv _ _ _ _ (KReceive p waits)); [done..|].
    intros src qs Hq. by eapply unframe_snoc.
  - rewrite app_nil_r. destruct (reaches i e) eqn:He; injection Hstep as <-; [done|]. apply server_step_inv; [done|].
    intros piece ->. cbn in He. by rewrite bool_decide_eq_true_2 in He.
Qed.

Lemma session_run_inv w0 before evs s :
  session_run config w0 before evs = Ret s →
  session_inv w0 (length (f_conns (front_run config w0 before))) (session_calls evs) s.
Proof.
  set (i := length _). unfold session_run. fold i. revert s.
  induction evs as [|e evs IH] using rev_ind; intros s Hr.
  - injection Hr as <-. exists [], (before ++ [Accepted]), connection_new.
    cbn [session_start ss_client ss_front ss_up ss_down ss_buf front_step cl_wire kafka_connect k_in k_out connection_new accept f_conns].
    assert (front_run config w0 (before ++ [Accepted]) = accept (front_run config w0 before)) as ->
      by (unfold front_run; by rewrite foldl_app).
    cbn [take]. rewrite lookup_app_r, Nat.sub_diag, read_nil by done. by split_and!.
  - rewrite ofold_snoc in Hr. apply bind_Ret in Hr as (s1 & H1 & Hr).
    unfold session_calls. rewrite omap_app. eapply session_step_inv; [by apply IH|done].
Qed.

(** ** Requests and responses *)

(** A call whose request the server can read. *)
Definition legible (call : RequestHeader * RequestKind * nat) : Prop := readable call.1.1 call.1.2.



(** What the server reads as request number [k] is call number [k]. *)
Lemma decode_calls sent ps fs : ∀ n,
  length ps = length sent → length fs = length sent → Forall legible sent →
  (∀ k call, sent !! k = Some call → ∃ p f, ps !! k = Some p ∧ fs !! k = Some f ∧ call_frame (n + k) call p f) →
  Forall2 (λ p b, frame_encode p = Ret b) ps fs ∧
  decode_each server_decode ps =
    (imap (λ k call, (with_correlation (Z.of_nat (n + k)) call.1.1, call.1.2)) sent, Ret tt).
Proof.
  revert ps fs. induction sent as [|[[h req] caller] sent IH]; intros [|p ps] [|f fs] n Hps Hfs Hok Hk; try done.
  apply Forall_cons in Hok as [Hread Hok']. unfold legible in Hread. cbn in Hread.
  destruct (Hk 0%nat (h, req, caller) eq_refl) as (p' & f' & [= <-] & [= <-] & hb & b & Hh & Hb & -> & Hf).
  destruct (IH ps fs (S n)) as [Hfr Hde]; [by injection Hps|by injection Hfs|done| |].
  { intros k call Hc. destruct (Hk (S k) call Hc) as (p' & f' & Hp' & Hf' & Hcf). exists p', f'.
    replace (S n + k)%nat with (n + S k)%nat by lia. done. }
  split; [by constructor|]. cbn [decode_each]. rewrite Nat.add_0_r in Hh.
  rewrite (request_decodes _ _ _ _ _ Hread Hh Hb), Hde. cbn. rewrite Nat.add_0_r. do 2 f_equal.
  apply imap_ext. intros k call _. cbn. by replace (S (n + k)) with (n + S k)%nat by lia.
Qed.

(** The answers of the broker are what its handlers return. *)
Lemma handle_messages_last l m b w rs w1 :
  handle_messages config (l ++ [(m, b)]) w = (Ret rs, w1) →
  ∃ rs1 w2 res, handle_messages config l w = (Ret rs1, w2) ∧ handle_request config m w2 = (Ret res, w1) ∧
    rs = rs1 ++ [res].
Proof.
  assert (∀ A B (f : A → B → SM BrokerWorld A) (a : A) xs x w a' w', sfold f a (xs ++ [x]) w = (Ret a', w') →
    ∃ a1 w2, sfold f a xs w = (Ret a1, w2) ∧ f a1 x w2 = (Ret a', w')) as Hsn.
  { intros A B f a xs x. revert a. induction xs as [|y xs IHx]; intros a w0 a' w' H; cbn in *.
    - apply SM_bind_Ret in H as (a2 & w2 & H2 & H). apply mret_Ret in H as [-> ->]. eauto.
    - apply SM_bind_Ret in H as (a2 & w2 & H2 & H). destruct (IHx _ _ _ _ H) as (a3 & w3 & H3 & H4).
      exists a3, w3. split; [|done]. by rewrite (SM_bind_step _ _ _ _ _ H2). }
  unfold handle_messages. intros (rs1 & w2 & H1 & Hr)%Hsn. apply SM_bind_Ret in Hr as (res & w3 & H3 & Hr).
  apply SM_bind_Ret in Hr as ([] & w4 & Hb & Hr). apply lift_Ret in Hb as [_ ->]. apply mret_Ret in Hr as [-> ->].
  by exists rs1, w2, res.
Qed.

Lemma handle_messages_length l w rs w1 : handle_messages config l w = (Ret rs, w1) → length rs = length l.
Proof.
  revert rs w1. induction l as [|[m b] l IH] using rev_ind; intros rs w1 H.
  - by apply mret_Ret in H as [-> _].
  - apply handle_messages_last in H as (rs1 & w2 & res & H & _ & ->). by rewrite !length_app, (IH _ _ H).
Qed.

Lemma handled_by l w rs w1 k msg r :
  handle_messages config l w = (Ret rs, w1) → l.*1 !! k = Some msg → rs !! k = Some r →
  ∃ w2 w3, handle_request config msg w2 = (Ret r, w3).
Proof.
  revert rs w1 k. induction l as [|[m b] l IH] using rev_ind; intros rs w1 k Hr Hl Hk; [done|].
  apply handle_messages_last in Hr as (rs1 & w2 & res & H1 & H2 & ->).
  pose proof (handle_messages_length _ _ _ _ H1) as Hlen. rewrite fmap_app in Hl.
  apply lookup_app_Some in Hl as [Hl|[Hge Hl]].
  - apply (IH rs1 w2 k H1 Hl). rewrite lookup_app_l in Hk; [done|]. rewrite Hlen, <-(length_fmap fst). by eapply lookup_lt_Some.
  - rewrite length_fmap in *. apply list_lookup_singleton_Some in Hl as [Hz <-].
    rewrite lookup_app_r, Hlen, Hz in Hk by lia. injection Hk as <-. eauto.
Qed.

Lemma handled_key msg w r w' key :
  handle_request config msg w = (Ret r, w') → shared_key msg = Some key → response_key r = key.
Proof.
  destruct msg; try done; cbn; intros H [= <-].
  - by apply mret_Ret in H as [-> _].
  - by apply SM_bind_Ret in H as (res & w1 & _ & [-> _]%mret_Ret).
Qed.

(** The response written for request number [k] of the connection [i], with its
    place in the history of the broker. *)
Definition response_of_call (w0 : BrokerWorld) (i k : nat) (call : RequestHeader * RequestKind * nat) (r : ResponseKind) : Prop :=
  let '(h, req, _) := call in
  ∃ (H : list (nat * ((RequestHeader * RequestKind) * ResponseKind))) w1,
    handle_messages config ((λ x, (x.2.1.2, true)) <$> H) w0 = (Ret ((λ x, x.2.2) <$> H), w1) ∧
    of_conn i H !! k = Some ((with_correlation (Z.of_nat k) h, req), r).

Lemma of_conn_elem {A} i (l : list (nat * A)) x : x ∈ of_conn i l → (i, x) ∈ l.
Proof.
  unfold of_conn. intros ([j y] & -> & [Hj Hin]%list_elem_of_filter)%list_elem_of_fmap. cbn in *. by subst.
Qed.

Lemma handled_call w0 i k h req caller r :
  response_of_call w0 i k (h, req, caller) r → ∃ w2 w3, handle_request config req w2 = (Ret r, w3).
Proof.
  intros (H & w1 & Hm & Hk). apply list_elem_of_lookup_2, of_conn_elem, list_elem_of_lookup in Hk as [j Hj].
  apply (handled_by _ _ _ _ j req r Hm); [by rewrite !list_lookup_fmap, Hj|by rewrite list_lookup_fmap, Hj].
Qed.


Lemma decode_each_take {A} (f : bytes → outcome A) ps l m :
  decode_each f ps = (l, Ret tt) → decode_each f (take m ps) = (take m l, Ret tt).
Proof.
  revert ps l. induction m as [|m IH]; intros [|p ps] l; cbn; [done|done|by intros [= <-]|].
  destruct (f p) as [a| |]; [|done..]. destruct (decode_each f ps) as [l1 o] eqn:Hd. intros [= <- ->].
  by rewrite (IH ps l1 Hd).
Qed.

(** The requests the broker has read are the first calls, with their numbers. *)
Lemma read_calls l c n items o :
  wired l c → Forall legible (calls l) → read_all (framed server_decode) (take n (cl_wire c)) = (items, o) →
  ∀ k x, items !! k = Some x → ∃ call, calls l !! k = Some call ∧ x = (with_correlation (Z.of_nat k) call.1.1, call.1.2).
Proof.
  intros (sent & ps & fs & Hsent & -> & _ & Hps & Hfs & Hk) Hok Hread k x Hx.
  rewrite Hsent in Hok. apply Forall_app in Hok as [Hok _].
  destruct (decode_calls sent ps fs 0 Hps Hfs Hok Hk) as [Hfr Hde]. cbn [Nat.add] in Hde.
  destruct (frames_prefix ps fs (take n (concat fs)) Hfr) as (m & tail & Hsrc & Htail).
  { exists (drop n (concat fs)). by rewrite take_drop. }
  pose proof (read_frames server_decode (take m ps) (take m fs) tail (Forall2_take _ _ _ m Hfr) Htail) as Hr.
  rewrite (decode_each_take _ _ _ m Hde), <-Hsrc, Hread in Hr. injection Hr as -> _.
  apply lookup_take_Some in Hx as [Hx _]. rewrite list_lookup_imap in Hx.
  destruct (sent !! k) as [call|] eqn:Hc; [|done]. injection Hx as <-. exists call.
  rewrite Hsent. by rewrite (lookup_app_l_Some _ _ _ _ Hc).
Qed.

Lemma answered_payloads (xs : list ((RequestHeader * RequestKind) * ResponseKind)) fs :
  Forall2 answered xs fs → ∃ ps, Forall2 (λ p f, frame_encode p = Ret f) ps fs ∧
    ∀ k p, ps !! k = Some p → ∃ x, xs !! k = Some x ∧
      encode {| rh_correlation_id := correlation_id x.1.1 |} x.2 (request_api_version x.1.1) = Ret p.
Proof.
  induction 1 as [|x f xs fs Hx _ (ps & Hps & Hk)]; [by exists []; split; [constructor|]|].
  destruct (respond_to_id _ _ _ Hx) as (p & Hp & He & _). exists (p :: ps). split; [by constructor|].
  intros [|k] q; cbn; [intros [= <-]; by exists x|apply Hk].
Qed.

(** The payloads the client has read are those of the responses to its first calls. *)
Lemma session_responses w0 before evs s :
  session_run config w0 before evs = Ret s → Forall legible (session_calls evs) →
  Z.of_nat (length (session_calls evs)) < 2 ^ 31 →
  let i := length (f_conns (front_run config w0 before)) in
  ∃ l, ofold kafka_step kafka_connect l = Ret (ss_client s) ∧ calls l = session_calls evs ∧
    ∀ p, p ∈ received l → ∃ k call r, calls l !! k = Some call ∧ response_of_call w0 i k call r ∧
      encode {| rh_correlation_id := Z.of_nat k |} r (request_api_version call.1.1) = Ret p.
Proof.
  intros Hrun Hok Hlen i.
  destruct (session_run_inv _ _ _ _ Hrun) as (l & fl & c & Hl & Hcs & Hf & Hi & [_ Hin] & _ & Hun).
  fold i in Hi. exists l. split_and!; [done..|]. rewrite <-Hcs in Hok, Hlen.
  destruct (read_all _ _) as [items o] eqn:Hread in Hin.
  pose proof (read_calls l _ _ _ _ (wired_run l _ Hl Hlen) Hok Hread) as Hitems.
  destruct (front_run_ok config w0 fl) as [H Hfr]. rewrite <-Hf in Hfr.
  destruct (fo_conns _ _ _ _ Hfr i c Hi) as [Hpre _ (wr & fs & rest & Hmine & Hout & Hans & _)].
  destruct (fo_handled _ _ _ _ Hfr) as (w1 & Hm & _). rewrite Hin in Hpre. cbn in Hpre.
  destruct (answered_payloads wr fs Hans) as (ps & Hps & Hk).
  intros p Hp. apply list_elem_of_lookup in Hp as [k Hkp].
  assert (ps !! k = Some p) as Hpk.
  { eapply prefix_lookup_Some; [exact Hkp|]. eapply (unframe_prefix ps fs _ _ _ Hps); [|exact Hun]. rewrite <-Hout.
    exists (drop (ss_down s) (k_out c)). by rewrite take_drop. }
  destruct (Hk k p Hpk) as ([x r] & Hx & Henc). cbn in Henc.
  assert (of_conn i H !! k = Some (x, r)) as Hx' by (rewrite Hmine; by apply lookup_app_l_Some).
  destruct (Hitems k x) as ([[h req] caller] & Hcall & ->).
  { eapply prefix_lookup_Some; [|exact Hpre]. by rewrite list_lookup_fmap, Hx'. }
  exists k, (h, req, caller), r. split_and!; [done| |done]. by exists H, w1.
Qed.

(** A client none of whose requests the broker's handler returns from gets no answer. *)
Lemma never_answered w0 before evs s :
  session_run config w0 before evs = Ret s → Forall legible (session_calls evs) →
  numbered (session_calls evs) → Z.of_nat (length (session_calls evs)) < 2 ^ 31 →
  (∀ h req caller w, (h, req, caller) ∈ session_calls evs → is_ret (handle_request config req w).1 = false) →
  cl_answers (ss_client s) = [].
Proof.
  intros Hrun Hok Hnum Hlen Hnone.
  destruct (session_responses _ _ _ _ Hrun Hok Hlen) as (l & Hl & Hcs & Hrec). rewrite <-Hcs in *.
  destruct (cl_answers (ss_client s)) as [|[caller res] rest] eqn:Ha; [done|exfalso].
  destruct (ki_answers l _ (kafka_run_inv l _ Hl Hnum Hlen) caller res) as (k & h & req & Hk & p & w & _ & _ & Hin & _).
  { rewrite Ha. apply list_elem_of_here. }
  destruct (Hrec p) as (k' & [[h' req'] caller'] & r & Hk' & Hr & _).
  { apply list_elem_of_omap. by exists (KReceive p w). }
  destruct (handled_call _ _ _ _ _ _ _ Hr) as (w2 & w3 & Hreq).
  specialize (Hnone h' req' caller' w2 (list_elem_of_lookup_2 _ _ _ Hk')). by rewrite Hreq in Hnone.
Qed.


(** ** Brokers that call each other *)
Lemma no_answers l c : ofold kafka_step kafka_connect l = Ret c → received l = [] → cl_answers c = [].
Proof.
  revert c. induction l as [|e l IH] using rev_ind; intros c Hr Hn; [by injection Hr as <-|].
  rewrite received_snoc in Hn. apply app_nil in Hn as [Hn He]. rewrite ofold_snoc in Hr.
  apply bind_Ret in Hr as (c1 & H1 & Hr). specialize (IH c1 H1 Hn).
  destruct e; [..|done]; cbn [kafka_step] in Hr; repeat case_match; inv_run; repeat case_match; inv_run; done.
Qed.

(** A call of a broker to another, whose key is that of the request. *)
Definition isr_call (call : RequestHeader * RequestKind * nat) : Prop :=
  (∃ states, call.1.2 = LeaderAndIsrRequest states) ∧ api_key_try_from (request_api_key call.1.1) = Ret LeaderAndIsrKey.

(** The broker decodes nothing of what a client that only makes such calls writes. *)
Lemma isr_not_read l c n :
  ofold kafka_step kafka_connect l = Ret c → Z.of_nat (length (calls l)) < 2 ^ 31 → Forall isr_call (calls l) →
  (read_all (framed server_decode) (take n (cl_wire c))).1 = [].
Proof.
  intros Hl Hlen Hok. destruct (wired_run l c Hl Hlen) as (sent & ps & fs & Hsent & -> & _ & Hps & Hfs & Hk).
  rewrite Hsent in Hok. apply Forall_app in Hok as [Hok _].
  assert (Forall2 (λ p b, frame_encode p = Ret b) ps fs) as Hfr.
  { apply Forall2_same_length_lookup_2; [congruence|]. intros k p b Hp Hb.
    destruct (lookup_lt_is_Some_2 sent k) as [call Hc]; [rewrite <-Hps; by eapply lookup_lt_Some|].
    destruct (Hk k call Hc) as (p' & f' & Hp' & Hf' & hb & b' & Hcf). destruct call as [[h req] caller]. naive_solver congruence. }
  destruct (frames_prefix ps fs (take n (concat fs)) Hfr) as (m & tail & Hsrc & Htail).
  { exists (drop n (concat fs)). by rewrite take_drop. }
  pose proof (read_frames server_decode (take m ps) (take m fs) tail (Forall2_take _ _ _ m Hfr) Htail) as Hr.
  assert ((decode_each server_decode (take m ps)).1 = []) as Hnone.
  { destruct ps as [|p ps']; [by rewrite take_nil|]. destruct m; [done|]. cbn [take decode_each].
    destruct sent as [|[[h req] caller] sent]; [done|]. apply Forall_cons in Hok as [[[states Hreq] Htry] _]. cbn in Hreq, Htry. subst req.
    destruct (Hk 0%nat _ eq_refl) as (p' & f' & [= <-] & _ & hb & b & Hh & Hb & -> & Hf).
    pose proof (isr_refused _ _ _ _ b Hh Htry) as Hbad. by destruct (server_decode (hb ++ b)). }
  rewrite Hsrc. destruct (decode_each server_decode (take m ps)) as [items o]. rewrite Hr. exact Hnone.
Qed.

(** So it answers none of them. *)
Lemma isr_calls_unanswered w0 before evs s :
  session_run config w0 before evs = Ret s → Z.of_nat (length (session_calls evs)) < 2 ^ 31 →
  Forall isr_call (session_calls evs) → cl_answers (ss_client s) = [].
Proof.
  intros Hrun Hlen Hok. set (i := length (f_conns (front_run config w0 before))).
  destruct (session_run_inv _ _ _ _ Hrun) as (l & fl & c & Hl & Hcs & Hf & Hi & [_ Hin] & _ & Hun).
  fold i in Hi. rewrite <-Hcs in Hok, Hlen. apply (no_answers l _ Hl).
  pose proof (isr_not_read l _ (ss_up s) Hl Hlen Hok) as Hnone. rewrite <-Hin in Hnone.
  destruct (front_run_ok config w0 fl) as [H Hfr]. rewrite <-Hf in Hfr.
  destruct (fo_conns _ _ _ _ Hfr i c Hi) as [Hpre _ (wr & fs & rest & Hmine & Hout & Hans & _)].
  rewrite Hnone in Hpre. apply prefix_nil_inv, fmap_nil_inv in Hpre. rewrite Hpre in Hmine.
  symmetry in Hmine. apply app_nil in Hmine as [-> _]. apply Forall2_nil_inv_l in Hans as ->.
  rewrite Hout in Hun. cbn [concat] in Hun. rewrite take_nil in Hun. destruct (received l) as [|p ps]; [done|]. destruct Hun as (src & Hd & _).
  by rewrite frame_nil in Hd.
Qed.
End Facts.

Section Peers.
Context {SLED : Sled} {CODEC : StoreCodec} {ENV : BrokerEnv} {CLIENT : RaftClient} {BUILD : Build}
  {KD : KafkaDecoders} {KP : KafkaProtocol} {FRAMES : LengthCodec}
  {KLAWS : KafkaLaws} {FLAWS : LengthCodecLaws} {ELAWS : BrokerEnvLaws}.

(** The peer is a broker of this program: what the client that calls it has got is what
    it gets in a session with one, in whatever state, with whatever other connections. *)
Definition peer_is_broker (b : Peer) : Prop := ∀ turns c,
  peer_turns b = Ret turns →
  ofold kafka_step kafka_connect (KCall leader_and_isr_header (LeaderAndIsrRequest []) 0 :: turns) = Ret c →
  ∃ config w before evs s, session_run config w before evs = Ret s ∧ ss_client s = c ∧
    session_calls evs = [(leader_and_isr_header, LeaderAndIsrRequest [], 0%nat)].

(** C23: a cluster of brokers creates no topics.  If a broker has another broker of this
    program among its peers, its handler does not return from a request for topics:
    after the topic and its partitions were proposed it calls the peer, whose codec
    refuses the call, so that the connection ends and no answer comes. *)
Theorem peer_blocks_creation config w b name t rest :
  api_key_try_from (api_key_code LeaderAndIsrKey) = Ret LeaderAndIsrKey →
  b ∈ peers config → peer_id b ≠ bc_id config → peer_is_broker b →
  is_ret (handle_create_topics config ((name, t) :: rest) w).1 = false.
Proof.
  intros Htry Hb Hid Hpeer. apply not_true_iff_false. intros Hret.
  destruct (create_returns_confirmed config name t rest w Hret b Hb) as [?|Hsend]; [done|].
  unfold send_leader_and_isr in Hsend. apply bind_Ret in Hsend as (turns & Hturns & Hsend).
  pose proof (never_ret bool) as Hnever.
  destruct (ofold _ _ _) as [c| |] eqn:Hc; [|by rewrite Hsend in Hnever..].
  destruct (Hpeer turns c Hturns Hc) as (config' & w' & before & evs & s & Hrun & <- & Hcalls).
  assert (cl_answers (ss_client s) = []) as Hnone.
  { apply (isr_calls_unanswered config' w' before evs s Hrun); rewrite Hcalls; [cbn; lia|].
    repeat constructor; [by eexists|done]. }
  rewrite Hnone in Hsend. cbn in Hsend. by rewrite Hsend in Hnever.
Qed.
End Peers.

Section Calls.
Context {SLED : Sled} {CODEC : StoreCodec} {ENV : BrokerEnv} {CLIENT : RaftClient} {BUILD : Build}
  {KD : KafkaDecoders} {KP : KafkaProtocol} {FRAMES : LengthCodec}
  {KLAWS : KafkaLaws} {FLAWS : LengthCodecLaws}.
Context (config : BrokerConfig).

(** ** A call that completes *)

(** The turns of the tasks for one call: the request is written and answered, and the
    response read. *)
Definition request_trip (i : nat) (h : RequestHeader) (req : RequestKind) (caller n : nat) : list SessionEvent :=
  [SCall h req caller; SWrite; SRegister; SUp n; SServer (Step i true); SServer Serve; SServer (Step i true)].
Definition round_trip (i : nat) (h : RequestHeader) (req : RequestKind) (caller n m : nat) : list SessionEvent :=
  request_trip i h req caller n ++ [SDown m; SRead true].

(** What the client's codec makes of the payload of the response to its first call. *)
Definition understood (p : bytes) (key : ApiKey) (version : Z) (res : ResponseKind) : Prop :=
  ∃ body, response_header_decode p 1 = Ret ({| rh_correlation_id := 0 |}, body) ∧
    decode_response body key version = Ret res.

Lemma insert_last {A} (l : list A) x y : <[length l := x]> (l ++ [y]) = l ++ [x].
Proof. by rewrite insert_app_r_alt, Nat.sub_diag by done. Qed.
Lemma lookup_last {A} (l : list A) y : (l ++ [y]) !! length l = Some y.
Proof. by rewrite lookup_app_r, Nat.sub_diag. Qed.

(** The broker's part: the connection gets the frame of one request and answers. *)
Lemma front_serves s h req f r w1 fr :
  f_end s = None → f_chan s = [] → framed server_decode f = Ret (Some ((h, req), [])) →
  handle_request config req (f_world s) = (Ret r, w1) → respond_to h r = Ret fr →
  let i := length (f_conns s) in
  ∃ c, foldl (front_step config) s [Accepted; Arrived i f; Step i true; Serve; Step i true] =
      {| f_conns := f_conns s ++ [c]; f_chan := []; f_world := w1; f_end := None |} ∧
    k_out c = fr ∧ k_open c = true.
Proof.
  intros He Hch Hdec Hreq Hresp i. cbn [foldl front_step]. unfold accept. cbn [f_conns].
  assert (feed (framed server_decode) ([], Ret []) f = ([(h, req)], Ret [])) as Hfeed.
  { unfold feed. cbn [fst snd app]. unfold read_all. cbn [read_loop]. rewrite Hdec.
    destruct (length f); cbn [read_loop]; [done|]. unfold framed. by rewrite frame_nil. }
  unfold i. rewrite lookup_last. unfold with_conn, connection_new. cbn [f_conns k_in k_taken k_waiting k_answer k_out k_open].
  rewrite Hfeed, insert_last, lookup_last. cbn [k_open k_waiting].
  unfold take_request. cbn [k_in k_taken fst lookup list_lookup f_end f_conns f_chan f_world]. rewrite He, Hch. cbn [app].
  rewrite insert_last. unfold serve. cbn [f_end f_chan f_world f_conns]. rewrite Hreq. cbn [app].
  rewrite lookup_last. cbn [k_open k_waiting]. rewrite bool_decide_eq_true_2 by (by eexists). cbn [andb].
  rewrite insert_last. cbn [f_conns]. rewrite lookup_last. cbn [k_open k_waiting].
  unfold write_answer. cbn [k_answer]. rewrite Hresp. unfold with_conn. cbn [f_conns f_chan f_world f_end k_out app].
  rewrite insert_last. eexists. by split_and!.
Qed.

(** The client's part: its request is written, and the payload of the response read,
    with success when the codec understands it. *)
Lemma client_calls h req caller f p key :
  (client_encode client_codec_new h req).1 = Ret f → correlation_id h = 0 →
  api_key_try_from (request_api_key h) = Ret key →
  ∃ c, ofold kafka_step kafka_connect [KCall h req caller; KSend; KRegister] = Ret c ∧ cl_wire c = f ∧
    ∀ res, (∃ c', kafka_step c (KReceive p true) = Ret c' ∧ cl_answers c' = [(caller, res)]) ↔
           understood p key (request_api_version h) res.
Proof.
  intros Henc Hid Hkey. destruct (client_encode client_codec_new h req) as [o codec] eqn:He. cbn in Henc. subst o.
  assert (cc_requests codec = {[0 := with_correlation 0 h]}) as Hreqs by (by injection He as _ <-).
  eexists. cbn [ofold kafka_step mbind outcome_bind cl_writing cl_queue kafka_connect app cl_codec]. rewrite He.
  cbn [mbind outcome_bind cl_writing cl_callbacks cl_wire cl_answers cl_codec cl_queue].
  split; [reflexivity|]. split; [done|]. intros res. cbn [kafka_step cl_codec cl_callbacks cl_answers app]. split.
  - intros (c' & Hs & Hans). destruct (client_decode codec p) as [o codec'] eqn:Hd.
    apply bind_Ret in Hs as ([hdr r] & -> & Hs). apply bind_Ret in Hs as (k & Hk & Hs).
    apply bind_Ret in Hs as ([] & _ & [= <-]). injection Hans as -> ->.
    destruct (client_decode_Ret _ _ _ _ _ Hd) as (body & h' & key' & Hhd & Hh & Hkey' & Hres & _).
    rewrite Hreqs in Hh. apply lookup_singleton_Some in Hh as [Hz <-]. exists body. destruct hdr as [z]. cbn in Hz. subst z.
    split; [done|]. cbn in Hkey', Hres. rewrite Hkey in Hkey'. by injection Hkey' as <-.
  - intros (body & Hhd & Hres). unfold client_decode. rewrite Hhd.
    cbn [as_decode_error rh_correlation_id]. rewrite Hreqs, lookup_singleton_eq. cbn [ok_or mbind outcome_bind].
    change (request_api_key (with_correlation 0 h)) with (request_api_key h). rewrite Hkey. cbn [as_decode_error mbind outcome_bind].
    change (request_api_version (with_correlation 0 h)) with (request_api_version h). rewrite Hres.
    cbn [mbind outcome_bind rh_correlation_id cl_callbacks]. rewrite Hid, lookup_insert_eq. by eexists.
Qed.

(** The turns, given what each side does. *)
Lemma session_asks s0 i h req caller c w1 k f :
  ofold kafka_step kafka_connect [KCall h req caller; KSend; KRegister] = Ret c → cl_wire c = f →
  foldl (front_step config) s0 [Accepted; Arrived i f; Step i true; Serve; Step i true] =
    {| f_conns := f_conns s0 ++ [k]; f_chan := []; f_world := w1; f_end := None |} →
  ofold (session_step config i)
    {| ss_client := kafka_connect; ss_front := front_step config s0 Accepted; ss_up := 0; ss_down := 0; ss_buf := [] |}
    (request_trip i h req caller (length f)) =
  Ret {| ss_client := c; ss_front := {| f_conns := f_conns s0 ++ [k]; f_chan := []; f_world := w1; f_end := None |};
         ss_up := length f; ss_down := 0; ss_buf := [] |}.
Proof.
  intros Hc Hwire Hfront. cbn [foldl] in Hfront.
  cbn [ofold] in Hc. apply bind_Ret in Hc as (c1 & H1 & Hc). apply bind_Ret in Hc as (c2 & H2 & Hc).
  apply bind_Ret in Hc as (c3 & H3 & [= ->]).
  unfold request_trip. cbn [ofold session_step]. unfold on_client. cbn [ss_client]. rewrite H1. cbn [mbind outcome_bind ss_client].
  rewrite H2. cbn [mbind outcome_bind ss_client]. rewrite H3.
  cbn [mbind outcome_bind ss_client ss_front ss_up ss_down ss_buf reaches].
  by rewrite Hwire, drop_0, firstn_all, Hfront.
Qed.

Lemma session_reads front c up k p fr i :
  frame_encode p = Ret fr → f_conns front !! i = Some k → k_out k = fr →
  ofold (session_step config i) {| ss_client := c; ss_front := front; ss_up := up; ss_down := 0; ss_buf := [] |}
    [SDown (length fr); SRead true] =
  (c' ← kafka_step c (KReceive p true);
   Ret {| ss_client := c'; ss_front := front; ss_up := up; ss_down := length fr; ss_buf := [] |}).
Proof.
  intros Hp Hi Hout. cbn [ofold session_step ss_front ss_down ss_client ss_up ss_buf mbind outcome_bind]. rewrite Hi. cbn [from_option].
  rewrite Hout, drop_0, firstn_all. cbn [app]. rewrite <-(app_nil_r fr) at 1. rewrite (frame_roundtrip _ _ [] Hp).
  cbn [mbind outcome_bind]. by destruct (kafka_step c (KReceive p true)).
Qed.

(** A call on a broker that is not busy, whose request can be read: once the tasks
    of client and broker have had their turns and the bytes have arrived, the broker is
    where handling the request left it, ready for the next, and has written the frame
    of its response; the caller gets what the client's codec makes of its payload,
    exactly when it makes something of it. *)
Lemma call_runs w0 before h req caller f key r w1 p fr :
  let s0 := front_run config w0 before in
  let i := length (f_conns s0) in
  f_end s0 = None → f_chan s0 = [] → readable h req → shared_key req = Some key → correlation_id h = 0 →
  (client_encode client_codec_new h req).1 = Ret f → handle_request config req (f_world s0) = (Ret r, w1) →
  encode {| rh_correlation_id := 0 |} r (request_api_version h) = Ret p → frame_encode p = Ret fr →
  ∃ n m s, session_run config w0 before (request_trip i h req caller n) = Ret s ∧
    k_out <$> f_conns (ss_front s) !! i = Some fr ∧ f_world (ss_front s) = w1 ∧
    f_end (ss_front s) = None ∧ f_chan (ss_front s) = [] ∧
    ∀ res, (∃ s', session_run config w0 before (round_trip i h req caller n m) = Ret s' ∧
                  ss_front s' = ss_front s ∧ cl_answers (ss_client s') = [(caller, res)]) ↔
           understood p key (request_api_version h) res.
Proof.
  intros s0 i Hend Hchan Hread Hkey Hid Henc Hreq Hp Hfr.
  pose proof Hread as (key' & Hkey' & Htry & _). rewrite Hkey in Hkey'. injection Hkey' as <-.
  destruct (client_calls h req caller f p key Henc Hid Htry) as (c & Hc & Hwire & Hunder).
  destruct (client_encode client_codec_new h req) as [o codec] eqn:Hcl. cbn in Henc. subst o.
  destruct (client_encode_inv _ _ _ _ _ Hcl) as (qb & q & Hqh & Hqb & Hf).
  assert (framed server_decode f = Ret (Some ((with_correlation 0 h, req), []))) as Hdecode.
  { unfold framed. rewrite <-(app_nil_r f), (frame_roundtrip _ _ [] Hf). cbn [mbind outcome_bind].
    by rewrite (request_decodes _ _ _ _ _ Hread Hqh Hqb). }
  assert (respond_to (with_correlation 0 h) r = Ret fr) as Hresp
    by (unfold respond_to, server_encode; cbn [correlation_id request_api_version with_correlation]; by rewrite Hp).
  destruct (front_serves s0 _ req f r w1 fr Hend Hchan Hdecode Hreq Hresp) as (k & Hfront & Hout & _).
  pose proof (session_asks s0 i h req caller c w1 k f Hc Hwire Hfront) as Hask.
  exists (length f), (length fr). eexists. split; [exact Hask|]. cbn [ss_front f_conns f_world f_end f_chan].
  assert ((f_conns s0 ++ [k]) !! i = Some k) as Hk by apply lookup_last.
  split; [by rewrite Hk; cbn; rewrite Hout|]. do 3 (split; [done|]). intros res. rewrite <-Hunder.
  unfold session_run, round_trip. fold s0 i. rewrite ofold_app.
  unfold session_start. fold s0. rewrite Hask. cbn [mbind outcome_bind].
  rewrite (session_reads {| f_conns := f_conns s0 ++ [k]; f_chan := []; f_world := w1; f_end := None |} c _ k p fr i Hfr Hk Hout).
  split.
  - intros (s' & (c' & Hc' & [= <-])%bind_Ret & _ & Ha). by exists c'.
  - intros (c' & -> & Ha). eexists. by split.
Qed.

(** A call completes, when both sides use the same layout for the header of the
    response. *)
Theorem call_completes w0 before h req caller f key r w1 fr res :
  let s0 := front_run config w0 before in
  f_end s0 = None → f_chan s0 = [] → readable h req → shared_key req = Some key → correlation_id h = 0 →
  (client_encode client_codec_new h req).1 = Ret f →
  handle_request config req (f_world s0) = (Ret r, w1) → respond_to (with_correlation 0 h) r = Ret fr →
  response_header_version key (request_api_version h) = 1 →
  (∀ body, response_encode r (request_api_version h) = Ret body →
     decode_response body key (request_api_version h) = Ret res) →
  ∃ n m s, session_run config w0 before (round_trip (length (f_conns s0)) h req caller n m) = Ret s ∧
    cl_answers (ss_client s) = [(caller, res)] ∧ f_world (ss_front s) = w1 ∧
    f_end (ss_front s) = None ∧ f_chan (ss_front s) = [].
Proof.
  intros s0 Hend Hchan Hread Hkey Hid Henc Hreq Hresp Hver Hdec.
  destruct (respond_to_id _ _ _ Hresp) as (p & Hp & Hencode & _).
  assert (response_key r = key) as Hrk by (by eapply handled_key).
  assert (encode_with key {| rh_correlation_id := 0 |} r (request_api_version h) = Ret p) as He
    by (rewrite <-Hrk; cbn in Hencode; by destruct r).
  unfold encode_with in He. apply bind_Ret in He as (hb & Hh & He). apply bind_Ret in He as (body & Hb & [= <-]).
  rewrite Hver in Hh.
  assert (response_header_encode {| rh_correlation_id := 0 |} 1 = Ret hb) as Hh1
    by (unfold as_encode_error in Hh; by case_match; simplify_eq).
  assert (response_encode r (request_api_version h) = Ret body) as Hb1
    by (unfold as_encode_error in Hb; by case_match; simplify_eq).
  destruct (call_runs w0 before h req caller f key r w1 _ fr Hend Hchan Hread Hkey Hid Henc Hreq Hencode Hp)
    as (n & m & s & _ & _ & Hw & He' & Hch & Hans).
  destruct (proj2 (Hans res)) as (s' & Hrun & Hfront & Ha).
  { exists body. split; [by apply response_header_roundtrip|by apply Hdec]. }
  exists n, m, s'. by rewrite Hfront.
Qed.
End Calls.





Lemma call_completes_witness :
  ∃ n m s, session_run demo_broker demo_new [] (round_trip 0 (demo_request_header 19 0) (CreateTopicsRequest []) 7 n m) = Ret s ∧
    cl_answers (ss_client s) = [(7%nat, CreateTopicsResponse [])].
Proof.
  assert (handle_request demo_broker (CreateTopicsRequest []) demo_new =
    (Ret (CreateTopicsResponse []), (handle_request demo_broker (CreateTopicsRequest []) demo_new).2)) as Hreq by reflexivity.
  assert (readable (demo_request_header 19 0) (CreateTopicsRequest [])) as Hread.
  { exists CreateTopicsKey. split; [reflexivity|]. split; [reflexivity|]. split; [split; cbn; lia|reflexivity]. }
  assert ((client_encode client_codec_new (demo_request_header 19 0) (CreateTopicsRequest [])).1 =
    Ret (demo_frame 19 (CreateTopicsRequest []))) as Henc by (vm_compute; reflexivity).
  assert (respond_to (with_correlation 0 (demo_request_header 19 0)) (CreateTopicsResponse []) =
    Ret (ret_or [] (respond_to (demo_request_header 19 0) (CreateTopicsResponse [])))) as Hresp by (vm_compute; reflexivity).
  destruct (call_completes demo_broker demo_new [] (demo_request_header 19 0) (CreateTopicsRequest []) 7
    _ CreateTopicsKey _ _ _ (CreateTopicsResponse []) eq_refl eq_refl Hread eq_refl eq_refl Henc Hreq Hresp eq_refl)
    as (n & m & s & H1 & H2 & _).
  - intros body [= <-]. reflexivity.
  - exists n, m, s. split; [exact H1|exact H2].
Defined.

(** The turns of the demo's peer are those of a session in which the other broker gets
    the call and has its turns. *)
Definition demo_isr_session : list SessionEvent :=
  [SCall leader_and_isr_header (LeaderAndIsrRequest []) 0; SWrite; SRegister; SUp 100; SServer (Step 0 true); SServer Serve].

Lemma peer_blocks_creation_witness :
  is_ret (handle_create_topics demo_broker [("test", demo_single)] demo_new).1 = false.
Proof.
  apply (peer_blocks_creation demo_broker demo_new (demo_peer 2) "test" demo_single []); [reflexivity|apply list_elem_of_here|done|].
  intros turns c [= <-] Hc. exists demo_broker, demo_new, [], demo_isr_session.
  exists (ret_or (session_start demo_broker demo_new []) (session_run demo_broker demo_new [] demo_isr_session)).
  split; [apply is_ret_or; vm_compute; reflexivity|]. split; [|reflexivity].
  vm_compute in Hc. injection Hc as <-. vm_compute. reflexivity.
Defined.
