(* ===== verification/EndToEnd.v ===== *)
(** * A client, its broker and Raft together

    The client of [src/kafka/] calls the broker over a connection, the broker's
    handler proposes to the Raft server it was started with, and the state machine
    writes the store that the broker reads: one call through all the components. *)
From S2P Require Import Prelude Bytes Storage Chain Rpc Election Progress Config Raft.
From S2P Require Import Handle Fsm Tcp Server Invariants Demo Cluster Replication SingleNode Agreement Client.
From S2P Require Import Log Store Framing Kafka Broker Service Gateway Frontend Session.
Local Open Scope Z_scope.

Section EndToEnd.
Context {SLED : Sled} {BINC : Bincode Block} {ENV : Env} {BUILD : Build} {SENV : ServerEnv}
  {CODEC : StoreCodec}.
#[local] Existing Instance JosefineFsm | 0.
#[local] Existing Instance node_client | 0.
Context {SLAWS : SledLaws} {BLAWS : BincodeLaws Block} {BMIN : BincodeMin Block 24}
  {UUID : ServerEnvLaws} {CLAWS : StoreCodecLaws} {BENV : BrokerEnv} {BELAWS : BrokerEnvLaws}.
Context {KD : KafkaDecoders} {KP : KafkaProtocol} {FRAMES : LengthCodec}
  {KLAWS : KafkaLaws} {FLAWS : LengthCodecLaws}.
Context (Hwait : ∀ c, waiting c = true).
Variable config : BrokerConfig.

(** The request and its result with the identifier [u] of the topic. *)
Definition creation (name : string) (t : CreatableTopic) : RequestKind := CreateTopicsRequest [(name, t)].
Definition created (name : string) (t : CreatableTopic) (u : Uuid) : ResponseKind :=
  CreateTopicsResponse [(name, {| ctr_topic_id := u; ctr_num_partitions := num_partitions t;
                                  ctr_replication_factor := replication_factor t |})].

(** The protocol has a layout for the request and for every result of it. *)
Record call_supported (h : RequestHeader) (name : string) (t : CreatableTopic) : Prop := {
  cs_read : readable h (creation name t);
  cs_write : is_ret (client_encode client_codec_new h (creation name t)).1 = true;
  cs_respond u : is_ret (respond_to (with_correlation 0 h) (created name t (new_v4 u))) = true;
}.

(** C8: a topic is created over the wire, through the whole system.  A server
    without peers, started on empty directories, leads after finitely many ticks.  A
    client then connects to its broker, which has no peers either, and asks for a topic
    with at most one replica for each partition, the number of brokers.  Once the tasks
    have had their turns and the bytes have arrived, each of the broker's proposals
    became a block, was committed, applied by the driver to the shared store and
    answered, so that the store has the topic and all of its partitions; the node and
    the broker are idle again; and the broker has written the frame of the result, with
    the identifier under which the topic is stored.  The caller is given what the
    client's codec makes of that payload, exactly when the codec makes something of it. *)
Theorem topic_created_over_wire rconfig d f a n0 name t h caller :
  nodes rconfig = [] → Storage.contents d = ∅ → Storage.contents f = ∅ → server_new rconfig d f a = Ret n0 →
  (∀ T, ∃ i, ∀ j, (i ≤ j)%nat → T < clock j) →
  peers config = [] → replication_factor t ≤ 1 → num_partitions t < id_limit - 2 →
  call_supported h name t → correlation_id h = 0 →
  ∃ ticks, let n := inputs (replicate ticks ITick) n0 in
  ∃ up down s n' c st topic u p fr,
    session_run config (broker_start n) [] (request_trip 0 h (creation name t) caller up) = Ret s ∧
    bw_client (f_world (ss_front s)) = (n', c) ∧ idle n' ∧ f_end (ss_front s) = None ∧ f_chan (ss_front s) = [] ∧
    represents (d_fsm (sn_driver n')) st ∧ bs_topics st = {[name := topic]} ∧ topic_id topic = new_v4 u ∧
    (∀ k, 0 ≤ k < num_partitions t →
      ∃ p, bs_partitions st !! (name, k) = Some p ∧ assigned config name t k p) ∧
    encode {| rh_correlation_id := 0 |} (created name t (topic_id topic)) (request_api_version h) = Ret p ∧
    frame_encode p = Ret fr ∧ k_out <$> f_conns (ss_front s) !! 0%nat = Some fr ∧
    ∀ res, (∃ s', session_run config (broker_start n) [] (round_trip 0 h (creation name t) caller up down) = Ret s' ∧
                  ss_front s' = ss_front s ∧ cl_answers (ss_client s') = [(caller, res)]) ↔
           understood p CreateTopicsKey (request_api_version h) res.
Proof.
  intros Hn Hd Hf Hs Hclock Hpeers Hrep Hnum [Hread Hwrite Hresp] Hid.
  assert (length (get_broker_ids config) = 1%nat) as Hlen by (unfold get_broker_ids; by rewrite Hpeers).
  assert (all_confirm config) as Hall by (intros b; rewrite Hpeers; by intros ?%elem_of_nil).
  destruct (topic_created_through_raft Hwait config rconfig d f a n0 name t Hn Hd Hf Hs Hclock Hall ltac:(rewrite Hlen; lia) Hnum)
    as (ticks & n' & c & w' & st & topic & u & Hrun & Hc & Hidle & Hst & Htid & Htop & Hps).
  exists ticks. cbv zeta in *. set (n := inputs (replicate ticks ITick) n0) in *.
  assert (handle_request config (creation name t) (f_world (front_run config (broker_start n) [])) =
    (Ret (created name t (topic_id topic)), w')) as Hreq.
  { unfold handle_request, creation. cbn [f_world front_run foldl]. by rewrite (SM_bind_step _ _ _ _ _ Hrun). }
  apply (is_ret_or []) in Hwrite. specialize (Hresp u). rewrite <-Htid in Hresp. apply (is_ret_or []) in Hresp.
  destruct (respond_to_id _ _ _ Hresp) as (p & Hp & Henc & _).
  destruct (call_runs config (broker_start n) [] h (creation name t) caller _ CreateTopicsKey _ _ p _
    eq_refl eq_refl Hread eq_refl Hid Hwrite Hreq Henc Hp) as (up & down & s & Hss & Hout & Hw & He & Hch & Hans).
  exists up, down, s, n', c, st, topic, u, p. eexists. rewrite Hw. by split_and!.
Qed.
End EndToEnd.

(** ** Witness *)
#[local] Existing Instance JosefineFsm | 0.

Lemma demo_result_bytes id v : 0 ≤ id < 2 ^ 128 →
  encode {| rh_correlation_id := 0 |} (created "test" demo_single id) v = Ret (be_bytes 4 0 ++ x01 :: be_bytes 16 id).
Proof.
  intros [H1%Z.leb_le H2%Z.ltb_lt]. unfold encode, created, encode_with.
  cbn [response_header_encode response_encode demo_protocol ctr_topic_id ctr_replication_factor replication_factor demo_single].
  rewrite bool_decide_eq_true_2 by done. rewrite H1, H2. done.
Qed.

Lemma demo_supported : call_supported (demo_request_header 19 0) "test" demo_single.
Proof.
  split.
  - exists CreateTopicsKey. split; [reflexivity|]. split; [reflexivity|]. split; [split; cbn; lia|reflexivity].
  - vm_compute. reflexivity.
  - intros u. unfold respond_to, server_encode. cbn [correlation_id with_correlation].
    rewrite demo_result_bytes by (apply Z.mod_pos_bound; lia). reflexivity.
Qed.

Lemma topic_created_over_wire_witness :
  ∃ ticks up down s u,
    session_run (CLIENT := node_client) demo_alone (broker_start (inputs (replicate ticks ITick) demo_josefine)) []
      (round_trip 0 (demo_request_header 19 0) (creation "test" demo_single) 7 up down) = Ret s ∧
    cl_answers (ss_client s) = [(7%nat, created "test" demo_single (new_v4 u))] ∧
    ∃ st, represents (bw_store (f_world (ss_front s))) st ∧ is_Some (bs_partitions st !! ("test", 1)).
Proof.
  assert (server_new (FSM := JosefineFsm) (demo_config 1 []) mem_empty demo_db 0 = Ret demo_josefine) as Hs.
  { apply is_ret_or. vm_compute. reflexivity. }
  destruct (topic_created_over_wire (SENV := demo_server_env) (SLAWS := demo_sled_laws) (BENV := demo_broker_env)
    (λ _, eq_refl) demo_alone (demo_config 1 [])
    mem_empty demo_db 0 demo_josefine "test" demo_single (demo_request_header 19 0) 7 eq_refl eq_refl eq_refl Hs)
    as (ticks & up & down & s & n & c & st & topic & u & p & fr & _ & Hc & _ & _ & _ & H3 & _ & Hu & H4 & Henc & _ & _ & Hans).
  - intros T. exists (Z.to_nat (Z.max 0 T + 1)). intros j Hj. cbn. unfold from_secs. lia.
  - done.
  - done.
  - unfold id_limit. cbn. lia.
  - exact demo_supported.
  - done.
  - destruct (proj2 (Hans (created "test" demo_single (new_v4 u)))) as (s' & H1 & Hfront & H2).
    + assert (0 ≤ new_v4 u < 2 ^ 128) as Hr by (apply Z.mod_pos_bound; lia).
      rewrite Hu, (demo_result_bytes _ _ Hr) in Henc. injection Henc as <-. exists (x01 :: be_bytes 16 (new_v4 u)).
      split; [reflexivity|]. cbn [decode_response as_decode_error create_topics_response_decode demo_protocol].
      rewrite be_val_bytes, Z.mod_small by exact Hr. reflexivity.
    + exists ticks, up, down, s', u. split; [exact H1|]. split; [exact H2|]. exists st. rewrite Hfront.
      unfold bw_store. rewrite Hc. split; [exact H3|]. destruct (H4 1) as (q & Hq & _); [cbn; lia|]. exists q. exact Hq.
Defined.
