(* ===== verification/Connection.v ===== *)
(** * Connections between nodes ([src/raft/tcp.rs])

    The task of each peer ([connect_and_send]) connects with a growing pause
    between attempts and writes the messages of the peer's queue as JSON in
    length-delimited frames; the receiving side ([receive_task],
    [stream_messages]) reads frames and hands the messages to the event loop.
    Together with [Tcp] this is the network that [Cluster] takes for granted. *)
From S2P Require Import Prelude Bytes Storage Chain Rpc Election Progress Config Raft Tcp Framing.
Local Open Scope Z_scope.

(** [SymmetricalJson<Message>]. *)
Class MessageJson := {
  to_json : Message → outcome bytes;
  from_json : bytes → outcome Message;
}.
(** What decodes is what was encoded.  Not every message has to decode. *)
Class MessageJsonLaws `{!MessageJson} := {
  json_faithful m p m' : to_json m = Ret p → from_json p = Ret m' → m' = m;
}.

Section Ops.
Context {JSON : MessageJson} {FRAMES : LengthCodec}.

(** ** Writing *)

(** [stream.send(message)]: the bytes it puts on the wire. *)
Definition write_message (m : Message) : outcome bytes := p ← to_json m; frame_encode p.

(** [backoff.checked_mul(2).unwrap_or(backoff)] on [u64]. *)
Definition next_backoff (backoff : Z) : Z :=
  if backoff * 2 <? u64_limit then backoff * 2 else backoff.

(** The state of [connect_and_send]: the pause before the next attempt, the
    pauses made, the bytes written to the socket once there is one, and whether
    [send_messages] has returned because its channel was closed and empty. *)
Record Conn : Type := {
  cn_backoff : Z;
  cn_slept : list Z;
  cn_socket : option bytes;
  cn_drained : bool;
}.
Definition connect_init : Conn := {| cn_backoff := 1; cn_slept := []; cn_socket := None; cn_drained := false |}.

(** An attempt is refused or accepted, a message is written, writing it fails after
    [k] bytes, [send_messages] returns, or the task is told to shut down, which it
    looks for between attempts only. *)
Inductive ConnEvent : Type :=
| Refused
| Accepted
| Written
| Broken (k : nat)
| Drained
| Stopped.

(** The task took [m] from its queue; [alive]: it goes on.  When it ends, its
    queue is dropped. *)
Definition take_message (tx : PeerChan) (m : Message) (q : list Message) (alive : bool) : PeerChan :=
  {| queue := q; taken := taken tx ++ [m]; peer_alive := alive |}.
Definition wrote (c : Conn) (w b : bytes) : Conn :=
  {| cn_backoff := cn_backoff c; cn_slept := cn_slept c; cn_socket := Some (w ++ b); cn_drained := false |}.
Definition dropped (tx : PeerChan) : PeerChan :=
  {| queue := queue tx; taken := taken tx; peer_alive := false |}.

(** One step of [connect_and_send]; an error of [send_messages] ends it.  Once the
    channel is closed and empty there is nothing to write to the connections it makes. *)
Definition connect_step (tx : PeerChan) (c : Conn) (e : ConnEvent) : PeerChan * Conn :=
  if peer_alive tx then
    match cn_socket c, cn_drained c with
    | Some w, false =>
        match e, queue tx with
        | Written, m :: q =>
            match write_message m with
            | Ret b => (take_message tx m q true, wrote c w b)
            | _ => (take_message tx m q false, c)
            end
        | Broken k, m :: q =>
            match write_message m with
            | Ret b => (take_message tx m q false, wrote c w (take k b))
            | _ => (take_message tx m q false, c)
            end
        | Drained, [] => (tx, {| cn_backoff := cn_backoff c; cn_slept := cn_slept c; cn_socket := Some w;
                                 cn_drained := true |})
        | _, _ => (tx, c)
        end
    | socket, drained =>
        match e with
        | Refused => (tx, {| cn_backoff := next_backoff (cn_backoff c);
                             cn_slept := cn_slept c ++ [cn_backoff c]; cn_socket := socket; cn_drained := drained |})
        | Accepted => (tx, {| cn_backoff := cn_backoff c; cn_slept := cn_slept c;
                              cn_socket := Some (default [] socket); cn_drained := drained |})
        | Stopped => (dropped tx, c)
        | _ => (tx, c)
        end
    end
  else (tx, c).

(** ** Reading *)

(** The messages of a connection whose bytes so far are [src]. *)
Definition received (src : bytes) : list Message * outcome bytes := read_all (framed from_json) src.

(** [stream_messages] on a connection that carried [src] and then ended. *)
Definition stream_messages (src : bytes) : list Message * outcome unit :=
  let '(l, o) := received src in (l, at_eof o).

(** [receive_task]: the connections accepted, each with the loop that reads it,
    and the messages on the channel to the event loop with the connection each
    came from. *)
Record Receiver : Type := {
  rc_conns : list (list Message * outcome bytes);
  rc_inbox : list (nat * Message);
}.
Inductive ReceiveEvent : Type :=
| Accept
| Data (conn : nat) (piece : bytes).

Definition receive_step (r : Receiver) (e : ReceiveEvent) : Receiver :=
  match e with
  | Accept => {| rc_conns := rc_conns r ++ [([], Ret [])]; rc_inbox := rc_inbox r |}
  | Data i piece =>
      match rc_conns r !! i with
      | Some st =>
          let st' := feed (framed from_json) st piece in
          {| rc_conns := <[i := st']> (rc_conns r);
             rc_inbox := rc_inbox r ++ (pair i <$> drop (length st.1) st'.1) |}
      | None => r
      end
  end.

(** ** The sender as a whole: [send_task] and the tasks of the peers *)
#[global] Instance conn_event_eq_dec : EqDecision ConnEvent.
Proof. solve_decision. Defined.

Inductive NetEvent : Type :=
| NetSend (m : Message)
| NetConn (peer : NodeId) (e : ConnEvent)
| NetStop.

(** [net_open]: [send_task] runs and holds the senders of the queues. *)
Record Net : Type := { net_txs : gmap NodeId PeerChan; net_conns : gmap NodeId Conn; net_open : bool }.

Definition net_init (nodes : list Node) : Net :=
  {| net_txs := send_task_init nodes; net_conns := (λ _, connect_init) <$> send_task_init nodes; net_open := true |}.

(** The channel of a peer's task is closed only when [send_task] has ended; a
    message for [send_task] after that is an error of the event loop. *)
Definition net_step (id : NodeId) (n : Net) (e : NetEvent) : outcome Net :=
  match e with
  | NetSend m =>
      if net_open n then
        txs ← send_task_step id (net_txs n) m;
        Ret {| net_txs := txs; net_conns := net_conns n; net_open := true |}
      else Err ErrSend
  | NetConn j e =>
      match net_txs n !! j, net_conns n !! j with
      | Some tx, Some c =>
          if net_open n && bool_decide (e = Drained) then Ret n
          else
            let '(tx', c') := connect_step tx c e in
            Ret {| net_txs := <[j := tx']> (net_txs n); net_conns := <[j := c']> (net_conns n); net_open := net_open n |}
      | _, _ => Ret n
      end
  | NetStop => Ret {| net_txs := net_txs n; net_conns := net_conns n; net_open := false |}
  end.

(** The messages the node handed over for peer [j]. *)
Definition handed (id j : NodeId) (l : list NetEvent) : list Message :=
  l ≫= λ e, match e with
            | NetSend m => if addressed m j then [sign id m] else []
            | _ => []
            end.

(** The bytes on the connection to [j]. *)
Definition wire (n : Net) (j : NodeId) : bytes := default [] (net_conns n !! j ≫= cn_socket).
End Ops.

(** ** Properties *)
Section Facts.
Context {JSON : MessageJson} {FRAMES : LengthCodec} {JLAWS : MessageJsonLaws} {FLAWS : LengthCodecLaws}.

(** The messages written whole or in part, and the bytes. *)
Definition conn_ok (tx : PeerChan) (w : bytes) : Prop :=
  ∃ ms bs rest, taken tx = ms ++ rest ∧ Forall2 (λ m b, write_message m = Ret b) ms bs ∧
    w `prefix_of` concat bs ∧ (peer_alive tx = true → rest = [] ∧ w = concat bs).

Lemma connect_step_ok tx c e :
  conn_ok tx (default [] (cn_socket c)) →
  let '(tx', c') := connect_step tx c e in
  conn_ok tx' (default [] (cn_socket c')) ∧ passed tx' = passed tx.
Proof.
  intros Hok. unfold connect_step. destruct (peer_alive tx) eqn:Hal; [|by split].
  assert (conn_ok (dropped tx) (default [] (cn_socket c))) as Hdrop.
  { destruct Hok as (ms & bs & rest & ? & ? & ? & _). exists ms, bs, rest. by split_and!. }
  destruct (cn_socket c) as [w|] eqn:Hs; [destruct (cn_drained c)|].
  1,3: destruct e; cbn; rewrite ?Hs; split; done.
  assert (∀ m q a, queue tx = m :: q → passed (take_message tx m q a) = passed tx) as Hp.
  { intros m q a Hq. unfold passed, take_message. cbn. by rewrite Hq, <-app_assoc. }
  cbn in Hok. destruct Hok as (ms & bs & rest & Ht & Hms & _ & Hw). destruct (Hw Hal) as [-> ->]. clear Hw.
  rewrite app_nil_r in Ht. cbn.
  assert (conn_ok tx (concat bs)) as Hsame.
  { exists ms, bs, []. by rewrite app_nil_r. }
  assert (∀ m q, conn_ok (take_message tx m q false) (concat bs)) as Hlost.
  { intros m q. exists ms, bs, [m]. cbn. rewrite Ht. by split_and!. }
  assert (∀ m q b k, write_message m = Ret b → conn_ok (take_message tx m q false) (concat bs ++ take k b)) as Hcut.
  { intros m q b k Hb. exists (ms ++ [m]), (bs ++ [b]), []. cbn. rewrite Ht, app_nil_r.
    split_and!; [done|by apply Forall2_app; [|repeat constructor]| |done].
    rewrite concat_app. cbn. rewrite app_nil_r. apply prefix_app. exists (drop k b). by rewrite take_drop. }
  destruct e as [| | |k| |]; [by rewrite Hs|by rewrite Hs| | | |by rewrite Hs]; destruct (queue tx) as [|m q] eqn:Hq;
    try by rewrite Hs.
  - destruct (write_message m) as [b|er|] eqn:Hb; cbn; rewrite ?Hs; (split; [|exact (Hp m q true eq_refl)]); [|by apply Hlost..].
    exists (ms ++ [m]), (bs ++ [b]), []. cbn. rewrite Ht, app_nil_r, concat_app. cbn. rewrite app_nil_r.
    split_and!; [done|by apply Forall2_app; [|repeat constructor]|done|done].
  - destruct (write_message m) as [b|er|] eqn:Hb; cbn; rewrite ?Hs; (split; [|exact (Hp m q true eq_refl)]); [|by apply Hlost..].
    by apply Hcut.
  - done.
Qed.

(** A stream that ends anywhere yields the messages of a whole number of frames. *)
Lemma read_cut {A} (f : bytes → outcome A) ps bs k :
  Forall2 (λ p b, frame_encode p = Ret b) ps bs →
  ∃ i, (read_all (framed f) (take k (concat bs))).1 = (decode_each f (take i ps)).1.
Proof.
  intros H. revert k. induction H as [|p b ps bs Hb _ IH]; intros k.
  - exists 0%nat. cbn. rewrite take_nil. unfold read_all. cbn. unfold framed. by rewrite frame_nil.
  - cbn [concat]. rewrite take_app. destruct (Nat.ltb_spec k (length b)) as [Hk|Hk].
    + exists 0%nat. replace (k - length b)%nat with 0%nat by lia. rewrite take_0, app_nil_r.
      unfold read_all. cbn. unfold framed. by rewrite (frame_partial _ _ _ Hb Hk).
    + rewrite take_ge by done. destruct (IH (k - length b)%nat) as [i Hi]. exists (S i). cbn.
      unfold read_all. cbn [read_loop]. unfold framed at 1. rewrite (frame_roundtrip _ _ _ Hb). cbn.
      destruct (f p) as [a|e|]; cbn; [|done..].
      pose proof (frame_shorter _ _ _ (frame_roundtrip _ _ (take (k - length b) (concat bs)) Hb)).
      rewrite (read_loop_fuel f _ (S (length (take (k - length b) (concat bs))))) by lia.
      unfold read_all in Hi. destruct (read_loop _ _ _) as [l o]. cbn in Hi |- *. rewrite Hi.
      by destruct (decode_each f (take i ps)).
Qed.

(** What decodes are the messages, in order, up to the first that does not. *)
Lemma decode_each_prefix ms ps :
  Forall2 (λ m p, to_json m = Ret p) ms ps → (decode_each from_json ps).1 `prefix_of` ms.
Proof.
  induction 1 as [|m p ms ps Hp _ IH]; cbn; [done|].
  destruct (from_json p) as [m'|e|] eqn:Hm; [|apply prefix_nil..].
  rewrite (json_faithful _ _ _ Hp Hm). destruct (decode_each from_json ps). by apply prefix_cons.
Qed.

Lemma decode_each_all ms ps :
  Forall2 (λ m p, to_json m = Ret p) ms ps →
  Forall (λ m, ∀ p, to_json m = Ret p → is_ret (from_json p) = true) ms →
  decode_each from_json ps = (ms, Ret tt).
Proof.
  induction 1 as [|m p ms ps Hp _ IH]; cbn; [done|]. intros [Hm Hms]%Forall_cons.
  specialize (Hm p Hp). destruct (from_json p) as [m'|e|] eqn:E; [|done..].
  rewrite (json_faithful _ _ _ Hp E), IH by done. done.
Qed.

Lemma write_message_payloads ms bs :
  Forall2 (λ m b, write_message m = Ret b) ms bs →
  ∃ ps, Forall2 (λ m p, to_json m = Ret p) ms ps ∧ Forall2 (λ p b, frame_encode p = Ret b) ps bs.
Proof.
  induction 1 as [|m b ms bs Hm _ (ps & H1 & H2)]; [by exists []|].
  unfold write_message in Hm. apply bind_Ret in Hm as (p & Hp & Hb).
  exists (p :: ps). by split; constructor.
Qed.

(** What a connection that is cut anywhere delivers. *)
Lemma conn_delivers tx w k : conn_ok tx w → (received (take k w)).1 `prefix_of` taken tx.
Proof.
  intros (ms & bs & rest & -> & Hms & [z Hz] & _).
  destruct (write_message_payloads _ _ Hms) as (ps & Hps & Hbs).
  assert (take k w = take (k `min` length w) (concat bs)) as ->.
  { rewrite Hz, take_app, <-take_take, (take_ge w (length w)) by done.
    replace (k `min` length w - length w)%nat with 0%nat by lia. by rewrite take_0, app_nil_r. }
  unfold received. destruct (read_cut from_json ps bs (k `min` length w) Hbs) as [i ->].
  etransitivity; [|apply prefix_app_r; reflexivity].
  etransitivity; [|exists (drop i ms); by rewrite take_drop].
  apply decode_each_prefix. by apply Forall2_take.
Qed.

Lemma conn_intact tx w :
  conn_ok tx w → peer_alive tx = true →
  Forall (λ m, ∀ p, to_json m = Ret p → is_ret (from_json p) = true) (taken tx) →
  stream_messages w = (taken tx, Ret tt).
Proof.
  intros (ms & bs & rest & Ht & Hms & _ & Hal) Ha Hdec. destruct (Hal Ha) as [-> ->].
  rewrite app_nil_r in Ht. rewrite Ht in Hdec |- *.
  destruct (write_message_payloads _ _ Hms) as (ps & Hps & Hbs).
  pose proof (read_frames from_json ps bs [] Hbs frame_nil) as Hr.
  rewrite (decode_each_all _ _ Hps Hdec), app_nil_r in Hr.
  unfold stream_messages, received. by rewrite Hr.
Qed.

(** ** The network *)
Definition net_ok (id : NodeId) (h : list NetEvent) (n : Net) : Prop :=
  dom (net_conns n) = dom (net_txs n) ∧
  ∀ j tx c, net_txs n !! j = Some tx → net_conns n !! j = Some c →
    conn_ok tx (default [] (cn_socket c)) ∧ passed tx `sublist_of` handed id j h ∧
    ((length (handed id j h) ≤ CAPACITY)%nat → passed tx = handed id j h).

Lemma handed_snoc id j h e : handed id j (h ++ [e]) = handed id j h ++ handed id j [e].
Proof. unfold handed. by rewrite bind_app. Qed.

Lemma net_step_ok id h n e n' : net_ok id h n → net_step id n e = Ret n' → net_ok id (h ++ [e]) n'.
Proof.
  intros [Hd Hn] Hs. destruct e as [m|j e|]; cbn in Hs.
  - destruct (net_open n); [|done]. apply bind_Ret in Hs as (txs & Hs & [= <-]). apply send_task_step_spec in Hs as [Hd' Hl].
    split; cbn; [congruence|]. intros j tx' c Hj' Hc.
    assert (is_Some (net_txs n !! j)) as [tx Hj].
    { apply elem_of_dom. rewrite <-Hd'. apply elem_of_dom. by eexists. }
    destruct (Hn j tx c Hj Hc) as (Hok & Hsub & Hall). destruct (Hl j tx Hj) as (tx2 & Hj2 & Hcase).
    rewrite Hj' in Hj2. injection Hj2 as <-. rewrite handed_snoc. unfold handed at 2 4 6. cbn.
    destruct (addressed m j); cbn.
    + split; [|by eapply offers_delivers].
      destruct Hok as (ms & bs & rest & Ht & Hms & Hpre & Hal). exists ms, bs, rest.
      destruct Hcase as (Htk & Ha & _). by rewrite Htk, Ha.
    + rewrite app_nil_r. by subst.
  - destruct (net_txs n !! j) as [tx|] eqn:Hj; destruct (net_conns n !! j) as [c|] eqn:Hc;
      rewrite ?handed_snoc.
    2-4: injection Hs as <-; split; [done|]; intros i tx' c'; rewrite handed_snoc, app_nil_r; apply Hn.
    destruct (net_open n && _).
    { injection Hs as <-. split; [done|]. intros i tx' c'. rewrite handed_snoc, app_nil_r. apply Hn. }
    destruct (Hn j tx c Hj Hc) as (Hok & Hsub & Hall).
    pose proof (connect_step_ok tx c e Hok) as Hst. destruct (connect_step tx c e) as [tx' c'].
    destruct Hst as [Hok' Hp]. injection Hs as <-. split; cbn; [rewrite !dom_insert_L; congruence|].
    intros i txi ci. rewrite handed_snoc, app_nil_r, !lookup_insert. case_decide; [|apply Hn].
    subst i. intros [= <-] [= <-]. by rewrite Hp.
  - injection Hs as <-. split; [done|]. intros i tx' c'. rewrite handed_snoc, app_nil_r. apply Hn.
Qed.

Lemma net_run_ok id l h n n' :
  net_ok id h n → ofold (net_step id) n l = Ret n' → net_ok id (h ++ l) n'.
Proof.
  revert h n. induction l as [|e l IH]; intros h n Hn Hr; cbn in Hr.
  - injection Hr as <-. by rewrite app_nil_r.
  - apply bind_Ret in Hr as (n1 & H1 & Hr). rewrite cons_middle, app_assoc.
    eapply IH; [by eapply net_step_ok|done].
Qed.

Lemma send_task_init_lookup nodes j tx :
  send_task_init nodes !! j = Some tx → tx = {| queue := []; taken := []; peer_alive := true |}.
Proof.
  unfold send_task_init. assert (∀ txs : gmap NodeId PeerChan,
    (∀ j tx, txs !! j = Some tx → tx = {| queue := []; taken := []; peer_alive := true |}) →
    ∀ j tx, foldl (λ txs node, <[n_id node := {| queue := []; taken := []; peer_alive := true |}]> txs)
      txs nodes !! j = Some tx → tx = {| queue := []; taken := []; peer_alive := true |}) as H.
  { induction nodes as [|x nodes IH]; intros txs Htxs i txi; cbn; [by apply Htxs|].
    apply IH. intros i' tx'. rewrite lookup_insert. case_decide; [by intros [= <-]|by apply Htxs]. }
  apply H. by intros i txi ?%lookup_empty_Some.
Qed.



Lemma net_init_ok id nodes : net_ok id [] (net_init nodes).
Proof.
  split; cbn; [by rewrite dom_fmap_L|]. intros j tx c Hj Hc.
  apply send_task_init_lookup in Hj as ->. apply lookup_fmap_Some in Hc as (tx & <- & _). cbn.
  split; [|done]. by exists [], [], [].
Qed.

(** C21: the network between two nodes. Whatever the interleaving of the sending
    task, the tasks of the peers and the failures of the connection, and wherever
    the connection is cut, the messages that reach a peer are the first messages
    its task took from its queue; these are, in order, a subsequence of the
    messages the node addressed to the peer, each signed by the node. Nothing is
    lost while fewer messages were addressed to the peer than its queue holds and
    the connection is intact, if the messages decode. *)
Theorem network_fifo id nodes l n j tx :
  ofold (net_step id) (net_init nodes) l = Ret n → net_txs n !! j = Some tx →
  (∀ k, (received (take k (wire n j))).1 `prefix_of` taken tx) ∧
  taken tx ++ queue tx `sublist_of` handed id j l ∧
  ((length (handed id j l) ≤ CAPACITY)%nat → taken tx ++ queue tx = handed id j l) ∧
  (peer_alive tx = true →
   Forall (λ m, ∀ p, to_json m = Ret p → is_ret (from_json p) = true) (taken tx) →
   stream_messages (wire n j) = (taken tx, Ret tt)).
Proof.
  intros Hr Hj. destruct (net_run_ok id l [] _ _ (net_init_ok id nodes) Hr) as [Hd Hn].
  assert (is_Some (net_conns n !! j)) as [c Hc].
  { apply elem_of_dom. rewrite Hd. apply elem_of_dom. by eexists. }
  destruct (Hn j tx c Hj Hc) as (Hok & Hsub & Hall). unfold wire. rewrite Hc. cbn.
  split_and!; [|done|done|].
  - intros k. by apply conn_delivers.
  - by apply conn_intact.
Qed.


Lemma try_send_dead m l txs txs' j tx :
  ofold (try_send_to m) txs l = Ret txs' → j ∈ l → txs !! j = Some tx → peer_alive tx = false → False.
Proof.
  intros Hst Hin Hj Ha. revert txs Hst Hj. induction l as [|i l IH]; intros txs Hst Hj.
  { by apply elem_of_nil in Hin. }
  cbn in Hst. apply bind_Ret in Hst as (txs1 & H1 & Hst). destruct (decide (i = j)) as [->|Hne].
  - unfold try_send_to in H1. by rewrite Hj, Ha in H1.
  - eapply IH; [set_solver|done|]. apply try_send_spec in H1 as (_ & Hothers & _). by rewrite Hothers.
Qed.

(** When writing a message to a peer fails, the task of the peer ends without
    connecting again and its queue is gone: the next message for that peer, a
    heartbeat of a leader for instance, makes the sending task return an error. *)
Lemma broken_sender id n j tx c w m q k n' msg :
  net_open n = true → net_txs n !! j = Some tx → net_conns n !! j = Some c →
  peer_alive tx = true → cn_socket c = Some w → cn_drained c = false → queue tx = m :: q →
  net_step id n (NetConn j (Broken k)) = Ret n' → addressed msg j = true →
  is_ret (net_step id n' (NetSend msg)) = false.
Proof.
  intros Hop Hj Hc Ha Hw Hdr Hq Hs Hmsg. cbn in Hs. rewrite Hj, Hc in Hs. unfold connect_step in Hs.
  rewrite Ha, Hw, Hdr, Hq, andb_comm in Hs.
  assert (∃ tx', net_txs n' !! j = Some tx' ∧ peer_alive tx' = false) as (tx' & Hj' & Ha').
  { destruct (write_message m); injection Hs as <-; cbn; rewrite lookup_insert_eq; by eexists. }
  cbn. destruct (net_open n'); [|done]. destruct (send_task_step id (net_txs n') msg) as [txs|er|] eqn:Hst; [|done..].
  apply not_true_iff_false. intros _. clear Hs.
  unfold send_task_step in Hst.
  assert (j ∈ recipients (net_txs n') (sign id msg)) as Hrec.
  { unfold recipients, addressed in *. rewrite sign_to. destruct (msg_to msg) as [|i| |]; [| |done..].
    - apply list_elem_of_fmap. exists (j, tx'). split; [done|]. by apply elem_of_map_to_list.
    - apply bool_decide_eq_true_1 in Hmsg as ->. by apply list_elem_of_singleton. }
  by eapply try_send_dead.
Qed.

(** ** Pauses *)
Definition pause (i : nat) : Z := 2 ^ Z.of_nat (i `min` 63).

Lemma next_pause i : next_backoff (pause i) = pause (S i).
Proof.
  unfold next_backoff, pause, u64_limit. destruct (Nat.ltb_spec i 63) as [Hi|Hi].
  - replace (i `min` 63)%nat with i by lia. replace (S i `min` 63)%nat with (S i) by lia.
    rewrite Nat2Z.inj_succ, Z.pow_succ_r by lia.
    rewrite (proj2 (Z.ltb_lt _ _)); [lia|]. rewrite Z.mul_comm, <-Z.pow_succ_r by lia.
    apply Z.pow_lt_mono_r; lia.
  - replace (i `min` 63)%nat with 63%nat by lia. by replace (S i `min` 63)%nat with 63%nat by lia.
Qed.

(** C35: the pauses between attempts. Over any events, the i-th pause of
    [connect_and_send] is 2 to the i seconds, held at 2 to the 63 from the 63rd
    on: the doubling never leaves the 64-bit range. *)
Theorem backoff_exact tx es :
  let c := (foldl (λ s e, connect_step s.1 s.2 e) (tx, connect_init) es).2 in
  cn_slept c = pause <$> seq 0 (length (cn_slept c)) ∧
  cn_backoff c = pause (length (cn_slept c)) ∧ 1 ≤ cn_backoff c < u64_limit.
Proof.
  assert (∀ c e tx, cn_slept c = pause <$> seq 0 (length (cn_slept c)) →
    cn_backoff c = pause (length (cn_slept c)) →
    let c' := (connect_step tx c e).2 in
    cn_slept c' = pause <$> seq 0 (length (cn_slept c')) ∧ cn_backoff c' = pause (length (cn_slept c')))
    as Hstep.
  { intros c e tx0 H1 H2. unfold connect_step. destruct (peer_alive tx0); [|by split].
    assert (cn_slept c ++ [cn_backoff c] = pause <$> seq 0 (length (cn_slept c ++ [cn_backoff c])) ∧
      next_backoff (cn_backoff c) = pause (length (cn_slept c ++ [cn_backoff c]))) as Hnext;
      [|by repeat case_match].
    rewrite length_app, Nat.add_1_r, seq_S, fmap_app, <-H1, H2, next_pause. done. }
  intros c. assert (cn_slept c = pause <$> seq 0 (length (cn_slept c)) ∧
    cn_backoff c = pause (length (cn_slept c))) as [H1 H2].
  { unfold c. clear c. induction es as [|e es IH] using rev_ind; [done|].
    rewrite foldl_app. cbn [foldl]. destruct IH as [IH1 IH2]. by apply Hstep. }
  split_and!; [done|done| |]; rewrite H2; unfold pause, u64_limit.
  - pose proof (Z.pow_pos_nonneg 2 (Z.of_nat (length (cn_slept c) `min` 63))). lia.
  - apply Z.pow_lt_mono_r; lia.
Qed.

(** ** The receiving side *)
Definition receive_init : Receiver := {| rc_conns := []; rc_inbox := [] |}.

(** The bytes of the connections, in the order they were accepted. *)
Definition conn_data (l : list ReceiveEvent) : list bytes :=
  foldl (λ s e, match e with Accept => s ++ [[]] | Data j piece => alter (.++ piece) j s end) [] l.

(** The messages of the inbox that came over connection [i]. *)
Definition inbox_of (i : nat) (r : Receiver) : list Message :=
  (filter (λ x, x.1 = i) (rc_inbox r)).*2.

Lemma received_nil : received [] = ([], Ret []).
Proof. unfold received, read_all. cbn. unfold framed. by rewrite frame_nil. Qed.

Lemma feed_extends st piece :
  (feed (framed from_json) st piece).1 = st.1 ++ drop (length st.1) (feed (framed from_json) st piece).1.
Proof.
  unfold feed. destruct st as [l [buf|e|]]; cbn [fst snd]; [|by rewrite drop_all, app_nil_r..].
  destruct (read_all (framed from_json) (buf ++ piece)). cbn [fst]. by rewrite drop_app_length.
Qed.

Lemma inbox_of_app i j conns inbox ms :
  inbox_of i {| rc_conns := conns; rc_inbox := inbox ++ (pair j <$> ms) |} =
    (filter (λ x, x.1 = i) inbox).*2 ++ (if decide (j = i) then ms else []).
Proof.
  unfold inbox_of. cbn. rewrite filter_app, fmap_app. f_equal. case_decide as Hj.
  - subst. rewrite list_filter_all; [by rewrite <-list_fmap_compose, list_fmap_id|].
    by intros x (m & -> & _)%list_elem_of_fmap.
  - rewrite list_filter_none; [done|]. by intros x (m & -> & _)%list_elem_of_fmap.
Qed.

(** The receiving task. Whatever the order in which connections are accepted
    and bytes arrive on them, the messages of each connection reach the event loop
    in the order they were written: those on its channel from connection [i] are
    the messages of the bytes of [i], one after the other. *)
Theorem receive_task_exact l :
  let r := foldl receive_step receive_init l in
  rc_conns r = received <$> conn_data l ∧
  ∀ i, inbox_of i r = default [] (fst <$> (rc_conns r !! i)).
Proof.
  intros r. subst r. induction l as [|e l [IH1 IH2]] using rev_ind; [done|].
  unfold conn_data. rewrite !foldl_app. cbn [foldl]. fold (conn_data l).
  set (r := foldl receive_step receive_init l) in *. destruct e as [|j piece]; cbn [receive_step].
  - cbn [rc_conns rc_inbox]. rewrite IH1, fmap_app, list_fmap_singleton, received_nil. split; [done|]. intros i.
    change (inbox_of i r = default [] (fst <$> ((received <$> conn_data l) ++ [([], Ret [])]) !! i)).
    rewrite IH2, IH1. destruct (decide (i < length (conn_data l))%nat) as [Hi|Hi].
    + by rewrite lookup_app_l by (by rewrite length_fmap).
    + rewrite (lookup_ge_None_2 (received <$> conn_data l)) by (rewrite length_fmap; lia). cbn.
      rewrite lookup_app_r by (rewrite length_fmap; lia).
      by destruct (i - length (received <$> conn_data l))%nat as [|[|]].
  - destruct (rc_conns r !! j) as [st|] eqn:Hj.
    + pose proof Hj as Hj'. rewrite IH1 in Hj'. apply list_lookup_fmap_Some in Hj' as (bs & Hst & Hbs).
      assert (feed (framed from_json) st piece = received (bs ++ piece)) as Hfeed.
      { rewrite Hst. unfold received. by rewrite read_app. }
      cbn [rc_conns]. split.
      * rewrite Hfeed, IH1. apply list_eq. intros i. rewrite list_lookup_fmap.
        destruct (decide (i = j)) as [->|Hne].
        -- rewrite list_lookup_insert_eq by (rewrite length_fmap; by eapply lookup_lt_Some).
           by rewrite list_lookup_alter_eq, Hbs.
        -- by rewrite list_lookup_insert_ne, list_lookup_alter_ne, list_lookup_fmap by done.
      * intros i. rewrite inbox_of_app. fold (inbox_of i r). rewrite IH2.
        destruct (decide (j = i)) as [->|Hne].
        -- rewrite list_lookup_insert_eq by (by eapply lookup_lt_Some). rewrite Hj. cbn.
           symmetry. apply feed_extends.
        -- rewrite list_lookup_insert_ne by done. by rewrite app_nil_r.
    + split; [|done]. rewrite IH1 in Hj |- *. rewrite list_lookup_fmap in Hj.
      apply list_eq. intros i. rewrite !list_lookup_fmap, list_lookup_alter.
      case_decide; [|done]. subst. by destruct (conn_data l !! i).
Qed.
End Facts.

(** ** Witnesses *)

(** A codec that knows five messages. *)
Definition demo_messages : list Message :=
  [Message_new (Peer 1) Peers Tick; Message_new (Peer 1) (Peer 2) Noop;
   Message_new (Peer 1) (Peer 3) Noop; Message_new (Peer 1) (Peer 2) Propose;
   Message_new (Peer 1) (Peer 2) Tick].
#[export] Instance demo_json : MessageJson := {|
  to_json m := match list_find (eq m) demo_messages with
               | Some (i, _) => Ret [byte_of (Z.of_nat i)]
               | None => Err (ErrMsg "json")
               end;
  from_json p := match p with
                 | [b] => ok_or (demo_messages !! Z.to_nat (byte_val b)) (ErrMsg "json")
                 | _ => Err (ErrMsg "json")
                 end;
|}.
#[export] Instance demo_json_laws : MessageJsonLaws.
Proof.
  split. intros m p m'. cbn [to_json from_json demo_json].
  destruct (list_find (eq m) demo_messages) as [[i y]|] eqn:Hf; [|done]. intros [= <-].
  apply list_find_Some in Hf as (Hi & -> & _). apply lookup_lt_Some in Hi as Hlt.
  rewrite byte_val_of, Z.mod_small by (cbn in Hlt; lia). rewrite Nat2Z.id, Hi. by intros [= <-].
Qed.

Definition demo_net_events : list NetEvent :=
  [NetConn 2 Refused; NetSend (Message_new Local Peers Tick); NetConn 2 Accepted; NetConn 2 Written;
   NetSend (Message_new (Peer 1) (Peer 2) Noop); NetConn 2 Written;
   NetSend (Message_new (Peer 1) (Peer 2) Propose)].
Definition demo_net : Net :=
  ret_or (net_init []) (ofold (net_step 1) (net_init tcp_peers) demo_net_events).
Definition demo_net_tx : PeerChan :=
  default {| queue := []; taken := []; peer_alive := false |} (net_txs demo_net !! 2).

Lemma demo_net_run : ofold (net_step 1) (net_init tcp_peers) demo_net_events = Ret demo_net.
Proof. apply is_ret_or. vm_compute. reflexivity. Qed.
Lemma demo_net_lookup : net_txs demo_net !! 2 = Some demo_net_tx.
Proof.
  unfold demo_net_tx. assert (bool_decide (is_Some (net_txs demo_net !! 2)) = true) as [tx Htx]%bool_decide_eq_true_1
    by (vm_compute; reflexivity). by rewrite Htx.
Qed.

Lemma network_fifo_witness :
  taken demo_net_tx ++ queue demo_net_tx = handed 1 2 demo_net_events ∧
  length (handed 1 2 demo_net_events) = 3%nat ∧
  stream_messages (wire demo_net 2) = (taken demo_net_tx, Ret tt).
Proof.
  destruct (network_fifo 1 tcp_peers demo_net_events demo_net 2 demo_net_tx demo_net_run demo_net_lookup)
    as (_ & _ & H1 & H2).
  split; [apply H1; unfold CAPACITY; vm_compute; lia|]. split; [reflexivity|]. apply H2; [vm_compute; reflexivity|].
  replace (taken demo_net_tx) with [Message_new (Peer 1) Peers Tick; Message_new (Peer 1) (Peer 2) Noop]
    by (vm_compute; reflexivity).
  repeat constructor; intros p; vm_compute; intros [= <-]; reflexivity.
Defined.


(** The connection breaks in the middle of a message. *)
Definition demo_broken : Net := ret_or demo_net (net_step 1 demo_net (NetConn 2 (Broken 3))).

Lemma backoff_exact_witness :
  cn_slept (foldl (λ s e, connect_step s.1 s.2 e)
    ({| queue := []; taken := []; peer_alive := true |}, connect_init) (replicate 3 Refused)).2 =
  [1; 2; 4].
Proof.
  destruct (backoff_exact {| queue := []; taken := []; peer_alive := true |} (replicate 3 Refused)) as [H _].
  rewrite H. vm_compute. reflexivity.
Defined.

Definition demo_arrivals : list ReceiveEvent :=
  [Accept; Data 0 [x00; x00; x00]; Accept; Data 1 [x00; x00; x00; x01; x01]; Data 0 [x01; x03]].

Lemma receive_task_exact_witness :
  inbox_of 0 (foldl receive_step receive_init demo_arrivals) = [Message_new (Peer 1) (Peer 2) Propose].
Proof.
  destruct (receive_task_exact demo_arrivals) as [H1 H2]. rewrite H2, H1. vm_compute. reflexivity.
Defined.
