(* ===== verification/Start.v ===== *)
(** * Starting a process ([src/lib.rs], [src/config.rs], [src/main.rs],
    [src/raft/server.rs], [src/broker/server.rs], [tests/josefine.rs])

    How a process reads its configuration, starts the servers of the broker and of
    Raft and ends with them, and how the integration tests put a cluster
    together. *)
From S2P Require Import Prelude Bytes Storage Chain Rpc Election Progress Config Raft.
From S2P Require Leader Candidate Follower.
From S2P Require Import Handle Fsm Tcp Server Invariants Demo Cluster Runtime Store Framing Kafka Broker Connection.
Local Open Scope Z_scope.

Record JosefineConfig : Type := { jc_raft : RaftConfig; jc_broker : BrokerConfig }.

(** The [config] crate: settings from a file and the variables of a prefix, and
    what they deserialize to. *)
Class ConfigCrate := {
  settings : Type;
  build : string → string → outcome settings;
  deserialize_josefine : settings → outcome JosefineConfig;
  deserialize_raft : settings → outcome RaftConfig;
}.

(** What the operating system answers: the database at a path, a listener at an
    address, the subscriber of the logs, the handler of Ctrl-C. *)
Class System {SLED : Sled} := {
  open_db : string → outcome db;
  bind : SocketAddr → outcome unit;
  set_subscriber : outcome unit;
  set_ctrlc : outcome unit;
}.

Section Reading.
Context {CFG : ConfigCrate}.

Definition config (path : string) : outcome JosefineConfig :=
  config ← unwrap_result (build path "JOSEFINE");
  unwrap_result (deserialize_josefine config).

(** [RaftConfig::config]. *)
Definition raft_config (path : string) : outcome RaftConfig :=
  config ← unwrap_result (build path "crate::raft");
  unwrap_result (deserialize_raft config).
End Reading.

(** ** [tokio::try_join!]

    [try_join l] waits for the branches in [l]; [complete] is the completion of one
    of them, and [join_result] what the macro has returned, if it has. *)
Class TryJoin := {
  join : Type → Type;
  try_join : ∀ {K : Type}, list K → join K;
  complete : ∀ {K : Type}, join K → K * outcome unit → join K;
  join_result : ∀ {K : Type}, join K → option (outcome unit);
}.

(** It returns the first failure, or success once all branches have succeeded. *)
Definition failing {A} (e : A * outcome unit) : bool := negb (is_ret e.2).

Lemma find_failing {K} (l after : list (K * outcome unit)) k o :
  Forall (λ e, is_ret e.2 = true) l → is_ret o = false → find failing (l ++ (k, o) :: after) = Some (k, o).
Proof.
  induction 1 as [|[k' o'] l Hx _ IH]; intros Ho; cbn in *.
  - unfold failing. cbn. by rewrite Ho.
  - unfold failing at 1. cbn in *. rewrite Hx. by apply IH.
Qed.
Lemma find_failing_none {K} (l : list (K * outcome unit)) :
  Forall (λ e, is_ret e.2 = true) l → find failing l = None.
Proof. induction 1 as [|[k' o'] l Hx _ IH]; cbn in *; [done|]. unfold failing at 1. cbn in *. by rewrite Hx. Qed.

Class TryJoinLaws (J : TryJoin) : Prop := {
  join_failure K (l : list K) (before after : list (K * outcome unit)) k o :
    NoDup l → k ∈ l → NoDup before.*1 → (∀ x, x ∈ before.*1 → x ∈ l) → (k ∉ before.*1) →
    Forall (λ e, is_ret e.2 = true) before → is_ret o = false →
    join_result (foldl complete (try_join l) (before ++ (k, o) :: after)) = Some o;
  join_success K (l : list K) (ends : list (K * outcome unit)) :
    NoDup l → NoDup ends.*1 → (∀ x, x ∈ ends.*1 → x ∈ l) → Forall (λ e, is_ret e.2 = true) ends →
    join_result (foldl complete (try_join l) ends) = if (length ends =? length l)%nat then Some (Ret tt) else None;
}.

Definition raft_tasks : list Task := [RaftLoop; RaftReceive; RaftSend; RaftDriver].
Definition broker_tasks : list Task := [BrokerReceive; BrokerServer].

(** The two servers of a process. *)
Inductive Side : Type := BrokerSide | RaftSide.
#[global] Instance side_eq_dec : EqDecision Side.
Proof. solve_decision. Defined.
Definition tasks_of (n : Side) : list Task := match n with BrokerSide => broker_tasks | RaftSide => raft_tasks end.
Definition side_of (t : Task) : option Side :=
  if decide (t ∈ broker_tasks) then Some BrokerSide else if decide (t ∈ raft_tasks) then Some RaftSide else None.

Section Running.
Context {SLED : Sled} {BINC : Bincode Block} {ENV : Env} {BUILD : Build} {SYS : System} {CFG : ConfigCrate}
  {JOIN : TryJoin}.

(** [Server::run] of Raft: the listener is bound, and the
    state of Raft is created once the other tasks run; it may panic. *)
Definition raft_server_run (config : RaftConfig) (d : db) (w : World) : outcome (join Task) :=
  _ ← bind {| sock_ip := cfg_ip config; sock_port := cfg_port config |};
  _ ← (handle_new config d w).1;
  Ret (try_join raft_tasks).

(** [JosefineRaft::new] and [run]. *)
Definition josefine_raft_run (config : RaftConfig) (d : db) (w : World) : outcome (join Task) :=
  raft_server_run config d w.

(** [Server::new] and [run] of the broker. *)
Definition broker_server_run (config : BrokerConfig) : outcome (join Task) :=
  let address := {| sock_ip := bc_ip config; sock_port := bc_port config |} in
  _ ← bind address;
  Ret (try_join broker_tasks).

(** [JosefineBroker::new] and [run]. *)
Definition josefine_broker_run (config : BrokerConfig) : outcome (join Task) := broker_server_run config.

(** [lib::run]: the two servers, each not started, failed to start or waiting for
    its tasks, and the [try_join!] of the two. *)
Record Run : Type := {
  run_server : Side → option (outcome (join Task));
  run_outer : join Side;
}.
Definition run_init : Run := {| run_server _ := None; run_outer := try_join [BrokerSide; RaftSide] |}.
Definition run_result (s : Run) : option (outcome unit) := join_result (run_outer s).

Inductive RunEvent : Type :=
| StartServer (n : Side)
| Ended (t : Task) (o : outcome unit).

Definition server_result (s : option (outcome (join Task))) : option (outcome unit) :=
  match s with
  | None => None
  | Some (Ret j) => join_result j
  | Some (Err e) => Some (Err e)
  | Some Panic => Some Panic
  end.

(** A server has moved; when it has returned, its branch is complete. *)
Definition server_moved (s : Run) (n : Side) (sv : outcome (join Task)) : Run := {|
  run_server m := if decide (m = n) then Some sv else run_server s m;
  run_outer := match server_result (Some sv) with Some o => complete (run_outer s) (n, o) | None => run_outer s end;
|}.

(** The start of a server; [w] is the world Raft starts in, and the database at its
    data directory is opened by [Raft::new]. *)
Definition server_start (c : JosefineConfig) (w : World) (n : Side) : outcome (join Task) :=
  match n with
  | BrokerSide => josefine_broker_run (jc_broker c)
  | RaftSide => d ← unwrap_result (open_db (data_directory (jc_raft c))); josefine_raft_run (jc_raft c) d w
  end.

(** A step of the process.  Once there is a result, the tasks that are left are
    cancelled, and a server that has returned is not polled again. *)
Definition run_step (c : JosefineConfig) (w : World) (s : Run) (e : RunEvent) : Run :=
  match run_result s, e with
  | Some _, _ => s
  | None, StartServer n =>
      match run_server s n with None => server_moved s n (server_start c w n) | Some _ => s end
  | None, Ended t o =>
      match side_of t with
      | Some n =>
          match run_server s n, server_result (run_server s n) with
          | Some (Ret j), None => server_moved s n (Ret (complete j (t, o)))
          | _, _ => s
          end
      | None => s
      end
  end.

(** The database of the store is opened first. *)
Definition run (c : JosefineConfig) (w : World) (l : list RunEvent) : outcome Run :=
  _ ← unwrap_result (open_db (broker_state_file (jc_broker c)));
  Ret (foldl (run_step c w) run_init l).

Definition josefine_with_config (c : JosefineConfig) (w : World) (l : list RunEvent) : outcome Run := run c w l.

(** [josefine] and [main]; [path] is the argument of the process. *)
Definition josefine (path : string) (w : World) (l : list RunEvent) : outcome Run :=
  c ← config path;
  run c w l.

Definition main (path : string) (w : World) (l : list RunEvent) : outcome Run :=
  _ ← set_subscriber;
  _ ← set_ctrlc;
  josefine path w l.
End Running.

(** ** How a process ends *)
Section Ending.
Context {SLED : Sled} {BINC : Bincode Block} {ENV : Env} {BUILD : Build} {SYS : System}
  {JOIN : TryJoin} {JLAWS : TryJoinLaws JOIN}.
Variable c : JosefineConfig.
Variable w : World.

Abbreviation Ends := (list (Task * outcome unit)).
Definition all_ret {K} (l : list (K * outcome unit)) : Prop := Forall (λ e, is_ret e.2 = true) l.

(** The ends of the tasks of a server. *)
Definition mine (n : Side) (ends : Ends) : Ends := filter (λ e, e.1 ∈ tasks_of n) ends.
Definition joined {K} (l : list K) (ends : list (K * outcome unit)) : join K := foldl complete (try_join l) ends.

Lemma tasks_nodup n : NoDup (tasks_of n).
Proof. destruct n; by apply (bool_decide_eq_true_1 _). Qed.

Lemma side_tasks t n : side_of t = Some n ↔ t ∈ tasks_of n.
Proof.
  assert (∀ t, t ∈ broker_tasks → t ∉ raft_tasks) as Hap.
  { intros x Hx. repeat (apply elem_of_cons in Hx as [->|Hx]); [..|by apply elem_of_nil in Hx];
      apply (bool_decide_eq_true_1 _); reflexivity. }
  unfold side_of. destruct n; cbn; repeat case_decide; naive_solver.
Qed.

Lemma mine_spec n (ends : Ends) : NoDup ends.*1 →
  NoDup (mine n ends).*1 ∧ (∀ t, t ∈ (mine n ends).*1 ↔ t ∈ tasks_of n ∧ t ∈ ends.*1).
Proof.
  intros Hnd. split.
  - eapply sublist_NoDup; [exact Hnd|]. apply fmap_sublist, sublist_filter.
  - intros t. rewrite !list_elem_of_fmap. setoid_rewrite list_elem_of_filter. naive_solver.
Qed.

Lemma mine_ret n (ends : Ends) : all_ret ends → all_ret (mine n ends).
Proof. unfold all_ret, mine. rewrite !Forall_forall. intros H e [_ He]%list_elem_of_filter. by apply H. Qed.

(** A server none of whose tasks has failed. *)
Lemma joined_ret n (ends : Ends) : NoDup ends.*1 → all_ret ends →
  join_result (joined (tasks_of n) (mine n ends)) =
    if (length (mine n ends) =? length (tasks_of n))%nat then Some (Ret tt) else None.
Proof.
  intros Hnd Hret. destruct (mine_spec n ends Hnd) as [Hn Hin]. apply join_success; [apply tasks_nodup|done| |].
  - intros t Ht. by apply Hin in Ht as [? _].
  - by apply mine_ret.
Qed.

(** The process after its servers have started and tasks have ended well. *)
Record waiting_for (ends : Ends) (s : Run) : Prop := {
  wf_server n : run_server s n = Some (Ret (joined (tasks_of n) (mine n ends)));
  wf_outer : ∃ O, run_outer s = joined [BrokerSide; RaftSide] O ∧ NoDup O.*1 ∧ all_ret O ∧
    ∀ n, n ∈ O.*1 ↔ length (mine n ends) = length (tasks_of n);
}.

Lemma sides (n : Side) : n ∈ [BrokerSide; RaftSide].
Proof. destruct n; set_solver. Qed.
Lemma sides_nodup : NoDup [BrokerSide; RaftSide].
Proof. by apply (bool_decide_eq_true_1 _). Qed.

Lemma mine_length n (ends : Ends) t : NoDup ends.*1 → t ∈ tasks_of n → (t ∉ ends.*1) →
  (length (mine n ends) < length (tasks_of n))%nat.
Proof.
  intros Hnd Ht Hno. destruct (mine_spec n ends Hnd) as [Hn Hin]. rewrite <-(length_fmap fst).
  apply (Nat.lt_le_trans _ (length (t :: (mine n ends).*1))); [cbn; lia|].
  apply submseteq_length, NoDup_submseteq; [constructor; [|done]|].
  - intros [_ ?]%Hin. done.
  - intros x [->|Hx]%elem_of_cons; [done|]. by apply Hin in Hx as [? _].
Qed.

Lemma waiting_open ends s t n :
  NoDup ends.*1 → t ∈ tasks_of n → (t ∉ ends.*1) → waiting_for ends s → run_result s = None.
Proof.
  intros Hnd Ht Hno [_ (O & Ho & HndO & Hret & HO)]. unfold run_result. rewrite Ho. unfold joined.
  rewrite join_success; [|apply sides_nodup|done|intros; apply sides|done].
  rewrite (proj2 (Nat.eqb_neq _ _)); [done|]. intros Hlen. pose proof (mine_length n ends t Hnd Ht Hno) as Hlt.
  assert (n ∈ O.*1) as Hin%HO; [|lia].
  assert ([BrokerSide; RaftSide] ≡ₚ O.*1) as <-; [|apply sides].
  symmetry. apply submseteq_length_Permutation; [apply NoDup_submseteq; [done|intros; apply sides]|].
  rewrite length_fmap. cbn in Hlen |- *. lia.
Qed.

(** A task ends well. *)
Lemma ended_well ends s t n u :
  NoDup ends.*1 → all_ret ends → t ∈ tasks_of n → (t ∉ ends.*1) → waiting_for ends s →
  waiting_for (ends ++ [(t, Ret u)]) (run_step c w s (Ended t (Ret u))).
Proof.
  intros Hnd Hret Ht Hno Hw. unfold run_step. rewrite (waiting_open ends s t n Hnd Ht Hno Hw).
  pose proof Hw as [Hs (O & Ho & HndO & HretO & HO)]. rewrite (proj2 (side_tasks t n) Ht), (Hs n). cbn [server_result].
  rewrite joined_ret by done. pose proof (mine_length n ends t Hnd Ht Hno) as Hlt.
  rewrite (proj2 (Nat.eqb_neq _ _)) by lia.
  assert (∀ m, mine m (ends ++ [(t, Ret u)]) = mine m ends ++ if decide (m = n) then [(t, Ret u)] else []) as Hm.
  { intros m. unfold mine. rewrite filter_app. f_equal. case_decide as E.
    - subst m. by rewrite filter_cons_True.
    - rewrite filter_cons_False; [done|]. cbn. rewrite <-side_tasks, (proj2 (side_tasks t n) Ht). congruence. }
  assert (NoDup (ends ++ [(t, Ret u)]).*1) as Hnd' by (rewrite fmap_app; apply NoDup_app; split_and!; [done|set_solver|apply NoDup_singleton]).
  assert (all_ret (ends ++ [(t, Ret u)])) as Hret' by (apply Forall_app; split; [done|by repeat constructor]).
  assert (complete (joined (tasks_of n) (mine n ends)) (t, Ret u) =
    joined (tasks_of n) (mine n (ends ++ [(t, Ret u)]))) as Hj.
  { rewrite Hm, decide_True by done. unfold joined. by rewrite foldl_app. }
  rewrite Hj. split.
  - intros m. cbn. case_decide as E; [by subst|]. by rewrite Hs, Hm, decide_False, app_nil_r.
  - cbn [run_outer server_moved server_result]. rewrite joined_ret by done.
    destruct (Nat.eqb_spec (length (mine n (ends ++ [(t, Ret u)]))) (length (tasks_of n))) as [E|E].
    + exists (O ++ [(n, Ret tt)]). rewrite Ho. unfold joined. rewrite foldl_app. split_and!; [done| | |].
      * rewrite fmap_app. apply NoDup_app. split_and!; [done| |apply NoDup_singleton].
        intros m Hin%HO ->%list_elem_of_singleton. cbn in Hin. lia.
      * apply Forall_app. split; [done|by repeat constructor].
      * intros m. rewrite fmap_app, elem_of_app, HO, Hm. case_decide as En; [subst m|].
        -- rewrite Hm, decide_True in E by done. rewrite E. set_solver.
        -- rewrite app_nil_r. set_solver.
    + exists O. split_and!; [done..|]. intros m. rewrite HO, Hm. case_decide as En; [subst m|by rewrite app_nil_r].
      rewrite Hm, decide_True in E by done. lia.
Qed.

(** A task fails. *)
Lemma ended_badly ends s t n o :
  NoDup ends.*1 → all_ret ends → t ∈ tasks_of n → (t ∉ ends.*1) → waiting_for ends s → is_ret o = false →
  run_result (run_step c w s (Ended t o)) = Some o.
Proof.
  intros Hnd Hret Ht Hno Hw Hbad. unfold run_step. rewrite (waiting_open ends s t n Hnd Ht Hno Hw).
  pose proof Hw as [Hs (O & Ho & HndO & HretO & HO)]. rewrite (proj2 (side_tasks t n) Ht), (Hs n). cbn [server_result].
  rewrite joined_ret by done. pose proof (mine_length n ends t Hnd Ht Hno) as Hlt.
  rewrite (proj2 (Nat.eqb_neq _ _)) by lia. destruct (mine_spec n ends Hnd) as [Hn Hin].
  unfold run_result. cbn [run_outer server_moved server_result].
  assert (join_result (complete (joined (tasks_of n) (mine n ends)) (t, o)) = Some o) as ->.
  { pose proof (join_failure Task (tasks_of n) (mine n ends) [] t o) as Hf. rewrite foldl_app in Hf.
    apply Hf; [apply tasks_nodup|done|done|intros x Hx; by apply Hin in Hx as [? _]| |by apply mine_ret|done].
    intros [_ ?]%Hin. done. }
  rewrite Ho. pose proof (join_failure Side [BrokerSide; RaftSide] O [] n o) as Hf. rewrite foldl_app in Hf.
  apply Hf; [apply sides_nodup|apply sides|done|intros; apply sides| |done|done].
  intros ?%HO. lia.
Qed.

Lemma run_done s l : is_Some (run_result s) → foldl (run_step c w) s l = s.
Proof.
  intros [o Ho]. induction l as [|e l IH]; [done|]. cbn [foldl]. unfold run_step at 2. by rewrite Ho.
Qed.

Lemma run_ends ends : ∀ E s,
  NoDup (E ++ ends).*1 → (∀ t, t ∈ (E ++ ends).*1 → is_Some (side_of t)) → all_ret E → waiting_for E s →
  let s' := foldl (run_step c w) s ((λ e, Ended e.1 e.2) <$> ends) in
  match find failing ends with
  | Some (_, o) => run_result s' = Some o
  | None => all_ret (E ++ ends) ∧ waiting_for (E ++ ends) s'
  end.
Proof.
  induction ends as [|[t o] ends IH]; intros E s Hnd Hin Hret Hw; cbn [find fmap list_fmap foldl fst snd].
  { by rewrite app_nil_r. }
  destruct (Hin t) as [n Hn%side_tasks]; [rewrite fmap_app; set_solver|].
  assert (NoDup E.*1 ∧ t ∉ E.*1) as [HndE HtE].
  { rewrite fmap_app in Hnd. cbn in Hnd. apply NoDup_app in Hnd as (? & Hd & _). split; [done|]. intros HtE.
    apply (Hd t HtE). set_solver. }
  change (failing (t, o)) with (negb (is_ret o)). destruct (is_ret o) eqn:Ho; cbn [negb].
  - destruct o as [u| |]; [|done..].
    pose proof (ended_well E s t n u HndE Hret Hn HtE Hw) as Hw'.
    rewrite (cons_middle _ E), app_assoc in Hnd, Hin |- *. apply IH; [done|done| |done].
    apply Forall_app. split; [done|by repeat constructor].
  - pose proof (ended_badly E s t n o HndE Hret Hn HtE Hw Ho) as Hbad. by rewrite run_done.
Qed.

(** The servers have started, in either order. *)
Definition servers_start : Prop :=
  is_ret (open_db (broker_state_file (jc_broker c))) = true ∧ ∀ n, is_ret (server_start c w n) = true.

Lemma servers_started starts :
  servers_start → starts ≡ₚ [StartServer BrokerSide; StartServer RaftSide] →
  waiting_for [] (foldl (run_step c w) run_init starts).
Proof.
  intros [_ Hst] Hp.
  assert (∀ n, server_start c w n = Ret (joined (tasks_of n) [])) as Hs.
  { intros n. specialize (Hst n). destruct n; cbn in Hst |- *.
    - unfold josefine_broker_run, broker_server_run in *. by destruct (bind _).
    - destruct (unwrap_result _) as [d| |]; [|done..]. cbn in *. unfold josefine_raft_run, raft_server_run in *.
      destruct (bind _); [|done..]. cbn in *. by destruct (handle_new _ _ _).1. }
  assert (∀ n, join_result (joined (tasks_of n) []) = None) as Hopen.
  { intros n. unfold joined. rewrite join_success; [|apply tasks_nodup|apply NoDup_nil_2|set_solver|by constructor].
    by destruct n. }
  assert (join_result (try_join [BrokerSide; RaftSide]) = None) as Hout.
  { change (try_join [BrokerSide; RaftSide]) with (foldl complete (try_join [BrokerSide; RaftSide]) []).
    rewrite join_success; [done|apply sides_nodup|apply NoDup_nil_2|set_solver|by constructor]. }
  assert (∃ a b, a ≠ b ∧ starts = [StartServer a; StartServer b]) as (a & b & Hab & ->).
  { apply Permutation_sym, Permutation_length_2_inv in Hp as [->| ->]; [by exists BrokerSide, RaftSide|by exists RaftSide, BrokerSide]. }
  cbn [foldl]. unfold run_step at 2. unfold run_result, run_init. cbn [run_outer run_server]. rewrite Hout, Hs.
  unfold run_step, run_result, server_moved. cbn [run_outer run_server server_result]. rewrite Hopen. cbn [run_outer run_server].
  rewrite Hout, decide_False by done. rewrite Hs, Hopen. split.
  - intros n. cbn. destruct (decide (n = b)) as [->|]; [done|]. rewrite decide_True; [|by destruct a, b, n].
    by destruct n, a, b.
  - exists []. split_and!; [done|apply NoDup_nil_2|by constructor|]. intros n. destruct n; cbn; split; [set_solver|lia|set_solver|lia].
Qed.

(** Both [run_exact] and what follows for a single task rest on this. *)
Lemma run_outcome starts ends :
  servers_start → starts ≡ₚ [StartServer BrokerSide; StartServer RaftSide] → NoDup ends.*1 →
  (∀ t, t ∈ ends.*1 → is_Some (side_of t)) →
  ∃ s, run c w (starts ++ ((λ e, Ended e.1 e.2) <$> ends)) = Ret s ∧
    match find failing ends with
    | Some (_, o) => run_result s = Some o
    | None => all_ret ends ∧ waiting_for ends s
    end.
Proof.
  intros Hst Hp Hnd Hin. pose proof (servers_started starts Hst Hp) as Hw.
  unfold run. destruct Hst as [Hdb _]. destruct (open_db (broker_state_file _)); [|done..].
  cbn [unwrap_result mbind outcome_bind]. eexists. split; [done|]. rewrite foldl_app.
  apply (run_ends ends [] _ Hnd Hin); [by constructor|done].
Qed.

(** C33: how a process ends.  Once the database is open and both servers have
    started, in either order, the process goes on exactly as long as no task has
    failed and not all have ended: it ends with the error or panic of the first of
    its six tasks that fails, whatever the others do, and without an error if all
    six end well.  The six are the receiving task and the message loop of the broker
    and the event loop, the receiving task, the sending task and the driver of Raft. *)
Theorem run_exact starts ends :
  servers_start → starts ≡ₚ [StartServer BrokerSide; StartServer RaftSide] → NoDup ends.*1 →
  ends.*1 ⊆ [BrokerReceive; BrokerServer; RaftLoop; RaftReceive; RaftSend; RaftDriver] →
  ∃ s, run c w (starts ++ ((λ e, Ended e.1 e.2) <$> ends)) = Ret s ∧
    run_result s = match find failing ends with
                   | Some (_, o) => Some o
                   | None => if (length ends =? 6)%nat then Some (Ret tt) else None
                   end.
Proof.
  intros Hst Hp Hnd Hsub.
  assert (∀ t, t ∈ [BrokerReceive; BrokerServer; RaftLoop; RaftReceive; RaftSend; RaftDriver] → is_Some (side_of t)) as Hside.
  { intros t Ht. repeat (apply elem_of_cons in Ht as [->|Ht]; [by eexists; vm_compute|]). by apply elem_of_nil in Ht. }
  destruct (run_outcome starts ends Hst Hp Hnd) as (s & Hr & Ho); [auto|]. exists s. split; [done|].
  destruct (find failing ends) as [[t o]|]; [done|]. destruct Ho as [Hret Hw].
  destruct (Nat.eqb_spec (length ends) 6) as [Hlen|Hlen].
  - destruct Hw as [_ (O & Ho & HndO & HretO & HO)]. unfold run_result. rewrite Ho. unfold joined.
    rewrite join_success; [|apply sides_nodup|done|intros; apply sides|done].
    rewrite (proj2 (Nat.eqb_eq _ _)); [done|]. rewrite <-(length_fmap fst). apply Permutation_length.
    apply NoDup_Permutation; [done|apply sides_nodup|]. intros n. split; [intros; apply sides|intros _]. apply HO.
    destruct (mine_spec n ends Hnd) as [Hn Hin]. rewrite <-(length_fmap fst). apply Permutation_length.
    apply NoDup_Permutation; [done|apply tasks_nodup|]. intros t. rewrite Hin. split; [tauto|]. intros Ht. split; [done|].
    assert (ends.*1 ≡ₚ [BrokerReceive; BrokerServer; RaftLoop; RaftReceive; RaftSend; RaftDriver]) as ->.
    { apply submseteq_length_Permutation; [by apply NoDup_submseteq|]. rewrite length_fmap, Hlen. done. }
    destruct n; unfold tasks_of, broker_tasks, raft_tasks in Ht; set_solver.
  - destruct (decide (Forall (λ t, t ∈ ends.*1) [BrokerReceive; BrokerServer; RaftLoop; RaftReceive; RaftSend; RaftDriver])) as [Hall|Hnot].
    + destruct Hlen. rewrite <-(length_fmap fst). rewrite Forall_forall in Hall.
      assert (ends.*1 ≡ₚ [BrokerReceive; BrokerServer; RaftLoop; RaftReceive; RaftSend; RaftDriver]) as ->; [|done].
      apply NoDup_Permutation; [done|by apply (bool_decide_eq_true_1 _)|]. intros t. split; auto.
    + apply not_Forall_Exists, Exists_exists in Hnot as (t & Ht & Hno); [|apply _].
      destruct (Hside t Ht) as [n Hn%side_tasks]. by eapply waiting_open.
Qed.

Context {JSON : MessageJson} {FRAMES : LengthCodec} {JSLAWS : MessageJsonLaws} {FLAWS : LengthCodecLaws}.

(** C36: a broken connection takes the node down.  When writing a message to a peer
    fails, the task of the peer ends without connecting again and its queue is gone;
    the next message for that peer, a heartbeat of a leader for instance, makes the
    sending task return an error, and when the sending task has ended so, while none
    of the others has failed before, the process ends with that error. *)
Theorem broken_connection_stops_node starts ends l n j tx cn wb m q k n' msg :
  servers_start → starts ≡ₚ [StartServer BrokerSide; StartServer RaftSide] → NoDup ends.*1 →
  ends.*1 ⊆ [BrokerReceive; BrokerServer; RaftLoop; RaftReceive; RaftDriver] → all_ret ends →
  let id := cfg_id (jc_raft c) in
  ofold (net_step id) (net_init (nodes (jc_raft c))) l = Ret n → net_open n = true →
  net_txs n !! j = Some tx → net_conns n !! j = Some cn →
  peer_alive tx = true → cn_socket cn = Some wb → cn_drained cn = false → queue tx = m :: q →
  net_step id n (NetConn j (Broken k)) = Ret n' → addressed msg j = true →
  let o := _ ← net_step id n' (NetSend msg); Ret tt in
  is_ret o = false ∧
  ∃ s, run c w (starts ++ ((λ e, Ended e.1 e.2) <$> ends) ++ [Ended RaftSend o]) = Ret s ∧ run_result s = Some o.
Proof.
  intros Hst Hp Hnd Hsub Hret id _ Hop Hj Hc Ha Hw Hdr Hq Hs Hmsg o.
  assert (is_ret o = false) as Ho.
  { unfold o. pose proof (broken_sender id n j tx cn wb m q k n' msg Hop Hj Hc Ha Hw Hdr Hq Hs Hmsg) as Hf.
    by destruct (net_step id n' (NetSend msg)). }
  split; [done|].
  destruct (run_outcome starts (ends ++ [(RaftSend, o)]) Hst Hp) as (s & Hr & Hres).
  - rewrite fmap_app. apply NoDup_app. split_and!; [done| |apply NoDup_singleton].
    intros t Ht%Hsub ->%list_elem_of_singleton. set_solver.
  - intros t. rewrite fmap_app. intros [Ht%Hsub| ->%list_elem_of_singleton]%elem_of_app.
    + repeat (apply elem_of_cons in Ht as [->|Ht]; [by apply (bool_decide_eq_true_1 _)|]). by apply elem_of_nil in Ht.
    + by apply (bool_decide_eq_true_1 _).
  - rewrite find_failing in Hres by done. rewrite fmap_app in Hr. by exists s.
Qed.
End Ending.

(** [try_join!] in memory. *)
#[export] Instance mem_join : TryJoin := {|
  join K := (nat * list (K * outcome unit))%type;
  try_join K l := (length l, []);
  complete K j e := (j.1, j.2 ++ [e]);
  join_result K j := match find failing j.2 with
                     | Some e => Some e.2
                     | None => if (length j.2 =? j.1)%nat then Some (Ret tt) else None
                     end;
|}.
#[export] Instance mem_join_laws : TryJoinLaws mem_join.
Proof.
  assert (∀ K (l : list (K * outcome unit)) n acc,
    foldl (λ (j : nat * list (K * outcome unit)) e, (j.1, j.2 ++ [e])) (n, acc) l = (n, acc ++ l)) as Hfold.
  { intros K l n. induction l as [|e l IH]; intros acc; cbn; [by rewrite app_nil_r|]. by rewrite IH, <-app_assoc. }
  split; intros K l; cbn; intros; rewrite Hfold; cbn.
  - by rewrite find_failing.
  - by rewrite find_failing_none.
Qed.

(** ** The clusters of the integration tests ([tests/josefine.rs]) *)

(** [+] on unsigned integers of a width. *)
Definition unsigned_add `{Build} (limit a b : Z) : outcome Z :=
  if a + b <? limit then Ret (a + b) else if overflow_checks then Panic else Ret ((a + b) mod limit).

Definition with_raft_id (id port : Z) (c : RaftConfig) : RaftConfig := {|
  data_directory := data_directory c; run_for := run_for c; cfg_id := id; cfg_ip := cfg_ip c; cfg_port := port;
  nodes := nodes c; protocol_version := protocol_version c; heartbeat_timeout := heartbeat_timeout c;
  election_timeout := election_timeout c; commit_timeout := commit_timeout c;
  max_append_entries := max_append_entries c; snapshot_interval := snapshot_interval c;
  snapshot_threshold := snapshot_threshold c |}.
Definition with_nodes (l : list Node) (c : RaftConfig) : RaftConfig := {|
  data_directory := data_directory c; run_for := run_for c; cfg_id := cfg_id c; cfg_ip := cfg_ip c;
  cfg_port := cfg_port c; nodes := l; protocol_version := protocol_version c;
  heartbeat_timeout := heartbeat_timeout c; election_timeout := election_timeout c;
  commit_timeout := commit_timeout c; max_append_entries := max_append_entries c;
  snapshot_interval := snapshot_interval c; snapshot_threshold := snapshot_threshold c |}.
Definition with_peers (l : list Peer) (c : BrokerConfig) : BrokerConfig := {|
  bc_id := bc_id c; bc_ip := bc_ip c; bc_port := bc_port c; data_dir := data_dir c;
  broker_state_file := broker_state_file c; peers := l |}.

Section NodeManager.
Context {BUILD : Build}.
Variable resolved : option IpAddr.

(** [JosefineConfig::default]; the paths are new temporary directories. *)
Definition josefine_default (dir1 dir2 dir3 : string) : outcome JosefineConfig :=
  raft ← config_default resolved dir1;
  broker ← broker_config_default resolved dir2 dir3;
  Ret {| jc_raft := raft; jc_broker := broker |}.

(** [NodeManager]: its nodes by their offset, a [u16].  The offset is added to
    ids and ports, at 32, 16, 32 and 16 bits. *)
Abbreviation NodeManager := (gmap Z JosefineConfig).

Definition new_node (m : NodeManager) (offset : Z) : outcome NodeManager :=
  config ← josefine_default "raft" "data" "state";
  id ← unsigned_add (2 ^ 32) (cfg_id (jc_raft config)) offset;
  port ← unsigned_add (2 ^ 16) (cfg_port (jc_raft config)) offset;
  let broker_id := bc_id (jc_broker config) + offset in
  broker_port ← unsigned_add (2 ^ 16) (bc_port (jc_broker config)) offset;
  let broker := jc_broker config in
  Ret (<[offset := {|
    jc_raft := with_raft_id id port (jc_raft config);
    jc_broker := {| bc_id := broker_id; bc_ip := bc_ip broker; bc_port := broker_port; data_dir := data_dir broker;
                    broker_state_file := broker_state_file broker; peers := peers broker |} |}]> m).

Definition get_addrs (m : NodeManager) : list SocketAddr :=
  (λ x, {| sock_ip := bc_ip (jc_broker x.2); sock_port := bc_port (jc_broker x.2) |}) <$> map_to_list m.

(** The first part of [NodeManager::run]: every node is told of the others. *)
Definition wire_nodes (m : NodeManager) : NodeManager :=
  let brokers := (λ x, {| peer_id := bc_id (jc_broker x.2); peer_ip := bc_ip (jc_broker x.2);
                          peer_port := bc_port (jc_broker x.2) |}) <$> map_to_list m in
  let raft_nodes := (λ x, {| n_id := cfg_id (jc_raft x.2);
                             n_addr := {| sock_ip := cfg_ip (jc_raft x.2); sock_port := cfg_port (jc_raft x.2) |} |})
                    <$> map_to_list m in
  (λ x, {| jc_raft := with_nodes (filter (λ y, cfg_id (jc_raft x) ≠ n_id y) raft_nodes) (jc_raft x);
           jc_broker := with_peers (filter (λ y, bc_id (jc_broker x) ≠ peer_id y) brokers) (jc_broker x) |}) <$> m.

(** The nodes made for some offsets. *)
Definition new_nodes (offsets : list Z) : outcome NodeManager := ofold new_node ∅ offsets.

(** The ids of the Raft nodes. *)
Definition raft_ids (m : NodeManager) : list NodeId := (λ x, cfg_id (jc_raft x.2)) <$> map_to_list m.

(** An address of 32 or 128 bits. *)
Definition host_ok : Prop := match resolved with Some (V4 bits) => 0 ≤ bits < 2 ^ 32 | _ => True end.

Lemma default_id_range dir c : host_ok → config_default resolved dir = Ret c → 0 ≤ cfg_id c < 2 ^ 32.
Proof.
  unfold host_ok, config_default. destruct resolved as [[bits|bits]|]; cbn.
  - by intros ? [= <-].
  - intros _. unfold to_ipv4. destruct ((_ =? 0) || _); [|done]. intros [= <-]. cbn. by apply Z.mod_pos_bound.
  - by intros _ [= <-].
Qed.

Lemma unsigned_add_mod limit a b r :
  0 ≤ a → 0 ≤ b → 0 < limit → unsigned_add limit a b = Ret r → r = (a + b) mod limit.
Proof.
  unfold unsigned_add. intros Ha Hb Hl. destruct (Z.ltb_spec (a + b) limit).
  - intros [= <-]. symmetry. apply Z.mod_small. lia.
  - destruct overflow_checks; [done|]. by intros [= <-].
Qed.

(** The ids of the nodes are the default id and their offset. *)
Definition spaced (base : Z) (m : NodeManager) : Prop :=
  ∀ k c, m !! k = Some c → 0 ≤ k < 2 ^ 16 ∧ cfg_id (jc_raft c) = (base + k) mod 2 ^ 32.

Lemma new_nodes_spaced offsets m :
  host_ok → Forall (λ o, 0 ≤ o < 2 ^ 16) offsets → new_nodes offsets = Ret m → ∃ base, spaced base m.
Proof.
  intros Hhost Hoff Hm. destruct offsets as [|o offsets].
  { injection Hm as <-. by exists 0. }
  assert (∃ c, config_default resolved "raft" = Ret c) as [c Hc].
  { apply bind_Ret in Hm as (m1 & H1 & _). apply bind_Ret in H1 as (jc & Hjc & _).
    apply bind_Ret in Hjc as (c & Hc & _). by exists c. }
  pose proof (default_id_range _ _ Hhost Hc) as Hid. exists (cfg_id c).
  assert (spaced (cfg_id c) ∅) as Hs by done. unfold new_nodes in Hm. revert Hm Hs. generalize (∅ : NodeManager).
  induction Hoff as [|x l Hx _ IH]; intros m0 Hm Hs; cbn [ofold] in Hm; [by injection Hm as <-|].
  apply bind_Ret in Hm as (m1 & H1 & Hm). apply (IH m1 Hm). clear IH Hm.
  unfold new_node, josefine_default in H1. rewrite Hc in H1. cbn [mbind outcome_bind] in H1.
  apply bind_Ret in H1 as (jc & Hjc & H1). apply bind_Ret in Hjc as (bc & _ & [= <-]). cbn [jc_raft jc_broker] in H1.
  apply bind_Ret in H1 as (id & Hid' & H1). apply bind_Ret in H1 as (port & _ & H1).
  apply bind_Ret in H1 as (bport & _ & [= <-]).
  intros k c' [[<- <-]|[_ Hk]]%lookup_insert_Some; [|by apply Hs]. split; [done|]. cbn.
  eapply unsigned_add_mod; [..|exact Hid']; lia.
Qed.

Lemma spaced_inj base m k k' c c' :
  spaced base m → m !! k = Some c → m !! k' = Some c' → cfg_id (jc_raft c) = cfg_id (jc_raft c') → k = k'.
Proof.
  intros Hs Hk Hk' E. destruct (Hs k c Hk) as [Hr Hid], (Hs k' c' Hk') as [Hr' Hid'].
  rewrite Hid, Hid' in E. pose proof (Z.div_mod (base + k) (2 ^ 32)). pose proof (Z.div_mod (base + k') (2 ^ 32)). nia.
Qed.

Lemma raft_ids_NoDup base m : spaced base m → NoDup (raft_ids m).
Proof.
  intros Hs. unfold raft_ids. apply NoDup_fmap_2_strong; [|apply NoDup_map_to_list].
  intros [k c] [k' c'] Hk%elem_of_map_to_list Hk'%elem_of_map_to_list E. cbn in E.
  assert (k = k') as <- by by eapply spaced_inj. congruence.
Qed.

(** The peers of a node and the node itself are all nodes. *)
Lemma others_and_self (l : list NodeId) x : NoDup l → x ∈ l → filter (λ y, x ≠ y) l ++ [x] ≡ₚ l.
Proof.
  intros Hnd Hx. apply NoDup_Permutation; [|done|].
  - apply NoDup_app. split_and!; [by apply NoDup_filter| |apply NoDup_singleton].
    intros y [Hy _]%list_elem_of_filter ->%list_elem_of_singleton. done.
  - intros y. rewrite elem_of_app, list_elem_of_filter, list_elem_of_singleton.
    destruct (decide (x = y)) as [->|]; naive_solver.
Qed.

Lemma filter_ids x (l : list Node) :
  n_id <$> filter (λ y, x ≠ n_id y) l = filter (λ i, x ≠ i) (n_id <$> l).
Proof.
  induction l as [|y l IH]; [done|]. cbn [fmap list_fmap]. destruct (decide (x = n_id y)).
  - by rewrite !filter_cons_False by auto.
  - rewrite !filter_cons_True by done. cbn [fmap list_fmap]. by f_equal.
Qed.

(** C34: the clusters of the integration tests are consistent.  The nodes that
    [NodeManager] makes for different offsets have different ids, and each is told
    of exactly the others, so that all nodes agree on the members of the cluster:
    the assumption of the theorems about clusters. *)
Theorem managed_consistent offsets m :
  host_ok → Forall (λ o, 0 ≤ o < 2 ^ 16) offsets → new_nodes offsets = Ret m →
  ∃ cfg, consistent cfg (raft_ids m) ∧
    ∀ k c, wire_nodes m !! k = Some c →
      cfg_id (jc_raft c) ∈ raft_ids m ∧ cfg (cfg_id (jc_raft c)) = jc_raft c.
Proof.
  intros Hhost Hoff Hm. destruct (new_nodes_spaced offsets m Hhost Hoff Hm) as [base Hs].
  pose proof (raft_ids_NoDup base m Hs) as Hnd. set (M := wire_nodes m).
  assert (∀ k c, M !! k = Some c → ∃ c0, m !! k = Some c0 ∧ cfg_id (jc_raft c) = cfg_id (jc_raft c0) ∧
    voters (jc_raft c) (cfg_id (jc_raft c)) ≡ₚ raft_ids m ∧ cfg_id (jc_raft c) ∈ raft_ids m) as HM.
  { intros k c. unfold M, wire_nodes. rewrite lookup_fmap, fmap_Some. intros (c0 & Hk & ->). exists c0. cbn.
    assert (cfg_id (jc_raft c0) ∈ raft_ids m) as Hin.
    { apply list_elem_of_fmap. exists (k, c0). split; [done|]. by apply elem_of_map_to_list. }
    split_and!; [done..| |done]. unfold voters. cbn [nodes with_nodes].
    rewrite filter_ids, <-list_fmap_compose. by apply others_and_self. }
  assert (∀ x, x ∈ raft_ids m → ∃ k c, M !! k = Some c ∧ cfg_id (jc_raft c) = x) as Hfind.
  { intros x ([k c0] & -> & Hk%elem_of_map_to_list)%list_elem_of_fmap. exists k.
    unfold M, wire_nodes. rewrite lookup_fmap, Hk. by eexists. }
  set (pick x := list_find (λ e : Z * JosefineConfig, cfg_id (jc_raft e.2) = x) (map_to_list M)).
  assert (∀ x, x ∈ raft_ids m → ∃ i e, pick x = Some (i, e) ∧ M !! e.1 = Some e.2 ∧ cfg_id (jc_raft e.2) = x) as Hpick.
  { intros x (k & c & Hk & Hid)%Hfind.
    destruct (list_find_elem_of (λ e : Z * JosefineConfig, cfg_id (jc_raft e.2) = x) (map_to_list M) (k, c))
      as [[i [k' c']] Hf]; [by apply elem_of_map_to_list|done|].
    exists i, (k', c'). split; [done|]. apply list_find_Some in Hf as (Hl & Hx & _).
    split; [|done]. by apply elem_of_map_to_list, (list_elem_of_lookup_2 _ i). }
  set (dummy := with_raft_id 0 0 (Build_RaftConfig "" None 0 (V4 0) 0 [] 0 0 0 0 0 0 0)).
  exists (λ x, match pick x with Some (_, e) => jc_raft e.2 | None => dummy end). split.
  - split; [done|]. intros x Hx. destruct (Hpick x Hx) as (i & e & -> & He & Hid).
    destruct (HM _ _ He) as (c0 & _ & _ & Hv & _). by rewrite Hid in Hv.
  - intros k c Hk. destruct (HM k c Hk) as (c0 & H0 & Hid0 & _ & Hin). split; [done|].
    destruct (Hpick _ Hin) as (i & e & -> & He & Hid). destruct (HM _ _ He) as (c1 & H1 & Hid1 & _).
    assert (e.1 = k) as E by (eapply (spaced_inj base m); [done..|congruence]).
    rewrite E, Hk in He. by injection He as ->.
Qed.
End NodeManager.

(** ** Witnesses *)
#[export] Instance demo_system : System := {|
  open_db _ := Ret mem_empty;
  bind _ := Ret tt;
  set_subscriber := Ret tt;
  set_ctrlc := Ret tt;
|}.
Definition demo_josefine : JosefineConfig := {| jc_raft := demo_config 1 []; jc_broker := demo_broker |}.

Definition demo_peered : JosefineConfig := {| jc_raft := with_nodes tcp_peers (demo_config 1 []); jc_broker := demo_broker |}.

Lemma demo_starts : servers_start demo_josefine demo_world.
Proof. split; [reflexivity|]. intros []; vm_compute; reflexivity. Qed.
Lemma demo_peered_starts : servers_start demo_peered demo_world.
Proof. split; [reflexivity|]. intros []; vm_compute; reflexivity. Qed.

Lemma run_exact_witness :
  ∃ s, run demo_josefine demo_world
      ([StartServer RaftSide; StartServer BrokerSide] ++ ((λ e, Ended e.1 e.2) <$>
        [(BrokerReceive, Ret tt); (RaftSend, Err ErrSend); (RaftLoop, Ret tt)])) = Ret s ∧
    run_result s = Some (Err ErrSend).
Proof.
  apply (run_exact demo_josefine demo_world [StartServer RaftSide; StartServer BrokerSide]
    [(BrokerReceive, Ret tt); (RaftSend, Err ErrSend); (RaftLoop, Ret tt)]).
  - exact demo_starts.
  - apply Permutation_swap.
  - by apply (bool_decide_eq_true_1 _).
  - cbn. set_solver.
Defined.

(** A node whose connection to peer 2 breaks before its next heartbeat. *)
Lemma broken_connection_stops_node_witness :
  let o := _ ← net_step 1 demo_broken (NetSend (Message_new Local Peers Tick)); Ret tt in
  ∃ s, run demo_peered demo_world
      ([StartServer BrokerSide; StartServer RaftSide] ++ [Ended BrokerReceive (Ret tt)] ++ [Ended RaftSend o]) = Ret s ∧
    run_result s = Some o.
Proof.
  assert (is_ret (net_step 1 demo_net (NetConn 2 (Broken 3))) = true) as Hs by (vm_compute; reflexivity).
  apply (is_ret_or demo_net) in Hs.
  assert (bool_decide (is_Some (net_conns demo_net !! 2)) = true) as [cn Hc]%bool_decide_eq_true_1
    by (vm_compute; reflexivity).
  apply (broken_connection_stops_node demo_peered demo_world [StartServer BrokerSide; StartServer RaftSide]
    [(BrokerReceive, Ret tt)] demo_net_events demo_net 2 demo_net_tx cn
    (default [] (cn_socket cn)) (Message_new (Rpc.Peer 1) (Rpc.Peer 2) Propose) [] 3).
  - exact demo_peered_starts.
  - reflexivity.
  - by apply (bool_decide_eq_true_1 _).
  - cbn. set_solver.
  - by repeat constructor.
  - exact demo_net_run.
  - vm_compute. reflexivity.
  - exact demo_net_lookup.
  - exact Hc.
  - vm_compute. reflexivity.
  - assert (bool_decide (is_Some (net_conns demo_net !! 2 ≫= cn_socket)) = true) as [wb Hw]%bool_decide_eq_true_1
      by (vm_compute; reflexivity).
    rewrite Hc in Hw. cbn in Hw. by rewrite Hw.
  - assert ((cn_drained <$> net_conns demo_net !! 2) = Some false) as Hd by (vm_compute; reflexivity).
    rewrite Hc in Hd. by injection Hd.
  - vm_compute. reflexivity.
  - exact Hs.
  - reflexivity.
Defined.

Lemma managed_consistent_witness :
  ∃ m cfg, new_nodes (Some (V4 2130706433)) [1; 2; 3] = Ret m ∧
    raft_ids m ≡ₚ [2130706434; 2130706435; 2130706436] ∧ consistent cfg (raft_ids m).
Proof.
  assert (is_ret (new_nodes (Some (V4 2130706433)) [1; 2; 3]) = true) as Hm%(is_ret_or ∅)
    by (vm_compute; reflexivity).
  destruct (managed_consistent (Some (V4 2130706433)) [1; 2; 3] (ret_or ∅ (new_nodes (Some (V4 2130706433)) [1; 2; 3])))
    as (cfg & Hc & _); [done|by repeat constructor|exact Hm|].
  eexists _, cfg. split; [exact Hm|]. split; [|exact Hc]. by apply (bool_decide_eq_true_1 _).
Defined.
