(* ===== verification/RaftTests.v ===== *)
(** * The unit tests of the consensus part
    ([src/raft/*.rs], modules [tests], and [src/raft/test/mod.rs])

    Each test of the repository as a program over the definitions of this
    development: an assertion is [assert], an [unwrap] or [panic!] is a panic, and
    a test passes if it returns.  The temporary directory is an empty database,
    a sleep shows in the readings of the clock, and the receiving end of a channel
    reads what was sent. *)
From S2P Require Import Prelude Bytes Storage Chain Rpc Election Progress Config Raft.
From S2P Require Leader Candidate Follower.
From S2P Require Import Handle Fsm Tcp Server Demo Framing Connection.
Local Open Scope Z_scope.

(** A test that is marked [should_panic]. *)
Definition should_panic {A} (o : outcome A) : outcome unit :=
  match o with Panic => Ret tt | _ => Panic end.

(** [assert_eq!]. *)
Definition assert_eq `{EqDecision A} (a b : A) : outcome unit := assert (bool_decide (a = b)).

(** [unwrap] on the result of a computation. *)
Definition unwrap_run {S A} (m : SM S A) : SM S A := λ w,
  match m w with (Err _, w') => (Panic, w') | r => r end.

(** ** [chain.rs] *)
Section ChainTests.
Context {SLED : Sled} {BINC : Bincode Block}.
Variable tempdir : db.

Definition test_block (id next : Z) : Block :=
  {| b_id := BlockId_new id; b_next := BlockId_new next; b_data := [] |}.

Definition chain_new_test : outcome unit :=
  chain ← chain_new tempdir;
  _ ← assert_eq (chain_get_commit chain) (BlockId_new 0);
  assert_eq (chain_get_head chain) (BlockId_new 0).

Definition chain_append_test : outcome unit :=
  chain ← chain_new tempdir;
  '(_, chain) ← chain_append chain {| u_data := [] |};
  _ ← assert_eq (chain_get_commit chain) (BlockId_new 0);
  assert_eq (chain_get_head chain) (BlockId_new 1).

Definition chain_commit_test : outcome unit :=
  chain ← chain_new tempdir;
  '(_, chain) ← chain_append chain {| u_data := [] |};
  '(_, chain) ← chain_commit chain (BlockId_new 1);
  _ ← assert_eq (chain_get_commit chain) (BlockId_new 1);
  assert_eq (chain_get_head chain) (BlockId_new 1).

Definition chain_extend_test : outcome unit :=
  chain ← chain_new tempdir;
  chain ← chain_extend chain (test_block 1 0);
  _ ← assert_eq (chain_get_commit chain) (BlockId_new 0);
  assert_eq (chain_get_head chain) (BlockId_new 1).

Definition chain_range_test : outcome unit :=
  chain ← chain_new tempdir;
  chain ← chain_extend chain (test_block 1 0);
  blocks ← force (chain_range chain Unbounded Unbounded);
  assert_eq (length blocks) 2%nat.

Definition chain_has_test : outcome unit :=
  chain ← chain_new tempdir;
  chain ← chain_extend chain (test_block 1 0);
  has ← chain_has chain (BlockId_new 1);
  assert has.

Definition chain_compact_test : outcome unit :=
  chain ← chain_new tempdir;
  let chain_tree := [(1, 0); (2, 1); (3, 2); (4, 3); (5, 3); (6, 5)] in
  chain ← ofold (λ chain '(id, next), chain_extend chain (test_block id next)) chain chain_tree;
  has ← chain_has chain (BlockId_new 4);
  _ ← assert has;
  '(_, chain) ← chain_commit chain (BlockId_new 6);
  chain ← chain_compact chain;
  has ← chain_has chain (BlockId_new 4);
  assert (negb has).
End ChainTests.

Definition block_id_serde `{!BytesFormat} : outcome unit :=
  bytes ← unwrap_result (serialize_block_id (BlockId_new 0));
  block_id ← unwrap_result (deserialize_block_id bytes);
  assert_eq block_id (BlockId_new 0).

(** bincode writes the length as a little-endian [u64] before the bytes. *)
Definition bincode_bytes : BytesFormat := {|
  serialize_bytes b := Ret (reverse (u64_to_be_bytes (Z.of_nat (length b))) ++ b);
  deserialize_borrowed input :=
    match u64_from_be_bytes (reverse (take 8 input)) with
    | Some n => if n <=? Z.of_nat (length (drop 8 input)) then Ret (take (Z.to_nat n) (drop 8 input))
                else Err (ErrMsg "eof")
    | None => Err (ErrMsg "eof")
    end;
|}.

(** ** [progress.rs] *)
Definition starts_active : outcome unit := assert (node_is_active (node_progress_new 0)).

Definition starts_in_probe : outcome unit :=
  match node_progress_new 0 with NProbe _ => Ret tt | _ => Panic end.

Definition increments_to_higher : outcome unit :=
  progress ← node_advance (node_progress_new 0) (BlockId_new 666);
  _ ← assert (node_is_active progress);
  assert_eq (node_head progress) (BlockId_new 666).

Definition get_next_id : outcome unit :=
  _ ← node_advance (node_progress_new 0) (BlockId_new 666);
  Ret tt.

Definition cannot_construct_empty : outcome unit := should_panic (replication_new []).

(** ** [fsm.rs] *)
Inductive TestState : Type := TestA | TestB.
#[global] Instance TestState_eq_dec : EqDecision TestState.
Proof. solve_decision. Defined.

(** ["A"] and ["B"] are the bytes 0x41 and 0x42. *)
#[local] Instance TestFsm : Fsm := {|
  fsm := TestState;
  transition state input :=
    if decide (input = [x41]) then (Ret [], TestA)
    else if decide (input = [x42]) then (Ret [], TestB)
    else (Panic, state);
|}.

(** The driver is polled before the shutdown, and takes the instruction then. *)
Definition fsm_transition_test (w : World) : outcome unit :=
  let driver := @driver_new TestFsm TestA in
  let block := {| b_id := BlockId_new 2; b_next := BlockId_new 1; b_data := [x42] |} in
  driver ← (driver_run driver [Apply block] w).1;
  assert_eq (@d_fsm TestFsm driver : TestState) TestB.

(** ** [config.rs] *)
Definition config_default_test (resolved : option IpAddr) : outcome unit :=
  _ ← config_default resolved "tmp";
  Ret tt.

Definition validation_test (resolved : option IpAddr) : outcome unit :=
  default ← config_default resolved "tmp";
  let config := {|
    data_directory := data_directory default;
    run_for := None;
    cfg_id := 0;
    cfg_ip := V4 0;
    cfg_port := 0;
    nodes := [];
    protocol_version := 6666;
    Config.heartbeat_timeout := from_millis 1;
    Config.election_timeout := from_secs 100;
    commit_timeout := from_secs 100;
    max_append_entries := 0;
    snapshot_interval := from_secs 100;
    snapshot_threshold := 0;
  |} in
  assert (match validate config with Err _ => true | _ => false end).

(** ** The roles *)
Section RaftTests.
Context {SLED : Sled} {BINC : Bincode Block} {ENV : Env} {BUILD : Build}.
Variable tempdir : db.
Variable resolved : option IpAddr.

Definition new_world : World := {|
  rpc_tx := {| sent := []; receiver_alive := true |};
  fsm_tx := {| sent := []; receiver_alive := true |};
  asked := 0;
  state_file := None;
|}.

(** [new_follower] and [new_candidate]; [Raft::from] keeps nothing in the channels. *)
Definition new_follower : M (Raft Follower) :=
  config ← lift (config_default resolved "tmp");
  unwrap_run (Follower.new config tempdir).

Definition new_candidate : M (Raft Candidate) :=
  raft ← new_follower;
  mret (Follower.candidate_from_follower raft).

(** [rpc_rx.recv().await.unwrap()] for the message with the given index. *)
Definition recv (i : nat) : M Message := λ w, (unwrap (msgs w !! i), w).
Definition recv_instr (i : nat) : M Instruction := λ w, (unwrap (instrs w !! i), w).

Definition follower_to_leader : M unit :=
  follower ← new_follower;
  let id := r_id follower in
  h ← handle_apply (HFollower follower) Timeout;
  match h with
  | HLeader leader => lift (assert_eq id (r_id leader))
  | _ => lift Panic
  end.

Definition follower_noop : M unit :=
  follower ← new_follower;
  let id := r_id follower in
  h ← handle_apply (HFollower follower) Noop;
  match h with
  | HFollower follower => lift (assert_eq id (r_id follower))
  | _ => lift Panic
  end.

Definition follower_heartbeat_test : M unit :=
  follower ← new_follower;
  h ← Follower.apply_heartbeat follower 11 12 (BlockId_new 1);
  follower ← lift (unwrap (get_follower h));
  _ ← lift (assert (bool_decide (is_Some (voted_for (r_state follower)))));
  v ← lift (unwrap (voted_for (r_state follower)));
  _ ← lift (assert_eq v 11);
  _ ← lift (assert_eq (current_term (r_state follower)) 12);
  msg ← recv 0;
  lift (assert_eq (msg_command msg) (HeartbeatResponse (BlockId_new 0) false)).

Definition follower_vote_request_test : M unit :=
  follower ← new_follower;
  h ← Follower.apply_vote_request follower 11 12 (BlockId_new 1);
  follower ← lift (unwrap (get_follower h));
  _ ← lift (assert (bool_decide (is_Some (voted_for (r_state follower)))));
  v ← lift (unwrap (voted_for (r_state follower)));
  _ ← lift (assert_eq v 11);
  msg ← recv 0;
  _ ← lift (assert_eq (msg_command msg) (VoteResponse 0 1 true));
  let follower := with_state (set_voted_for (Some 2)) follower in
  _ ← Follower.apply_vote_request follower 11 12 (BlockId_new 1);
  msg ← recv 1;
  lift (assert_eq (msg_command msg) (VoteResponse 0 1 false)).

Definition follower_timeout_test : M unit :=
  follower ← new_follower;
  h ← Follower.apply_timeout follower;
  _ ← lift (unwrap (get_leader h));
  mret tt.

(** The sleep of the configured election timeout lies between the two ticks. *)
Definition follower_tick_test : M unit :=
  follower ← new_follower;
  now ← instant_now;
  let follower := with_state (set_election_time (Some now)) follower in
  let follower := with_state (set_election_timer
    (Some (Config.election_timeout (r_config follower)))) follower in
  h ← Follower.apply_tick follower;
  follower ← lift (unwrap (get_follower h));
  h ← Follower.apply_tick follower;
  _ ← lift (unwrap (get_leader h));
  mret tt.

(** The test named [apply_append_entries] has the body of [apply_tick]. *)
Definition follower_append_entries_test : M unit :=
  follower ← new_follower;
  now ← instant_now;
  let follower := with_state (set_election_time (Some now)) follower in
  let follower := with_state (set_election_timer
    (Some (Config.election_timeout (r_config follower)))) follower in
  h ← Follower.apply_tick follower;
  follower ← lift (unwrap (get_follower h));
  h ← Follower.apply_tick follower;
  _ ← lift (unwrap (get_leader h));
  mret tt.

Definition candidate_heartbeat_test : M unit :=
  candidate ← new_candidate;
  h ← Candidate.apply_heartbeat candidate 11 6 (BlockId_new 1);
  follower ← lift (unwrap (get_follower h));
  _ ← lift (assert (bool_decide (is_Some (voted_for (r_state follower)))));
  v ← lift (unwrap (voted_for (r_state follower)));
  _ ← lift (assert_eq v 6);
  _ ← lift (assert_eq (current_term (r_state follower)) 11);
  msg ← recv 0;
  lift (assert_eq (msg_command msg) (HeartbeatResponse (BlockId_new 0) false)).

(** [chain.range(..).take(2).last().unwrap()]: the first two elements are driven. *)
Definition apply_entry_single_node (id : ClientRequestId) : M unit :=
  node ← new_follower;
  node ← handle_apply (HFollower node) Timeout;
  _ ← lift (assert (is_leader node));
  node ← handle_apply node (ClientRequestCmd
    {| req_id := id; req_address := Client; req_proposal := {| proposal_get := [x7b] |} |});
  node ← handle_apply node Tick;
  match node with
  | HLeader leader =>
      blocks ← lift (force (take 2 (chain_range (r_chain leader) Unbounded Unbounded)));
      block ← lift (unwrap (last blocks));
      _ ← lift (assert_eq (b_data block) [x7b]);
      _ ← recv_instr 0;
      instruction ← recv_instr 1;
      match instruction with
      | Apply block => lift (assert_eq (b_data block) [x7b])
      | _ => lift Panic
      end
  | _ => lift Panic
  end.

(** ** [mod.rs] *)
(** [role] is [unimplemented!()] there, and no test calls it. *)
Record RaftT : Type := { inner : Z }.
#[local] Instance RaftT_role : Role RaftT := {|
  role_term _ term := Ret {| inner := term mod 256 |};
  role_role _ := RoleFollower;
|}.
Definition raft_t : M (Raft RaftT) :=
  config ← lift (config_default resolved "tmp");
  chain ← lift (chain_new tempdir);
  mret {| r_id := 0; r_config := config; r_state := State_default;
          r_role := {| inner := 0 |}; r_chain := chain |}.

Definition need_election_test : M unit :=
  raft ← raft_t;
  now ← instant_now;
  let raft := with_state (set_election_time (Some now)) raft in
  let raft := with_state (set_election_timer
    (Some (Config.election_timeout (r_config raft)))) raft in
  due ← needs_election raft;
  lift (assert due).

Definition send_all_test : M unit :=
  raft ← raft_t;
  _ ← send_all raft Noop;
  msg ← recv 0;
  _ ← lift (assert_eq (msg_from msg) (Peer (r_id raft)));
  _ ← lift (assert_eq (msg_to msg) Peers);
  lift (assert_eq (msg_command msg) Noop).

Definition term_test : M unit :=
  raft ← raft_t;
  raft ← lift (raft_term raft 11);
  lift (assert_eq (inner (r_role raft)) 11).
End RaftTests.

(** ** [server.rs] *)
Section EventLoopTest.
Context {SLED : Sled} {BINC : Bincode Block} {ENV : Env} {BUILD : Build} {SENV : ServerEnv}.
Variable tempdir : db.
Variable resolved : option IpAddr.

(** A tick, then the messages that the node has sent itself since. *)
Definition turn (st : EventLoop * nat) : M (EventLoop * nat) :=
  s ← event_loop_step st.1 EvTick;
  l ← (λ w, (Ret (drop st.2 (msgs w)), w));
  s ← sfold (λ s m, event_loop_step s (EvRpc m)) s l;
  mret (s, (st.2 + length l)%nat).

(** The loop runs for two seconds: twenty ticks. *)
Definition event_loop_test : M unit :=
  config ← lift (config_default resolved "tmp");
  raft ← handle_new config tempdir;
  let loop := {| raft := raft; requests := ∅;
                 tcp_tx := {| sent := []; receiver_alive := true |}; answers := [] |} in
  '(loop, _) ← sfold (λ st _, turn st) (loop, 0%nat) (seq 0 20);
  match Server.raft loop with HLeader _ => mret tt | _ => lift Panic end.
End EventLoopTest.

(** ** [tcp.rs] *)
Section TcpTests.
Context {JSON : MessageJson} {FRAMES : LengthCodec}.

Definition out_msg : Message := Message_new (Peer 1) (Peer 2) Tick.

Definition read_message : outcome unit :=
  frame ← write_message out_msg;
  let receiver := foldl receive_step {| rc_conns := []; rc_inbox := [] |} [Accept; Data 0 frame] in
  match rc_inbox receiver with
  | (_, in_msg) :: _ => assert_eq out_msg in_msg
  | [] => Panic
  end.

(** The port is open, so the first attempt to connect is accepted. *)
Definition send_message (addr : SocketAddr) : outcome unit :=
  net ← ofold (net_step 1) (net_init [{| n_id := 2; n_addr := addr |}])
          [NetSend out_msg; NetConn 2 Accepted; NetConn 2 Written];
  match (received (wire net 2)).1 with
  | in_msg :: _ => assert_eq out_msg in_msg
  | [] => Panic
  end.
End TcpTests.

(** ** The tests on an in-memory database

    [slept k d]: the readings of the clock from the [k]-th on come [d] later. *)
Definition slept (k : nat) (d : Z) : Env := {|
  clock n := if (n <? k)%nat then 0 else d;
  draw _ lo _ := lo;
  state_file_ok _ := true;
|}.
(** Readings a tenth of a second apart. *)
Definition ticking : Env := {|
  clock n := from_millis (100 * Z.of_nat n);
  draw _ lo _ := lo;
  state_file_ok _ := true;
|}.
Definition localhost4 : IpAddr := V4 2130706433.
Definition localhost6 : IpAddr := V6 1.

Definition chain_tests : list (outcome unit) :=
  [chain_new_test mem_empty; chain_append_test mem_empty; chain_commit_test mem_empty;
   chain_extend_test mem_empty; chain_range_test mem_empty; chain_has_test mem_empty;
   chain_compact_test mem_empty; @block_id_serde bincode_bytes].
Definition progress_tests : list (outcome unit) :=
  [starts_active; starts_in_probe; increments_to_higher; get_next_id; cannot_construct_empty].
(** The tests that need no particular address of the host. *)
Definition role_tests (ip : IpAddr) : list (outcome unit) :=
  let after k := slept k (from_millis 1001) in
  let test (m : M unit) := (m new_world).1 in
  [test (follower_to_leader mem_empty (Some ip)); test (follower_noop mem_empty (Some ip));
   test (follower_heartbeat_test mem_empty (Some ip)); test (follower_timeout_test mem_empty (Some ip));
   test (@follower_tick_test _ _ (after 4%nat) _ mem_empty (Some ip));
   test (@follower_append_entries_test _ _ (after 4%nat) _ mem_empty (Some ip));
   test (candidate_heartbeat_test mem_empty (Some ip));
   test (apply_entry_single_node mem_empty (Some ip) 7);
   test (@need_election_test _ _ (after 1%nat) mem_empty (Some ip));
   test (send_all_test mem_empty (Some ip)); test (term_test mem_empty (Some ip));
   test (@event_loop_test _ _ ticking _ _ mem_empty (Some ip));
   fsm_transition_test new_world; read_message; send_message {| sock_ip := ip; sock_port := 8080 |};
   config_default_test (Some ip); validation_test (Some ip)].

(** The model passes the unit tests of the consensus part.  Every test of
    [src/raft] returns on an in-memory database, whether localhost is 127.0.0.1 or
    ::1, but for [apply_vote_request] of the follower: it expects the id of the
    node to be 1, which it is where localhost is ::1 and is not where it is
    127.0.0.1. *)
Theorem raft_tests_pass :
  Forall (λ o, o = Ret tt) (chain_tests ++ progress_tests ++ role_tests localhost4 ++ role_tests localhost6) ∧
  (follower_vote_request_test mem_empty (Some localhost6) new_world).1 = Ret tt ∧
  (follower_vote_request_test mem_empty (Some localhost4) new_world).1 = Panic.
Proof. split_and!; vm_compute; repeat constructor. Qed.
