(* ===== verification/BrokerTests.v ===== *)
(** * The unit tests of the broker
    ([src/broker/log/*.rs], [src/broker/handler/*.rs], modules [tests], and
    [src/broker/handler/test/mod.rs])

    Written like those of the consensus part in [RaftTests].  The tests of the
    log are decided for any state of the directory they run in, which they share
    and do not clear. *)
From S2P Require Import Prelude Bytes Storage Config Chain Rpc Raft Fsm Demo Log Store Framing Kafka Broker RaftTests.
Local Open Scope Z_scope.

(** ** [log/entry.rs] *)
Definition sixteen (b : byte) : bytes := replicate 15 x00 ++ [b].

Definition entry_to_bytes_test : outcome unit :=
  _ ← assert_eq (sixteen x0a) (entry_to_bytes (Entry_new 0 10));
  assert_eq (sixteen x6f) (entry_to_bytes (Entry_new 0 111)).

Definition byes_to_entry : outcome unit :=
  e ← entry_from_bytes (sixteen x0a);
  _ ← assert_eq (Entry_new 0 10) e;
  e ← entry_from_bytes (sixteen x6f);
  assert_eq (Entry_new 0 111) e.

Definition panics_length : outcome unit := should_panic (entry_from_bytes (replicate 17 x00)).

(** ** [log/index.rs] and [log/mod.rs] *)
Section LogTests.
Context {DISK : Disk} {BUILD : Build}.

Definition write_index_test : outcome unit :=
  index ← index_new 0;
  (write_entry (Entry_new 0 10) index).1.

Definition read_index_test : outcome unit :=
  index ← index_new 0;
  let '(o, index) := write_entry (Entry_new 0 10) index in
  _ ← o;
  e ← read_entry index 0;
  assert_eq (Entry_new 0 10) e.

(** The file that is opened and read shares its pages with the map. *)
Definition relative_offset_test : outcome unit :=
  index ← index_new 100;
  let '(o, index) := write_entry (Entry_new 115 20) index in
  _ ← o;
  entry ← entry_from_bytes (window index 15);
  _ ← assert_eq (offset entry) 15;
  assert_eq (position entry) 20.

(** [read_to_string] on the file of the segment. *)
Definition log_write_test : outcome unit :=
  log ← log_new;
  let '(o, log) := log_writes [as_bytes "one"; as_bytes "two"; as_bytes "three"] log in
  _ ← unwrap_result o;
  s ← unwrap (segments log !! 0%nat);
  assert_eq (Log.contents (Log.log s)) (as_bytes "onetwothree").

Lemma index_new_length base i :
  index_new base = Ret i → base_offset i = base ∧ Z.of_nat (length (mmap i)) = MAX_BYTES_INDEX.
Proof.
  unfold index_new. destruct (open_ok base); [|done]. injection 1 as <-. split; [reflexivity|].
  cbn [mmap]. rewrite length_set_len. by rewrite Z2Nat.id.
Qed.

(** An entry written to a new index is found where it belongs. *)
Lemma new_index_write base rel pos :
  open_ok base = true → 0 ≤ base → 0 ≤ rel ≤ 1024 →
  ∃ i i', index_new base = Ret i ∧ write_entry (Entry_new (base + rel) pos) i = (Ret tt, i') ∧
    base_offset i' = base ∧ length (mmap i') = length (mmap i) ∧
    Z.of_nat (length (mmap i)) = MAX_BYTES_INDEX ∧
    window i' (Z.to_nat rel) = entry_to_bytes (Entry_new rel pos).
Proof.
  intros Ho Hb Hr. destruct (index_new base) as [i| |] eqn:Hnew; [|unfold index_new in Hnew; by rewrite Ho in Hnew..].
  destruct (index_new_length base i Hnew) as [Hbase Hlen]. exists i.
  assert (fits i (Entry_new (base + rel) pos)) as Hfit.
  { split; cbn; rewrite Hbase; [lia|]. rewrite Hlen. unfold MAX_BYTES_INDEX. lia. }
  rewrite (write_entry_fits _ _ Hfit). eexists. split; [done|]. split; [reflexivity|].
  unfold relative, window. cbn [base_offset mmap offset position Entry_new].
  rewrite Hbase. replace (base + rel - base) with rel by lia.
  assert (Z.to_nat rel + 16 ≤ length (mmap i))%nat as Hroom by (unfold MAX_BYTES_INDEX in Hlen; lia).
  split_and!; [done| |done|].
  - apply length_overwrite. by rewrite length_entry_to_bytes.
  - pose proof (overwrite_window (Z.to_nat rel) (entry_to_bytes {| offset := rel; position := pos |}) (mmap i)) as Hw.
    rewrite length_entry_to_bytes in Hw. apply Hw. lia.
Qed.

Lemma index_tests_pass :
  open_ok 0 = true → open_ok 100 = true →
  write_index_test = Ret tt ∧ read_index_test = Ret tt ∧ relative_offset_test = Ret tt.
Proof.
  intros H0 H100. destruct (new_index_write 0 0 10) as (i & i' & Hi & Hw & Hb & Hl & Hm & Hwin); [done|lia..|].
  destruct (new_index_write 100 15 20) as (j & j' & Hj & Hw' & _ & _ & _ & Hwin'); [done|lia..|].
  unfold write_index_test, read_index_test, relative_offset_test.
  rewrite Hi, Hj. cbn [mbind outcome_bind]. change (0 + 0) with 0 in Hw. change (100 + 15) with 115 in Hw'.
  rewrite Hw, Hw'. cbn [fst mbind outcome_bind]. change (Z.to_nat 0) with 0%nat in Hwin.
  change (Z.to_nat 15) with 15%nat in Hwin'. split; [done|]. split.
  - unfold read_entry. rewrite (proj2 (Nat.ltb_ge _ _)) by (unfold MAX_BYTES_INDEX in Hm; lia).
    rewrite Hwin, entry_from_to_bytes by done. cbn [mbind outcome_bind offset Entry_new].
    by rewrite Hb.
  - by rewrite Hwin', entry_from_to_bytes by done.
Qed.

Lemma log_write_test_exact :
  open_ok 0 = true → (∀ b, write_failure b = None) →
  log_write_test = Ret tt ↔ (length (log_file 0) ≤ 11)%nat.
Proof.
  intros H0 Hok. set (bufs := [as_bytes "one"; as_bytes "two"; as_bytes "three"]).
  destruct (log_new_writes bufs) as (l0 & s & Hnew & Hs & Hw).
  { split; [done|]. split; [by repeat constructor|]. unfold MAX_BYTES_INDEX, MAX_SEGMENT_BYES. by cbn. }
  unfold log_write_test. fold bufs. rewrite Hnew. cbn [mbind outcome_bind]. rewrite Hw. cbn.
  rewrite (ss_contents _ _ _ _ Hs). change (concat bufs) with (as_bytes "onetwothree").
  change (total bufs) with 11%nat. unfold assert_eq, assert. case_bool_decide as E.
  - split; [|done]. intros _. apply (f_equal length) in E. rewrite length_app, length_drop in E. cbn in E. lia.
  - split; [done|]. intros Hle. exfalso. apply E. by rewrite drop_ge, app_nil_r by lia.
Qed.
End LogTests.

(** ** [handler/*.rs] *)

Section HandlerTests.
Context {SLED : Sled} {CODEC : StoreCodec} {ENV : BrokerEnv} {BUILD : Build}
  {KD : KafkaDecoders} {KP : KafkaProtocol} {FRAMES : LengthCodec}.
Variable tempdir : db.
Variable resolved : option IpAddr.

(** The client of the tests: its requests go to a channel that [answers] serves,
    one answer per request; then the channel is closed. *)
Definition test_client : RaftClient := {|
  rc_state := db * list bytes;
  rc_store := fst;
  propose _ s := match s.2 with
                 | res :: answers => (Ret res, (s.1, answers))
                 | [] => (Err ErrSend, s)
                 end;
|}.
#[local] Existing Instance test_client | 0.

Definition new_broker (answers : list bytes) : outcome (BrokerConfig * BrokerWorld) :=
  config ← broker_config_default resolved "dir" "file";
  Ret (config, {| bw_client := (tempdir, answers) : rc_state; replicas := ∅; bw_asked := 0 |}).

Definition api_versions_test : outcome unit :=
  '(broker, w) ← new_broker [];
  _ ← (handle_request broker ApiVersionsRequest w).1;
  Ret tt.

Definition produce_test : outcome unit :=
  '(_, w) ← new_broker [];
  (handle_produce [] w).1.

(** [topics]: what [MetadataRequest::default()] asks for. *)
Definition metadata_test (topics : option (list (option string))) : outcome unit :=
  '(broker, w) ← new_broker [];
  _ ← (handle_metadata broker topics w).1;
  Ret tt.

Definition list_groups_test : outcome unit :=
  '(broker, w) ← new_broker [];
  _ ← (handle_request broker ListGroupsRequest w).1;
  Ret tt.

(** [default]: [CreatableTopic::default()]; [id] the id of the answered topic. *)
Definition create_topics_test (default : CreatableTopic) (id : Uuid) : outcome unit :=
  let topic := {| topic_id := id; topic_name := "Test"; topic_partitions := ∅; topic_internal := false |} in
  res ← serialize topic;
  '(broker, w) ← new_broker [res];
  res ← (handle_create_topics broker [("Test", default)] w).1;
  name ← unwrap (head (res.*1));
  assert_eq "Test" name.
End HandlerTests.

(** C40: the model passes the unit tests of the broker.  The tests of the entries
    and, on a disk that works, of the index return whatever the files held before;
    that of the log returns exactly if its file, which is never cleared, held at
    most the eleven bytes it writes; and the tests of the handlers return on an
    in-memory database. *)
Theorem broker_tests_pass {DISK : Disk} {BUILD : Build} :
  open_ok 0 = true → open_ok 100 = true → (∀ b, write_failure b = None) →
  Forall (λ o, o = Ret tt)
    [entry_to_bytes_test; byes_to_entry; panics_length;
     write_index_test; read_index_test; relative_offset_test] ∧
  (log_write_test = Ret tt ↔ (length (log_file 0) ≤ 11)%nat) ∧
  Forall (λ o, o = Ret tt)
    (let host := Some localhost4 in
     [api_versions_test demo_db host; produce_test demo_db host; metadata_test demo_db host None;
      metadata_test demo_db host (Some []); list_groups_test demo_db host;
      create_topics_test demo_db host {| num_partitions := 0; replication_factor := 0 |} 7]).
Proof.
  intros Hz H100 Hok. destruct (index_tests_pass Hz H100) as (H1 & H2 & H3). split_and!.
  - rewrite H1, H2, H3. by repeat constructor.
  - by apply log_write_test_exact.
  - vm_compute. by repeat constructor.
Qed.

Lemma broker_tests_pass_witness :
  let D := demo_disk in let B := demo_profile in log_write_test = Ret tt ∧ relative_offset_test = Ret tt.
Proof.
  intros D B. destruct (broker_tests_pass (DISK := D) (BUILD := B)) as (H1 & H2 & _); [reflexivity..|].
  split; [apply H2; cbn; lia|]. by repeat (apply Forall_cons in H1 as [? H1]).
Defined.
