(* ===== verification/IntegrationTests.v ===== *)
(** * The integration tests ([tests/josefine.rs])

    Each test starts nodes with a [NodeManager], connects a [KafkaClient] to the
    first address it lists and makes one call.  The nodes are those of [Start], the
    client and the broker it reaches those of [Session]; what the tasks, the
    connection and other clients do meanwhile is a list of turns. *)
From S2P Require Import Prelude Bytes Log Storage Config Chain Rpc Raft Fsm Demo Store Framing Kafka Broker Gateway.
From S2P Require Import Frontend Session Start.
Local Open Scope Z_scope.

Section Tests.
Context {SLED : Sled} {CODEC : StoreCodec} {ENV : BrokerEnv} {CLIENT : RaftClient} {BUILD : Build}
  {KD : KafkaDecoders} {KP : KafkaProtocol} {FRAMES : LengthCodec}.
(** What localhost resolves to, and [RequestHeader::default]. *)
Context (resolved : option IpAddr) (header_default : RequestHeader).

(** The node that listens on an address. *)
Definition listens (addr : SocketAddr) (e : Z * JosefineConfig) : Prop :=
  {| sock_ip := bc_ip (jc_broker e.2); sock_port := bc_port (jc_broker e.2) |} = addr.
#[global] Instance listens_dec addr e : Decision (listens addr e).
Proof. unfold listens. solve_decision. Defined.
Definition node_at (m : gmap Z JosefineConfig) (addr : SocketAddr) : option JosefineConfig :=
  (λ x, x.2.2) <$> list_find (listens addr) (map_to_list m).

(** The header of a test's request, whose other fields are the defaults. *)
Definition test_header (key : ApiKey) (version : Z) : RequestHeader := {|
  request_api_key := api_key_code key; request_api_version := version;
  correlation_id := correlation_id header_default; client_id := client_id header_default |}.

(** The test's call and then the turns, in which it makes no other. *)
Definition is_call (e : SessionEvent) : Prop := match e with SCall _ _ _ => True | _ => False end.
#[global] Instance is_call_dec e : Decision (is_call e).
Proof. destruct e; apply _. Defined.
Definition test_events (h : RequestHeader) (req : RequestKind) (turns : list SessionEvent) : list SessionEvent :=
  SCall h req 0 :: filter (λ e, ¬ is_call e) turns.

(** [addrs[0]] is the address of the node that the iteration of a hash map starts
    with, which may be any of them: number [first] of the list. *)
Variable first : nat.

(** What [client.send] has returned after the turns; [None] while it waits.  The
    broker that is reached is in [w] and [before] happened to it. *)
Definition test_call (offsets : list Z) (h : RequestHeader) (req : RequestKind) (w : BrokerWorld)
    (before : list FrontEvent) (turns : list SessionEvent) : outcome (option ResponseKind) :=
  m ← new_nodes resolved offsets;
  addr ← unwrap (get_addrs m !! first);
  c ← ok_or (node_at (wire_nodes m) addr) (ErrMsg "connection refused");
  s ← session_run (jc_broker c) w before (test_events h req turns);
  Ret (snd <$> head (cl_answers (ss_client s))).

(** [single_node] and [multi_node], which differ in their nodes: any response will
    do.  A call that still waits has not passed. *)
Definition versions_test (offsets : list Z) (w : BrokerWorld) (before : list FrontEvent)
    (turns : list SessionEvent) : outcome unit :=
  res ← test_call offsets (test_header ApiVersionsKey 6) ApiVersionsRequest w before turns;
  match res with Some _ => Ret tt | None => Err (ErrMsg "waiting") end.
Definition single_node := versions_test [0].
Definition multi_node := versions_test [1; 2; 3].

Definition test_topic : CreatableTopic := {| num_partitions := 2; replication_factor := 2 |}.

(** [create_topic]: a call that has not returned in time panics, as does a response
    of another type. *)
Definition create_topic (w : BrokerWorld) (before : list FrontEvent) (turns : list SessionEvent) : outcome unit :=
  res ← test_call [4] (test_header CreateTopicsKey 7) (CreateTopicsRequest [("test", test_topic)]) w before turns;
  match res with
  | None => Panic
  | Some (CreateTopicsResponse _) => Ret tt
  | Some _ => Panic
  end.
End Tests.

(** ** The end of [NodeManager::run] *)

(** The task of a node, from how its process ended within the 60 seconds, if it did:
    the [?] is for the timer, and the result of the process is dropped. *)
Definition node_task (ended : option (outcome unit)) : outcome unit :=
  match ended with
  | None => Err (ErrMsg "deadline has elapsed")
  | Some Panic => Panic
  | Some _ => Ret tt
  end.

(** [join_all], then [x??] for each task in turn: one that panicked is an error. *)
Definition manager_run (nodes : list (option (outcome unit))) : outcome unit :=
  ofold (λ _ n, match node_task n with Panic => Err (ErrMsg "task panicked") | o => o end) tt nodes.

(** The manager fails exactly if a node runs for the 60 seconds or panics; a node
    that ended with an error, say because its port was taken, goes unnoticed. *)
Lemma manager_run_exact ns :
  manager_run ns = Ret tt ↔ Forall (λ n, ∃ o, n = Some o ∧ o ≠ Panic) ns.
Proof.
  unfold manager_run. induction ns as [|n ns IH]; cbn [ofold]; [by split|]. rewrite Forall_cons, <-IH.
  destruct n as [[[]|e|]|]; cbn; split; try done; try naive_solver.
Qed.

Section Facts.
Context {SLED : Sled} {CODEC : StoreCodec} {ENV : BrokerEnv} {CLIENT : RaftClient} {BUILD : Build}
  {KD : KafkaDecoders} {KP : KafkaProtocol} {FRAMES : LengthCodec}
  {KLAWS : KafkaLaws} {FLAWS : LengthCodecLaws}.
Context (resolved : option IpAddr) (header_default : RequestHeader) (first : nat).
(** The integers of a default header are 0. *)
Context (Hdefault : correlation_id header_default = 0).

Lemma test_calls h req turns : session_calls (test_events h req turns) = [(h, req, 0%nat)].
Proof.
  unfold session_calls, test_events. cbn. f_equal. induction turns as [|e turns IH]; [done|].
  rewrite filter_cons. case_decide as He; [|done]. cbn. rewrite IH. by destruct e; [destruct He|..].
Qed.

Lemma test_numbered key v req turns :
  let h := test_header header_default key v in numbered (session_calls (test_events h req turns)).
Proof. intros h. rewrite test_calls. intros [|k] h' req' caller; [|done]. intros [= <- _ _]. exact Hdefault. Qed.

(** The first address of the nodes is that of one of them. *)
Lemma node_listening m addr :
  get_addrs m !! first = Some addr →
  ∃ k c, node_at (wire_nodes m) addr = Some c ∧ wire_nodes m !! k = Some c.
Proof.
  unfold get_addrs. rewrite list_lookup_fmap, fmap_Some. intros ([k c] & Hk & ->).
  apply list_elem_of_lookup_2, elem_of_map_to_list in Hk.
  set (addr := {| sock_ip := _; sock_port := _ |}). set (c' := wire_nodes m !! k).
  assert (∃ c', wire_nodes m !! k = Some c' ∧ bc_ip (jc_broker c') = bc_ip (jc_broker c) ∧
    bc_port (jc_broker c') = bc_port (jc_broker c)) as (d & Hd & Hip & Hport).
  { unfold wire_nodes. rewrite lookup_fmap, Hk. by eexists. }
  destruct (list_find_elem_of (listens addr) (map_to_list (wire_nodes m)) (k, d)) as [[j [k' c2]] Hf].
  - by apply elem_of_map_to_list.
  - unfold listens. cbn. by rewrite Hip, Hport.
  - exists k', c2. unfold node_at. rewrite Hf. split; [done|].
    apply list_find_Some in Hf as (Hl & _). by apply elem_of_map_to_list, (list_elem_of_lookup_2 _ j).
Qed.

(** A call that returned was made to one of the nodes, and answered. *)
Lemma test_answered offsets h req w before turns r :
  test_call resolved first offsets h req w before turns = Ret (Some r) →
  ∃ m k c s caller, new_nodes resolved offsets = Ret m ∧ wire_nodes m !! k = Some c ∧
    session_run (jc_broker c) w before (test_events h req turns) = Ret s ∧ (caller, r) ∈ cl_answers (ss_client s).
Proof.
  unfold test_call. intros (m & Hm & H)%bind_Ret. apply bind_Ret in H as (addr & Ha & H).
  apply bind_Ret in H as (c & Hc & H). apply bind_Ret in H as (s & Hs & [= H]).
  destruct (get_addrs m !! first) as [addr'|] eqn:Haddr; [|done]. injection Ha as ->.
  destruct (node_listening m addr Haddr) as (k & c' & Hat & Hk). rewrite Hat in Hc. injection Hc as <-.
  apply fmap_Some in H as ([caller r'] & Hh & ->). exists m, k, c', s, caller. split_and!; try done.
  destruct (cl_answers _); [done|]. injection Hh as ->. apply list_elem_of_here.
Qed.

(** The one node of [create_topic] has no peers. *)
Lemma alone o m k c : new_nodes resolved [o] = Ret m → wire_nodes m !! k = Some c → length (get_broker_ids (jc_broker c)) = 1%nat.
Proof.
  unfold new_nodes. cbn [ofold]. intros (m1 & H1 & [= <-])%bind_Ret. unfold new_node in H1.
  repeat (apply bind_Ret in H1 as (? & _ & H1)). injection H1 as <-.
  unfold wire_nodes. rewrite insert_empty, map_to_list_singleton, lookup_fmap, fmap_Some.
  intros (c0 & [_ <-]%lookup_singleton_Some & ->). cbn. unfold get_broker_ids. cbn.
  by rewrite decide_False by naive_solver.
Qed.

(** A topic with more replicas than there are brokers is not created: the handler
    does not return. *)
Lemma overreplicated config name t w :
  Z.of_nat (length (get_broker_ids config)) < replication_factor t → Z.of_nat (length (get_broker_ids config)) < 2 ^ 15 →
  is_ret (handle_request config (CreateTopicsRequest [(name, t)]) w).1 = false.
Proof.
  intros Hf Hlen.
  assert (∀ w, make_partitions config name t w = (Panic, w)) as Hp.
  { intros w'. unfold make_partitions, as_i16. rewrite Z.mod_small, Z.add_simpl_r by lia.
    by rewrite (proj2 (Z.ltb_lt _ _)) by lia. }
  destruct (handle_request _ _ _) as [o w'] eqn:H. destruct o as [r| |]; [exfalso|done..].
  apply SM_bind_Ret in H as (res & w1 & H & _). unfold handle_create_topics in H. cbn [sfold] in H.
  apply SM_bind_Ret in H as (l & w2 & H & _). apply SM_bind_Ret in H as (b & w3 & _ & H).
  apply SM_bind_Ret in H as (ct & w4 & H & _). unfold broker_create_topic in H.
  apply SM_bind_Ret in H as (ps & w5 & H & _). by rewrite Hp in H.
Qed.

(** C38: the test [create_topic] cannot pass.  It starts one node and asks it for a topic
    with two replicas: whatever the node's state and however the tasks are
    scheduled, the handler of the request panics and the call gets no response. *)
Theorem create_topic_never_passes w before turns :
  readable (test_header header_default CreateTopicsKey 7) (CreateTopicsRequest [("test", test_topic)]) →
  is_ret (create_topic resolved header_default first w before turns) = false.
Proof.
  intros Hread. destruct (create_topic _ _ _ _ _ _) as [u| |] eqn:H; [exfalso|done..].
  unfold create_topic in H. apply bind_Ret in H as ([r|] & H & Hr); [|done]. clear Hr.
  destruct (test_answered _ _ _ _ _ _ _ H) as (m & k & c & s & caller & Hm & Hk & Hs & Ha).
  assert (cl_answers (ss_client s) = []) as E; [|rewrite E in Ha; by apply not_elem_of_nil in Ha].
  eapply never_answered; [exact Hs|..].
  - rewrite test_calls. by repeat constructor.
  - apply test_numbered.
  - rewrite test_calls. cbn. lia.
  - intros h req caller' w'. rewrite test_calls. intros [= _ -> _]%list_elem_of_singleton.
    apply overreplicated; rewrite (alone 4 m k c Hm Hk); cbn; lia.
Qed.

(** The response that the broker writes to the request of the other tests. *)
Definition versions_payload (p : bytes) : Prop :=
  encode {| rh_correlation_id := 0 |} (ApiVersionsResponse handle_api_versions) 6 = Ret p.

(** What is read back for the test's call is that response. *)
Lemma versions_answered config w before turns s caller res p :
  let h := test_header header_default ApiVersionsKey 6 in
  readable h ApiVersionsRequest → versions_payload p →
  session_run config w before (test_events h ApiVersionsRequest turns) = Ret s → (caller, res) ∈ cl_answers (ss_client s) →
  ∃ body, response_header_decode p 1 = Ret ({| rh_correlation_id := 0 |}, body) ∧
    decode_response body ApiVersionsKey 6 = Ret res.
Proof.
  intros h Hread Hp Hs Ha.
  destruct (session_responses _ _ _ _ _ Hs) as (l & Hl & Hcs & Hrec);
    [rewrite test_calls; by repeat constructor|rewrite test_calls; cbn; lia|].
  assert (numbered (calls l)) as Hnum by (rewrite Hcs; apply test_numbered).
  assert (Z.of_nat (length (calls l)) < 2 ^ 31) as Hlen by (rewrite Hcs, test_calls; cbn; lia).
  destruct (ki_answers l _ (kafka_run_inv l _ Hl Hnum Hlen) caller res Ha)
    as (k & h' & req & Hk & q & wt & body & key & Hin & Hhd & Htry & Hres).
  destruct (Hrec q) as (k' & call & r & Hk' & Hr & Henc).
  { apply list_elem_of_omap. by exists (KReceive q wt). }
  rewrite Hcs, test_calls in Hk, Hk'. apply list_lookup_singleton_Some in Hk as [-> [= <- <- <-]].
  apply list_lookup_singleton_Some in Hk' as [-> <-].
  destruct (handled_call _ _ _ _ _ _ _ _ Hr) as (w2 & w3 & [-> _]%mret_Ret).
  unfold versions_payload in Hp. change (encode {| rh_correlation_id := 0 |} (ApiVersionsResponse handle_api_versions) 6 = Ret q) in Henc.
  rewrite Hp in Henc. injection Henc as <-. destruct Hread as (key' & [= <-] & Htry' & _). rewrite Htry' in Htry. injection Htry as <-.
  by exists body.
Qed.

(** C39: the tests [single_node] and [multi_node] ask a node for its versions.  When the
    server can read the request, and whatever node is asked, the call can complete
    exactly if the client's codec accepts the payload the server answers with: it
    reads the header at version 1 and the body at the header version of a
    CreateTopics response, whatever versions they were written with. *)
Theorem versions_test_passes offsets m w before p fr :
  let h := test_header header_default ApiVersionsKey 6 in
  new_nodes resolved offsets = Ret m → (first < size m)%nat →
  (∀ k c, wire_nodes m !! k = Some c →
     f_end (front_run (jc_broker c) w before) = None ∧ f_chan (front_run (jc_broker c) w before) = []) →
  readable h ApiVersionsRequest → is_ret (client_encode client_codec_new h ApiVersionsRequest).1 = true →
  versions_payload p → frame_encode p = Ret fr →
  (∃ turns, versions_test resolved header_default first offsets w before turns = Ret tt) ↔
  ∃ body res, response_header_decode p 1 = Ret ({| rh_correlation_id := 0 |}, body) ∧
    decode_response body ApiVersionsKey 6 = Ret res.
Proof.
  intros h Hm Hfirst Hready Hread Hwrite Hp Hfr. split.
  - intros (turns & H). unfold versions_test in H. apply bind_Ret in H as ([r|] & H & Hr); [|done]. clear Hr.
    destruct (test_answered _ _ _ _ _ _ _ H) as (m' & k & c & s & caller & _ & _ & Hs & Ha).
    destruct (versions_answered _ _ _ _ _ _ _ p Hread Hp Hs Ha) as (body & ? & ?). by exists body, r.
  - intros (body & res & Hhd & Hres).
    assert (is_Some (get_addrs m !! first)) as [addr Haddr].
    { apply lookup_lt_is_Some. unfold get_addrs. by rewrite length_fmap, length_map_to_list. }
    destruct (node_listening m addr Haddr) as (k & c & Hat & Hk). destruct (Hready k c Hk) as [Hend Hchan].
    apply (is_ret_or []) in Hwrite.
    destruct (call_runs (jc_broker c) w before h ApiVersionsRequest 0 _ ApiVersionsKey _ _ p fr
      Hend Hchan Hread eq_refl Hdefault Hwrite eq_refl Hp Hfr) as (n & n' & s1 & _ & _ & _ & _ & _ & Hans).
    destruct (proj2 (Hans res)) as (s & Hs & _ & Ha); [by exists body|].
    exists (tail (round_trip (length (f_conns (front_run (jc_broker c) w before))) h ApiVersionsRequest 0 n n')).
    unfold versions_test, test_call. rewrite Hm. cbn [mbind outcome_bind]. rewrite Haddr. cbn [unwrap mbind outcome_bind].
    rewrite Hat. cbn [ok_or mbind outcome_bind].
    change (test_events _ _ _) with (round_trip (length (f_conns (front_run (jc_broker c) w before))) h ApiVersionsRequest 0 n n').
    rewrite Hs. cbn [mbind outcome_bind]. by rewrite Ha.
Qed.
End Facts.

(** ** Witnesses *)
Definition demo_default : RequestHeader :=
  {| request_api_key := 0; request_api_version := 0; correlation_id := 0; client_id := None |}.
Definition demo_host : option IpAddr := Some (V4 2130706433).
Definition demo_nodes : gmap Z JosefineConfig := ret_or ∅ (new_nodes demo_host [1; 2; 3]).

Lemma create_topic_never_passes_witness :
  is_ret (create_topic demo_host demo_default 0 demo_new [] [SWrite; SRegister; SUp 100; SServer (Step 0 true); SServer Serve]) = false.
Proof.
  apply (create_topic_never_passes demo_host demo_default 0 eq_refl).
  exists CreateTopicsKey. split; [reflexivity|]. split; [reflexivity|]. split; [split; cbn; lia|reflexivity].
Defined.

Lemma versions_test_passes_witness :
  ∃ turns, multi_node demo_host demo_default 2 demo_new [] turns = Ret tt.
Proof.
  assert (new_nodes demo_host [1; 2; 3] = Ret demo_nodes) as Hm by (apply is_ret_or; vm_compute; reflexivity).
  apply (versions_test_passes demo_host demo_default 2 eq_refl [1; 2; 3] demo_nodes demo_new []
    (be_bytes 4 0 ++ [x01]) (ret_or [] (frame_encode (be_bytes 4 0 ++ [x01])))).
  - exact Hm.
  - assert (size demo_nodes = 3%nat) as -> by (vm_compute; reflexivity). lia.
  - intros k c _. split; reflexivity.
  - exists ApiVersionsKey. split; [reflexivity|]. split; [reflexivity|]. split; [split; cbn; lia|reflexivity].
  - vm_compute. reflexivity.
  - vm_compute. reflexivity.
  - reflexivity.
  - exists [x01], (ApiVersionsResponse demo_keys). split; vm_compute; reflexivity.
Defined.
